(* ===== verification/_CoqProject ===== *)
-Q . S2P
Prelude.v
GoStr.v
Sha256.v
Merkle.v
Signer.v
Json.v
Number.v
TimeFmt.v
KeyCodec.v
Domain.v
Canonical.v
CanonicalProps.v
DigestProps.v
Limits.v
Keys.v
Ledger.v
LedgerFacts.v
LedgerViews.v
LedgerProps.v
Store.v
SplitStore.v
SplitProps.v
Aggregate.v
AggregateProps.v
Evidence.v
Integrity.v
ChainProps.v
EvidenceProps.v
EvidenceInv.v
EvidenceSteps.v
Ingest.v
IngestProps.v
TenantIngest.v
TenantProps.v
TenantRecovery.v
TenantSeal.v
TenantWorkers.v
Gate.v
Publication.v
PublicationProps.v
PublicationDrain.v
Governance.v
GovernanceProps.v
Holds.v
HoldsProps.v
ExportJobs.v
ExportRun.v
ExportSystem.v
ExportProps.v
ExportComplete.v
ExportDemo.v
ExportDispatch.v
ExportAccess.v
ReplayState.v
ReplayProps.v
ReplaySystem.v
Outbox.v
OutboxProps.v
Auth.v
AuthProps.v
Jwks.v
JwksProps.v
Jwt.v
