(* ===== verification/Prelude.v ===== *)
(** * Verification of the audit-governance ledger

    The program is a multi-tenant audit ledger in Go.  Sources write events; an
    event is validated, its sensitive fields are encrypted, it is hashed into
    the chain of its stream and committed with a receipt; background workers
    seal chains into signed Merkle segments, archive them to WORM storage and
    publish each committed event to a broker; operators search, set legal
    holds, evaluate retention, approve restores and export events.  This
    library models the parts that decide what is committed, kept, published
    and released, and proves what they guarantee when saves fail, processes
    crash and replicas interleave.

    ** Conventions.  Definitions keep the Go names.  A fallible function
    returns [result] (Prelude) with the error tree of the code ([Sentinel],
    [Wrapf], [Join]); [errors_Is] walks it.  Maps are [gmap]; Go's random
    iteration order is an arbitrary permutation of [map_to_list] where it can
    matter.  Times are nanoseconds in [Z]; 64-bit products and counters wrap
    where the code can reach the bound.  A store save has three outcomes:
    done, failed, and done although an error was reported; a crash is an
    executor that is not scheduled again.  Goroutines and replicas are step
    relations over explicit program points, one per lock region or per call
    on the store, the archive or the broker.  Collaborators that are not in
    the repository are interfaces: [Signer] and [SignerOk] (a keyed
    signature), [FieldCrypto] and [FieldCryptoOk] (AES-GCM field encryption),
    [ArchiveReader] (the WORM store), [ExportConfig] and [ExportConfigOk]
    (json.Marshal of control records, HMAC secret, AES-GCM of exports),
    [MarkCodec] and [OutboxCodec] (encoding/json of replay lines and events),
    [JoseLibrary] (JOSE, URL and IP parsers).  [TokenVerifier] is what requests
    need of token verification; Jwt.v implements it.
    SHA-256 and HMAC are computed; what needs collision resistance states the
    colliding pair as an alternative instead of assuming it away.

    ** Foundations.  [Prelude]: errors, list and sort lemmas, automation.
    [GoStr]: bytewise string order, UTF-8, Itoa.  [Sha256], [Merkle]
    (query_match.go merkleRoot), [Signer], [Json] and [Number] (encoding/json
    strings, writeNumber), [TimeFmt] (RFC 3339), [KeyCodec]
    (fsutil.EncodeKeyComponent), [Keys] (store composite keys), [Domain]
    (internal/domain records and validation), [Limits] (limits.go caps).

    ** Canonical form and digests (domain/canonical.go).  [Canonical] is the
    encoder; [CanonicalProps] shows that equal bytes mean equal JSON values
    and back, [DigestProps] that an event's content digest binds its fields.

    ** Tenant ledger (store/ledger.go, ledger_page.go).  [Ledger] has records,
    indexes, batches and the update view; [LedgerFacts], [LedgerViews] and
    [LedgerProps] show that it refines an append-only history and that a
    closure batch commits whole or not at all.

    ** Stores (store/store.go, operation.go, control_clone.go, hotcold_*.go,
    tenant_commit.go, postgres_hotcold.go).  [Store] has the control document,
    the optimistic update loop and the control-delta merge; [SplitStore] the
    hot document, journal and ledger file with every failing write;
    [SplitProps] shows that a hot-first commit is atomic under crashes, a
    tenant commit durable, and a cold-first commit never loses a record.

    ** Evidence (service/service.go, aggregate_*.go, integrity.go).
    [Evidence] has hashing, sealing, archiving and ingest on the snapshot
    store, [Integrity] the verifier, [Aggregate] aggregate checkpoints;
    [ChainProps], [EvidenceProps], [EvidenceInv], [EvidenceSteps] and
    [AggregateProps] show that every reachable store verifies, that a head
    hash binds its stream, and that a retried write returns the committed
    receipt.

    ** Tenant ingest, workers and recovery (service/tenant_ingest.go,
    ingest_stream_anchor.go, ledgered_intent.go, hot_commit_*.go,
    hotcold_workers.go).  [Ingest] is ingest up to the commit, [TenantIngest]
    the tenant closures over the split store; [IngestProps], [TenantProps],
    [TenantRecovery], [TenantSeal] and [TenantWorkers] show that what is
    committed is admissible, that interrupted ingests recover, and that the
    workers keep the documents.

    ** Publication (store/publication.go, service/ledgered*.go).  [Gate] is
    the per-event mutex table with any number of publishers; [Publication] the
    outbox intents, the broker call, confirmations and reconciliation;
    [PublicationProps] and [PublicationDrain] show that a committed event's
    publication is never lost and that a healthy round drains.

    ** Governance and holds (service/service.go, sources.go, hold.go,
    restore.go, admin_trail.go, query_match.go, export.go,
    export_checkpoint_hold.go).  [Governance] has every mutation with its admin
    fact, [Holds] the query filters, both hold gates and retention;
    [GovernanceProps] and [HoldsProps] show that decisions are final, that the
    pre-filtered gate answers as the full one, and what a report counts.

    ** Exports (service/export*.go, query_projection.go,
    security/fieldcrypto.go, httpapi downloadExport).  [ExportJobs] has every
    control transition of a job, [ExportRun] the executor as a step machine,
    [ExportSystem] the system of executors, heartbeats, requests and
    recoveries, refined to effects on four maps.  [ExportProps] shows the
    lifecycle, the slot bounds, exact metadata and fencing of superseded
    executors; [ExportComplete] what a completed export is; [ExportDispatch]
    the dispatcher with its wake generation, fairness and choice;
    [ExportAccess] requests and downloads and the binding of the seal;
    [ExportDemo] a concrete run.

    ** Replay marks (kafka/replay_state.go, replay_state_tenant.go,
    replay_state_file.go).  [ReplayState] is the log of replayed dead-letter
    events as bytes: its lines, parsers, classification, repair and
    conversions; [ReplayProps] reads and rewrites a log as a set of marks;
    [ReplaySystem] has the processes that share the file, torn writes, failed
    syncs and power losses, and shows that acknowledged marks survive.

    ** Outbox (outbox/sdk.go, relay.go, postgres.go, identity.go, http.go).
    [Outbox] is the audit_outbox table, the SDK's insert and the relay's round;
    [OutboxProps] shows over any number of relays that every row's outcome is
    justified, that rounds drain the table, the contract of the insert and the
    retry schedule.

    ** Access (auth/auth.go, verifier.go, httpapi/authz.go, scope.go).  [Auth]
    goes from the Authorization header to the tenant scope and has the error
    contract; [AuthProps] shows that leaving the token's tenant needs a grant
    of the token, and that the code, status, text and counter of every refused
    request agree.  [Jwks] is the cache of the issuer's keys; [JwksProps]
    interleaves requests and fetches at its lock regions, bounds fetches and
    memory and shows that served keys are recent; [Jwt] has the choice of a
    token's verification key and shows that only a trusted key authenticates.

    ** Findings.  Theorems about behaviour the code does not intend:
    [retention_cutoff_overflows], [interrupted_seal_blocks_stream],
    [tenant_file_names_collide], [late_transition_hides_event],
    [repeated_encrypted_field_fails], [unjournaled_append_failure_diverges],
    [mergeControlDelta_restores_stale_keys], [unsynced_rename_loses_mark],
    [torn_tenant_header_is_legacy], [retryable_5xx_has_own_code],
    [refresh_interval_fetched_twice].

    ** Fuel.  Loops are structural except: UTF-8 decoding and sorting, whose
    fuel is the length of the input (proved enough); the update loop of the
    store and the recovery sweep, whose bound is the constant of the code;
    [XTerminal] counts the attempts of exportTerminalRetryLimit.

    ** Not modelled.  File locking, fsync and rename, SQL text and the
    PostgreSQL driver, HTTP and gRPC transport, OpenTelemetry, JOSE
    signatures, the Kafka client and the replay scan, the
    projector, the command-line programs and configuration parsing: these are
    I/O, or call libraries outside the repository.  Of the modelled services the list and
    get reads that only sort and copy, the snapshot cursors of queries, and
    the v1 to v2 store migration are left out. *)

From Stdlib Require Export ZArith Lia Bool.
From Stdlib Require Import Ascii String Sorted.
From stdpp Require Export base tactics numbers option list gmap strings.

(** The development's own notations live in this scope. *)
Declare Scope audit_scope.
Delimit Scope audit_scope with audit.
Open Scope audit_scope.

Create HintDb audit discriminated.

(** ** Errors

    The sentinel errors of [internal/domain] and [internal/store].  A Go error
    is a sentinel, a fresh error with no sentinel, a [%w] wrap, or a join. *)
Inductive sentinel : Type :=
  | ErrNotFound | ErrConflict | ErrUnauthorized | ErrForbidden | ErrInvalid
  | ErrQuotaExceeded | ErrSchemaNotFound | ErrTenantMismatch
  | ErrOccurredAtOutOfRange | ErrEnvelopeTooLarge
  | ErrLedgerRecordConflict | ErrSnapshotConflict | ErrTenantCommitPending
  | ErrOperationDeadline | ErrContextCanceled | ErrContextDeadline
  | ErrPublicationUncertain | ErrControlUnchanged
  | ErrPublicationConflict | ErrPublicationCorrupt.

#[export] Instance sentinel_eq_dec : EqDecision sentinel.
Proof. solve_decision. Defined.

(** The sentinels that are themselves declared with [fmt.Errorf("%w: ...")]. *)
Definition sentinel_parent (s : sentinel) : option sentinel :=
  match s with
  | ErrOccurredAtOutOfRange => Some ErrInvalid
  | ErrEnvelopeTooLarge => Some ErrInvalid
  | ErrTenantCommitPending => Some ErrSnapshotConflict
  | _ => None
  end.

Inductive error : Type :=
  | NewErr (msg : string)
  | Sentinel (s : sentinel)
  | Wrapf (inner : error) (msg : string)
  | Join (left right : error).

#[export] Instance error_eq_dec : EqDecision error.
Proof. solve_decision. Defined.

(** [errors.Is]: walk the unwrap tree. *)
Fixpoint errors_Is (e : error) (target : sentinel) : bool :=
  match e with
  | NewErr _ => false
  | Sentinel s => bool_decide (s = target) || bool_decide (sentinel_parent s = Some target)
  | Wrapf inner _ => errors_Is inner target
  | Join l r => errors_Is l target || errors_Is r target
  end.

(** ** Results: a Go [(T, error)] return with the error last. *)
Inductive result (A : Type) : Type :=
  | Ok (a : A)
  | Err (e : error).
Arguments Ok {A} _.
Arguments Err {A} _.

Definition result_bind {A B} (m : result A) (k : A -> result B) : result B :=
  match m with Ok a => k a | Err e => Err e end.

(** [let? x := m in k] is the [if err != nil { return err }] idiom. *)
Notation "'let?' x ':=' m 'in' k" := (result_bind m (fun x => k))
  (at level 10, x name, m at level 100, k at level 200) : audit_scope.
Notation "m ';?' k" := (result_bind m (fun _ : unit => k))
  (at level 100, k at level 200, right associativity) : audit_scope.

Definition is_ok {A} (m : result A) : bool :=
  match m with Ok _ => true | Err _ => false end.

(** [if cond { return err }] with nothing to return otherwise. *)
Definition guard_err (ok : bool) (e : error) : result unit :=
  if ok then Ok tt else Err e.

Lemma result_bind_Ok {A B} (m : result A) (k : A -> result B) b :
  result_bind m k = Ok b <-> exists a, m = Ok a /\ k a = Ok b.
Proof. destruct m; simpl; [|split; [done|by intros (? & ? & ?)]]. split; [eauto|by intros (? & [= ->] & ?)]. Qed.

Lemma guard_err_Ok b e u : guard_err b e = Ok u <-> b = true.
Proof. unfold guard_err; destruct u, b; naive_solver. Qed.

Lemma guard_err_bind_Ok {A} b e (k : unit -> result A) a :
  result_bind (guard_err b e) k = Ok a <-> b = true /\ k tt = Ok a.
Proof. unfold guard_err; destruct b; simpl; intuition congruence. Qed.

(** [inv_ok H]: take apart a hypothesis that a sequence of guards succeeded. *)
Ltac inv_ok H :=
  repeat (first
    [ apply guard_err_bind_Ok in H; let Hg := fresh "Hg" in destruct H as [Hg H]
    | apply result_bind_Ok in H; let a := fresh "v" in let Hb := fresh "Hb" in
      destruct H as (a & Hb & H)
    | apply guard_err_Ok in H ]).

(** Case analysis on the innermost test of a goal or a hypothesis. *)
Ltac dtest :=
  match goal with
  | |- context [ if ?b then _ else _ ] =>
      lazymatch b with context [ if _ then _ else _ ] => fail | _ => destruct b eqn:? end
  | |- context [ match ?x with _ => _ end ] =>
      lazymatch x with context [ match _ with _ => _ end ] => fail | _ => destruct x eqn:? end
  end.
Ltac dtest_in H :=
  match type of H with
  | context [ if ?b then _ else _ ] =>
      lazymatch b with context [ if _ then _ else _ ] => fail | _ => destruct b eqn:? end
  | context [ match ?x with _ => _ end ] =>
      lazymatch x with context [ match _ with _ => _ end ] => fail | _ => destruct x eqn:? end
  end.

(** Turn boolean tests into propositions. *)
Ltac bool_prop :=
  repeat match goal with
  | H : _ && _ = true |- _ => apply andb_true_iff in H; destruct H
  | H : _ || _ = false |- _ => apply orb_false_iff in H; destruct H
  | H : negb _ = true |- _ => apply negb_true_iff in H
  | H : negb _ = false |- _ => apply negb_false_iff in H
  | H : bool_decide _ = true |- _ => apply bool_decide_eq_true in H
  | H : bool_decide _ = false |- _ => apply bool_decide_eq_false in H
  | H : (_ <? _)%Z = true |- _ => apply Z.ltb_lt in H
  | H : (_ <? _)%Z = false |- _ => apply Z.ltb_ge in H
  | H : (_ <=? _)%Z = true |- _ => apply Z.leb_le in H
  | H : (_ <=? _)%Z = false |- _ => apply Z.leb_gt in H
  | H : (_ =? _)%Z = true |- _ => apply Z.eqb_eq in H
  | H : (_ =? _)%Z = false |- _ => apply Z.eqb_neq in H
  end.

(** ** Time

    [time.Time] is the number of nanoseconds since Go's zero time
    (0001-01-01T00:00:00Z); [UTC()] does not change the instant.  A
    [time.Duration] is a number of nanoseconds. *)
Abbreviation time := Z (only parsing).
Definition time_IsZero (t : time) : bool := (t =? 0)%Z.
Definition time_Before (t u : time) : bool := (t <? u)%Z.
Definition time_After (t u : time) : bool := (u <? t)%Z.
Definition Second : Z := 1000000000.
Definition Minute : Z := 60 * Second.
Definition Hour : Z := 60 * Minute.

(** ** Lists *)

Lemma NoDup_snoc {A} (l : list A) x : NoDup l -> x ∉ l -> NoDup (l ++ [x]).
Proof.
  intros Hl Hx. apply NoDup_app; repeat split; auto using NoDup_singleton.
  intros y Hy ->%list_elem_of_singleton. done.
Qed.

(** The first element that satisfies a boolean test, as a Go scan returns it. *)
Fixpoint find_first {A} (p : A -> bool) (l : list A) : option A :=
  match l with
  | [] => None
  | x :: l => if p x then Some x else find_first p l
  end.

Lemma find_first_Some {A} (p : A -> bool) l x :
  find_first p l = Some x -> x ∈ l /\ p x = true.
Proof.
  induction l as [|y l IH]; simpl; [done|]. destruct (p y) eqn:E.
  - intros [= ->]. split; [left|done].
  - intros [? ?]%IH. split; [right|]; done.
Qed.

Lemma find_first_None {A} (p : A -> bool) l :
  find_first p l = None <-> forall x, x ∈ l -> p x = false.
Proof.
  induction l as [|y l IH]; simpl.
  - split; [intros _ x Hx; inversion Hx|done].
  - destruct (p y) eqn:E; split.
    + done.
    + intros H. specialize (H y (list_elem_of_here _ _)). congruence.
    + intros H x [->|Hx]%elem_of_cons; [done|]. by apply IH.
    + intros H. apply IH. intros x Hx. apply H. by right.
Qed.

Lemma find_first_app {A} (p : A -> bool) l k :
  find_first p (l ++ k) = match find_first p l with Some x => Some x | None => find_first p k end.
Proof. induction l as [|y l IH]; simpl; [done|]. by destruct (p y). Qed.

Lemma list_filter_none {A} (P : A -> Prop) `{forall x, Decision (P x)} (l : list A) :
  (forall x, x ∈ l -> ~ P x) -> filter P l = [].
Proof.
  induction l as [|x l IH]; intros Hn; [done|]. rewrite filter_cons_False by (apply Hn; left).
  apply IH. intros y Hy. apply Hn. by right.
Qed.

Lemma list_filter_all {A} (P : A -> Prop) `{forall x, Decision (P x)} (l : list A) :
  (forall x, x ∈ l -> P x) -> filter P l = l.
Proof.
  induction l as [|x l IH]; intros Hn; [done|]. rewrite filter_cons_True by (apply Hn; left).
  f_equal. apply IH. intros y Hy. apply Hn. by right.
Qed.

(** ** Sorting

    A stable insertion sort stands for sort.SliceStable, and for sort.Slice
    where the comparison is total on the elements sorted. *)
Section stable_sort.
Context {A : Type} (le : A -> A -> bool).

Fixpoint sort_insert (x : A) (l : list A) : list A :=
  match l with
  | [] => [x]
  | y :: l' => if le x y then x :: l else y :: sort_insert x l'
  end.
Definition stable_sort (l : list A) : list A := foldr sort_insert [] l.

Lemma sort_insert_perm x l : sort_insert x l ≡ₚ x :: l.
Proof.
  induction l as [|y l IH]; simpl; [done|]. destruct (le x y); [done|].
  rewrite IH. apply perm_swap.
Qed.

Lemma stable_sort_perm l : stable_sort l ≡ₚ l.
Proof. induction l as [|x l IH]; simpl; [done|]. by rewrite sort_insert_perm, IH. Qed.

Context (le_total : forall x y, le x y = true \/ le y x = true).
Context (le_trans : forall x y z, le x y = true -> le y z = true -> le x z = true).

Lemma sort_insert_sorted x l :
  StronglySorted (fun a b => le a b = true) l ->
  StronglySorted (fun a b => le a b = true) (sort_insert x l).
Proof using le_total le_trans.
  induction 1 as [|y l Hl IH Hy]; simpl; [by repeat constructor|].
  destruct (le x y) eqn:E.
  - constructor; [by constructor|]. constructor; [done|]. eapply Forall_impl; [exact Hy|]. eauto.
  - constructor; [done|]. rewrite sort_insert_perm. constructor; [|done].
    destruct (le_total x y); congruence.
Qed.

Lemma stable_sort_sorted l : StronglySorted (fun a b => le a b = true) (stable_sort l).
Proof using le_total le_trans. induction l; simpl; [constructor|]. by apply sort_insert_sorted. Qed.
End stable_sort.

(** Comparison by a first key, then by what follows: the
    [if a.K != b.K { return a.K < b.K }] chains of the source's sorts. *)
Definition lexb {A B} `{EqDecision B} (key : A -> B) (le : B -> B -> bool) (next : A -> A -> bool) (a b : A) : bool :=
  if negb (bool_decide (key a = key b)) then le (key a) (key b) else next a b.

Section lex.
Context {A B : Type} `{EqDecision B} (key : A -> B) (le : B -> B -> bool) (next : A -> A -> bool).
Context (le_total : forall x y, le x y = true \/ le y x = true).
Context (le_trans : forall x y z, le x y = true -> le y z = true -> le x z = true).
Context (le_antisym : forall x y, le x y = true -> le y x = true -> x = y).

Lemma lexb_total : (forall a b, next a b = true \/ next b a = true) ->
  forall a b, lexb key le next a b = true \/ lexb key le next b a = true.
Proof using le_total.
  intros Hn a b. unfold lexb. destruct (decide (key a = key b)) as [E|E].
  - rewrite (bool_decide_eq_true_2 _ E), (bool_decide_eq_true_2 _ (eq_sym E)). cbn. apply Hn.
  - rewrite (bool_decide_eq_false_2 _ E), bool_decide_eq_false_2 by congruence. cbn. apply le_total.
Qed.

Lemma lexb_trans : (forall a b c, next a b = true -> next b c = true -> next a c = true) ->
  forall a b c, lexb key le next a b = true -> lexb key le next b c = true -> lexb key le next a c = true.
Proof using le_trans le_antisym.
  intros Hn a b c. unfold lexb.
  destruct (bool_decide_reflect (key a = key b)) as [E1|E1], (bool_decide_reflect (key b = key c)) as [E2|E2],
    (bool_decide_reflect (key a = key c)) as [E3|E3]; cbn; intros H1 H2; try congruence; try (by eapply Hn).
  - rewrite E3 in H1. exfalso. apply E2. by apply le_antisym.
  - by eapply le_trans.
Qed.
End lex.

Lemma sort_insert_least {A} (le : A -> A -> bool) x l :
  (forall y, y ∈ l -> le x y = true) -> sort_insert le x l = x :: l.
Proof. destruct l as [|y l]; [done|]. intros H. cbn. by rewrite (H y) by left. Qed.

(** Sorting a sorted list changes nothing. *)
Lemma stable_sort_sorted_id {A} (le : A -> A -> bool) l :
  StronglySorted (fun a b => le a b = true) l -> stable_sort le l = l.
Proof.
  induction 1 as [|x l Hl IH Hx]; [done|]. cbn. unfold stable_sort in IH. rewrite IH.
  apply sort_insert_least. by apply Forall_forall.
Qed.
