(* ===== verification/GoStr.v ===== *)
(** * Go strings

    A Go string is a byte string: Stdlib's [string] (a list of 8-bit [ascii]).
    Ranging over a string decodes UTF-8 exactly as the language does: an
    invalid byte yields U+FFFD and advances by one byte.  Also here: the
    [strings], [unicode] and [strconv] functions the source uses. *)

From Stdlib Require Import Ascii String.
From stdpp Require Import pretty sorting.
From S2P Require Import Prelude.
Open Scope string_scope.
Open Scope Z_scope.

#[local] Arguments String.append !_ _ / : simpl nomatch.

(** ** Bytes *)
Definition byteZ (c : ascii) : Z := Z.of_N (N_of_ascii c).

Lemma byteZ_range c : 0 <= byteZ c < 256.
Proof. unfold byteZ. pose proof (N_ascii_bounded c). lia. Qed.

Lemma byteZ_inj c d : byteZ c = byteZ d -> c = d.
Proof.
  unfold byteZ. intros H%N2Z.inj.
  rewrite <- (ascii_N_embedding c), <- (ascii_N_embedding d). by rewrite H.
Qed.

Definition Zbyte (z : Z) : ascii := ascii_of_N (Z.to_N z).

Lemma byteZ_Zbyte z : 0 <= z < 256 -> byteZ (Zbyte z) = z.
Proof. intros. unfold byteZ, Zbyte. rewrite N_ascii_embedding; lia. Qed.

Lemma Zbyte_byteZ c : Zbyte (byteZ c) = c.
Proof. unfold byteZ, Zbyte. rewrite N2Z.id. apply ascii_N_embedding. Qed.

(** ** Strings as lists of bytes *)
Definition chars (s : string) : list ascii := list_ascii_of_string s.
Definition Zlen (s : string) : Z := Z.of_nat (String.length s).

Lemma string_app_assoc (a b c : string) : ((a ++ b) ++ c = a ++ (b ++ c))%string.
Proof. induction a as [|x a IH]; [done|]. cbn. by rewrite IH. Qed.

Lemma string_app_nil_r (a : string) : (a ++ "" = a)%string.
Proof. induction a as [|x a IH]; [done|]. cbn. by rewrite IH. Qed.

Lemma chars_app a b : chars (a ++ b) = (chars a ++ chars b)%list.
Proof. induction a as [|x a IH]; [done|]. unfold chars in *. cbn. by rewrite IH. Qed.

Lemma chars_inj a b : chars a = chars b -> a = b.
Proof.
  intros H. rewrite <- (string_of_list_ascii_of_string a), <- (string_of_list_ascii_of_string b).
  unfold chars in H. by rewrite H.
Qed.

Lemma string_app_cancel_l (a b c : string) : (a ++ b = a ++ c)%string -> b = c.
Proof. intros H%(f_equal chars). rewrite !chars_app in H. apply app_inv_head in H. by apply chars_inj. Qed.

Lemma string_app_cancel_r (a b c : string) : (a ++ c = b ++ c)%string -> a = b.
Proof. intros H%(f_equal chars). rewrite !chars_app in H. apply app_inv_tail in H. by apply chars_inj. Qed.

Lemma Zlen_app a b : Zlen (a ++ b) = Zlen a + Zlen b.
Proof. unfold Zlen. induction a as [|x a IH]; cbn -[Z.of_nat Z.add] in *; lia. Qed.

Lemma Zlen_of_list l : Zlen (string_of_list_ascii l) = Z.of_nat (length l).
Proof. unfold Zlen. f_equal. induction l as [|x l IH]; [done|]. cbn. by rewrite IH. Qed.

Lemma Zlen_nonneg s : 0 <= Zlen s.
Proof. unfold Zlen. lia. Qed.

(** [c] does not occur in [s]. *)
Definition no_char (c : ascii) (s : string) : Prop := c ∉ chars s.

#[export] Instance no_char_dec c s : Decision (no_char c s).
Proof. unfold no_char. apply _. Defined.

(** [strings.ContainsRune(s, c)] / [strings.IndexByte] for an ASCII [c]. *)
Definition contains_char (c : ascii) (s : string) : bool := negb (bool_decide (no_char c s)).

Lemma contains_char_false c s : contains_char c s = false <-> no_char c s.
Proof. unfold contains_char. rewrite negb_false_iff. apply bool_decide_eq_true. Qed.

Lemma no_char_app c a b : no_char c (a ++ b) <-> no_char c a /\ no_char c b.
Proof. unfold no_char. rewrite chars_app, not_elem_of_app. done. Qed.

(** A separator-framed string splits uniquely: the frames before the first
    separator are determined by the whole. *)
Lemma sep_inj c (a a' b b' : string) :
  no_char c a -> no_char c a' ->
  (a ++ String c b = a' ++ String c b')%string -> a = a' /\ b = b'.
Proof.
  intros Ha Ha' H%(f_equal chars). rewrite !chars_app in H.
  apply not_elem_of_app_cons_inv_l in H as (H1 & _ & H2); [|done..].
  split; by apply chars_inj.
Qed.

(** The same, splitting at the last separator. *)
Lemma sep_inj_r c (a a' b b' : string) :
  no_char c b -> no_char c b' ->
  (a ++ String c b = a' ++ String c b')%string -> a = a' /\ b = b'.
Proof.
  intros Ha Ha' H%(f_equal chars). rewrite !chars_app in H.
  apply not_elem_of_app_cons_inv_r in H as (H1 & _ & H2); [|done..].
  split; by apply chars_inj.
Qed.

(** ** UTF-8 decoding: [for _, r := range s] *)
Definition RuneError : Z := 65533.

Definition in_rangeb (lo hi z : Z) : bool := (lo <=? z) && (z <=? hi).
Definition cont_byte (z : Z) : bool := in_rangeb 128 191 z.

(** The rune at the head of a byte string and the bytes after the first that
    it consumes, as [utf8.DecodeRuneInString] tabulates them. *)
Definition decode_rune (b0 : Z) (rest : list ascii) : Z * nat :=
  let nth i := match rest !! i with Some c => byteZ c | None => -1 end in
  let b1 := nth 0%nat in let b2 := nth 1%nat in let b3 := nth 2%nat in
  if b0 <? 128 then (b0, 0%nat)
  else if in_rangeb 194 223 b0 then
    if cont_byte b1 then ((b0 - 192) * 64 + (b1 - 128), 1%nat) else (RuneError, 0%nat)
  else if in_rangeb 224 239 b0 then
    let lo := if b0 =? 224 then 160 else 128 in
    let hi := if b0 =? 237 then 159 else 191 in
    if in_rangeb lo hi b1 && cont_byte b2
    then ((b0 - 224) * 4096 + (b1 - 128) * 64 + (b2 - 128), 2%nat) else (RuneError, 0%nat)
  else if in_rangeb 240 244 b0 then
    let lo := if b0 =? 240 then 144 else 128 in
    let hi := if b0 =? 244 then 143 else 191 in
    if in_rangeb lo hi b1 && cont_byte b2 && cont_byte b3
    then ((b0 - 240) * 262144 + (b1 - 128) * 4096 + (b2 - 128) * 64 + (b3 - 128), 3%nat)
    else (RuneError, 0%nat)
  else (RuneError, 0%nat).

(** The runes of a byte string, each with the bytes it was decoded from. *)
Fixpoint segments_fuel (fuel : nat) (s : list ascii) : list (Z * list ascii) :=
  match fuel, s with
  | _, [] => []
  | O, _ => []
  | S fuel, c :: rest =>
      let '(r, n) := decode_rune (byteZ c) rest in
      (r, c :: take n rest) :: segments_fuel fuel (drop n rest)
  end.
Definition rune_segments (s : string) : list (Z * list ascii) :=
  segments_fuel (String.length s) (chars s).
Definition runes (s : string) : list Z := (rune_segments s).*1.

(** [unicode.IsControl] and [unicode.IsSpace]. *)
Definition IsControl (r : Z) : bool := in_rangeb 0 31 r || in_rangeb 127 159 r.
Definition IsSpace (r : Z) : bool :=
  in_rangeb 9 13 r || (r =? 32) || (r =? 133) || (r =? 160) || (r =? 5760) ||
  in_rangeb 8192 8202 r || (r =? 8232) || (r =? 8233) || (r =? 8239) ||
  (r =? 8287) || (r =? 12288).

(** [strings.TrimSpace]: drop the space runes at both ends.  (UTF-8 is
    self-synchronising, so decoding the last rune backwards finds the last
    segment of the forward decoding.) *)
Fixpoint drop_while {A} (p : A -> bool) (l : list A) : list A :=
  match l with
  | [] => []
  | x :: l' => if p x then drop_while p l' else l
  end.
Definition TrimSpace (s : string) : string :=
  let sp (x : Z * list ascii) := IsSpace x.1 in
  let left := drop_while sp (rune_segments s) in
  let both := reverse (drop_while sp (reverse left)) in
  string_of_list_ascii (concat (both.*2)).

(** An ASCII byte is never part of a multi-byte sequence, so it is a rune of
    the string it occurs in. *)
Lemma decode_rune_ascii c rest :
  byteZ c < 128 -> decode_rune (byteZ c) rest = (byteZ c, 0%nat).
Proof. intros H. unfold decode_rune. rewrite (proj2 (Z.ltb_lt _ _) H). done. Qed.

Lemma decode_rune_skips_cont b0 rest r n :
  decode_rune b0 rest = (r, n) -> forall c, c ∈ take n rest -> 128 <= byteZ c.
Proof.
  unfold decode_rune, cont_byte, in_rangeb. intros H c Hc.
  destruct rest as [|c1 rest1]; [by rewrite take_nil in Hc; inversion Hc|].
  destruct rest1 as [|c2 rest2]; [|destruct rest2 as [|c3 rest3]];
    cbn in H; repeat case_match; simplify_eq/=; bool_prop;
    try (by inversion Hc); try lia;
    repeat (apply elem_of_cons in Hc as [->|Hc]); bool_prop; try lia;
    try (by inversion Hc).
Qed.

Lemma segments_fuel_ascii fuel s c :
  (length s <= fuel)%nat -> byteZ c < 128 -> c ∈ s ->
  byteZ c ∈ (segments_fuel fuel s).*1.
Proof.
  revert s. induction fuel as [|fuel IH]; intros [|x s] Hf Hc Hin; cbn in *;
    try (by inversion Hin); try lia.
  destruct (decode_rune (byteZ x) s) as [r n] eqn:E. cbn.
  apply elem_of_cons in Hin as [<-|Hin].
  - rewrite decode_rune_ascii in E by done. simplify_eq. left.
  - right. apply IH; [rewrite length_drop; lia|done|].
    rewrite <- (take_drop n s) in Hin. apply elem_of_app in Hin as [Hin|Hin]; [|done].
    pose proof (decode_rune_skips_cont _ _ _ _ E _ Hin). lia.
Qed.

Lemma ascii_in_runes s c : byteZ c < 128 -> c ∈ chars s -> byteZ c ∈ runes s.
Proof.
  intros. unfold runes, rune_segments. apply segments_fuel_ascii; [|done..].
  clear. unfold chars. induction s; cbn; lia.
Qed.

(** ** [strconv.Itoa] and [strconv.FormatInt(_, 10)] *)
Definition Itoa (z : Z) : string := pretty z.

Lemma Itoa_inj z w : Itoa z = Itoa w -> z = w.
Proof. apply (inj pretty). Qed.

Definition digit_or_minus (c : ascii) : Prop := byteZ c = 45 \/ 48 <= byteZ c <= 57.

Lemma pretty_N_char_digit n : 48 <= byteZ (pretty_N_char n) <= 57.
Proof.
  unfold pretty_N_char.
  destruct n as [|p]; [split; vm_compute; discriminate|].
  do 4 (destruct p as [p|p|]; try (split; vm_compute; discriminate)).
Qed.

Lemma pretty_N_go_digits x s c :
  (forall c, c ∈ chars s -> digit_or_minus c) ->
  c ∈ chars (pretty_N_go x s) -> digit_or_minus c.
Proof.
  revert s c. induction (N.lt_wf_0 x) as [x _ IH]; intros s c Hs Hc.
  destruct (decide (x = 0)%N) as [->|Hx]; [by apply Hs|].
  rewrite pretty_N_go_step in Hc by lia.
  eapply IH; [| |exact Hc]; [apply N.div_lt; lia|].
  intros d. unfold chars. cbn. intros [->|Hd]%elem_of_cons; [|by apply Hs].
  right. apply pretty_N_char_digit.
Qed.

Lemma Itoa_chars z c : c ∈ chars (Itoa z) -> digit_or_minus c.
Proof.
  unfold Itoa, pretty, pretty_Z. intros Hc.
  assert (forall n : N, c ∈ chars (pretty n) -> digit_or_minus c) as HN.
  { intros n. unfold pretty, pretty_N. case_decide.
    - unfold chars; cbn. intros [->|H']%elem_of_cons; [right; split; vm_compute; discriminate|inversion H'].
    - apply pretty_N_go_digits. intros d Hd. inversion Hd. }
  destruct z as [|p|p].
  - unfold chars in Hc; cbn in Hc. apply elem_of_cons in Hc as [->|Hc]; [right; split; vm_compute; discriminate|inversion Hc].
  - eauto.
  - unfold chars in Hc. cbn in Hc. apply elem_of_cons in Hc as [->|Hc]; [by left|].
    eapply HN. exact Hc.
Qed.

Lemma Itoa_no_char z c : ~ digit_or_minus c -> no_char c (Itoa z).
Proof. intros Hn Hc. by apply Hn, (Itoa_chars z). Qed.

Example Itoa_ex : Itoa 1207 = "1207"%string /\ Itoa (-4) = "-4"%string /\ Itoa 0 = "0"%string.
Proof. split_and!; reflexivity. Qed.

(** ** Concatenation, substrings and length frames *)

Section frames.
Open Scope string_scope.

Lemma Zlen_chars s : Zlen s = Z.of_nat (length (chars s)).
Proof. unfold Zlen, chars. f_equal. induction s; simpl; auto. Qed.

Lemma append_cons c (a b : string) : String c a ++ b = String c (a ++ b).
Proof. reflexivity. Qed.
Lemma prefix_append (a b : string) : String.prefix a (a ++ b) = true.
Proof. induction a as [|c a IH]; [by destruct b|]. rewrite append_cons. cbn. destruct (ascii_dec c c); [exact IH|congruence]. Qed.
Lemma length_append (a b : string) : String.length (a ++ b) = (String.length a + String.length b)%nat.
Proof. induction a as [|c a IH]; [done|]. rewrite append_cons. cbn. by rewrite IH. Qed.
Lemma substring_all (a : string) : substring 0 (String.length a) a = a.
Proof. induction a as [|c a IH]; cbn; [done|]. by rewrite IH. Qed.
Lemma substring_head (a b : string) : substring 0 (String.length a) (a ++ b) = a.
Proof. induction a as [|c a IH]; [by destruct b|]. rewrite append_cons. cbn. by rewrite IH. Qed.
Lemma substring_tail (a b : string) : substring (String.length a) (String.length b) (a ++ b) = b.
Proof. induction a as [|c a IH]; [apply substring_all|]. rewrite append_cons. exact IH. Qed.

Lemma append_inj_length (a a' b b' : string) : String.length a = String.length a' -> a ++ b = a' ++ b' -> a = a' /\ b = b'.
Proof.
  revert a'. induction a as [|c a IH]; intros [|c' a']; try done. rewrite !append_cons. intros [= Hl] [= -> H].
  destruct (IH a' Hl H) as [-> ->]. done.
Qed.

Lemma colon_not_digit : ~ digit_or_minus ":"%char.
Proof. intros [H|[H1 H2]]; vm_compute in *; congruence. Qed.

(** Length-prefixed framing is injective. *)
Lemma framed_inj (a a' b b' : string) :
  Itoa (Zlen a) ++ ":" ++ a ++ b = Itoa (Zlen a') ++ ":" ++ a' ++ b' -> a = a' /\ b = b'.
Proof.
  change (":" ++ a ++ b) with (String ":" (a ++ b)). change (":" ++ a' ++ b') with (String ":" (a' ++ b')).
  intros H. apply sep_inj in H as [Hn H]; [|apply Itoa_no_char, colon_not_digit..].
  apply Itoa_inj in Hn. apply append_inj_length; [|done]. unfold Zlen in Hn. lia.
Qed.

End frames.

(** ** String order: Go compares strings bytewise *)
Definition str_ltb (a b : string) : bool := String.ltb a b.
Definition str_leb (a b : string) : bool := String.leb a b.

Lemma str_leb_antisym a b : str_leb a b = true -> str_leb b a = true -> a = b.
Proof. apply String.leb_antisym. Qed.

Lemma str_leb_total a b : str_leb a b = true \/ str_leb b a = true.
Proof. apply String.leb_total. Qed.

Lemma str_leb_cons c a d b : str_leb (String c a) (String d b) =
  match Ascii.compare c d with Lt => true | Eq => str_leb a b | Gt => false end.
Proof. unfold str_leb, String.leb. cbn. by destruct (Ascii.compare c d). Qed.

Lemma str_leb_trans a b c : str_leb a b = true -> str_leb b c = true -> str_leb a c = true.
Proof.
  revert b c. induction a as [|x a IH]; intros [|y b] [|z c]; try done.
  rewrite !str_leb_cons. unfold Ascii.compare. intros H1 H2.
  destruct (N.compare_spec (N_of_ascii x) (N_of_ascii y)) as [E1|L1|G1],
    (N.compare_spec (N_of_ascii y) (N_of_ascii z)) as [E2|L2|G2]; try done;
    destruct (N.compare_spec (N_of_ascii x) (N_of_ascii z)) as [E3|L3|G3]; try done; try lia.
  by eapply IH.
Qed.

(** [sort.Strings]: the result depends only on which strings are sorted. *)
Definition sort_strings (l : list string) : list string := stable_sort str_leb l.

Lemma sort_strings_perm l : sort_strings l ≡ₚ l.
Proof. apply stable_sort_perm. Qed.

#[export] Instance sort_strings_proper : Proper ((≡ₚ) ==> (=)) sort_strings.
Proof.
  intros l l' Hp. assert (AntiSymm (=) (fun a b => str_leb a b = true)) by (intros x y; apply str_leb_antisym).
  apply (StronglySorted_unique (fun a b => str_leb a b = true)).
  - apply stable_sort_sorted; [apply str_leb_total|apply str_leb_trans].
  - apply stable_sort_sorted; [apply str_leb_total|apply str_leb_trans].
  - by rewrite !sort_strings_perm.
Qed.

(** ** Zero value of a map lookup: [m[key]] *)
Definition map_get {V} (zero : V) (m : gmap string V) (k : string) : V :=
  default zero (m !! k).
