(* ===== verification/Sha256.v ===== *)
(** * crypto/sha256 and encoding/hex

    SHA-256 (FIPS 180-4) on byte strings, executable, and the lower-case hex
    encoding of its digest: what [domain.HashBytes] (models.go) computes.
    Words are 32-bit integers in [Z], reduced after every addition. *)

From Stdlib Require Import Ascii String.
From S2P Require Import Prelude GoStr.
Open Scope Z_scope.

Module Sha256.

Definition w32 (z : Z) : Z := Z.land z 4294967295.
Definition rotr (n x : Z) : Z := Z.lor (Z.shiftr x n) (w32 (Z.shiftl x (32 - n))).
Definition not32 (x : Z) : Z := Z.lxor x 4294967295.
Definition ch (x y z : Z) : Z := Z.lxor (Z.land x y) (Z.land (not32 x) z).
Definition maj (x y z : Z) : Z := Z.lxor (Z.lxor (Z.land x y) (Z.land x z)) (Z.land y z).
Definition bsig0 (x : Z) : Z := Z.lxor (Z.lxor (rotr 2 x) (rotr 13 x)) (rotr 22 x).
Definition bsig1 (x : Z) : Z := Z.lxor (Z.lxor (rotr 6 x) (rotr 11 x)) (rotr 25 x).
Definition ssig0 (x : Z) : Z := Z.lxor (Z.lxor (rotr 7 x) (rotr 18 x)) (Z.shiftr x 3).
Definition ssig1 (x : Z) : Z := Z.lxor (Z.lxor (rotr 17 x) (rotr 19 x)) (Z.shiftr x 10).

Definition K : list Z := [
  1116352408; 1899447441; 3049323471; 3921009573; 961987163; 1508970993; 2453635748; 2870763221;
  3624381080; 310598401; 607225278; 1426881987; 1925078388; 2162078206; 2614888103; 3248222580;
  3835390401; 4022224774; 264347078; 604807628; 770255983; 1249150122; 1555081692; 1996064986;
  2554220882; 2821834349; 2952996808; 3210313671; 3336571891; 3584528711; 113926993; 338241895;
  666307205; 773529912; 1294757372; 1396182291; 1695183700; 1986661051; 2177026350; 2456956037;
  2730485921; 2820302411; 3259730800; 3345764771; 3516065817; 3600352804; 4094571909; 275423344;
  430227734; 506948616; 659060556; 883997877; 958139571; 1322822218; 1537002063; 1747873779;
  1955562222; 2024104815; 2227730452; 2361852424; 2428436474; 2756734187; 3204031479; 3329325298].

Definition H0 : list Z := [
  1779033703; 3144134277; 1013904242; 2773480762; 1359893119; 2600822924; 528734635; 1541459225].

(** The message with its padding: a 1 bit, zeros, and the 64-bit length. *)
Definition be_bytes (n : nat) (z : Z) : list Z :=
  map (fun i => Z.land (Z.shiftr z (8 * Z.of_nat i)) 255) (rev (seq 0 n)).
Definition pad (m : list Z) : list Z :=
  let len := Z.of_nat (length m) in
  (m ++ 128 :: repeat 0 (Z.to_nat ((55 - len) mod 64)) ++ be_bytes 8 (8 * len))%list.

Fixpoint words_of (m : list Z) : list Z :=
  match m with
  | a :: b :: c :: d :: m =>
      Z.lor (Z.lor (Z.shiftl a 24) (Z.shiftl b 16)) (Z.lor (Z.shiftl c 8) d) :: words_of m
  | _ => []
  end.

(** The message schedule, newest word first. *)
Fixpoint extend (n : nat) (w : list Z) : list Z :=
  match n with
  | O => w
  | S n =>
      let at_ i := nth i w 0 in
      extend n (w32 (ssig1 (at_ 1%nat) + at_ 6%nat + ssig0 (at_ 14%nat) + at_ 15%nat) :: w)
  end.

Definition round (s : list Z) (kw : Z * Z) : list Z :=
  match s with
  | [a; b; c; d; e; f; g; h] =>
      let t1 := h + bsig1 e + ch e f g + kw.1 + kw.2 in
      let t2 := bsig0 a + maj a b c in
      [w32 (t1 + t2); a; b; c; w32 (d + t1); e; f; g]
  | _ => s
  end.

Definition compress (h block : list Z) : list Z :=
  let w := rev (extend 48 (rev block)) in
  zip_with (fun x y => w32 (x + y)) h (fold_left round (combine K w) h).

Fixpoint blocks (fuel : nat) (h w : list Z) : list Z :=
  match fuel, w with
  | S fuel, _ :: _ => blocks fuel (compress h (take 16 w)) (drop 16 w)
  | _, _ => h
  end.

Definition Sum256 (data : string) : list Z :=
  let w := words_of (pad (map byteZ (chars data))) in
  flat_map (be_bytes 4) (blocks (length w) H0 w).

Definition hexDigit (z : Z) : ascii := Zbyte (if z <? 10 then 48 + z else 87 + z).
Definition EncodeToString (l : list Z) : string :=
  string_of_list_ascii (flat_map (fun b => [hexDigit (Z.shiftr b 4); hexDigit (Z.land b 15)]) l).

Definition HashBytes (data : string) : string := EncodeToString (Sum256 data).

(** FIPS 180-4 test vectors: one block, and two blocks. *)
Example HashBytes_abc :
  HashBytes "abc" = "ba7816bf8f01cfea414140de5dae2223b00361a396177a9cb410ff61f20015ad"%string.
Proof. vm_compute. reflexivity. Qed.

Example HashBytes_two_blocks :
  HashBytes "abcdbcdecdefdefgefghfghighijhijkijkljklmklmnlmnomnopnopq"
  = "248d6a61d20638b8e5c026930c3e6039a33ce45964ff2167f6ecedd419db06c1"%string.
Proof. vm_compute. reflexivity. Qed.

(** Two different inputs with the same digest. *)
Definition collision (x y : string) : Prop := x <> y /\ HashBytes x = HashBytes y.

(** Every digest has 64 lower-case hex digits, so it contains no separator of
    the manifests it is spliced into. *)
Lemma hexDigit_range z : 0 <= z < 16 ->
  48 <= byteZ (hexDigit z) <= 57 \/ 97 <= byteZ (hexDigit z) <= 102.
Proof.
  intros Hz. unfold hexDigit. destruct (z <? 10) eqn:E; bool_prop; rewrite byteZ_Zbyte by lia; lia.
Qed.

Lemma EncodeToString_chars l c :
  (forall b, b ∈ l -> 0 <= b < 256) -> c ∈ chars (EncodeToString l) ->
  48 <= byteZ c <= 57 \/ 97 <= byteZ c <= 102.
Proof.
  intros Hl Hc. unfold EncodeToString, chars in Hc. rewrite list_ascii_of_string_of_list_ascii in Hc.
  apply list_elem_of_In, in_flat_map in Hc as (b & Hb%list_elem_of_In & Hc).
  specialize (Hl b Hb). change 15 with (Z.ones 4) in Hc.
  rewrite Z.shiftr_div_pow2, Z.land_ones in Hc by lia. change (2 ^ 4) with 16 in Hc.
  destruct Hc as [<-|[<-|[]]]; apply hexDigit_range; split;
    try (apply Z.div_pos; lia); try (apply Z.div_lt_upper_bound; lia); apply Z.mod_pos_bound; lia.
Qed.

Lemma be_bytes_range n z b : b ∈ be_bytes n z -> 0 <= b < 256.
Proof.
  unfold be_bytes. intros (i & -> & _)%list_elem_of_fmap. change 255 with (Z.ones 8).
  rewrite Z.land_ones by lia. apply Z.mod_pos_bound. done.
Qed.

Lemma HashBytes_chars data c :
  c ∈ chars (HashBytes data) -> 48 <= byteZ c <= 57 \/ 97 <= byteZ c <= 102.
Proof.
  apply EncodeToString_chars. intros b Hb. unfold Sum256 in Hb.
  apply list_elem_of_In, in_flat_map in Hb as (w & _ & Hb%list_elem_of_In). by eapply be_bytes_range.
Qed.

Lemma round_length s kw : length s = 8%nat -> length (round s kw) = 8%nat.
Proof. unfold round. by do 9 (destruct s as [|? s]; [done|]). Qed.

Lemma rounds_length l s : length s = 8%nat -> length (fold_left round l s) = 8%nat.
Proof. revert s. induction l as [|x l IH]; intros s Hs; [done|]. cbn. by apply IH, round_length. Qed.

Lemma blocks_length fuel h w : length h = 8%nat -> length (blocks fuel h w) = 8%nat.
Proof.
  revert h w. induction fuel as [|fuel IH]; intros h [|x w] Hh; [done..|]. cbn [blocks]. apply IH.
  unfold compress. rewrite length_zip_with, rounds_length by done. lia.
Qed.

Lemma flat_map_length_const {A B} (f : A -> list B) n l :
  (forall x, length (f x) = n) -> length (flat_map f l) = (length l * n)%nat.
Proof. intros Hf. induction l as [|x l IH]; [done|]. cbn. by rewrite length_app, Hf, IH. Qed.

Lemma HashBytes_length data : Zlen (HashBytes data) = 64.
Proof.
  unfold HashBytes, EncodeToString. rewrite Zlen_of_list.
  rewrite (flat_map_length_const _ 2) by done. unfold Sum256.
  rewrite (flat_map_length_const _ 4) by done. by rewrite blocks_length.
Qed.

End Sha256.
