(* ===== verification/Merkle.v ===== *)
(** * Merkle roots (internal/service/query_match.go: merkleRoot)

    The root over a list of event or segment hashes.  Equal roots over lists of
    equal length bind the lists up to an exhibited SHA-256 collision; the
    length must be fixed separately, because an odd last hash is paired with
    itself. *)

From Stdlib Require Import Ascii String.
From S2P Require Import Prelude GoStr Sha256.
Open Scope string_scope.
Open Scope Z_scope.

Module Merkle.
Import Sha256.

(** The texts one level hashes: neighbours concatenated, an odd last one with
    itself. *)
Fixpoint pairs (level : list string) : list string :=
  match level with
  | [] => []
  | [x] => [x ++ x]
  | x :: y :: level => (x ++ y) :: pairs level
  end.
Definition nextLevel (level : list string) : list string := map HashBytes (pairs level).

(** [for len(level) > 1]; [merkleLoop_root] shows that the length of the list
    is enough fuel. *)
Fixpoint merkleLoop (fuel : nat) (level : list string) : list string :=
  match fuel, level with
  | S fuel, _ :: _ :: _ => merkleLoop fuel (nextLevel level)
  | _, _ => level
  end.

Definition merkleRoot (hashes : list string) : string :=
  match hashes with
  | [] => HashBytes ""
  | _ => match merkleLoop (length hashes) hashes with root :: _ => root | [] => "" end
  end.

Local Opaque HashBytes.

(** ** The loop reaches one root *)

(** Induction two elements at a time. *)
Lemma pair_ind (P : list string -> Prop) :
  P [] -> (forall x, P [x]) -> (forall x y l, P l -> P (x :: y :: l)) -> forall l, P l.
Proof.
  intros H0 H1 H2. fix go 1. intros [|x [|y l]]; [exact H0|exact (H1 x)|exact (H2 x y l (go l))].
Qed.

Lemma pairs_length l : (length (pairs l) = (length l + 1) / 2)%nat.
Proof.
  induction l as [| |x y l IH] using pair_ind; [done|done|]. cbn [pairs length]. rewrite IH.
  replace (S (S (length l)) + 1)%nat with (length l + 1 + 1 * 2)%nat by lia. rewrite Nat.div_add by lia. lia.
Qed.

Lemma nextLevel_length l : (length (nextLevel l) = (length l + 1) / 2)%nat.
Proof. unfold nextLevel. by rewrite length_map, pairs_length. Qed.

Lemma nextLevel_shorter l : (2 <= length l)%nat -> (1 <= length (nextLevel l) < length l)%nat.
Proof.
  intros H. rewrite nextLevel_length. split; [apply Nat.div_le_lower_bound; lia|apply Nat.Div0.div_lt_upper_bound; lia].
Qed.

Lemma merkleLoop_root fuel l : (1 <= length l <= fuel)%nat -> exists r, merkleLoop fuel l = [r].
Proof.
  revert l. induction fuel as [|fuel IH]; intros l Hl; [lia|].
  destruct l as [|x [|y l]]; cbn [length] in Hl; [lia|eauto|].
  cbn [merkleLoop]. apply IH. pose proof (nextLevel_shorter (x :: y :: l)) as H. cbn [length] in H. lia.
Qed.

(** Enough fuel is enough. *)
Lemma merkleLoop_fuel fuel fuel' l : (length l <= fuel)%nat -> (length l <= fuel')%nat ->
  merkleLoop fuel l = merkleLoop fuel' l.
Proof.
  revert fuel' l. induction fuel as [|fuel IH]; intros fuel' l H H'.
  - destruct l; [by destruct fuel'|cbn in H; lia].
  - destruct l as [|x [|y l]]; [by destruct fuel'|by destruct fuel'|].
    destruct fuel' as [|fuel']; [cbn in H'; lia|]. cbn [merkleLoop].
    pose proof (nextLevel_shorter (x :: y :: l)) as Hs. cbn [length] in *. apply IH; lia.
Qed.

Lemma merkleRoot_step x y l : merkleRoot (x :: y :: l) = merkleRoot (nextLevel (x :: y :: l)).
Proof.
  pose proof (nextLevel_shorter (x :: y :: l)) as Hs. cbn [length] in Hs.
  unfold merkleRoot at 1.
  change (merkleLoop (length (x :: y :: l)) (x :: y :: l)) with (merkleLoop (S (length l)) (nextLevel (x :: y :: l))).
  assert (nextLevel (x :: y :: l) <> []) as Hne by (intros E; rewrite E in Hs; cbn in Hs; lia).
  unfold merkleRoot. destruct (nextLevel (x :: y :: l)) as [|a k] eqn:E; [done|].
  rewrite (merkleLoop_fuel (S (length l)) (length (a :: k))); [done|lia|lia].
Qed.

(** ** Binding *)

Definition hashes_ok (l : list string) : Prop := Forall (fun h => Zlen h = 64) l.

Lemma Zlen_prefix a b x y : Zlen a = Zlen b -> (a ++ x = b ++ y)%string -> a = b /\ x = y.
Proof.
  unfold Zlen. intros Hl%Nat2Z.inj. revert b Hl.
  induction a as [|c a IH]; intros [|d b] Hl Heq; try done.
  cbn in Heq, Hl. injection Heq as -> Heq. injection Hl as Hl. by destruct (IH _ Hl Heq) as [-> ->].
Qed.

Lemma pairs_inj l l' : hashes_ok l -> hashes_ok l' -> length l = length l' -> pairs l = pairs l' -> l = l'.
Proof.
  revert l'. induction l as [|x|x y l IH] using pair_ind; intros l' Hl Hl' Hlen Heq.
  - by destruct l'.
  - destruct l' as [|x' [|]]; try done. cbn in Heq. injection Heq as Heq.
    apply Forall_cons in Hl as [Hx _], Hl' as [Hx' _].
    apply Zlen_prefix in Heq as [-> _]; [done|congruence].
  - destruct l' as [|x' [|y' l']]; try done. cbn [pairs] in Heq. injection Heq as Heq Hrest.
    apply Forall_cons in Hl as [Hx Hl], Hl' as [Hx' Hl']. apply Forall_cons in Hl as [Hy Hl], Hl' as [Hy' Hl'].
    apply Zlen_prefix in Heq as [-> ->]; [|congruence]. f_equal. f_equal. apply IH; try done. cbn in Hlen. lia.
Qed.

Lemma nextLevel_ok l : hashes_ok (nextLevel l).
Proof. apply Forall_forall. intros h (t & -> & _)%list_elem_of_fmap. apply HashBytes_length. Qed.

(** The first position at which two lists differ. *)
Fixpoint firstDiff (l l' : list string) : string * string :=
  match l, l' with
  | x :: l, y :: l' => if decide (x = y) then firstDiff l l' else (x, y)
  | _, _ => ("", "")
  end.

Lemma firstDiff_collision l l' :
  length l = length l' -> l <> l' -> map HashBytes l = map HashBytes l' ->
  let '(x, y) := firstDiff l l' in collision x y.
Proof.
  revert l'. induction l as [|x l IH]; intros [|y l'] Hlen Hne Heq; try done.
  cbn [map] in Heq. injection Heq as Hh Heq. cbn [firstDiff]. destruct (decide (x = y)) as [->|Hxy].
  - apply IH; [cbn in Hlen; lia| |done]. intros ->. done.
  - done.
Qed.

(** Search a collision from the leaves up. *)
Fixpoint merkleCollision (fuel : nat) (l l' : list string) : string * string :=
  match fuel with
  | O => ("", "")
  | S fuel =>
      if decide (nextLevel l = nextLevel l') then firstDiff (pairs l) (pairs l')
      else merkleCollision fuel (nextLevel l) (nextLevel l')
  end.

Lemma merkleCollision_found fuel l l' :
  (length l <= fuel)%nat -> hashes_ok l -> hashes_ok l' -> length l = length l' -> l <> l' ->
  merkleRoot l = merkleRoot l' -> let '(x, y) := merkleCollision fuel l l' in collision x y.
Proof.
  revert l l'. induction fuel as [|fuel IH]; intros l l' Hf Hl Hl' Hlen Hne Hroot.
  - destruct l, l'; cbn in Hf, Hlen; [by destruct Hne|lia..].
  - cbn [merkleCollision]. destruct l as [|x [|y l]], l' as [|x' [|y' l']]; cbn [length] in Hlen; try lia.
    + by destruct Hne.
    + unfold merkleRoot in Hroot. cbn in Hroot. by subst.
    + rewrite !merkleRoot_step in Hroot.
      pose proof (nextLevel_shorter (x :: y :: l)) as Hs. cbn [length] in Hs, Hf, Hlen.
      destruct (decide _) as [Heq|Hdiff].
      * apply firstDiff_collision; [by rewrite !pairs_length; cbn [length]; rewrite Hlen| |exact Heq].
        intros E. by apply Hne, pairs_inj.
      * apply IH; [lia|apply nextLevel_ok|apply nextLevel_ok| |done|done].
        rewrite !nextLevel_length. cbn [length]. by rewrite Hlen.
Qed.

(** C37: a Merkle root binds the hashes it covers once their number is known:
    two lists of the same number of SHA-256 hashes with the same root are
    equal, or [merkleCollision] computes a SHA-256 collision from them. *)
Theorem merkle_binding l l' :
  hashes_ok l -> hashes_ok l' -> length l = length l' -> merkleRoot l = merkleRoot l' ->
  l = l' \/ collision (merkleCollision (length l) l l').1 (merkleCollision (length l) l l').2.
Proof.
  intros Hl Hl' Hlen Hroot. destruct (decide (l = l')) as [|Hne]; [by left|right].
  pose proof (merkleCollision_found (length l) l l' ltac:(lia) Hl Hl' Hlen Hne Hroot) as H.
  by destruct (merkleCollision _ _ _).
Qed.

Definition sample_hashes : list string := [HashBytes "x"; HashBytes "y"; HashBytes "z"].

Lemma merkle_binding_witness :
  sample_hashes = sample_hashes \/
  collision (merkleCollision 3 sample_hashes sample_hashes).1 (merkleCollision 3 sample_hashes sample_hashes).2.
Proof.
  apply (merkle_binding sample_hashes sample_hashes);
    [repeat constructor; apply HashBytes_length|repeat constructor; apply HashBytes_length|reflexivity|reflexivity].
Defined.

Lemma pairs_app l k : Nat.Even (length l) -> pairs (l ++ k) = (pairs l ++ pairs k)%list.
Proof.
  induction l as [|x|x y l IH] using pair_ind; intros [n Hn]; [done|cbn in Hn; lia|].
  cbn [app pairs]. rewrite IH; [done|]. exists (n - 1)%nat. cbn in Hn. lia.
Qed.

(** The root alone does not determine the number of hashes: repeating the
    last of an odd number of hashes keeps the root.  The length has to be
    checked next to the root, as VerifyIntegrity does with the event count of
    a segment and the stream count of an aggregate. *)
Theorem merkle_repeated_last l x :
  Nat.Even (length l) -> l <> [] -> merkleRoot (l ++ [x]) = merkleRoot (l ++ [x; x]).
Proof.
  intros Hl Hne. assert (exists a b k, l = a :: b :: k) as (a & b & k & ->).
  { destruct l as [|a [|b k]]; [done|destruct Hl as [n Hn]; cbn in Hn; lia|eauto]. }
  cbn [app]. rewrite !merkleRoot_step. f_equal. unfold nextLevel. f_equal.
  change (a :: b :: k ++ [x])%list with ((a :: b :: k) ++ [x])%list.
  change (a :: b :: k ++ [x; x])%list with ((a :: b :: k) ++ [x; x])%list. by rewrite !pairs_app.
Qed.

Lemma merkle_repeated_last_witness :
  merkleRoot ["a"; "b"; "c"] = merkleRoot ["a"; "b"; "c"; "c"].
Proof. apply (merkle_repeated_last ["a"; "b"] "c"); [by exists 1%nat|done]. Defined.

End Merkle.
