(* ===== verification/Signer.v ===== *)
(** * Checkpoint signatures (internal/service/service.go: Signer, hmacSigner)

    The interface sealing and verification are written against, with the one
    law they rely on, and the local HMAC-SHA256 implementation, which
    satisfies it.  The Vault signer is a remote service: another instance. *)

From Stdlib Require Import Ascii String.
From S2P Require Import Prelude GoStr Sha256.
Open Scope string_scope.
Open Scope Z_scope.

Module Signer.

Class Signer : Type := mkSigner {
  Sign : string -> result string;
  Verify : string -> string -> result bool;
  Algorithm : string
}.

(** What is signed verifies. *)
Class SignerOk (S : Signer) : Prop :=
  sign_verifies : forall data signature, Sign data = Ok signature -> Verify data signature = Ok true.

(** ** crypto/hmac with SHA-256 *)

Definition bytes_of (s : string) : list Z := map byteZ (chars s).
Definition string_of (l : list Z) : string := string_of_list_ascii (map Zbyte l).
Definition padKey (key : string) : list Z :=
  let k := if 64 <? Zlen key then Sha256.Sum256 key else bytes_of key in
  (k ++ repeat 0 (64 - length k))%list.
Definition hmacSum (key data : string) : list Z :=
  let k := padKey key in
  let inner := Sha256.Sum256 (string_of (map (Z.lxor 54) k) ++ data) in
  Sha256.Sum256 (string_of (map (Z.lxor 92) k ++ inner)%list).

(** RFC 4231, test case 2. *)
Example hmac_ex :
  Sha256.EncodeToString (hmacSum "Jefe" "what do ya want for nothing?") =
  "5bdcc146bf60754e6a042426089575c75a003f089d2739839dec58b964ec3843".
Proof. vm_compute. reflexivity. Qed.

Definition hmacSign (secret data : string) : result string :=
  Ok (Sha256.EncodeToString (hmacSum secret data)).
Definition hmacVerify (secret data signature : string) : result bool :=
  let? expected := hmacSign secret data in Ok (bool_decide (expected = signature)).

Definition hmacSigner (secret : string) : Signer :=
  mkSigner (hmacSign secret) (hmacVerify secret) "HMAC-SHA256(dev-compatible)".

#[export] Instance hmacSigner_ok secret : SignerOk (hmacSigner secret).
Proof. intros data signature [= <-]. cbn. unfold hmacVerify. cbn. by rewrite bool_decide_eq_true_2. Qed.

End Signer.
