(* ===== verification/Number.v ===== *)
(** * Canonical decimal numbers (canonical.go: writeNumber and its parsers)

    A JSON number literal denotes a rational: [Qc], whose equality is
    numerical equality.  [plain_text] is the canonical decimal spelling of a
    rational (no exponent, no superfluous zero, no negative zero);
    [plain_unique] shows that there is one for each value, and
    [writeNumber_plain], [Itoa_plain] and [formatFloat_plain] that every number
    branch of writeCanonical emits it. *)

From Stdlib Require Import Ascii String QArith Qcanon.
From stdpp Require Import pretty.
From S2P Require Import Prelude GoStr.
Open Scope string_scope.
Open Scope Z_scope.

#[local] Arguments String.append !_ _ / : simpl nomatch.

Module Number.

Definition str (l : list ascii) : string := string_of_list_ascii l.

(** ** Parsing (parseJSONNumber, parseDecimalExponent) *)

Definition isDigit (c : ascii) : bool := in_rangeb 48 57 (byteZ c).

(** [for i < len(s) && s[i] >= '0' && s[i] <= '9' { i++ }]: the digits read
    and what is left. *)
Fixpoint spanDigits (l : list ascii) : list ascii * list ascii :=
  match l with
  | c :: rest => if isDigit c then let '(d, r) := spanDigits rest in (c :: d, r) else ([], l)
  | [] => ([], [])
  end.

Definition invalidNumber : error := NewErr "invalid number literal".

Definition parseInteger (l : list ascii) : result (list ascii * list ascii) :=
  match l with
  | [] => Err invalidNumber
  | c :: rest =>
      if byteZ c =? 48 then Ok ([c], rest)
      else if in_rangeb 49 57 (byteZ c) then Ok (spanDigits l)
      else Err invalidNumber
  end.

Definition parseFraction (l : list ascii) : result (list ascii * list ascii) :=
  match l with
  | c :: rest =>
      if byteZ c =? 46 then
        let '(f, r) := spanDigits rest in
        match f with [] => Err invalidNumber | _ => Ok (f, r) end
      else Ok ([], l)
  | [] => Ok ([], [])
  end.

Definition parseExponent (l : list ascii) : result (list ascii * list ascii) :=
  match l with
  | c :: rest =>
      if (byteZ c =? 101) || (byteZ c =? 69) then
        let '(sign, body) :=
          match rest with
          | d :: rest' => if (byteZ d =? 43) || (byteZ d =? 45) then ([d], rest') else ([], rest)
          | [] => ([], [])
          end in
        let '(ds, r) := spanDigits body in
        match ds with [] => Err invalidNumber | _ => Ok ((sign ++ ds)%list, r) end
      else Ok ([], l)
  | [] => Ok ([], [])
  end.

Record literal : Type := mkLiteral {
  lt_negative : bool;
  lt_integer : list ascii;
  lt_fraction : list ascii;
  lt_exponent : list ascii
}.

Definition parseJSONNumber (s : string) : result literal :=
  match chars s with
  | [] => Err invalidNumber
  | c :: rest =>
      let negative := byteZ c =? 45 in
      let? i := parseInteger (if negative then rest else c :: rest) in
      let? f := parseFraction i.2 in
      let? e := parseExponent f.2 in
      match e.2 with
      | [] => Ok (mkLiteral negative i.1 f.1 e.1)
      | _ => Err invalidNumber
      end
  end.

Definition digitZ (c : ascii) : Z := byteZ c - 48.
Definition digits_val (l : list ascii) : Z := foldl (fun acc c => 10 * acc + digitZ c) 0 l.

Definition maxCanonicalNumberDigits : Z := 2 ^ 20.
Definition maxCanonicalExponent : Z := 4096.
Definition MaxInt64 : Z := 2 ^ 63 - 1.

(** [strconv.ParseInt(s, 10, 64)] on the spelling parseJSONNumber lets
    through: an optional sign and at least one digit. *)
Definition parseInt64 (l : list ascii) : option Z :=
  let v := match l with
           | c :: rest => if byteZ c =? 45 then - digits_val rest
                          else if byteZ c =? 43 then digits_val rest
                          else digits_val l
           | [] => 0
           end in
  if (- MaxInt64 - 1 <=? v) && (v <=? MaxInt64) then Some v else None.

Definition parseDecimalExponent (s : list ascii) : result Z :=
  match s with
  | [] => Ok 0
  | _ =>
      match parseInt64 s with
      | Some value =>
          if (maxCanonicalExponent <? value) || (value <? - maxCanonicalExponent)
          then Err (NewErr "exponent is outside the supported range")
          else Ok value
      | None => Err (NewErr "exponent is outside the supported range")
      end
  end.

(** ** Writing *)

Definition isZero (c : ascii) : bool := byteZ c =? 48.
Definition zero_char : ascii := Eval vm_compute in Zbyte 48.
Definition dot_char : ascii := Eval vm_compute in Zbyte 46.
Definition minus_char : ascii := Eval vm_compute in Zbyte 45.
Definition zeros (n : Z) : list ascii := repeat zero_char (Z.to_nat n).
Definition TrimRightZeros (l : list ascii) : list ascii := reverse (drop_while isZero (reverse l)).
Definition TrimLeftZeros (l : list ascii) : list ascii := drop_while isZero l.
Definition len (l : list ascii) : Z := Z.of_nat (length l).

(** The layout of [digits * 10^-scale] without an exponent. *)
Definition renderDecimal (negative : bool) (digits : list ascii) (scale : Z) : string :=
  let sign := if negative then [minus_char] else [] in
  str (sign ++
    if scale <=? 0 then (digits ++ zeros (- scale))%list
    else if len digits <=? scale
    then (zero_char :: dot_char :: zeros (scale - len digits) ++ digits)%list
    else let point := Z.to_nat (len digits - scale) in
         (take point digits ++ dot_char :: drop point digits)%list)%list.

Definition magnitudeError : error := NewErr "number exceeds canonical magnitude limit".

Definition writeNumber (s : string) : result string :=
  let? l := parseJSONNumber s in
  let? exp := match parseDecimalExponent (lt_exponent l) with
              | Ok v => Ok v | Err e => Err (Wrapf e "number") end in
  guard_err (negb (maxCanonicalNumberDigits + 1 <? len (lt_integer l) + len (lt_fraction l))) magnitudeError ;?
  let allDigits := (lt_integer l ++ lt_fraction l)%list in
  let trimmed := TrimRightZeros allDigits in
  let trailingZeroes := len allDigits - len trimmed in
  let digits := TrimLeftZeros trimmed in
  match digits with
  | [] => Ok "0"
  | _ =>
      let scale := len (lt_fraction l) - exp - trailingZeroes in
      if scale <=? 0 then
        if maxCanonicalNumberDigits <? len digits - scale then Err magnitudeError
        else Ok (renderDecimal (lt_negative l) digits scale)
      else if (maxCanonicalNumberDigits <? scale) || (maxCanonicalNumberDigits + 1 <? len digits + scale)
      then Err magnitudeError
      else Ok (renderDecimal (lt_negative l) digits scale)
  end.

(** [strconv.FormatFloat(f, 'f', -1, bits)] for the float whose shortest
    decimal is [m * 10^e], and zero as writeCanonical spells it. *)
Definition formatFloat (m e : Z) : string :=
  let allDigits := chars (Itoa (Z.abs m)) in
  let digits := TrimRightZeros allDigits in
  if m =? 0 then "0"
  else renderDecimal (m <? 0) digits (- e - (len allDigits - len digits)).

Example writeNumber_ex :
  writeNumber "1e15" = Ok "1000000000000000" /\ writeNumber "-12.340e-3" = Ok "-0.01234" /\
  writeNumber "-0.0" = Ok "0" /\ is_ok (writeNumber "0e9999") = false /\
  writeNumber "123.4500" = Ok "123.45" /\ formatFloat 1 15 = "1000000000000000" /\
  formatFloat (-15) (-1) = "-1.5" /\ is_ok (writeNumber "01") = false.
Proof. split_and!; vm_compute; reflexivity. Qed.

(** ** The rational a number denotes *)

(** [m * 10^e]. *)
Definition decQ (m e : Z) : Qc :=
  Q2Qc (Qmake (m * 10 ^ Z.max e 0) (Z.to_pos (10 ^ Z.max (- e) 0))).

Definition signed (negative : bool) (z : Z) : Z := if negative then - z else z.

Definition literal_value (s : string) : option Qc :=
  match parseJSONNumber s with
  | Ok l =>
      match parseDecimalExponent (lt_exponent l) with
      | Ok exp => Some (decQ (signed (lt_negative l) (digits_val (lt_integer l ++ lt_fraction l)))
                             (exp - len (lt_fraction l)))
      | Err _ => None
      end
  | Err _ => None
  end.

Lemma decQ_eq_at m e m' e' k : 0 <= e + k -> 0 <= e' + k ->
  decQ m e = decQ m' e' <-> m * 10 ^ (e + k) = m' * 10 ^ (e' + k).
Proof.
  intros H1 H2. unfold decQ. rewrite Q2Qc_eq_iff. unfold Qeq. cbn [Qnum Qden].
  rewrite !Z2Pos.id by (apply Z.pow_pos_nonneg; lia). rewrite <- !Z.mul_assoc.
  rewrite <- (Z.pow_add_r 10 (Z.max e 0)), <- (Z.pow_add_r 10 (Z.max e' 0)) by lia.
  set (K := Z.max (- e) 0 + Z.max (- e') 0).
  replace (Z.max e 0 + Z.max (- e') 0) with (e + K) by lia.
  replace (Z.max e' 0 + Z.max (- e) 0) with (e' + K) by lia.
  assert (forall a b, 0 <= e + a -> 0 <= e' + a -> a <= b ->
    m * 10 ^ (e + a) = m' * 10 ^ (e' + a) <-> m * 10 ^ (e + b) = m' * 10 ^ (e' + b)) as Hmono.
  { intros a b Ha Ha' Hab. replace (e + b) with (e + a + (b - a)) by lia.
    replace (e' + b) with (e' + a + (b - a)) by lia.
    rewrite (Z.pow_add_r 10 (e + a)), (Z.pow_add_r 10 (e' + a)) by lia. rewrite !Z.mul_assoc.
    pose proof (Z.pow_pos_nonneg 10 (b - a) ltac:(lia) ltac:(lia)). rewrite Z.mul_cancel_r by lia. done. }
  destruct (Z.le_ge_cases K k) as [Hle|Hle].
  - apply Hmono; lia.
  - symmetry. apply Hmono; lia.
Qed.

Lemma decQ_shift m e k : 0 <= k -> decQ (m * 10 ^ k) e = decQ m (e + k).
Proof.
  intros Hk. rewrite (decQ_eq_at _ _ _ _ (Z.abs e)) by lia.
  rewrite <- Z.mul_assoc, <- Z.pow_add_r by lia. do 2 f_equal. lia.
Qed.

(** ** Digit strings *)

Definition digits_ok (l : list ascii) : Prop := Forall (fun c => isDigit c = true) l.

Lemma isDigit_range c : isDigit c = true <-> 0 <= digitZ c <= 9.
Proof. unfold isDigit, in_rangeb, digitZ. rewrite andb_true_iff, !Z.leb_le. lia. Qed.

Lemma digits_val_snoc l c : digits_val (l ++ [c]) = 10 * digits_val l + digitZ c.
Proof. unfold digits_val. by rewrite foldl_app. Qed.

Lemma digits_val_app l k : digits_val (l ++ k) = digits_val l * 10 ^ len k + digits_val k.
Proof.
  induction k as [|c k IH] using rev_ind.
  - rewrite app_nil_r. unfold len. cbn. lia.
  - rewrite app_assoc, !digits_val_snoc, IH. unfold len. rewrite length_app. cbn [length].
    rewrite Nat2Z.inj_add, Z.pow_add_r by lia. change (10 ^ Z.of_nat 1) with 10. lia.
Qed.

Lemma digits_val_bound l : digits_ok l -> 0 <= digits_val l < 10 ^ len l.
Proof.
  induction l as [|c l IH] using rev_ind; intros Hl; [unfold len; cbn; lia|].
  apply Forall_app in Hl as [Hl [Hc _]%Forall_cons]. apply isDigit_range in Hc.
  rewrite digits_val_snoc. unfold len in *. rewrite length_app. cbn [length].
  rewrite Nat2Z.inj_add, Z.pow_add_r by lia. change (10 ^ Z.of_nat 1) with 10. specialize (IH Hl). lia.
Qed.

Lemma digitZ_inj c d : digitZ c = digitZ d -> c = d.
Proof. unfold digitZ. intros. apply byteZ_inj. lia. Qed.

(** Digit strings of one length are determined by their value. *)
Lemma digits_val_inj l k :
  digits_ok l -> digits_ok k -> length l = length k -> digits_val l = digits_val k -> l = k.
Proof.
  revert k. induction l as [|c l IH] using rev_ind; intros k Hl Hk Hlen Hv.
  - by destruct k.
  - destruct k as [|d k _] using rev_ind; [rewrite length_app in Hlen; cbn in Hlen; lia|].
    rewrite !length_app in Hlen. cbn in Hlen.
    apply Forall_app in Hl as [Hl [Hc _]%Forall_cons]. apply Forall_app in Hk as [Hk [Hd _]%Forall_cons].
    apply isDigit_range in Hc, Hd. rewrite !digits_val_snoc in Hv.
    f_equal; [apply IH; [done..|lia|lia]|]. f_equal. apply digitZ_inj. lia.
Qed.

(** No leading zero: what the integer part of a JSON number is. *)
Definition no_lead (l : list ascii) : Prop :=
  l = [zero_char] \/ exists c l', l = c :: l' /\ 1 <= digitZ c.

Lemma digits_val_cons c l : digits_val (c :: l) = digitZ c * 10 ^ len l + digits_val l.
Proof. change (c :: l) with ([c] ++ l)%list. rewrite digits_val_app. unfold digits_val at 1. cbn. lia. Qed.

Lemma lead_bounds c l : digits_ok (c :: l) -> 1 <= digitZ c ->
  10 ^ len l <= digits_val (c :: l) < 10 ^ (len l + 1).
Proof.
  intros H Hc. pose proof (digits_val_bound _ H) as Hb. split.
  - rewrite digits_val_cons. apply Forall_cons in H as [_ H]. apply digits_val_bound in H.
    pose proof (Z.pow_pos_nonneg 10 (len l) ltac:(lia) ltac:(unfold len; lia)). nia.
  - unfold len in *. cbn [length] in Hb. replace (Z.of_nat (length l) + 1) with (Z.of_nat (S (length l))) by lia. lia.
Qed.

Lemma no_lead_inj l k :
  digits_ok l -> digits_ok k -> no_lead l -> no_lead k -> digits_val l = digits_val k -> l = k.
Proof.
  assert (forall c l', digits_ok (c :: l') -> 1 <= digitZ c -> 1 <= digits_val (c :: l')) as Hpos.
  { intros c l' H1 H2. pose proof (lead_bounds _ _ H1 H2).
    pose proof (Z.pow_pos_nonneg 10 (len l') ltac:(lia) ltac:(unfold len; lia)). lia. }
  intros Hl Hk [->|(c & l' & -> & Hc)] [->|(d & k' & -> & Hd)] Hv.
  - done.
  - specialize (Hpos _ _ Hk Hd). change (digits_val [zero_char]) with 0 in Hv. lia.
  - specialize (Hpos _ _ Hl Hc). change (digits_val [zero_char]) with 0 in Hv. lia.
  - apply digits_val_inj; [done..| |done].
    pose proof (lead_bounds _ _ Hl Hc) as H1. pose proof (lead_bounds _ _ Hk Hd) as H2. rewrite Hv in H1.
    assert (len l' = len k') as Heq; [|unfold len in Heq; cbn; lia].
    destruct (Z.lt_trichotomy (len l') (len k')) as [Hlt|[|Hlt]]; [exfalso|done|exfalso].
    + pose proof (Z.pow_le_mono_r 10 (len l' + 1) (len k') ltac:(lia) ltac:(lia)). lia.
    + pose proof (Z.pow_le_mono_r 10 (len k' + 1) (len l') ltac:(lia) ltac:(lia)). lia.
Qed.

(** ** The canonical spelling *)

Definition plain_text (negative : bool) (i f : list ascii) : list ascii :=
  ((if negative then [minus_char] else []) ++ i ++
   match f with [] => [] | _ => dot_char :: f end)%list.

Record plain_ok (negative : bool) (i f : list ascii) : Prop := {
  po_int : digits_ok i;
  po_frac : digits_ok f;
  po_lead : no_lead i;
  po_trail : f = [] \/ exists f' c, f = (f' ++ [c])%list /\ 1 <= digitZ c;
  po_sign : negative = true -> digits_val (i ++ f) <> 0
}.

Definition plain_value (negative : bool) (i f : list ascii) : Qc :=
  decQ (signed negative (digits_val (i ++ f))) (- len f).

(** The spelling of [q]. *)
Definition plain (q : Qc) (o : string) : Prop :=
  exists n i f, plain_ok n i f /\ o = str (plain_text n i f) /\ q = plain_value n i f.

Lemma plain_frac_le n i f n' i' f' :
  plain_ok n i f -> plain_ok n' i' f' -> plain_value n i f = plain_value n' i' f' -> len f' <= len f.
Proof.
  intros H H' Hv. destruct (Z.le_gt_cases (len f') (len f)) as [|Hlt]; [done|exfalso].
  unfold plain_value in Hv. rewrite (decQ_eq_at _ _ _ _ (len f')) in Hv by lia.
  replace (- len f' + len f') with 0 in Hv by lia. rewrite Z.mul_1_r in Hv.
  destruct (po_trail _ _ _ H') as [->|(g & c & -> & Hc)]; [unfold len in Hlt; cbn in Hlt; lia|].
  pose proof (po_frac _ _ _ H') as Hd. apply Forall_app in Hd as [_ [Hd _]%Forall_cons].
  apply isDigit_range in Hd. rewrite app_assoc, digits_val_snoc in Hv.
  set (L := len (g ++ [c])) in *.
  replace (- len f + L) with (Z.succ (L - len f - 1)) in Hv by lia.
  rewrite Z.pow_succ_r in Hv by lia. unfold signed in Hv. destruct n, n'; lia.
Qed.

Lemma mul_add_inj P a b a' b' :
  0 <= b < P -> 0 <= b' < P -> a * P + b = a' * P + b' -> a = a' /\ b = b'.
Proof.
  intros Hb Hb' Heq. assert (a = a') as ->; [|lia].
  destruct (Z.lt_trichotomy a a') as [|[|]]; [exfalso|done|exfalso]; nia.
Qed.

(** A rational has one canonical spelling. *)
Lemma plain_unique n i f n' i' f' :
  plain_ok n i f -> plain_ok n' i' f' -> plain_value n i f = plain_value n' i' f' ->
  n = n' /\ i = i' /\ f = f'.
Proof.
  intros H H' Hv. pose proof (plain_frac_le _ _ _ _ _ _ H H' Hv).
  pose proof (plain_frac_le _ _ _ _ _ _ H' H (eq_sym Hv)).
  assert (len f = len f') as Hlen by lia.
  unfold plain_value in Hv. rewrite (decQ_eq_at _ _ _ _ (len f)) in Hv by lia. rewrite <- Hlen in Hv.
  replace (- len f + len f) with 0 in Hv by lia. rewrite !Z.mul_1_r in Hv.
  assert (digits_ok (i ++ f)) as Hd by (apply Forall_app; split; apply H).
  assert (digits_ok (i' ++ f')) as Hd' by (apply Forall_app; split; apply H').
  pose proof (digits_val_bound _ Hd). pose proof (digits_val_bound _ Hd').
  pose proof (po_sign _ _ _ H). pose proof (po_sign _ _ _ H').
  assert (n = n' /\ digits_val (i ++ f) = digits_val (i' ++ f')) as [-> Heq].
  { unfold signed in Hv. destruct n, n'; split; try done; try lia;
      exfalso; assert (digits_val (i ++ f) = 0) by lia; assert (digits_val (i' ++ f') = 0) by lia; auto. }
  rewrite !digits_val_app, <- Hlen in Heq.
  pose proof (digits_val_bound _ (po_frac _ _ _ H)). pose proof (digits_val_bound _ (po_frac _ _ _ H')) as Hb'.
  rewrite <- Hlen in Hb'. split; [done|].
  assert (digits_val i = digits_val i' /\ digits_val f = digits_val f') as [Hi Hf] by (eapply mul_add_inj; eauto).
  split; [apply no_lead_inj; [apply H|apply H'|apply H|apply H'|done]|].
  apply digits_val_inj; [apply H|apply H'| |done]. unfold len in Hlen. lia.
Qed.

Lemma plain_fun q o o' : plain q o -> plain q o' -> o = o'.
Proof.
  intros (n & i & f & H & -> & ->) (n' & i' & f' & H' & -> & Hv).
  by destruct (plain_unique _ _ _ _ _ _ H H' Hv) as (-> & -> & ->).
Qed.

(** Number bytes, and what a number text starts with. *)
Definition numberByte (c : ascii) : bool := isDigit c || Ascii.eqb c minus_char || Ascii.eqb c dot_char.

Lemma digits_numberByte l : digits_ok l -> Forall (fun c => numberByte c = true) l.
Proof. intros H. eapply Forall_impl; [exact H|]. intros c Hc. unfold numberByte. by rewrite Hc. Qed.

Lemma plain_text_bytes n i f : plain_ok n i f -> Forall (fun c => numberByte c = true) (plain_text n i f).
Proof.
  intros H. unfold plain_text. apply Forall_app. split; [by destruct n; repeat constructor|].
  apply Forall_app. split; [apply digits_numberByte, H|]. pose proof (po_frac _ _ _ H) as Hf.
  destruct f; [constructor|]. constructor; [done|]. by apply digits_numberByte.
Qed.

Lemma plain_text_head n i f : plain_ok n i f ->
  exists c tl, plain_text n i f = c :: tl /\ (isDigit c = true \/ c = minus_char).
Proof.
  intros H. unfold plain_text. destruct n; [eexists _, _; split; [done|by right]|].
  pose proof (po_int _ _ _ H) as Hi. destruct (po_lead _ _ _ H) as [->|(c & l & -> & _)].
  - eexists _, _. split; [done|by left].
  - apply Forall_cons in Hi as [Hc _]. eexists _, _. split; [done|by left].
Qed.

Lemma not_digit_sep c : digits_ok [c] -> c <> dot_char /\ c <> minus_char.
Proof. intros [H _]%Forall_cons. split; intros ->; done. Qed.

(** Equal texts spell equal numbers. *)
Lemma plain_text_inj n i f n' i' f' :
  plain_ok n i f -> plain_ok n' i' f' -> plain_text n i f = plain_text n' i' f' ->
  n = n' /\ i = i' /\ f = f'.
Proof.
  assert (forall l, digits_ok l -> dot_char ∉ l) as Hdot.
  { intros l Hl Hin. eapply Forall_forall in Hl; [|exact Hin]. done. }
  assert (forall i f, digits_ok i -> no_lead i -> forall x, (i ++ f)%list = minus_char :: x -> False) as Hsign.
  { intros i0 f0 Hi [->|(c & l & -> & Hc)] x Heq; simplify_eq/=; done. }
  intros H H' Heq. unfold plain_text in Heq.
  assert (n = n') as <-.
  { destruct n, n'; cbn [app] in Heq; try done; exfalso.
    - symmetry in Heq. eapply Hsign; [| |exact Heq]; apply H'.
    - eapply Hsign; [| |exact Heq]; apply H. }
  split; [done|]. apply app_inv_head in Heq.
  pose proof (Hdot _ (po_int _ _ _ H)). pose proof (Hdot _ (po_int _ _ _ H')).
  destruct f as [|c f], f' as [|c' f'].
  - by rewrite !app_nil_r in Heq.
  - rewrite app_nil_r in Heq. subst i. exfalso. apply H0. apply elem_of_app. right. left.
  - rewrite app_nil_r in Heq. subst i'. exfalso. apply H1. apply elem_of_app. right. left.
  - apply not_elem_of_app_cons_inv_l in Heq as (-> & _ & ->); done.
Qed.

(** A number followed by a byte that cannot continue it is read back whole. *)
Lemma plain_prefix q o q' o' x y :
  plain q o -> plain q' o' ->
  (forall c tl, x = String c tl -> numberByte c = false) ->
  (forall c tl, y = String c tl -> numberByte c = false) ->
  (o ++ x = o' ++ y)%string -> q = q' /\ x = y.
Proof.
  intros (n & i & f & H & -> & ->) (n' & i' & f' & H' & -> & ->) Hx Hy Heq%(f_equal chars).
  unfold str in Heq. rewrite !chars_app in Heq. unfold chars in Heq at 1 3.
  rewrite !list_ascii_of_string_of_list_ascii in Heq.
  pose proof (plain_text_bytes _ _ _ H) as Hb. pose proof (plain_text_bytes _ _ _ H') as Hb'.
  assert (plain_text n i f = plain_text n' i' f' /\ chars x = chars y) as [Ht Hxy].
  { revert Heq Hb Hb'. generalize (plain_text n i f) (plain_text n' i' f'). clear -Hx Hy.
    intros a. induction a as [|c a IH]; intros [|d b] Heq Ha Hb.
    - done.
    - exfalso. destruct x as [|e x]; [done|]. cbn in Heq. simplify_eq.
      apply Forall_cons in Hb as [Hd _]. rewrite (Hx _ _ eq_refl) in Hd. done.
    - exfalso. destruct y as [|e y]; [done|]. cbn in Heq. simplify_eq.
      apply Forall_cons in Ha as [Hd _]. rewrite (Hy _ _ eq_refl) in Hd. done.
    - injection Heq as -> Heq. apply Forall_cons in Ha as [_ Ha], Hb as [_ Hb].
      destruct (IH _ Heq Ha Hb) as [-> ->]. done. }
  destruct (plain_text_inj _ _ _ _ _ _ H H' Ht) as (-> & -> & ->). split; [done|]. by apply chars_inj.
Qed.

(** ** Every number writer emits the canonical spelling *)

Lemma len_app l k : len (l ++ k) = len l + len k.
Proof. unfold len. rewrite length_app. lia. Qed.

Lemma len_zeros n : 0 <= n -> len (zeros n) = n.
Proof. intros. unfold len, zeros. rewrite repeat_length. lia. Qed.

Lemma zeros_ok n : digits_ok (zeros n).
Proof. apply Forall_forall. intros c Hc. apply list_elem_of_In, repeat_spec in Hc. by subst. Qed.

Lemma zeros_val n : digits_val (zeros n) = 0.
Proof.
  unfold zeros. induction (Z.to_nat n) as [|m IH]; [done|]. cbn [repeat].
  rewrite digits_val_cons, IH. change (digitZ zero_char) with 0. lia.
Qed.

Lemma digits_val_zeros_l n l : digits_val (zeros n ++ l) = digits_val l.
Proof. rewrite digits_val_app, zeros_val. lia. Qed.

Lemma digits_val_zeros_r n l : 0 <= n -> digits_val (l ++ zeros n) = digits_val l * 10 ^ n.
Proof. intros. rewrite digits_val_app, zeros_val, len_zeros by done. lia. Qed.

Lemma isZero_spec c : isZero c = true <-> c = zero_char.
Proof.
  unfold isZero. rewrite Z.eqb_eq. split; [|by intros ->]. intros H. apply byteZ_inj. by rewrite H.
Qed.

Lemma drop_while_zeros l : exists n, 0 <= n /\ l = (zeros n ++ drop_while isZero l)%list /\
  (drop_while isZero l = [] \/ exists c tl, drop_while isZero l = c :: tl /\ c <> zero_char).
Proof.
  induction l as [|c l (n & Hn & Hl & H)].
  - exists 0. split_and!; [done|done|by left].
  - cbn [drop_while]. destruct (isZero c) eqn:E.
    + apply isZero_spec in E as ->. exists (n + 1). split_and!; [lia| |done].
      unfold zeros in *. replace (Z.to_nat (n + 1)) with (S (Z.to_nat n)) by lia. cbn. by rewrite <- Hl.
    + exists 0. split_and!; [done|done|]. right. exists c, l. split; [done|].
      intros ->. by vm_compute in E.
Qed.

Lemma reverse_zeros n : reverse (zeros n) = zeros n.
Proof.
  unfold zeros. induction (Z.to_nat n) as [|m IH]; [done|].
  cbn [repeat]. rewrite reverse_cons, IH. symmetry. apply (repeat_cons m zero_char).
Qed.

Lemma TrimRightZeros_spec l : exists n, 0 <= n /\ l = (TrimRightZeros l ++ zeros n)%list /\
  (TrimRightZeros l = [] \/ exists tl c, TrimRightZeros l = (tl ++ [c])%list /\ c <> zero_char).
Proof.
  unfold TrimRightZeros. destruct (drop_while_zeros (reverse l)) as (n & Hn & Hl & H).
  exists n. split; [done|]. split.
  - rewrite <- (reverse_zeros n), <- reverse_app, <- Hl. by rewrite reverse_involutive.
  - destruct H as [->|(c & tl & -> & Hc)]; [by left|]. right. exists (reverse tl), c.
    by rewrite reverse_cons.
Qed.

Lemma nonzero_digit c : isDigit c = true -> c <> zero_char -> 1 <= digitZ c.
Proof.
  intros Hd%isDigit_range Hc. destruct (Z.eq_dec (digitZ c) 0) as [H0|]; [|lia].
  exfalso. apply Hc, digitZ_inj. by rewrite H0.
Qed.

(** A digit string with neither a leading nor a trailing zero. *)
Record normal (l : list ascii) : Prop := {
  nm_digits : digits_ok l;
  nm_lead : exists c tl, l = c :: tl /\ 1 <= digitZ c;
  nm_trail : exists tl c, l = (tl ++ [c])%list /\ 1 <= digitZ c
}.

Lemma normal_pos l : normal l -> 1 <= digits_val l.
Proof.
  intros H. destruct (nm_lead _ H) as (c & tl & -> & Hc). pose proof (lead_bounds _ _ (nm_digits _ H) Hc).
  pose proof (Z.pow_pos_nonneg 10 (len tl) ltac:(lia) ltac:(unfold len; lia)). lia.
Qed.

Lemma signed_nonzero n v : v <> 0 -> signed n v <> 0.
Proof. unfold signed. destruct n; lia. Qed.

Lemma renderDecimal_plain n l scale :
  normal l -> plain (decQ (signed n (digits_val l)) (- scale)) (renderDecimal n l scale).
Proof.
  intros H. pose proof (normal_pos _ H) as Hpos. unfold renderDecimal, plain, plain_text.
  destruct (nm_lead _ H) as (c & tl & Hl & Hc). destruct (nm_trail _ H) as (tr & d & Hr & Hd).
  pose proof (nm_digits _ H) as Hok.
  destruct (scale <=? 0) eqn:E1; [|destruct (len l <=? scale) eqn:E2]; bool_prop.
  - assert (digits_val (l ++ zeros (- scale)) = digits_val l * 10 ^ (- scale)) as Hval
      by (apply digits_val_zeros_r; lia).
    pose proof (Z.pow_pos_nonneg 10 (- scale) ltac:(lia) ltac:(lia)).
    exists n, (l ++ zeros (- scale))%list, []. split_and!.
    + split; [apply Forall_app; split; [done|apply zeros_ok]|constructor|right|by left|].
      { exists c, (tl ++ zeros (- scale))%list. by rewrite Hl. }
      intros _. rewrite app_nil_r, Hval. nia.
    + by rewrite !app_nil_r.
    + unfold plain_value. rewrite app_nil_r, Hval.
      replace (signed n (digits_val l * 10 ^ (- scale))) with (signed n (digits_val l) * 10 ^ (- scale))
        by (unfold signed; destruct n; lia).
      by rewrite decQ_shift by lia.
  - set (z := zeros (scale - len l)).
    assert (digits_val (zero_char :: z ++ l) = digits_val l) as Hval.
    { rewrite digits_val_cons. change (digitZ zero_char) with 0. unfold z. rewrite digits_val_zeros_l. lia. }
    exists n, [zero_char], (z ++ l)%list. split_and!.
    + split; [by repeat constructor|apply Forall_app; split; [apply zeros_ok|done]|by left| |].
      { right. exists (z ++ tr)%list, d. by rewrite Hr, app_assoc. }
      intros _. cbn [app]. rewrite Hval. lia.
    + destruct (z ++ l)%list as [|? ?] eqn:Ez; [|done]. rewrite Hl in Ez. by destruct z.
    + unfold plain_value. cbn [app]. rewrite Hval. f_equal. unfold z. rewrite len_app, len_zeros by lia. lia.
  - set (k := Z.to_nat (len l - scale)).
    assert (0 < k < length l)%nat as Hk by (unfold k, len in *; lia).
    exists n, (take k l), (drop k l). split_and!.
    + split; [by apply Forall_take|by apply Forall_drop|right| |].
      { exists c, (take (k - 1) tl). rewrite Hl. destruct k; [lia|]. cbn. by rewrite Nat.sub_0_r. }
      { right. exists (drop k tr), d. rewrite Hr, drop_app_le; [done|].
        rewrite Hr, length_app in Hk. cbn in Hk. lia. }
      intros _. rewrite take_drop. lia.
    + destruct (drop k l) eqn:Ez; [|by rewrite app_nil_r || done].
      apply (f_equal length) in Ez. rewrite length_drop in Ez. cbn in Ez. lia.
    + unfold plain_value. rewrite take_drop. f_equal. unfold len. rewrite length_drop. unfold k, len in *. lia.
Qed.

Lemma plain_zero : plain (decQ 0 0) "0".
Proof.
  exists false, [zero_char], []. split_and!; [|done|done].
  split; [by repeat constructor|constructor|by left|by left|done].
Qed.

Lemma decQ_zero e : decQ 0 e = decQ 0 0.
Proof. rewrite (decQ_eq_at _ _ _ _ (Z.abs e)) by lia. lia. Qed.

Lemma spanDigits_ok l : digits_ok (spanDigits l).1.
Proof.
  induction l as [|c l IH]; cbn; [constructor|]. destruct (isDigit c) eqn:E; [|constructor].
  destruct (spanDigits l). cbn in *. by constructor.
Qed.

Lemma parseJSONNumber_digits s l : parseJSONNumber s = Ok l ->
  digits_ok (lt_integer l) /\ digits_ok (lt_fraction l).
Proof.
  unfold parseJSONNumber. destruct (chars s) as [|c rest]; [done|].
  generalize (if byteZ c =? 45 then rest else c :: rest). intros body H. inv_ok H.
  destruct (v1.2); [|done]. injection H as <-. cbn. split.
  - unfold parseInteger in Hb. destruct body as [|d body]; [done|].
    destruct (byteZ d =? 48) eqn:E; [injection Hb as <-; constructor; [|constructor];
      bool_prop; unfold isDigit, in_rangeb; by rewrite E|].
    destruct (in_rangeb 49 57 (byteZ d)); [|done]. injection Hb as <-. exact (spanDigits_ok (d :: body)).
  - unfold parseFraction in Hb0. destruct (v.2) as [|d tl]; [by injection Hb0 as <-; constructor|].
    destruct (byteZ d =? 46); [|injection Hb0 as <-; constructor].
    pose proof (spanDigits_ok tl) as Hok. destruct (spanDigits tl) as [[|e f] r]; [done|].
    by injection Hb0 as <-.
Qed.

Lemma trimmed_normal l c tl : digits_ok l -> TrimLeftZeros (TrimRightZeros l) = c :: tl ->
  normal (c :: tl) /\ digits_val l = digits_val (c :: tl) * 10 ^ (len l - len (TrimRightZeros l)).
Proof.
  intros Hok Htl. destruct (TrimRightZeros_spec l) as (n & Hn & Hl & Hr).
  destruct (drop_while_zeros (TrimRightZeros l)) as (k & Hk & Hz & Hlead).
  unfold TrimLeftZeros in Htl. rewrite Htl in Hz, Hlead.
  assert (digits_ok (TrimRightZeros l)) as Hok1 by (rewrite Hl in Hok; by apply Forall_app in Hok as [? _]).
  assert (digits_ok (c :: tl)) as Hok2 by (rewrite Hz in Hok1; by apply Forall_app in Hok1 as [_ ?]).
  split; [split; [done| |]|].
  - destruct Hlead as [|(c' & tl' & Heq & Hc)]; [done|]. simplify_eq. exists c', tl'. split; [done|].
    apply nonzero_digit; [|done]. by apply Forall_cons in Hok2 as [? _].
  - destruct Hr as [Hr|(tr & d & Hr & Hd)]; [rewrite Hr in Hz; by destruct (zeros k)|].
    destruct (exists_last (l:=c :: tl)) as (tr' & d' & Hlast); [done|].
    exists tr', d'. split; [done|]. rewrite Hz, Hlast, app_assoc in Hr. apply app_inj_tail in Hr as [_ ->].
    apply nonzero_digit; [|done]. rewrite Hlast in Hok2. apply Forall_app in Hok2 as [_ Hok2].
    by apply Forall_cons in Hok2 as [? _].
  - rewrite <- (digits_val_zeros_l k (c :: tl)), <- Hz.
    replace (len l - len (TrimRightZeros l)) with n
      by (apply (f_equal len) in Hl; rewrite len_app, len_zeros in Hl; lia).
    rewrite Hl at 1. apply digits_val_zeros_r. done.
Qed.

Lemma trimmed_zero l : TrimLeftZeros (TrimRightZeros l) = [] -> digits_val l = 0.
Proof.
  intros Htl. destruct (TrimRightZeros_spec l) as (n & Hn & Hl & _).
  destruct (drop_while_zeros (TrimRightZeros l)) as (k & Hk & Hz & _).
  unfold TrimLeftZeros in Htl. rewrite Htl, app_nil_r in Hz.
  rewrite Hl, Hz, digits_val_zeros_l. apply zeros_val.
Qed.

Lemma signed_mul n a b : signed n (a * b) = signed n a * b.
Proof. unfold signed. destruct n; lia. Qed.

(** json.Number: an accepted literal is written as the canonical spelling of
    the rational it denotes. *)
Lemma writeNumber_plain s o :
  writeNumber s = Ok o -> exists q, literal_value s = Some q /\ plain q o.
Proof.
  unfold writeNumber, literal_value. intros H.
  apply result_bind_Ok in H as (l & Hl & H). rewrite Hl.
  apply result_bind_Ok in H as (exp & He & H).
  destruct (parseDecimalExponent (lt_exponent l)) as [v|] eqn:Ev; [|done]. injection He as ->.
  apply guard_err_bind_Ok in H as [_ H]. cbn zeta in H.
  apply parseJSONNumber_digits in Hl as [Hi Hf].
  set (all := (lt_integer l ++ lt_fraction l)%list) in *.
  assert (digits_ok all) as Hall by by apply Forall_app.
  eexists. split; [done|].
  destruct (TrimLeftZeros (TrimRightZeros all)) as [|c tl] eqn:Et.
  { injection H as <-. rewrite trimmed_zero by done. replace (signed (lt_negative l) 0) with 0 by by destruct (lt_negative l).
    rewrite decQ_zero. apply plain_zero. }
  destruct (trimmed_normal _ _ _ Hall Et) as [Hn Hv].
  assert (0 <= len all - len (TrimRightZeros all)) as Hge.
  { destruct (TrimRightZeros_spec all) as (n & Hn0 & Heq & _). apply (f_equal len) in Heq.
    rewrite len_app, len_zeros in Heq; lia. }
  rewrite Hv, signed_mul, decQ_shift by done.
  set (scale := len (lt_fraction l) - exp - (len all - len (TrimRightZeros all))) in *.
  replace (exp - len (lt_fraction l) + (len all - len (TrimRightZeros all))) with (- scale) by lia.
  assert (o = renderDecimal (lt_negative l) (c :: tl) scale) as ->; [|by apply renderDecimal_plain].
  repeat case_match; by simplify_eq.
Qed.

(** strconv.FormatInt. *)
Lemma pretty_N_go_digits_val x s : (0 < x)%N ->
  exists l, chars (pretty_N_go x s) = (l ++ chars s)%list /\ digits_ok l /\
    digits_val l = Z.of_N x /\ exists c tl, l = c :: tl /\ 1 <= digitZ c.
Proof.
  assert (forall y, (y < 10)%N -> digitZ (pretty_N_char y) = Z.of_N y) as Hch.
  { intros y Hy. assert (y = 0 \/ y = 1 \/ y = 2 \/ y = 3 \/ y = 4 \/ y = 5 \/ y = 6 \/ y = 7 \/ y = 8 \/ y = 9)%N
      as Hin by lia. by destruct_or! Hin; subst. }
  revert s. induction (N.lt_wf_0 x) as [x _ IH]; intros s Hx. rewrite pretty_N_go_step by lia.
  pose proof (N.mod_lt x 10 ltac:(lia)) as Hmod. pose proof (N.div_mod x 10 ltac:(lia)) as Hdm.
  assert (digitZ (pretty_N_char (x mod 10)) = Z.of_N (x mod 10)) as Hc by (by apply Hch).
  revert Hc Hdm Hmod. generalize (x mod 10)%N. intros r Hc Hdm Hmod.
  revert Hc. generalize (pretty_N_char r). intros c Hc.
  assert (isDigit c = true) as Hcd by (apply isDigit_range; lia).
  destruct (decide (x / 10 = 0)%N) as [E|E].
  - rewrite E. exists [c]. split_and!; [done|by repeat constructor| |].
    + unfold digits_val. cbn. rewrite Hc. lia.
    + exists c, []. split; [done|]. rewrite Hc. lia.
  - destruct (IH (x / 10)%N ltac:(apply N.div_lt; lia) (String c s) ltac:(lia)) as (l & Hl & Hok & Hv & d & tl & -> & Hd).
    exists ((d :: tl) ++ [c])%list. split_and!.
    + rewrite Hl, <- app_assoc. done.
    + apply Forall_app. split; [done|by repeat constructor].
    + rewrite digits_val_snoc, Hv, Hc. lia.
    + exists d, (tl ++ [c])%list. done.
Qed.

Lemma Itoa_abs_digits m : m <> 0 ->
  digits_ok (chars (Itoa (Z.abs m))) /\ digits_val (chars (Itoa (Z.abs m))) = Z.abs m /\
  exists c tl, chars (Itoa (Z.abs m)) = c :: tl /\ 1 <= digitZ c.
Proof.
  intros Hm. assert (exists p, Z.abs m = Z.pos p) as [p Hp] by (destruct m; [done|eauto..]).
  rewrite Hp. change (Itoa (Z.pos p)) with (pretty (N.pos p)). unfold pretty, pretty_N.
  case_decide as Hd; [done|].
  destruct (pretty_N_go_digits_val (N.pos p) "" ltac:(lia)) as (l & Hl & Hok & Hv & Hlead).
  rewrite Hl. unfold chars at 1 2 3. cbn [list_ascii_of_string]. rewrite !app_nil_r. split_and!; [done|rewrite Hv; lia|done].
Qed.

Lemma Itoa_sign z : chars (Itoa z) =
  ((if z <? 0 then [minus_char] else []) ++ chars (Itoa (Z.abs z)))%list.
Proof. destruct z; done. Qed.

Lemma Itoa_plain z : plain (decQ z 0) (Itoa z).
Proof.
  destruct (decide (z = 0)) as [->|Hz]; [apply plain_zero|].
  destruct (Itoa_abs_digits z Hz) as (Hok & Hv & Hlead).
  exists (z <? 0), (chars (Itoa (Z.abs z))), []. split_and!.
  - split; [done|constructor|by right|by left|]. intros _. rewrite app_nil_r, Hv. lia.
  - apply chars_inj. unfold str, chars. rewrite list_ascii_of_string_of_list_ascii.
    unfold plain_text. rewrite app_nil_r. apply Itoa_sign.
  - unfold plain_value. rewrite app_nil_r, Hv. f_equal. unfold signed. destruct (z <? 0) eqn:E; bool_prop; lia.
Qed.

(** strconv.FormatFloat. *)
Lemma formatFloat_plain m e : plain (decQ m e) (formatFloat m e).
Proof.
  unfold formatFloat. destruct (m =? 0) eqn:E; bool_prop; [subst; rewrite decQ_zero; apply plain_zero|].
  destruct (Itoa_abs_digits m E) as (Hok & Hv & c & tl & Hl & Hc).
  set (all := chars (Itoa (Z.abs m))) in *.
  assert (TrimLeftZeros (TrimRightZeros all) = TrimRightZeros all) as Hsame.
  { destruct (TrimRightZeros_spec all) as (n & _ & Heq & Hr).
    destruct (TrimRightZeros all) as [|d tl']; [done|]. cbn in Heq. assert (c = d) as -> by congruence.
    unfold TrimLeftZeros. cbn. destruct (isZero d) eqn:Ez; [|done].
    apply isZero_spec in Ez as ->. by vm_compute in Hc. }
  destruct (TrimRightZeros all) as [|d tl'] eqn:Et.
  { exfalso. pose proof (trimmed_zero all) as H0. rewrite Et in H0. specialize (H0 eq_refl). lia. }
  destruct (trimmed_normal all d tl' Hok) as [Hn Hval]; [by rewrite Et|].
  rewrite Et in Hval.
  assert (0 <= len all - len (d :: tl')) as Hge.
  { destruct (TrimRightZeros_spec all) as (n & Hn0 & Heq & _). apply (f_equal len) in Heq.
    rewrite Et, len_app, len_zeros in Heq; lia. }
  replace (decQ m e) with (decQ (signed (m <? 0) (digits_val (d :: tl'))) (- (- e - (len all - len (d :: tl'))))).
  { by apply renderDecimal_plain. }
  replace m with (signed (m <? 0) (digits_val all)) at 2
    by (rewrite Hv; unfold signed; destruct (m <? 0) eqn:Em; bool_prop; lia).
  rewrite Hval, signed_mul, decQ_shift by done. f_equal. lia.
Qed.

(** ** Size of the output *)

Lemma Zlen_str l : Zlen (str l) = len l.
Proof. apply Zlen_of_list. Qed.

Lemma renderDecimal_length n l scale : Zlen (renderDecimal n l scale) <=
  1 + (if scale <=? 0 then len l - scale else if len l <=? scale then scale + 2 else len l + 1).
Proof.
  unfold renderDecimal. rewrite Zlen_str, len_app.
  assert (len (if n then [minus_char] else []) <= 1) as Hs by (by destruct n).
  destruct (scale <=? 0) eqn:E1; [|destruct (len l <=? scale) eqn:E2]; bool_prop.
  - rewrite len_app, len_zeros by lia. lia.
  - assert (len (zero_char :: dot_char :: zeros (scale - len l) ++ l) = scale + 2); [|lia].
    pose proof (len_app (zeros (scale - len l)) l) as Hl. rewrite len_zeros in Hl by lia.
    unfold len in *. cbn [length]. lia.
  - rewrite len_app. unfold len in *. cbn [length]. rewrite length_take, length_drop. lia.
Qed.

(** Canonical numbers are exact and bounded.  Two accepted json.Number
    literals are written as the same bytes exactly when they denote the same
    rational (no precision is lost and no spelling is distinguished), and one
    literal never produces more than 2^20 + 3 bytes whatever its exponent. *)
Theorem writeNumber_exact s s' o o' :
  writeNumber s = Ok o -> writeNumber s' = Ok o' ->
  (o = o' <-> literal_value s = literal_value s') /\ Zlen o <= maxCanonicalNumberDigits + 3.
Proof.
  intros H H'. split.
  - destruct (writeNumber_plain _ _ H) as (q & -> & Hq), (writeNumber_plain _ _ H') as (q' & -> & Hq').
    split; [intros ->|intros [= ->]; by eapply plain_fun]. f_equal.
    by destruct (plain_prefix _ _ _ _ "" "" Hq Hq').
  - unfold writeNumber in H. apply result_bind_Ok in H as (l & _ & H). apply result_bind_Ok in H as (e & _ & H).
    apply guard_err_bind_Ok in H as [_ H]. cbn zeta in H.
    destruct (TrimLeftZeros _) as [|c tl]; [injection H as <-; vm_compute; discriminate|].
    destruct (_ <=? 0) eqn:E1 in H.
    + destruct (_ <? _) eqn:E2 in H; [done|]. injection H as <-.
      etrans; [apply renderDecimal_length|]. rewrite E1. bool_prop. lia.
    + destruct (_ || _) eqn:E2 in H; [done|]. injection H as <-.
      etrans; [apply renderDecimal_length|]. rewrite E1. repeat case_match; bool_prop; lia.
Qed.

Lemma writeNumber_exact_witness :
  ("1500" = "1500" <-> literal_value "1.50e3" = literal_value "1500") /\ Zlen "1500" <= maxCanonicalNumberDigits + 3.
Proof. apply (writeNumber_exact "1.50e3" "1500"); reflexivity. Defined.

End Number.
