(* ===== verification/TimeFmt.v ===== *)
(** * time.Time.UTC().Format(time.RFC3339Nano)

    The instant of a [time.Time] (nanoseconds since 0001-01-01T00:00:00Z) as
    the text canonical.go hashes: proleptic Gregorian date, time of day and
    the fraction of a second without trailing zeros.  [FormatRFC3339Nano_inj]
    shows that distinct instants have distinct texts. *)

From Stdlib Require Import Ascii String.
From S2P Require Import Prelude GoStr Number.
Open Scope string_scope.
Open Scope Z_scope.
Import Number.

#[local] Arguments String.append !_ _ / : simpl nomatch.

Module TimeFmt.

(** ** Calendar: the 400-year cycle starting on 1 March of year 0 *)

(** A day of the cycle as (year of cycle, month from March, day of month). *)
Definition cycleDate (doe : Z) : Z * Z * Z :=
  let yoe := (doe - doe / 1460 + doe / 36524 - doe / 146096) / 365 in
  let doy := doe - (365 * yoe + yoe / 4 - yoe / 100) in
  let mp := (5 * doy + 2) / 153 in
  (yoe, mp, doy - (153 * mp + 2) / 5 + 1).

(** [time.Date]: year, month and day of a day count since 0001-01-01. *)
Definition civil (days : Z) : Z * Z * Z :=
  let z := days + 306 in
  let '(yoe, mp, d) := cycleDate (z mod 146097) in
  let m := if mp <? 10 then mp + 3 else mp - 9 in
  (yoe + 400 * (z / 146097) + (if m <=? 2 then 1 else 0), m, d).

Example civil_ex : civil 0 = (1, 1, 1) /\ civil 693595 = (1900, 1, 1) /\
  civil 839691 = (2299, 12, 31) /\ civil 730178 = (2000, 2, 29) /\ civil 719162 = (1970, 1, 1).
Proof. split_and!; vm_compute; reflexivity. Qed.

(** ** Layout *)

(** appendInt: decimal, zero-padded to the width, the sign before the padding. *)
Definition appendInt (x width : Z) : string :=
  let ds := chars (Itoa (Z.abs x)) in
  str ((if x <? 0 then [minus_char] else []) ++ zeros (width - len ds) ++ ds)%list.

(** ".999999999": the nine digits of the nanoseconds without trailing zeros. *)
Definition appendNano (ns : Z) : string :=
  match TrimRightZeros (chars (appendInt ns 9)) with
  | [] => ""
  | ds => str (dot_char :: ds)
  end.

Definition formatDate (y m d : Z) : string :=
  (appendInt y 4 ++ "-" ++ appendInt m 2) ++ "-" ++ appendInt d 2.
Definition formatClock (sec ns : Z) : string :=
  appendInt (sec / 3600) 2 ++ ":" ++ appendInt (sec / 60 mod 60) 2 ++ ":" ++
  appendInt (sec mod 60) 2 ++ appendNano ns ++ "Z".

Definition FormatRFC3339Nano (t : time) : string :=
  let '(y, m, d) := civil (t / (24 * Hour)) in
  let rest := t mod (24 * Hour) in
  formatDate y m d ++ "T" ++ formatClock (rest / Second) (rest mod Second).

Example Format_ex :
  FormatRFC3339Nano 0 = "0001-01-01T00:00:00Z" /\
  FormatRFC3339Nano (839691 * (24 * Hour) + (23 * Hour + 59 * Minute + 59 * Second + 999000000)) =
    "2299-12-31T23:59:59.999Z".
Proof. split; vm_compute; reflexivity. Qed.

(** ** Injectivity *)

(** The day of the cycle a date stands for. *)
Definition cycleDay (p : Z * Z * Z) : Z :=
  let '(yoe, mp, d) := p in 365 * yoe + yoe / 4 - yoe / 100 + ((153 * mp + 2) / 5 + d - 1).

Lemma cycle_year doe : 0 <= doe < 146097 ->
  let yoe := (doe - doe / 1460 + doe / 36524 - doe / 146096) / 365 in
  0 <= yoe <= 399 /\ 0 <= doe - (365 * yoe + yoe / 4 - yoe / 100) <= 365.
Proof. intros H yoe. subst yoe. Z.div_mod_to_equations. lia. Qed.

Lemma cycle_month doy : 0 <= doy <= 365 ->
  let mp := (5 * doy + 2) / 153 in 0 <= mp <= 11 /\ 1 <= doy - (153 * mp + 2) / 5 + 1 <= 31.
Proof. intros H mp. subst mp. Z.div_mod_to_equations. lia. Qed.

Lemma cycleDate_spec doe : 0 <= doe < 146097 ->
  let '(yoe, mp, d) := cycleDate doe in
  0 <= yoe <= 399 /\ 0 <= mp <= 11 /\ 1 <= d <= 31 /\ cycleDay (yoe, mp, d) = doe.
Proof.
  intros H. unfold cycleDate, cycleDay. pose proof (cycle_year doe H) as Hy. cbn zeta in Hy.
  destruct Hy as [Hy Hd]. pose proof (cycle_month _ Hd) as Hm. cbn zeta in Hm. destruct Hm as [Hm Hd']. lia.
Qed.

Lemma civil_range x : let '(_, m, d) := civil x in 1 <= m <= 12 /\ 1 <= d <= 31.
Proof.
  unfold civil. pose proof (cycleDate_spec ((x + 306) mod 146097) ltac:(apply Z.mod_pos_bound; lia)) as H.
  destruct (cycleDate _) as [[yoe mp] d]. destruct (mp <? 10) eqn:E; bool_prop; lia.
Qed.

Lemma civil_inj x x' : civil x = civil x' -> x = x'.
Proof.
  unfold civil. intros H.
  pose proof (cycleDate_spec ((x + 306) mod 146097) ltac:(apply Z.mod_pos_bound; lia)) as H1.
  pose proof (cycleDate_spec ((x' + 306) mod 146097) ltac:(apply Z.mod_pos_bound; lia)) as H2.
  destruct (cycleDate ((x + 306) mod 146097)) as [[yoe mp] d], (cycleDate ((x' + 306) mod 146097)) as [[yoe' mp'] d'].
  injection H as Hy Hm Hd. subst d'.
  assert (mp = mp') as <- by (destruct (mp <? 10) eqn:E, (mp' <? 10) eqn:E'; bool_prop; lia).
  assert (yoe + 400 * ((x + 306) / 146097) = yoe' + 400 * ((x' + 306) / 146097)) as Hy' by lia.
  assert (yoe = yoe' /\ (x + 306) / 146097 = (x' + 306) / 146097) as [<- Hera] by lia.
  pose proof (Z.div_mod (x + 306) 146097 ltac:(lia)). pose proof (Z.div_mod (x' + 306) 146097 ltac:(lia)). lia.
Qed.

(** *** The pieces of the text *)

Lemma appendInt_chars x w : chars (appendInt x w) =
  ((if (x <? 0)%Z then [minus_char] else []) ++
    zeros (w - len (chars (Itoa (Z.abs x)))) ++ chars (Itoa (Z.abs x)))%list.
Proof. unfold appendInt, str, chars. by rewrite list_ascii_of_string_of_list_ascii. Qed.

Lemma Itoa_abs_ok x : digits_ok (chars (Itoa (Z.abs x))) /\ digits_val (chars (Itoa (Z.abs x))) = Z.abs x.
Proof.
  destruct (decide (x = 0)) as [->|Hx]; [split; [by repeat constructor|done]|].
  destruct (Itoa_abs_digits x Hx) as (? & ? & _). done.
Qed.

Lemma appendInt_inj x y w : appendInt x w = appendInt y w -> x = y.
Proof.
  intros H%(f_equal chars). rewrite !appendInt_chars in H.
  destruct (Itoa_abs_ok x) as [Hx Hvx], (Itoa_abs_ok y) as [Hy Hvy].
  set (zx := zeros _) in H at 1. set (zy := zeros _) in H.
  assert (digits_ok (zx ++ chars (Itoa (Z.abs x)))) as Ha by (apply Forall_app; split; [apply zeros_ok|done]).
  assert (digits_ok (zy ++ chars (Itoa (Z.abs y)))) as Hb by (apply Forall_app; split; [apply zeros_ok|done]).
  assert (forall l k, digits_ok l -> l = minus_char :: k -> False) as Hm
    by (intros l k Hl ->; by apply Forall_cons in Hl as [? _]).
  destruct (x <? 0) eqn:Ex, (y <? 0) eqn:Ey; cbn [app] in H; bool_prop.
  - injection H as H. apply (f_equal digits_val) in H. unfold zx, zy in H.
    rewrite !digits_val_zeros_l, Hvx, Hvy in H. lia.
  - exfalso. by eapply Hm; [exact Hb|].
  - exfalso. by eapply Hm; [exact Ha|].
  - apply (f_equal digits_val) in H. unfold zx, zy in H.
    rewrite !digits_val_zeros_l, Hvx, Hvy in H. lia.
Qed.

Lemma appendInt_no_char x w c : isDigit c = false -> (x < 0 -> c <> minus_char) -> no_char c (appendInt x w).
Proof.
  intros Hc Hm. unfold no_char. rewrite appendInt_chars. destruct (Itoa_abs_ok x) as [Hx _].
  rewrite !not_elem_of_app. split_and!.
  - destruct (x <? 0) eqn:E; bool_prop; [|apply not_elem_of_nil].
    intros ->%list_elem_of_singleton. by apply Hm.
  - intros Hin. pose proof (zeros_ok (w - len (chars (Itoa (Z.abs x))))) as Hz.
    eapply Forall_forall in Hz; [|exact Hin]. cbn in Hz. congruence.
  - intros Hin. eapply Forall_forall in Hx; [|exact Hin]. cbn in Hx. congruence.
Qed.

Lemma appendInt_digits x w : 0 <= x -> digits_ok (chars (appendInt x w)).
Proof.
  intros Hx. rewrite appendInt_chars. replace (x <? 0) with false by (symmetry; apply Z.ltb_ge; lia).
  cbn [app]. apply Forall_app. split; [apply zeros_ok|apply Itoa_abs_ok].
Qed.

Lemma appendInt_length x w : 0 <= x < 10 ^ w -> 1 <= w -> len (chars (appendInt x w)) = w.
Proof.
  intros Hx Hw. rewrite appendInt_chars. replace (x <? 0) with false by (symmetry; apply Z.ltb_ge; lia).
  cbn [app]. rewrite len_app.
  assert (len (chars (Itoa (Z.abs x))) <= w) as Hle; [|rewrite len_zeros; lia].
  destruct (decide (x = 0)) as [->|Hne]; [done|].
  destruct (Itoa_abs_digits x Hne) as (Hok & Hv & c & tl & Heq & Hc). rewrite Heq in *.
  pose proof (lead_bounds _ _ Hok Hc) as Hb. rewrite Hv in Hb.
  destruct (Z.le_gt_cases (len (c :: tl)) w) as [|Hgt]; [done|exfalso].
  assert (w <= len tl) by (unfold len in *; cbn in Hgt; lia).
  pose proof (Z.pow_le_mono_r 10 w (len tl) ltac:(lia) ltac:(lia)). lia.
Qed.

Lemma appendNano_tail ns : 0 <= ns < Second -> exists l,
  chars (appendNano ns ++ "Z") = (l ++ ["Z"%char])%list /\
  TrimRightZeros (chars (appendInt ns 9)) = match l with [] => [] | _ :: ds => ds end /\
  (l = [] \/ exists ds, ds <> [] /\ l = dot_char :: ds).
Proof.
  intros Hns. unfold appendNano. rewrite chars_app.
  destruct (TrimRightZeros (chars (appendInt ns 9))) as [|d ds].
  - exists []. split_and!; [done|done|by left].
  - exists (dot_char :: d :: ds). unfold str, chars. rewrite list_ascii_of_string_of_list_ascii.
    split_and!; [done|done|right]. by exists (d :: ds).
Qed.

Lemma appendNano_inj ns ns' : 0 <= ns < Second -> 0 <= ns' < Second ->
  appendNano ns ++ "Z" = appendNano ns' ++ "Z" -> ns = ns'.
Proof.
  intros H H' Heq%(f_equal chars).
  destruct (appendNano_tail ns H) as (l & Hl & Ht & Hs), (appendNano_tail ns' H') as (l' & Hl' & Ht' & Hs').
  rewrite Hl, Hl' in Heq. apply app_inv_tail in Heq as <-. apply (appendInt_inj _ _ 9), chars_inj.
  assert (forall n, 0 <= n < Second -> len (chars (appendInt n 9)) = 9) as Hlen
    by (intros; apply appendInt_length; [unfold Second in *|]; lia).
  destruct (TrimRightZeros_spec (chars (appendInt ns 9))) as (k & Hk & E & _).
  destruct (TrimRightZeros_spec (chars (appendInt ns' 9))) as (k' & Hk' & E' & _).
  pose proof (f_equal len E) as L. pose proof (f_equal len E') as L'.
  rewrite len_app, len_zeros, Hlen in L, L' by done. rewrite Ht in L, E. rewrite Ht' in L', E'.
  rewrite E, E'. repeat f_equal. lia.
Qed.

Lemma fixed_prefix_inj (a b x y : string) : String.length a = String.length b ->
  (a ++ x = b ++ y)%string -> a = b /\ x = y.
Proof.
  revert b. induction a as [|c a IH]; intros [|d b] Hlen Heq; try done.
  cbn in Heq, Hlen. injection Heq as -> Heq. injection Hlen as Hlen. by destruct (IH _ Hlen Heq) as [-> ->].
Qed.

Lemma length_chars s : String.length s = length (chars s).
Proof. unfold chars. induction s; cbn; congruence. Qed.

Lemma appendInt2_len x y : 0 <= x < 60 -> 0 <= y < 60 ->
  String.length (appendInt x 2) = String.length (appendInt y 2).
Proof.
  intros Hx Hy. rewrite !length_chars. pose proof (appendInt_length x 2 ltac:(lia) ltac:(lia)).
  pose proof (appendInt_length y 2 ltac:(lia) ltac:(lia)). unfold len in *. lia.
Qed.

Lemma formatDate_inj y m d y' m' d' : 0 <= m -> 0 <= m' -> 0 <= d -> 0 <= d' ->
  formatDate y m d = formatDate y' m' d' -> (y, m, d) = (y', m', d').
Proof.
  intros Hm Hm' Hd Hd' Heq. unfold formatDate in Heq.
  assert (forall x, 0 <= x -> no_char "-" (appendInt x 2)) as Hno by (intros; apply appendInt_no_char; [done|lia]).
  apply (sep_inj_r "-") in Heq as [Heq Ed]; [|by apply Hno..].
  apply (sep_inj_r "-") in Heq as [Ey Em]; [|by apply Hno..].
  apply appendInt_inj in Ed, Em, Ey. by subst.
Qed.

Lemma formatClock_inj s ns s' ns' : 0 <= s -> 0 <= s' -> 0 <= ns < Second -> 0 <= ns' < Second ->
  formatClock s ns = formatClock s' ns' -> s = s' /\ ns = ns'.
Proof.
  intros Hs Hs' Hn Hn' Heq. unfold formatClock in Heq.
  pose proof (Z.mod_pos_bound s 60 ltac:(lia)). pose proof (Z.mod_pos_bound s' 60 ltac:(lia)).
  pose proof (Z.mod_pos_bound (s / 60) 60 ltac:(lia)). pose proof (Z.mod_pos_bound (s' / 60) 60 ltac:(lia)).
  assert (forall x, 0 <= x -> no_char ":" (appendInt x 2)) as Hno by (intros; by apply appendInt_no_char).
  apply (sep_inj ":") in Heq as [Eh Heq]; [|apply Hno; apply Z.div_pos; lia..].
  apply (sep_inj ":") in Heq as [Em Heq]; [|apply Hno; lia..].
  apply fixed_prefix_inj in Heq as [Es Heq]; [|by apply appendInt2_len].
  apply appendInt_inj in Eh, Em, Es. apply appendNano_inj in Heq; [|done..].
  split; [|done]. revert Eh Em Es. clear. Z.div_mod_to_equations. lia.
Qed.

Lemma formatDate_no_T y m d : 0 <= m -> 0 <= d -> no_char "T" (formatDate y m d).
Proof.
  intros Hm Hd. unfold formatDate. rewrite !no_char_app.
  split_and!; try (by apply appendInt_no_char); apply contains_char_false; reflexivity.
Qed.

Lemma FormatRFC3339Nano_inj t u : FormatRFC3339Nano t = FormatRFC3339Nano u -> t = u.
Proof.
  unfold FormatRFC3339Nano. pose proof (civil_range (t / (24 * Hour))) as Ht. pose proof (civil_range (u / (24 * Hour))) as Hu.
  destruct (civil (t / (24 * Hour))) as [[y m] d] eqn:Ct, (civil (u / (24 * Hour))) as [[y' m'] d'] eqn:Cu.
  assert (0 < 24 * Hour /\ 0 < Second) as [HD HS] by (unfold Hour, Minute, Second; lia).
  pose proof (Z.mod_pos_bound t (24 * Hour) HD) as Hrt. pose proof (Z.mod_pos_bound u (24 * Hour) HD) as Hru.
  pose proof (Z.div_mod t (24 * Hour) ltac:(lia)) as Dt. pose proof (Z.div_mod u (24 * Hour) ltac:(lia)) as Du.
  set (rt := t mod (24 * Hour)) in *. set (ru := u mod (24 * Hour)) in *. intros Heq.
  apply (sep_inj "T") in Heq as [Hdate Hclock]; [|apply formatDate_no_T; lia..].
  apply formatDate_inj in Hdate; [|lia..]. rewrite <- Ct, <- Cu in Hdate. apply civil_inj in Hdate.
  apply formatClock_inj in Hclock as [Hs Hn];
    [|apply Z.div_pos; lia|apply Z.div_pos; lia|apply Z.mod_pos_bound; done..].
  pose proof (Z.div_mod rt Second ltac:(lia)). pose proof (Z.div_mod ru Second ltac:(lia)).
  rewrite Dt, Du, Hdate. lia.
Qed.

Lemma time_text_ascii t c : c ∈ chars (FormatRFC3339Nano t) -> byteZ c < 128.
Proof.
  assert (forall x w, c ∈ chars (appendInt x w) -> byteZ c < 128) as Hi.
  { intros x w. rewrite appendInt_chars. destruct (Itoa_abs_ok x) as [Hx _].
    pose proof (zeros_ok (w - len (chars (Itoa (Z.abs x))))) as Hz.
    rewrite !elem_of_app. intros [H|[H|H]].
    - destruct (x <? 0); [apply list_elem_of_singleton in H as ->; done|inversion H].
    - eapply Forall_forall in Hz; [|exact H]. apply isDigit_range in Hz. unfold digitZ in Hz. lia.
    - eapply Forall_forall in Hx; [|exact H]. apply isDigit_range in Hx. unfold digitZ in Hx. lia. }
  assert (forall ns, c ∈ chars (appendNano ns) -> byteZ c < 128) as Hn.
  { intros ns. unfold appendNano. destruct (TrimRightZeros_spec (chars (appendInt ns 9))) as (k & _ & E & _).
    destruct (TrimRightZeros _) as [|d ds]; [intros H; inversion H|]. unfold str, chars at 1.
    rewrite list_ascii_of_string_of_list_ascii. intros [->|H]%elem_of_cons; [done|].
    eapply Hi. rewrite E. apply elem_of_app. by left. }
  assert (forall a b, (c ∈ chars a -> byteZ c < 128) -> (c ∈ chars b -> byteZ c < 128) ->
    c ∈ chars (a ++ b) -> byteZ c < 128) as Happ by (intros a b ? ?; rewrite chars_app, elem_of_app; tauto).
  assert (forall d, byteZ d < 128 -> c ∈ chars (String d "") -> byteZ c < 128) as Hone
    by (intros d Hd H; apply list_elem_of_singleton in H as ->; done).
  unfold FormatRFC3339Nano, formatDate, formatClock. destruct (civil _) as [[y m] d].
  repeat first [apply Hi|apply Hn|by apply Hone|apply Happ].
Qed.

End TimeFmt.
