(* ===== verification/KeyCodec.v ===== *)
(** * Archive key components ([internal/fsutil/fsutil.go])

    The percent-encoding that turns an arbitrary identifier into one path
    component of an archive object key, its decoder, and the facts the archive
    relies on: the round trip for every byte string, injectivity, containment
    (no separator, no traversal segment) and the 3x length bound. *)

From Stdlib Require Import Ascii String.
From S2P Require Import Prelude GoStr.
Open Scope string_scope.
Open Scope Z_scope.

#[local] Arguments String.append !_ _ / : simpl nomatch.

Module KeyCodec.

Definition KeyComponentEmptyMarker : string := "%".
Definition MaxFileStoreComponentBytes : Z := 255.
Definition hexUpperDigits : string := "0123456789ABCDEF".

(** [hexUpperDigits[i]] *)
Definition hexUpperDigit (i : Z) : ascii :=
  default Ascii.zero (chars hexUpperDigits !! Z.to_nat i).

Definition isSafeComponentByte (ch : ascii) : bool :=
  let c := byteZ ch in
  in_rangeb 97 122 c || in_rangeb 65 90 c || in_rangeb 48 57 c ||
  (c =? 45) || (c =? 95) || (c =? 46).

Definition pct : ascii := "%".

(** One iteration of the encoding loop. *)
Definition encodeByte (ch : ascii) : list ascii :=
  if isSafeComponentByte ch then [ch]
  else [pct; hexUpperDigit (Z.shiftr (byteZ ch) 4); hexUpperDigit (Z.land (byteZ ch) 15)].

Definition EncodeKeyComponent (value : string) : string :=
  if decide (value = "") then KeyComponentEmptyMarker
  else if decide (value = ".") then "%2E"
  else if decide (value = "..") then "%2E%2E"
  else string_of_list_ascii (concat (map encodeByte (chars value))).

Definition hexDigitValue (ch : ascii) : option Z :=
  let c := byteZ ch in
  if in_rangeb 48 57 c then Some (c - 48)
  else if in_rangeb 97 102 c then Some (c - 97 + 10)
  else if in_rangeb 65 70 c then Some (c - 65 + 10)
  else None.

(** The decoding loop; the three errors are the three [fmt.Errorf] returns. *)
Fixpoint decodeLoop (value : list ascii) : result (list ascii) :=
  match value with
  | [] => Ok []
  | c :: rest =>
      if isSafeComponentByte c then
        let? out := decodeLoop rest in Ok (c :: out)
      else if decide (c = pct) then
        match rest with
        | h :: l :: rest' =>
            match hexDigitValue h, hexDigitValue l with
            | Some hi, Some lo =>
                let? out := decodeLoop rest' in
                Ok (Zbyte (Z.lor (Z.shiftl hi 4) lo) :: out)
            | _, _ => Err (NewErr "non-hex escape")
            end
        | _ => Err (NewErr "truncated escape")
        end
      else Err (NewErr "unescaped byte")
  end.

Definition DecodeKeyComponent (value : string) : result string :=
  if decide (value = KeyComponentEmptyMarker) then Ok ""
  else let? out := decodeLoop (chars value) in Ok (string_of_list_ascii out).

(** ** Lemmas *)

(** Decide a property of every byte by running through the 256 of them. *)
Definition all_bytes : list ascii := map (fun n => ascii_of_nat n) (seq 0 256).

Lemma all_bytes_complete c : c ∈ all_bytes.
Proof.
  unfold all_bytes. rewrite <- (ascii_nat_embedding c).
  apply (list_elem_of_fmap_2 (fun n => ascii_of_nat n)), elem_of_seq.
  pose proof (nat_ascii_bounded c). lia.
Qed.

Lemma byte_forall (p : ascii -> bool) :
  forallb p all_bytes = true -> forall c, p c = true.
Proof. rewrite forallb_forall. intros H c. apply H, list_elem_of_In, all_bytes_complete. Qed.

(** What one encoded byte looks like to the decoder. *)
Definition encodes_well (c : ascii) : bool :=
  match encodeByte c with
  | [d] => isSafeComponentByte c && bool_decide (d = c)
  | [p; h; l] =>
      negb (isSafeComponentByte p) && bool_decide (p = pct) &&
      bool_decide (p <> c \/ c = pct) &&
      match hexDigitValue h, hexDigitValue l with
      | Some hi, Some lo => bool_decide (Zbyte (Z.lor (Z.shiftl hi 4) lo) = c)
      | _, _ => false
      end
  | _ => false
  end.

Lemma encodeByte_well c : encodes_well c = true.
Proof. apply byte_forall. vm_compute. reflexivity. Qed.

Definition alphabet (c : ascii) : bool :=
  isSafeComponentByte c || bool_decide (c = pct).

Lemma encodeByte_alphabet c : forallb alphabet (encodeByte c) = true.
Proof. revert c. apply byte_forall. vm_compute. reflexivity. Qed.

Lemma decodeLoop_encodeByte c rest :
  decodeLoop (encodeByte c ++ rest) = (let? out := decodeLoop rest in Ok (c :: out)).
Proof.
  pose proof (encodeByte_well c) as H. unfold encodes_well in H.
  destruct (encodeByte c) as [|d [|h [|l [|? ?]]]]; try done.
  - bool_prop. subst d. cbn. by rewrite H.
  - destruct (hexDigitValue h) as [hi|] eqn:Eh; [|by bool_prop].
    destruct (hexDigitValue l) as [lo|] eqn:El; [|by bool_prop].
    bool_prop. subst d. cbn [decodeLoop app]. rewrite H, Eh, El.
    rewrite decide_True by done. f_equal. by subst c.
Qed.

Lemma decodeLoop_encode l : decodeLoop (concat (map encodeByte l)) = Ok l.
Proof.
  induction l as [|c l IH]; [done|]. simpl. rewrite decodeLoop_encodeByte, IH. done.
Qed.

Lemma encode_alphabet l : forallb alphabet (concat (map encodeByte l)) = true.
Proof.
  induction l as [|c l IH]; [done|]. simpl. rewrite forallb_app, IH, encodeByte_alphabet. done.
Qed.

Lemma encode_first_not_marker l : l <> [] -> string_of_list_ascii (concat (map encodeByte l)) <> "%".
Proof.
  intros Hl H%(f_equal chars). unfold chars in H. rewrite list_ascii_of_string_of_list_ascii in H.
  cbn in H. pose proof (decodeLoop_encode l) as Hd. rewrite H in Hd. vm_compute in Hd. discriminate.
Qed.

Lemma chars_nonempty value : value <> "" -> chars value <> [].
Proof. destruct value; done. Qed.

Lemma chars_string_of l : chars (string_of_list_ascii l) = l.
Proof. apply list_ascii_of_string_of_list_ascii. Qed.

Lemma decode_encode value : DecodeKeyComponent (EncodeKeyComponent value) = Ok value.
Proof.
  unfold EncodeKeyComponent. repeat case_decide; subst; try reflexivity.
  unfold DecodeKeyComponent. rewrite decide_False.
  - rewrite chars_string_of, decodeLoop_encode. simpl.
    unfold chars. by rewrite string_of_list_ascii_of_string.
  - by apply encode_first_not_marker, chars_nonempty.
Qed.

Lemma EncodeKeyComponent_alphabet value c :
  c ∈ chars (EncodeKeyComponent value) -> isSafeComponentByte c = true \/ c = pct.
Proof.
  intros Hc. assert (forallb alphabet (chars (EncodeKeyComponent value)) = true) as H.
  { unfold EncodeKeyComponent. repeat case_decide; try reflexivity.
    rewrite chars_string_of. apply encode_alphabet. }
  rewrite forallb_forall in H. specialize (H c). rewrite <- list_elem_of_In in H.
  specialize (H Hc). unfold alphabet in H. apply orb_true_iff in H as [H|H]; [auto|].
  right. by bool_prop.
Qed.

Lemma length_encodeByte c : (length (encodeByte c) <= 3)%nat.
Proof. unfold encodeByte. case_match; simpl; lia. Qed.

Lemma length_encode l : (length (concat (map encodeByte l)) <= 3 * length l)%nat.
Proof.
  induction l as [|c l IH]; [done|]. simpl. rewrite length_app.
  pose proof (length_encodeByte c). lia.
Qed.

Lemma length_EncodeKeyComponent value :
  value <> "" -> Zlen (EncodeKeyComponent value) <= 3 * Zlen value.
Proof.
  intros Hne. unfold EncodeKeyComponent.
  repeat case_decide; subst; try done; try (vm_compute; discriminate).
  rewrite !Zlen_chars, chars_string_of. pose proof (length_encode (chars value)). lia.
Qed.

(** ** Properties *)

(** Decoding an encoded key component returns the identifier it was
    encoded from, for every byte string; hence two different identifiers
    never share an archive key component. *)
Theorem key_component_roundtrip :
  (forall value, DecodeKeyComponent (EncodeKeyComponent value) = Ok value) /\
  (forall v w, EncodeKeyComponent v = EncodeKeyComponent w -> v = w).
Proof.
  split; [apply decode_encode|]. intros v w H.
  pose proof (decode_encode v) as Hv. rewrite H, decode_encode in Hv. by simplify_eq.
Qed.

(** An encoded component is one safe path segment: non-empty, no slash or
    backslash, never a traversal segment, and an identifier within the
    85-byte archive bound never exceeds the 255-byte file-name limit. *)
Theorem key_component_contained value :
  EncodeKeyComponent value <> "" /\ EncodeKeyComponent value <> "." /\
  EncodeKeyComponent value <> ".." /\
  no_char "/" (EncodeKeyComponent value) /\ no_char "\" (EncodeKeyComponent value) /\
  (Zlen value <= 85 -> Zlen (EncodeKeyComponent value) <= MaxFileStoreComponentBytes).
Proof.
  assert (forall s, EncodeKeyComponent value = s -> DecodeKeyComponent s = Ok value) as Hinv.
  { intros s <-. apply decode_encode. }
  split_and!.
  - intros H. pose proof (Hinv _ H) as Hv. vm_compute in Hv. by simplify_eq.
  - intros H. pose proof (Hinv _ H) as Hv. vm_compute in Hv. by simplify_eq.
  - intros H. pose proof (Hinv _ H) as Hv. vm_compute in Hv. by simplify_eq.
  - intros [Hc|Hc]%EncodeKeyComponent_alphabet; discriminate Hc.
  - intros [Hc|Hc]%EncodeKeyComponent_alphabet; discriminate Hc.
  - intros Hl. unfold MaxFileStoreComponentBytes.
    destruct (decide (value = "")) as [->|Hne]; [vm_compute; discriminate|].
    pose proof (length_EncodeKeyComponent value Hne). lia.
Qed.

(** A maximal identifier of escaped bytes meets the limit exactly. *)
Lemma key_component_contained_witness :
  let v := string_of_list_ascii (repeat (Zbyte 206) 85) in
  Zlen v <= 85 /\ Zlen (EncodeKeyComponent v) <= MaxFileStoreComponentBytes.
Proof.
  split; [vm_compute; discriminate|].
  apply (key_component_contained (string_of_list_ascii (repeat (Zbyte 206) 85))).
  vm_compute. discriminate.
Defined.

End KeyCodec.
