(* ===== verification/Domain.v ===== *)
(** * Domain model ([internal/domain])

    The records of models.go, governance.go and the dynamic values an event
    payload holds; the identifier rules of identifiers.go; the ingest caps of
    limits.go; Event.ValidateBasic, Event.Stream and the small total functions
    of export_status.go.

    Go maps are [gmap]s and slices are lists.  A map whose nilness the code
    tests ([Event.Payload]) is an [option]. *)

From Stdlib Require Import Ascii String.
From S2P Require Import Prelude GoStr.
Open Scope string_scope.
Open Scope Z_scope.

Module Domain.

(** ** Dynamic values

    What an [any] of the source can hold on the paths modelled here: the
    values encoding/json produces under UseNumber (nil, bool, json.Number,
    string, []any, map[string]any), the Go integers, times and finite floats a
    programmatic caller can put there, and the structs writeStruct walks.  A
    float is given by its shortest decimal [mantissa * 10^exponent], which is
    what strconv.FormatFloat(_, 'f', -1, _) prints.  A struct is the list of
    its exported fields: Go name, json tag and value.  [VRef] is a field of an
    interface or pointer type: nil, or what it refers to. *)
Inductive gofloat : Type :=
  | FNaN
  | FInf (negative : bool)
  | FDec (mantissa exponent : Z).

#[export] Instance gofloat_eq_dec : EqDecision gofloat.
Proof. solve_decision. Defined.

#[warnings="-register-all"]
Inductive value : Type :=
  | VNil
  | VBool (b : bool)
  | VInt (z : Z)
  | VFloat (f : gofloat)
  | VNumber (literal : string)
  | VString (s : string)
  | VTime (t : time)
  | VSlice (elems : option (list value))
  | VMap (entries : option (gmap string value))
  | VRef (elem : option value)
  | VStruct (fields : list (string * string * value)).

#[export] Instance value_eq_dec : EqDecision value.
Proof.
  refine (fix go x y : Decision (x = y) :=
    match x, y with
    | VNil, VNil => left eq_refl
    | VBool a, VBool b => cast_if (decide (a = b))
    | VInt a, VInt b => cast_if (decide (a = b))
    | VFloat a, VFloat b => cast_if (decide (a = b))
    | VNumber a, VNumber b => cast_if (decide (a = b))
    | VString a, VString b => cast_if (decide (a = b))
    | VTime a, VTime b => cast_if (decide (a = b))
    | VSlice a, VSlice b => cast_if (@option_eq_dec _ (@list_eq_dec _ go) a b)
    | VMap a, VMap b => cast_if (@option_eq_dec _ (@gmap_eq_dec _ _ _ _ go) a b)
    | VRef a, VRef b => cast_if (@option_eq_dec _ go a b)
    | VStruct a, VStruct b => cast_if (@list_eq_dec _ (@prod_eq_dec _ _ _ go) a b)
    | _, _ => right _
    end); clear go; abstract congruence.
Defined.

(** ** Records of models.go *)

Record Actor : Type := mkActor {
  ac_ID : string;
  ac_Type : string;
  ac_Name : string;
  ac_Department : string;
  ac_Roles : list string
}.

#[export] Instance Actor_eq_dec : EqDecision Actor.
Proof. solve_decision. Defined.

Record Target : Type := mkTarget {
  tg_Type : string;
  tg_ID : string;
  tg_Name : string
}.

#[export] Instance Target_eq_dec : EqDecision Target.
Proof. solve_decision. Defined.

Record FieldChange : Type := mkFieldChange {
  fc_Before : value;
  fc_After : value
}.

#[export] Instance FieldChange_eq_dec : EqDecision FieldChange.
Proof. solve_decision. Defined.

Record Event : Type := mkEvent {
  ev_EventID : string;
  ev_TenantID : string;
  ev_SourceSystem : string;
  ev_EventType : string;
  ev_SchemaID : string;
  ev_SchemaVersion : Z;
  ev_OccurredAt : time;
  ev_ReceivedAt : time;
  ev_OperationID : string;
  ev_CausationID : string;
  ev_CorrelationID : string;
  ev_TraceID : string;
  ev_SpanID : string;
  ev_Actor : Actor;
  ev_Targets : list Target;
  ev_AggregateType : string;
  ev_AggregateID : string;
  ev_AggregateVersion : Z;
  ev_WorkflowInstanceID : string;
  ev_ExecutionRunID : string;
  ev_Action : string;
  ev_Outcome : string;
  ev_Reason : string;
  ev_ChangedFields : gmap string FieldChange;
  ev_Payload : option (gmap string value);
  ev_PayloadRef : string;
  ev_SourceDigest : string;
  ev_DataClassification : string;
  ev_RetentionClass : string;
  ev_IdempotencyKey : string;
  ev_StreamID : string;
  ev_Sequence : Z;
  ev_PrevHash : string;
  ev_Hash : string;
  ev_ServerVersion : string
}.

#[export] Instance Event_eq_dec : EqDecision Event.
Proof. solve_decision. Defined.

Record EventReceipt : Type := mkEventReceipt {
  rc_EventID : string;
  rc_TenantID : string;
  rc_IdempotencyKey : string;
  rc_Status : string;
  rc_AcceptedAt : time;
  rc_LedgeredAt : time;
  rc_IndexedAt : time;
  rc_ArchivedAt : time;
  rc_StreamID : string;
  rc_Sequence : Z;
  rc_Hash : string;
  rc_Duplicate : bool;
  rc_Conflict : bool;
  rc_ErrorCode : string;
  rc_ErrorMessage : string
}.

#[export] Instance EventReceipt_eq_dec : EqDecision EventReceipt.
Proof. solve_decision. Defined.

Record DeadLetter : Type := mkDeadLetter {
  dl_TenantID : string;
  dl_EventID : string;
  dl_StreamID : string;
  dl_Sequence : Z;
  dl_Reason : string;
  dl_ErrorMessage : string;
  dl_At : time
}.

#[export] Instance DeadLetter_eq_dec : EqDecision DeadLetter.
Proof. solve_decision. Defined.

Record EventSchema : Type := mkEventSchema {
  sc_TenantID : string;
  sc_SchemaID : string;
  sc_Version : Z;
  sc_EventType : string;
  sc_RequiredFields : list string;
  sc_AllowedFields : list string;
  sc_EncryptedFields : list string;
  sc_SearchableFields : list string;
  sc_Classification : string;
  sc_Active : bool;
  sc_CreatedAt : time
}.

#[export] Instance EventSchema_eq_dec : EqDecision EventSchema.
Proof. solve_decision. Defined.

Record SourceSystem : Type := mkSourceSystem {
  so_ID : string;
  so_TenantID : string;
  so_Name : string;
  so_AllowedClientIDs : list string;
  so_Active : bool;
  so_CreatedAt : time
}.

#[export] Instance SourceSystem_eq_dec : EqDecision SourceSystem.
Proof. solve_decision. Defined.

Record IngestPrincipal : Type := mkIngestPrincipal {
  ip_ClientID : string
}.

#[export] Instance IngestPrincipal_eq_dec : EqDecision IngestPrincipal.
Proof. solve_decision. Defined.

Record Tenant : Type := mkTenant {
  tn_ID : string;
  tn_Name : string;
  tn_HomeRegion : string;
  tn_DataRegion : string;
  tn_Active : bool;
  tn_EventsPerSecond : Z;
  tn_Burst : Z;
  tn_CreatedAt : time
}.

#[export] Instance Tenant_eq_dec : EqDecision Tenant.
Proof. solve_decision. Defined.

Record RetentionPolicy : Type := mkRetentionPolicy {
  rp_TenantID : string;
  rp_HotDays : Z;
  rp_WarmDays : Z;
  rp_ArchiveDays : Z;
  rp_RetentionClass : string
}.

#[export] Instance RetentionPolicy_eq_dec : EqDecision RetentionPolicy.
Proof. solve_decision. Defined.

Record RetentionReport : Type := mkRetentionReport {
  rr_TenantID : string;
  rr_EvaluatedAt : time;
  rr_Policy : RetentionPolicy;
  rr_EligibleEvents : Z;
  rr_ProtectedEvents : Z;
  rr_HoldIDs : list string;
  rr_Action : string
}.

#[export] Instance RetentionReport_eq_dec : EqDecision RetentionReport.
Proof. solve_decision. Defined.

Record Query : Type := mkQuery {
  qy_From : time;
  qy_To : time;
  qy_EventType : string;
  qy_SourceSystem : string;
  qy_ActorID : string;
  qy_TargetID : string;
  qy_AggregateType : string;
  qy_AggregateID : string;
  qy_OperationID : string;
  qy_CausationID : string;
  qy_CorrelationID : string;
  qy_TraceID : string;
  qy_Outcome : string;
  qy_PayloadField : string;
  qy_PayloadDigest : string;
  qy_StreamID : string;
  qy_Cursor : string;
  qy_PageSize : Z
}.

#[export] Instance Query_eq_dec : EqDecision Query.
Proof. solve_decision. Defined.

Record LegalHold : Type := mkLegalHold {
  lh_ID : string;
  lh_TenantID : string;
  lh_Name : string;
  lh_Reason : string;
  lh_Filter : Query;
  lh_CreatedBy : string;
  lh_CreatedAt : time;
  lh_ReleasedAt : option time;
  lh_ReleasedBy : string
}.

#[export] Instance LegalHold_eq_dec : EqDecision LegalHold.
Proof. solve_decision. Defined.

Record Segment : Type := mkSegment {
  sg_TenantID : string;
  sg_StreamID : string;
  sg_FirstSequence : Z;
  sg_LastSequence : Z;
  sg_FirstPrevHash : string;
  sg_LastHash : string;
  sg_EventCount : Z;
  sg_MerkleRoot : string;
  sg_ManifestHash : string;
  sg_Signature : string;
  sg_CreatedAt : time
}.

#[export] Instance Segment_eq_dec : EqDecision Segment.
Proof. solve_decision. Defined.

Record Checkpoint : Type := mkCheckpoint {
  cp_ID : string;
  cp_TenantID : string;
  cp_StreamID : string;
  cp_Sequence : Z;
  cp_MerkleRoot : string;
  cp_Signature : string;
  cp_Algorithm : string;
  cp_CreatedAt : time
}.

#[export] Instance Checkpoint_eq_dec : EqDecision Checkpoint.
Proof. solve_decision. Defined.

Record CheckpointRef : Type := mkCheckpointRef {
  cr_StreamID : string;
  cr_CheckpointID : string;
  cr_Sequence : Z;
  cr_MerkleRoot : string
}.

#[export] Instance CheckpointRef_eq_dec : EqDecision CheckpointRef.
Proof. solve_decision. Defined.

Record AggregateCheckpoint : Type := mkAggregateCheckpoint {
  ag_ID : string;
  ag_TenantID : string;
  ag_StreamCount : Z;
  ag_Root : string;
  ag_Signature : string;
  ag_Algorithm : string;
  ag_CreatedAt : time;
  ag_StreamRoots : list string;
  ag_AttestationVersion : Z;
  ag_CheckpointRefs : list CheckpointRef
}.

#[export] Instance AggregateCheckpoint_eq_dec : EqDecision AggregateCheckpoint.
Proof. solve_decision. Defined.

Record ExportJob : Type := mkExportJob {
  ej_ID : string;
  ej_TenantID : string;
  ej_RequestedBy : string;
  ej_Query : Query;
  ej_Status : string;
  ej_RetryOf : string;
  ej_FailureCode : string;
  ej_CreatedAt : time;
  ej_StartedAt : option time;
  ej_FinishedAt : option time;
  ej_ObjectPath : string;
  ej_Digest : string;
  ej_EventCount : Z;
  ej_Error : string
}.

#[export] Instance ExportJob_eq_dec : EqDecision ExportJob.
Proof. solve_decision. Defined.

Record RestoreRequest : Type := mkRestoreRequest {
  rq_OperationID : string;
  rq_Reason : string
}.

#[export] Instance RestoreRequest_eq_dec : EqDecision RestoreRequest.
Proof. solve_decision. Defined.

Record RestoreRun : Type := mkRestoreRun {
  rn_ID : string;
  rn_TenantID : string;
  rn_OperationID : string;
  rn_Status : string;
  rn_Reason : string;
  rn_CreatedBy : string;
  rn_CreatedAt : time;
  rn_ApprovedBy : string;
  rn_ApprovedAt : option time;
  rn_RejectedBy : string;
  rn_RejectedAt : option time
}.

#[export] Instance RestoreRun_eq_dec : EqDecision RestoreRun.
Proof. solve_decision. Defined.

Record AdminAction : Type := mkAdminAction {
  aa_ID : string;
  aa_TenantID : string;
  aa_Actor : string;
  aa_Action : string;
  aa_TargetType : string;
  aa_TargetID : string;
  aa_Detail : string;
  aa_CreatedAt : time
}.

#[export] Instance AdminAction_eq_dec : EqDecision AdminAction.
Proof. solve_decision. Defined.

Record JobQuery : Type := mkJobQuery {
  jq_Status : string;
  jq_RequestedBy : string;
  jq_OperationID : string;
  jq_View : string;
  jq_From : time;
  jq_To : time;
  jq_Cursor : string;
  jq_PageSize : Z
}.

#[export] Instance JobQuery_eq_dec : EqDecision JobQuery.
Proof. solve_decision. Defined.

Record ExportSummary : Type := mkExportSummary {
  es_ID : string;
  es_TenantID : string;
  es_RequestedBy : string;
  es_Status : string;
  es_RetryOf : string;
  es_FailureCode : string;
  es_CreatedAt : time;
  es_StartedAt : option time;
  es_FinishedAt : option time
}.

#[export] Instance ExportSummary_eq_dec : EqDecision ExportSummary.
Proof. solve_decision. Defined.

(** Zero values, and the field updates of the source's assignments. *)
Definition zero_Actor : Actor := mkActor "" "" "" "" [].
Definition zero_Event : Event := mkEvent "" "" "" "" "" 0 0 0 "" "" "" "" "" zero_Actor [] "" "" 0 "" "" "" "" "" ∅ None "" "" "" "" "" "" 0 "" "" "".
Definition zero_EventReceipt : EventReceipt := mkEventReceipt "" "" "" "" 0 0 0 0 "" 0 "" false false "" "".
Definition zero_Query : Query := mkQuery 0 0 "" "" "" "" "" "" "" "" "" "" "" "" "" "" "" 0.
Definition zero_ExportJob : ExportJob := mkExportJob "" "" "" zero_Query "" "" "" 0 None None "" "" 0 "".

Definition set_ev_TenantID (x : Event) v : Event :=
  mkEvent (ev_EventID x) v (ev_SourceSystem x) (ev_EventType x) (ev_SchemaID x) (ev_SchemaVersion x) (ev_OccurredAt x) (ev_ReceivedAt x) (ev_OperationID x) (ev_CausationID x) (ev_CorrelationID x) (ev_TraceID x) (ev_SpanID x) (ev_Actor x) (ev_Targets x) (ev_AggregateType x) (ev_AggregateID x) (ev_AggregateVersion x) (ev_WorkflowInstanceID x) (ev_ExecutionRunID x) (ev_Action x) (ev_Outcome x) (ev_Reason x) (ev_ChangedFields x) (ev_Payload x) (ev_PayloadRef x) (ev_SourceDigest x) (ev_DataClassification x) (ev_RetentionClass x) (ev_IdempotencyKey x) (ev_StreamID x) (ev_Sequence x) (ev_PrevHash x) (ev_Hash x) (ev_ServerVersion x).
Definition set_ev_ReceivedAt (x : Event) v : Event :=
  mkEvent (ev_EventID x) (ev_TenantID x) (ev_SourceSystem x) (ev_EventType x) (ev_SchemaID x) (ev_SchemaVersion x) (ev_OccurredAt x) v (ev_OperationID x) (ev_CausationID x) (ev_CorrelationID x) (ev_TraceID x) (ev_SpanID x) (ev_Actor x) (ev_Targets x) (ev_AggregateType x) (ev_AggregateID x) (ev_AggregateVersion x) (ev_WorkflowInstanceID x) (ev_ExecutionRunID x) (ev_Action x) (ev_Outcome x) (ev_Reason x) (ev_ChangedFields x) (ev_Payload x) (ev_PayloadRef x) (ev_SourceDigest x) (ev_DataClassification x) (ev_RetentionClass x) (ev_IdempotencyKey x) (ev_StreamID x) (ev_Sequence x) (ev_PrevHash x) (ev_Hash x) (ev_ServerVersion x).
Definition set_ev_SourceDigest (x : Event) v : Event :=
  mkEvent (ev_EventID x) (ev_TenantID x) (ev_SourceSystem x) (ev_EventType x) (ev_SchemaID x) (ev_SchemaVersion x) (ev_OccurredAt x) (ev_ReceivedAt x) (ev_OperationID x) (ev_CausationID x) (ev_CorrelationID x) (ev_TraceID x) (ev_SpanID x) (ev_Actor x) (ev_Targets x) (ev_AggregateType x) (ev_AggregateID x) (ev_AggregateVersion x) (ev_WorkflowInstanceID x) (ev_ExecutionRunID x) (ev_Action x) (ev_Outcome x) (ev_Reason x) (ev_ChangedFields x) (ev_Payload x) (ev_PayloadRef x) v (ev_DataClassification x) (ev_RetentionClass x) (ev_IdempotencyKey x) (ev_StreamID x) (ev_Sequence x) (ev_PrevHash x) (ev_Hash x) (ev_ServerVersion x).
Definition set_ev_StreamID (x : Event) v : Event :=
  mkEvent (ev_EventID x) (ev_TenantID x) (ev_SourceSystem x) (ev_EventType x) (ev_SchemaID x) (ev_SchemaVersion x) (ev_OccurredAt x) (ev_ReceivedAt x) (ev_OperationID x) (ev_CausationID x) (ev_CorrelationID x) (ev_TraceID x) (ev_SpanID x) (ev_Actor x) (ev_Targets x) (ev_AggregateType x) (ev_AggregateID x) (ev_AggregateVersion x) (ev_WorkflowInstanceID x) (ev_ExecutionRunID x) (ev_Action x) (ev_Outcome x) (ev_Reason x) (ev_ChangedFields x) (ev_Payload x) (ev_PayloadRef x) (ev_SourceDigest x) (ev_DataClassification x) (ev_RetentionClass x) (ev_IdempotencyKey x) v (ev_Sequence x) (ev_PrevHash x) (ev_Hash x) (ev_ServerVersion x).
Definition set_ev_Sequence (x : Event) v : Event :=
  mkEvent (ev_EventID x) (ev_TenantID x) (ev_SourceSystem x) (ev_EventType x) (ev_SchemaID x) (ev_SchemaVersion x) (ev_OccurredAt x) (ev_ReceivedAt x) (ev_OperationID x) (ev_CausationID x) (ev_CorrelationID x) (ev_TraceID x) (ev_SpanID x) (ev_Actor x) (ev_Targets x) (ev_AggregateType x) (ev_AggregateID x) (ev_AggregateVersion x) (ev_WorkflowInstanceID x) (ev_ExecutionRunID x) (ev_Action x) (ev_Outcome x) (ev_Reason x) (ev_ChangedFields x) (ev_Payload x) (ev_PayloadRef x) (ev_SourceDigest x) (ev_DataClassification x) (ev_RetentionClass x) (ev_IdempotencyKey x) (ev_StreamID x) v (ev_PrevHash x) (ev_Hash x) (ev_ServerVersion x).
Definition set_ev_PrevHash (x : Event) v : Event :=
  mkEvent (ev_EventID x) (ev_TenantID x) (ev_SourceSystem x) (ev_EventType x) (ev_SchemaID x) (ev_SchemaVersion x) (ev_OccurredAt x) (ev_ReceivedAt x) (ev_OperationID x) (ev_CausationID x) (ev_CorrelationID x) (ev_TraceID x) (ev_SpanID x) (ev_Actor x) (ev_Targets x) (ev_AggregateType x) (ev_AggregateID x) (ev_AggregateVersion x) (ev_WorkflowInstanceID x) (ev_ExecutionRunID x) (ev_Action x) (ev_Outcome x) (ev_Reason x) (ev_ChangedFields x) (ev_Payload x) (ev_PayloadRef x) (ev_SourceDigest x) (ev_DataClassification x) (ev_RetentionClass x) (ev_IdempotencyKey x) (ev_StreamID x) (ev_Sequence x) v (ev_Hash x) (ev_ServerVersion x).
Definition set_ev_Hash (x : Event) v : Event :=
  mkEvent (ev_EventID x) (ev_TenantID x) (ev_SourceSystem x) (ev_EventType x) (ev_SchemaID x) (ev_SchemaVersion x) (ev_OccurredAt x) (ev_ReceivedAt x) (ev_OperationID x) (ev_CausationID x) (ev_CorrelationID x) (ev_TraceID x) (ev_SpanID x) (ev_Actor x) (ev_Targets x) (ev_AggregateType x) (ev_AggregateID x) (ev_AggregateVersion x) (ev_WorkflowInstanceID x) (ev_ExecutionRunID x) (ev_Action x) (ev_Outcome x) (ev_Reason x) (ev_ChangedFields x) (ev_Payload x) (ev_PayloadRef x) (ev_SourceDigest x) (ev_DataClassification x) (ev_RetentionClass x) (ev_IdempotencyKey x) (ev_StreamID x) (ev_Sequence x) (ev_PrevHash x) v (ev_ServerVersion x).
Definition set_ev_ServerVersion (x : Event) v : Event :=
  mkEvent (ev_EventID x) (ev_TenantID x) (ev_SourceSystem x) (ev_EventType x) (ev_SchemaID x) (ev_SchemaVersion x) (ev_OccurredAt x) (ev_ReceivedAt x) (ev_OperationID x) (ev_CausationID x) (ev_CorrelationID x) (ev_TraceID x) (ev_SpanID x) (ev_Actor x) (ev_Targets x) (ev_AggregateType x) (ev_AggregateID x) (ev_AggregateVersion x) (ev_WorkflowInstanceID x) (ev_ExecutionRunID x) (ev_Action x) (ev_Outcome x) (ev_Reason x) (ev_ChangedFields x) (ev_Payload x) (ev_PayloadRef x) (ev_SourceDigest x) (ev_DataClassification x) (ev_RetentionClass x) (ev_IdempotencyKey x) (ev_StreamID x) (ev_Sequence x) (ev_PrevHash x) (ev_Hash x) v.
Definition set_ev_Payload (x : Event) v : Event :=
  mkEvent (ev_EventID x) (ev_TenantID x) (ev_SourceSystem x) (ev_EventType x) (ev_SchemaID x) (ev_SchemaVersion x) (ev_OccurredAt x) (ev_ReceivedAt x) (ev_OperationID x) (ev_CausationID x) (ev_CorrelationID x) (ev_TraceID x) (ev_SpanID x) (ev_Actor x) (ev_Targets x) (ev_AggregateType x) (ev_AggregateID x) (ev_AggregateVersion x) (ev_WorkflowInstanceID x) (ev_ExecutionRunID x) (ev_Action x) (ev_Outcome x) (ev_Reason x) (ev_ChangedFields x) v (ev_PayloadRef x) (ev_SourceDigest x) (ev_DataClassification x) (ev_RetentionClass x) (ev_IdempotencyKey x) (ev_StreamID x) (ev_Sequence x) (ev_PrevHash x) (ev_Hash x) (ev_ServerVersion x).

Definition set_rc_TenantID (x : EventReceipt) v : EventReceipt :=
  mkEventReceipt (rc_EventID x) v (rc_IdempotencyKey x) (rc_Status x) (rc_AcceptedAt x) (rc_LedgeredAt x) (rc_IndexedAt x) (rc_ArchivedAt x) (rc_StreamID x) (rc_Sequence x) (rc_Hash x) (rc_Duplicate x) (rc_Conflict x) (rc_ErrorCode x) (rc_ErrorMessage x).
Definition set_rc_Status (x : EventReceipt) v : EventReceipt :=
  mkEventReceipt (rc_EventID x) (rc_TenantID x) (rc_IdempotencyKey x) v (rc_AcceptedAt x) (rc_LedgeredAt x) (rc_IndexedAt x) (rc_ArchivedAt x) (rc_StreamID x) (rc_Sequence x) (rc_Hash x) (rc_Duplicate x) (rc_Conflict x) (rc_ErrorCode x) (rc_ErrorMessage x).
Definition set_rc_LedgeredAt (x : EventReceipt) v : EventReceipt :=
  mkEventReceipt (rc_EventID x) (rc_TenantID x) (rc_IdempotencyKey x) (rc_Status x) (rc_AcceptedAt x) v (rc_IndexedAt x) (rc_ArchivedAt x) (rc_StreamID x) (rc_Sequence x) (rc_Hash x) (rc_Duplicate x) (rc_Conflict x) (rc_ErrorCode x) (rc_ErrorMessage x).
Definition set_rc_IndexedAt (x : EventReceipt) v : EventReceipt :=
  mkEventReceipt (rc_EventID x) (rc_TenantID x) (rc_IdempotencyKey x) (rc_Status x) (rc_AcceptedAt x) (rc_LedgeredAt x) v (rc_ArchivedAt x) (rc_StreamID x) (rc_Sequence x) (rc_Hash x) (rc_Duplicate x) (rc_Conflict x) (rc_ErrorCode x) (rc_ErrorMessage x).
Definition set_rc_ArchivedAt (x : EventReceipt) v : EventReceipt :=
  mkEventReceipt (rc_EventID x) (rc_TenantID x) (rc_IdempotencyKey x) (rc_Status x) (rc_AcceptedAt x) (rc_LedgeredAt x) (rc_IndexedAt x) v (rc_StreamID x) (rc_Sequence x) (rc_Hash x) (rc_Duplicate x) (rc_Conflict x) (rc_ErrorCode x) (rc_ErrorMessage x).
Definition set_rc_Duplicate (x : EventReceipt) v : EventReceipt :=
  mkEventReceipt (rc_EventID x) (rc_TenantID x) (rc_IdempotencyKey x) (rc_Status x) (rc_AcceptedAt x) (rc_LedgeredAt x) (rc_IndexedAt x) (rc_ArchivedAt x) (rc_StreamID x) (rc_Sequence x) (rc_Hash x) v (rc_Conflict x) (rc_ErrorCode x) (rc_ErrorMessage x).
Definition set_rc_Conflict (x : EventReceipt) v : EventReceipt :=
  mkEventReceipt (rc_EventID x) (rc_TenantID x) (rc_IdempotencyKey x) (rc_Status x) (rc_AcceptedAt x) (rc_LedgeredAt x) (rc_IndexedAt x) (rc_ArchivedAt x) (rc_StreamID x) (rc_Sequence x) (rc_Hash x) (rc_Duplicate x) v (rc_ErrorCode x) (rc_ErrorMessage x).
Definition set_rc_ErrorCode (x : EventReceipt) v : EventReceipt :=
  mkEventReceipt (rc_EventID x) (rc_TenantID x) (rc_IdempotencyKey x) (rc_Status x) (rc_AcceptedAt x) (rc_LedgeredAt x) (rc_IndexedAt x) (rc_ArchivedAt x) (rc_StreamID x) (rc_Sequence x) (rc_Hash x) (rc_Duplicate x) (rc_Conflict x) v (rc_ErrorMessage x).
Definition set_rc_ErrorMessage (x : EventReceipt) v : EventReceipt :=
  mkEventReceipt (rc_EventID x) (rc_TenantID x) (rc_IdempotencyKey x) (rc_Status x) (rc_AcceptedAt x) (rc_LedgeredAt x) (rc_IndexedAt x) (rc_ArchivedAt x) (rc_StreamID x) (rc_Sequence x) (rc_Hash x) (rc_Duplicate x) (rc_Conflict x) (rc_ErrorCode x) v.

(** ** Constants *)
Definition StatusReceived : string := "received".
Definition StatusAccepted : string := "accepted".
Definition StatusLedgered : string := "ledgered".
Definition StatusIndexed : string := "indexed".
Definition StatusArchived : string := "archived".
Definition StatusFailed : string := "failed".
Definition MaxEventBytes : Z := 256 * 1024.
Definition DefaultPageSize : Z := 100.
Definition MaxPageSize : Z := 1000.
Definition MaxTimelineEvents : Z := 10000.
Definition MaxArchiveComponentBytes : Z := 85.
Definition RestoreStatusPendingApproval : string := "pending_approval".
Definition RestoreStatusApproved : string := "approved".
Definition RestoreStatusRejected : string := "rejected".

(** 1900-01-01T00:00:00Z and 2299-12-31T23:59:59.999Z, in nanoseconds since
    0001-01-01T00:00:00Z (693595 and 839691 whole days). *)
Definition Day : Z := 24 * Hour.
Definition MinOccurredAt : time := 693595 * Day.
Definition MaxOccurredAt : time := 839691 * Day + (23 * Hour + 59 * Minute + 59 * Second + 999000000).

Definition invalid (msg : string) : error := Wrapf (Sentinel ErrInvalid) msg.

(** ** identifiers.go *)

Definition runeOk (r : Z) : bool :=
  negb (IsControl r) && negb (IsSpace r) && negb ((r =? 47) || (r =? 92)).

(** The switch of the loop body, on one rune. *)
Definition keyRuneError (r : Z) : option error :=
  if IsControl r then Some (invalid "must not contain control characters")
  else if IsSpace r then Some (invalid "must not contain whitespace")
  else if (r =? 47) || (r =? 92) then Some (invalid "must not contain path separators")
  else None.

Fixpoint keyRunesError (rs : list Z) : result unit :=
  match rs with
  | [] => Ok tt
  | r :: rs => match keyRuneError r with Some e => Err e | None => keyRunesError rs end
  end.

Definition ValidKeyComponent (value : string) : result unit := keyRunesError (runes value).

Definition ValidArchiveComponentLength (value : string) : result unit :=
  guard_err (Zlen value <=? MaxArchiveComponentBytes) (invalid "archive component limit").

Definition ValidStreamComponent (value : string) : result unit :=
  ValidKeyComponent value ;?
  guard_err (negb (contains_char ":" value)) (invalid "must not contain ':'") ;?
  ValidArchiveComponentLength value.

Definition ValidTenantIDComponent (value : string) : result unit :=
  ValidKeyComponent value ;?
  guard_err (negb (contains_char ":" value)) (invalid "must not contain ':'") ;?
  ValidArchiveComponentLength value.

(** ** Event.ValidateBasic and Event.Stream *)

(** The source ranges over a Go map here, so which blank field is named is
    unspecified; the error does not name one. *)
Definition requiredFields (e : Event) : list string :=
  [ev_EventID e; ev_SourceSystem e; ev_EventType e; ev_SchemaID e; ev_Action e;
   ev_Outcome e; ev_DataClassification e; ev_RetentionClass e; ev_IdempotencyKey e].

Definition whenSet (value : string) (check : string -> result unit) : result unit :=
  if decide (value = "") then Ok tt else check value.

Definition ValidateBasic (e : Event) : result unit :=
  guard_err (forallb (fun v => negb (bool_decide (TrimSpace v = ""))) (requiredFields e))
    (invalid "field is required") ;?
  ValidKeyComponent (ev_EventID e) ;?
  ValidKeyComponent (ev_SourceSystem e) ;?
  ValidArchiveComponentLength (ev_EventID e) ;?
  ValidArchiveComponentLength (ev_SourceSystem e) ;?
  whenSet (ev_AggregateType e) ValidStreamComponent ;?
  whenSet (ev_AggregateID e) ValidStreamComponent ;?
  whenSet (ev_OperationID e) (fun v => ValidKeyComponent v ;? ValidArchiveComponentLength v) ;?
  guard_err (negb (ev_SchemaVersion e <=? 0)) (invalid "schema_version must be positive") ;?
  guard_err (negb (time_IsZero (ev_OccurredAt e))) (invalid "occurred_at is required") ;?
  guard_err (negb (time_Before (ev_OccurredAt e) MinOccurredAt || time_After (ev_OccurredAt e) MaxOccurredAt))
    (Wrapf (Sentinel ErrOccurredAtOutOfRange) "occurred_at is outside the ledger horizon") ;?
  guard_err (negb (bool_decide (ac_ID (ev_Actor e) = ""))) (invalid "actor.id is required") ;?
  guard_err (negb (bool_decide (ev_Payload e = None) && bool_decide (ev_PayloadRef e = "")))
    (invalid "payload or payload_ref is required").

Definition Stream (e : Event) : string :=
  if negb (bool_decide (ev_StreamID e = "")) then ev_StreamID e
  else if negb (bool_decide (ev_AggregateType e = "")) && negb (bool_decide (ev_AggregateID e = ""))
  then ev_TenantID e ++ ":aggregate:" ++ ev_AggregateType e ++ ":" ++ ev_AggregateID e
  else if negb (bool_decide (ev_OperationID e = ""))
  then ev_TenantID e ++ ":operation:" ++ ev_OperationID e
  else ev_TenantID e ++ ":source:" ++ ev_SourceSystem e.

(** ** SourceSystem.AllowsClient *)
Definition AllowsClient (s : SourceSystem) (clientID : string) : bool :=
  if decide (clientID = "") then false
  else match so_AllowedClientIDs s with
       | [] => bool_decide (clientID = so_ID s)
       | allowed => existsb (fun a => bool_decide (clientID = a)) allowed
       end.

(** ** export_status.go *)
Definition ExportStatusCancelled : string := "cancelled".
Definition ExportFailureExecution : string := "execution_failed".
Definition ExportFailureLegalHold : string := "legal_hold".
Definition ExportFailureLease : string := "lease_expired".
Definition ExportFailureLegacy : string := "legacy_stuck".
Definition ExportFailureCancelled : string := "cancelled".
Definition ExportFailureUnknown : string := "unknown".

Definition publicCodes : list string :=
  [""; ExportFailureExecution; ExportFailureLegalHold; ExportFailureLease;
   ExportFailureLegacy; ExportFailureCancelled; ExportFailureUnknown].

Definition PublicExportFailureCode (code : string) : string :=
  if bool_decide (code ∈ publicCodes) then code else ExportFailureUnknown.

Definition SummarizeExport (job : ExportJob) : ExportSummary :=
  mkExportSummary (ej_ID job) (ej_TenantID job) (ej_RequestedBy job) (ej_Status job)
    (ej_RetryOf job) (PublicExportFailureCode (ej_FailureCode job))
    (ej_CreatedAt job) (ej_StartedAt job) (ej_FinishedAt job).

End Domain.
