(* ===== verification/Canonical.v ===== *)
(** * Canonical JSON and event digests (internal/domain/canonical.go)

    [CanonicalJSON] over the dynamic values of [Domain.value]: writeCanonical,
    writeStruct with its json tags and omitempty rules, and the content digest
    of an event.  A Go value is written field by field into one buffer; here
    each child's text is computed and the texts are joined, and the first error
    in writing order is the result.

    [denote] gives a value its JSON meaning: numbers are rationals, times are
    instants, an object is the list of its members in key order.
    CanonicalProps shows that the bytes and the meaning determine each other. *)

From Stdlib Require Import Ascii String QArith Qcanon.
From S2P Require Import Prelude GoStr Sha256 Json Number TimeFmt Domain.
Open Scope string_scope.
Open Scope Z_scope.
Import Domain.

#[local] Arguments String.append !_ _ / : simpl nomatch.

Module Canonical.

(** ** Struct fields *)

(** [strings.Split(tag, ",")]. *)
Fixpoint splitComma (l : list ascii) : list string :=
  match l with
  | [] => [""]
  | c :: l =>
      match splitComma l with
      | [] => []
      | w :: ws => if Ascii.eqb c ","%char then "" :: w :: ws else String c w :: ws
      end
  end.

Definition jsonFieldName (goName tag : string) : string * bool :=
  if bool_decide (tag = "-") then ("", false)
  else
    match splitComma (chars tag) with
    | [] => (goName, false)
    | name :: opts =>
        (if bool_decide (name = "") then goName else name,
         existsb (fun opt => bool_decide (opt = "omitempty")) opts)
    end.

Definition jsonIsEmptyValue (v : value) : bool :=
  match v with
  | VString s | VNumber s => bool_decide (s = "")
  | VBool b => negb b
  | VInt z => z =? 0
  | VFloat (FDec m _) => m =? 0
  | VSlice (Some []) | VSlice None => true
  | VMap (Some m) => bool_decide (m = ∅)
  | VMap None => true
  | VRef None | VNil => true
  | _ => false
  end.

(** ** Joining *)

Definition key_leb {A} (x y : string * A) : bool := str_leb x.1 y.1.

(** Elements separated by commas, stopping at the first error. *)
Fixpoint joinTexts (l : list (result string)) : result string :=
  match l with
  | [] => Ok ""
  | [x] => x
  | x :: l => let? s := x in let? r := joinTexts l in Ok (s ++ "," ++ r)
  end.

Definition writeMember (kv : string * result string) : result string :=
  let? t := kv.2 in Ok (Json.writeString kv.1 ++ ":" ++ t).

Definition writeArray (l : list (result string)) : result string :=
  let? body := joinTexts l in Ok ("[" ++ body ++ "]").

(** Members in ascending key order. *)
Definition writeMembers (l : list (string * result string)) : result string :=
  let? body := joinTexts (map writeMember (stable_sort key_leb l)) in
  Ok ("{" ++ body ++ "}").

(** ** writeCanonical *)

Definition writeFloat (f : gofloat) : result string :=
  match f with
  | FNaN | FInf _ => Err (NewErr "non-finite number is not valid JSON")
  | FDec m e => Ok (Number.formatFloat m e)
  end.

(** The fields writeStruct keeps, each with its output name. *)
Definition keptField {A} (f : string * string * value) (child : A) : list (string * A) :=
  let '(goName, tag, v) := f in
  let '(name, omit) := jsonFieldName goName tag in
  if bool_decide (name = "") then []
  else if omit && jsonIsEmptyValue v then []
  else [(name, child)].

Fixpoint writeCanonical (v : value) : result string :=
  match v with
  | VNil => Ok "null"
  | VRef None => Ok "null"
  | VRef (Some v) => writeCanonical v
  | VTime t => Ok (Json.writeString (TimeFmt.FormatRFC3339Nano t))
  | VNumber n => Number.writeNumber n
  | VString s => Ok (Json.writeString s)
  | VBool b => Ok (if b then "true" else "false")
  | VInt z => Ok (Itoa z)
  | VFloat f => writeFloat f
  | VSlice None => Ok "null"
  | VSlice (Some l) => writeArray (map writeCanonical l)
  | VMap None => Ok "null"
  | VMap (Some m) => writeMembers (map_fold (fun k v acc => (k, writeCanonical v) :: acc) [] m)
  | VStruct fields =>
      writeMembers (flat_map (fun f => keptField f (writeCanonical f.2)) fields)
  end.

Definition CanonicalJSON (v : value) : result string := writeCanonical v.

(** ** The structs that are hashed: their fields and tags *)

Definition strField (name tag text : string) : string * string * value := (name, tag, VString text).
Definition strings (l : list string) : value := VSlice (Some (map VString l)).

Definition ActorValue (a : Actor) : value := VStruct [
  strField "ID" "id" (ac_ID a);
  strField "Type" "type,omitempty" (ac_Type a);
  strField "Name" "name,omitempty" (ac_Name a);
  strField "Department" "department,omitempty" (ac_Department a);
  ("Roles", "roles,omitempty", strings (ac_Roles a))].

Definition TargetValue (t : Target) : value := VStruct [
  strField "Type" "type" (tg_Type t);
  strField "ID" "id" (tg_ID t);
  strField "Name" "name,omitempty" (tg_Name t)].

(** An [any] field: nil is omitted, anything else is written. *)
Definition anyField (v : value) : value :=
  match v with VNil => VRef None | _ => VRef (Some v) end.

Definition FieldChangeValue (c : FieldChange) : value := VStruct [
  ("Before", "before,omitempty", anyField (fc_Before c));
  ("After", "after,omitempty", anyField (fc_After c))].

Definition EventValue (e : Event) : value := VStruct [
  strField "EventID" "event_id" (ev_EventID e);
  strField "TenantID" "tenant_id" (ev_TenantID e);
  strField "SourceSystem" "source_system" (ev_SourceSystem e);
  strField "EventType" "event_type" (ev_EventType e);
  strField "SchemaID" "schema_id" (ev_SchemaID e);
  ("SchemaVersion", "schema_version", VInt (ev_SchemaVersion e));
  ("OccurredAt", "occurred_at", VTime (ev_OccurredAt e));
  ("ReceivedAt", "received_at", VTime (ev_ReceivedAt e));
  strField "OperationID" "operation_id,omitempty" (ev_OperationID e);
  strField "CausationID" "causation_id,omitempty" (ev_CausationID e);
  strField "CorrelationID" "correlation_id,omitempty" (ev_CorrelationID e);
  strField "TraceID" "trace_id,omitempty" (ev_TraceID e);
  strField "SpanID" "span_id,omitempty" (ev_SpanID e);
  ("Actor", "actor", ActorValue (ev_Actor e));
  ("Targets", "targets,omitempty", VSlice (Some (map TargetValue (ev_Targets e))));
  strField "AggregateType" "aggregate_type,omitempty" (ev_AggregateType e);
  strField "AggregateID" "aggregate_id,omitempty" (ev_AggregateID e);
  ("AggregateVersion", "aggregate_version,omitempty", VInt (ev_AggregateVersion e));
  strField "WorkflowInstanceID" "workflow_instance_id,omitempty" (ev_WorkflowInstanceID e);
  strField "ExecutionRunID" "execution_run_id,omitempty" (ev_ExecutionRunID e);
  strField "Action" "action" (ev_Action e);
  strField "Outcome" "outcome" (ev_Outcome e);
  strField "Reason" "reason,omitempty" (ev_Reason e);
  ("ChangedFields", "changed_fields,omitempty", VMap (Some (FieldChangeValue <$> ev_ChangedFields e)));
  ("Payload", "payload,omitempty", VMap (ev_Payload e));
  strField "PayloadRef" "payload_ref,omitempty" (ev_PayloadRef e);
  strField "SourceDigest" "source_digest,omitempty" (ev_SourceDigest e);
  strField "DataClassification" "data_classification" (ev_DataClassification e);
  strField "RetentionClass" "retention_class" (ev_RetentionClass e);
  strField "IdempotencyKey" "idempotency_key" (ev_IdempotencyKey e);
  strField "StreamID" "stream_id,omitempty" (ev_StreamID e);
  ("Sequence", "sequence,omitempty", VInt (ev_Sequence e));
  strField "PrevHash" "prev_hash,omitempty" (ev_PrevHash e);
  strField "Hash" "hash,omitempty" (ev_Hash e);
  strField "ServerVersion" "server_version,omitempty" (ev_ServerVersion e)].

(** ** Digests *)

(** [copyEvent] with the seven processing fields zeroed. *)
Definition contentEvent (e : Event) : Event :=
  mkEvent (ev_EventID e) (ev_TenantID e) (ev_SourceSystem e) (ev_EventType e) (ev_SchemaID e)
    (ev_SchemaVersion e) (ev_OccurredAt e) 0 (ev_OperationID e) (ev_CausationID e)
    (ev_CorrelationID e) (ev_TraceID e) (ev_SpanID e) (ev_Actor e) (ev_Targets e)
    (ev_AggregateType e) (ev_AggregateID e) (ev_AggregateVersion e) (ev_WorkflowInstanceID e)
    (ev_ExecutionRunID e) (ev_Action e) (ev_Outcome e) (ev_Reason e) (ev_ChangedFields e)
    (ev_Payload e) (ev_PayloadRef e) "" (ev_DataClassification e) (ev_RetentionClass e)
    (ev_IdempotencyKey e) "" 0 "" "" "".

Definition EventContentDigest (e : Event) : result string :=
  let? data := CanonicalJSON (EventValue (contentEvent e)) in
  Ok (Sha256.HashBytes data).

Definition EventDigest (e : Event) : result string :=
  if bool_decide (ev_SourceDigest e = "") then EventContentDigest e else Ok (ev_SourceDigest e).

Example CanonicalJSON_ex :
  CanonicalJSON (VStruct [
    ("B", "b", VMap (Some {["y" := VNumber "1.50"; "x" := VInt (-3)]}));
    ("A", "a,omitempty", VString ""); ("Hidden", "-", VInt 1);
    ("C", ",omitempty", VRef (Some (VString ""))); ("L", "", VSlice (Some [VBool true; VNil; VFloat (FDec 25 (-1))]))])
  = Ok (Json.str (map (fun c => if Ascii.eqb c "'"%char then Json.quote else c)
     (chars "{'C':'','L':[true,null,2.5],'b':{'x':-3,'y':1.5}}"))).
Proof. vm_compute. reflexivity. Qed.

End Canonical.
