(* ===== verification/CanonicalProps.v ===== *)
(** * Canonical bytes and JSON meaning determine each other

    [denote] is the JSON meaning of a value, [Writes] the grammar of canonical
    JSON over meanings.  The grammar is unambiguous and functional, and
    writeCanonical produces a text of the grammar; so two accepted values have
    the same bytes exactly when they mean the same, and two events have the
    same content digest only when their contents agree or a SHA-256 collision
    is at hand. *)

From Stdlib Require Import Ascii String QArith Qcanon.
From S2P Require Import Prelude GoStr Sha256 Json Number TimeFmt Domain Canonical.
Open Scope string_scope.
Open Scope Z_scope.
Import Domain Canonical.

#[local] Arguments String.append !_ _ / : simpl nomatch.

Module CanonicalProps.

(** ** Meaning *)

#[warnings="-register-all"]
Inductive jtree : Type :=
  | JNull
  | JBool (b : bool)
  | JNum (q : Qc)
  | JStr (s : string)
  | JArr (elems : list jtree)
  | JObj (members : list (string * jtree)).

Fixpoint denote (v : value) : jtree :=
  match v with
  | VNil | VRef None | VSlice None | VMap None => JNull
  | VRef (Some v) => denote v
  | VTime t => JStr (TimeFmt.FormatRFC3339Nano t)
  | VNumber n => match Number.literal_value n with Some q => JNum q | None => JNull end
  | VString s => JStr s
  | VBool b => JBool b
  | VInt z => JNum (Number.decQ z 0)
  | VFloat (FDec m e) => JNum (Number.decQ m e)
  | VFloat _ => JNull
  | VSlice (Some l) => JArr (map denote l)
  | VMap (Some m) => JObj (stable_sort key_leb (map_fold (fun k v acc => (k, denote v) :: acc) [] m))
  | VStruct fields => JObj (stable_sort key_leb (flat_map (fun f => keptField f (denote f.2)) fields))
  end.

(** Every string and key is valid UTF-8, as every decoder of the program
    guarantees. *)
Fixpoint utf8_ok (v : value) : bool :=
  match v with
  | VString s => Json.valid_utf8 s
  | VRef (Some v) => utf8_ok v
  | VSlice (Some l) => forallb utf8_ok l
  | VMap (Some m) => map_fold (fun k v acc => Json.valid_utf8 k && utf8_ok v && acc) true m
  | VStruct fields =>
      forallb (fun f => Json.valid_utf8 (jsonFieldName f.1.1 f.1.2).1 && utf8_ok f.2) fields
  | _ => true
  end.

(** ** Members of maps and structs *)

Definition on_value {A B} (f : A -> B) (kv : string * A) : string * B := (kv.1, f kv.2).

Lemma sort_insert_on_value {A B} (f : A -> B) x l :
  sort_insert key_leb (on_value f x) (map (on_value f) l) = map (on_value f) (sort_insert key_leb x l).
Proof.
  induction l as [|y l IH]; [done|]. cbn [map sort_insert]. unfold key_leb at 1 3. cbn [on_value fst].
  destruct (str_leb _ _); [done|]. cbn [map]. by rewrite IH.
Qed.

Lemma stable_sort_on_value {A B} (f : A -> B) l :
  stable_sort key_leb (map (on_value f) l) = map (on_value f) (stable_sort key_leb l).
Proof. induction l as [|x l IH]; [done|]. cbn. rewrite <- sort_insert_on_value. by f_equal. Qed.

Lemma map_fold_on_value {A B} (f : A -> B) (m : gmap string A) :
  map_fold (fun k v acc => (k, f v) :: acc) [] m = map (on_value f) (map_to_list m).
Proof. rewrite map_fold_foldr. induction (map_to_list m) as [|[k v] l IH]; [done|]. cbn in *. by rewrite IH. Qed.

Definition kept (fields : list (string * string * value)) : list (string * value) :=
  flat_map (fun f => keptField f f.2) fields.

Lemma keptField_on_value {B} (g : value -> B) f : keptField f (g f.2) = map (on_value g) (keptField f f.2).
Proof. destruct f as [[goName tag] v]. unfold keptField. destruct (jsonFieldName goName tag). by repeat case_match. Qed.

Lemma kept_on_value {B} (g : value -> B) fields :
  flat_map (fun f => keptField f (g f.2)) fields = map (on_value g) (kept fields).
Proof.
  unfold kept. induction fields as [|f fields IH]; [done|]. cbn [flat_map].
  by rewrite map_app, keptField_on_value, IH.
Qed.

(** What a map or a struct writes: its members in key order. *)
Definition members (v : value) : list (string * value) :=
  match v with
  | VMap (Some m) => stable_sort key_leb (map_to_list m)
  | VStruct fields => stable_sort key_leb (kept fields)
  | _ => []
  end.

Lemma writeMap_members m : writeCanonical (VMap (Some m)) =
  let? body := joinTexts (map (fun kv => writeMember (on_value writeCanonical kv)) (members (VMap (Some m)))) in
  Ok ("{" ++ body ++ "}").
Proof.
  cbn [writeCanonical]. unfold writeMembers. rewrite map_fold_on_value, stable_sort_on_value, map_map. done.
Qed.

Lemma writeStruct_members fields : writeCanonical (VStruct fields) =
  let? body := joinTexts (map (fun kv => writeMember (on_value writeCanonical kv)) (members (VStruct fields))) in
  Ok ("{" ++ body ++ "}").
Proof. cbn [writeCanonical]. unfold writeMembers. by rewrite kept_on_value, stable_sort_on_value, map_map. Qed.

Lemma denote_map_members m : denote (VMap (Some m)) = JObj (map (on_value denote) (members (VMap (Some m)))).
Proof. cbn [denote]. by rewrite map_fold_on_value, stable_sort_on_value. Qed.

Lemma denote_struct_members fields :
  denote (VStruct fields) = JObj (map (on_value denote) (members (VStruct fields))).
Proof. cbn [denote]. by rewrite kept_on_value, stable_sort_on_value. Qed.

Lemma utf8_map_members m kv : utf8_ok (VMap (Some m)) = true -> kv ∈ members (VMap (Some m)) ->
  Json.valid_utf8 kv.1 = true /\ utf8_ok kv.2 = true.
Proof.
  cbn [utf8_ok members]. rewrite map_fold_foldr, stable_sort_perm.
  generalize (map_to_list m). intros l. induction l as [|[k v] l IH]; cbn; intros H Hin; [by inversion Hin|].
  apply andb_true_iff in H as [[Hk Hv]%andb_true_iff Hl]. apply elem_of_cons in Hin as [->|Hin]; [done|]. by apply IH.
Qed.

Lemma utf8_struct_members fields kv : utf8_ok (VStruct fields) = true -> kv ∈ members (VStruct fields) ->
  Json.valid_utf8 kv.1 = true /\ utf8_ok kv.2 = true.
Proof.
  cbn [utf8_ok members]. rewrite stable_sort_perm, forallb_forall. unfold kept. intros H Hin.
  apply list_elem_of_In, in_flat_map in Hin as (f & Hf & Hin). specialize (H f Hf).
  apply andb_true_iff in H as [Hk Hv]. destruct f as [[goName tag] v]. unfold keptField in Hin. cbn in *.
  destruct (jsonFieldName goName tag) as [name omit]. repeat case_match; try (by destruct Hin).
  destruct Hin as [<-|[]]. done.
Qed.

(** ** Induction on meanings *)

Definition jtree_ind' (P : jtree -> Prop)
  (Hnull : P JNull) (Hbool : forall b, P (JBool b)) (Hnum : forall q, P (JNum q))
  (Hstr : forall s, P (JStr s)) (Harr : forall l, Forall P l -> P (JArr l))
  (Hobj : forall l, Forall (fun kv => P kv.2) l -> P (JObj l)) : forall t, P t :=
  fix go t := match t with
    | JNull => Hnull
    | JBool b => Hbool b
    | JNum q => Hnum q
    | JStr s => Hstr s
    | JArr l => Harr l ((fix gl l : Forall P l :=
        match l with [] => Forall_nil_2 _ | x :: l => Forall_cons_2 _ x l (go x) (gl l) end) l)
    | JObj l => Hobj l ((fix gl l : Forall (fun kv : string * jtree => P kv.2) l :=
        match l with [] => Forall_nil_2 _ | (k, x) :: l => Forall_cons_2 _ (k, x) l (go x) (gl l) end) l)
    end.

(** ** The grammar *)

Fixpoint commas (ss : list string) : string :=
  match ss with [] => "" | s :: ss => "," ++ s ++ commas ss end.
Definition join (ss : list string) : string :=
  match ss with [] => "" | s :: ss => s ++ commas ss end.

#[warnings="-register-all"]
Inductive Writes : jtree -> string -> Prop :=
  | w_null : Writes JNull "null"
  | w_bool b : Writes (JBool b) (if b then "true" else "false")
  | w_num q o : Number.plain q o -> Writes (JNum q) o
  | w_str s : Json.valid_utf8 s = true -> Writes (JStr s) (Json.writeString s)
  | w_arr ts ss : Forall2 Writes ts ss -> Writes (JArr ts) ("[" ++ join ss ++ "]")
  | w_obj ms ss : Forall2 WritesMember ms ss -> Writes (JObj ms) ("{" ++ join ss ++ "}")
with WritesMember : string * jtree -> string -> Prop :=
  | w_member k t s : Json.valid_utf8 k = true -> Writes t s ->
      WritesMember (k, t) (Json.writeString k ++ ":" ++ s).

(** What may follow a text: nothing, or the end of the enclosing item. *)
Definition delimiter (c : ascii) : Prop := c = ","%char \/ c = "]"%char \/ c = "}"%char.
Definition delim (x : string) : Prop := forall c tl, x = String c tl -> delimiter c.

Section items.
Context {A : Type} (R : A -> string -> Prop).
Context (R_head : forall a s, R a s -> exists c tl, s = String c tl /\ ~ delimiter c).

Definition unambiguous (a : A) : Prop := forall a' s s' x y,
  R a s -> R a' s' -> delim x -> delim y -> s ++ x = s' ++ y -> a = a' /\ s = s' /\ x = y.
Definition functional (a : A) : Prop := forall s s', R a s -> R a s' -> s = s'.

Lemma commas_delim ss fin x : delimiter fin -> delim (commas ss ++ String fin x).
Proof. intros Hf c tl. destruct ss; cbn; intros [= <- _]; [done|by left]. Qed.

Lemma commas_unambiguous l l' ss ss' fin x y :
  delimiter fin -> fin <> ","%char -> Forall unambiguous l -> Forall2 R l ss -> Forall2 R l' ss' ->
  commas ss ++ String fin x = commas ss' ++ String fin y -> l = l' /\ ss = ss' /\ x = y.
Proof using Type.
  intros Hf Hc Hu Hl. revert Hu l' ss'.
  induction Hl as [|a s l ss Ha Hl IH]; intros Hu l' ss' Hl' Heq.
  - destruct Hl'; cbn in Heq; by simplify_eq.
  - destruct Hl' as [|a' s' l' ss' Ha' Hl']; [cbn in Heq; by simplify_eq|].
    apply Forall_cons in Hu as [Hua Hu]. cbn [commas] in Heq. cbn in Heq. injection Heq as Heq.
    rewrite !string_app_assoc in Heq.
    apply (Hua a' s s') in Heq as (-> & -> & Heq); [|done|done|by apply commas_delim..].
    apply (IH Hu l' ss') in Heq as (-> & -> & ->); done.
Qed.

Lemma join_unambiguous l l' ss ss' fin x y :
  delimiter fin -> fin <> ","%char -> Forall unambiguous l -> Forall2 R l ss -> Forall2 R l' ss' ->
  join ss ++ String fin x = join ss' ++ String fin y -> l = l' /\ ss = ss' /\ x = y.
Proof using R_head.
  intros Hf Hc Hu Hl Hl' Heq.
  destruct Hl as [|a s l ss Ha Hl], Hl' as [|a' s' l' ss' Ha' Hl']; cbn [join] in Heq.
  - cbn in Heq. by simplify_eq.
  - exfalso. destruct (R_head _ _ Ha') as (c & tl & -> & Hn). cbn in Heq. by simplify_eq.
  - exfalso. destruct (R_head _ _ Ha) as (c & tl & -> & Hn). cbn in Heq. by simplify_eq.
  - apply Forall_cons in Hu as [Hua Hu]. rewrite !string_app_assoc in Heq.
    apply (Hua a' s s') in Heq as (-> & -> & Heq); [|done|done|by apply commas_delim..].
    apply (commas_unambiguous l l') in Heq as (-> & -> & ->); done.
Qed.

Lemma items_functional l ss ss' : Forall functional l -> Forall2 R l ss -> Forall2 R l ss' -> ss = ss'.
Proof using Type.
  intros Hf Hl. revert Hf ss'. induction Hl as [|a s l ss Ha Hl IH]; intros Hf ss' Hl'; inversion Hl'; subst; [done|].
  apply Forall_cons in Hf as [Hfa Hf]. f_equal; [by apply Hfa|by apply IH].
Qed.
End items.

(** ** The grammar is unambiguous and functional *)

Lemma writeString_head s : exists tl, Json.writeString s = String Json.quote tl.
Proof. unfold Json.writeString, Json.str. cbn. eauto. Qed.

(** The first byte tells the kind of value. *)
Definition kind (t : jtree) (c : ascii) : Prop :=
  match t with
  | JNull => c = "n"%char
  | JBool b => c = (if b then "t" else "f")%char
  | JNum _ => Number.isDigit c = true \/ c = Number.minus_char
  | JStr _ => c = Json.quote
  | JArr _ => c = "["%char
  | JObj _ => c = "{"%char
  end.

Lemma Writes_kind t s : Writes t s -> exists c tl, s = String c tl /\ kind t c.
Proof.
  destruct 1 as [|[]|q o (n & i & f & Hok & -> & _)|s| |]; cbn; eauto.
  destruct (Number.plain_text_head _ _ _ Hok) as (c & tl & -> & Hc). exists c, (Number.str tl). done.
Qed.

Lemma kind_not_delimiter t c : kind t c -> ~ delimiter c.
Proof. intros H [->|[->| ->]]; destruct t as [|[]|?|?|?|?]; cbn in H; try done; by destruct H. Qed.

Lemma Writes_head t s : Writes t s -> exists c tl, s = String c tl /\ ~ delimiter c.
Proof. intros (c & tl & -> & H)%Writes_kind. eauto using kind_not_delimiter. Qed.

Lemma WritesMember_head m s : WritesMember m s -> exists c tl, s = String c tl /\ ~ delimiter c.
Proof.
  destruct 1 as [k t s _ _]. destruct (writeString_head k) as [tl ->]. cbn. eexists _, _. split; [done|].
  by intros [?|[?|?]].
Qed.

(** Values whose first bytes agree are of one kind. *)
Definition same_kind (t t' : jtree) : Prop :=
  match t, t' with
  | JNull, JNull | JNum _, JNum _ | JStr _, JStr _ | JArr _, JArr _ | JObj _, JObj _ => True
  | JBool b, JBool b' => b = b'
  | _, _ => False
  end.

Lemma kind_same t t' c : kind t c -> kind t' c -> same_kind t t'.
Proof.
  destruct t as [|[]|?|?|?|?], t' as [|[]|?|?|?|?]; cbn; try done;
    intros H1 H2; destruct_or?; subst; done.
Qed.

Lemma Writes_same_kind t t' s s' x y :
  Writes t s -> Writes t' s' -> s ++ x = s' ++ y -> same_kind t t'.
Proof.
  intros (c & tl & -> & H)%Writes_kind (c' & tl' & -> & H')%Writes_kind Heq.
  cbn in Heq. injection Heq as <- _. by eapply kind_same.
Qed.

Lemma delim_not_number x : delim x -> forall c tl, x = String c tl -> Number.numberByte c = false.
Proof. intros H c tl ->. by destruct (H _ _ eq_refl) as [->|[->| ->]]. Qed.

Lemma member_unambiguous k t : unambiguous Writes t -> unambiguous WritesMember (k, t).
Proof.
  intros Ht [k' t'] s s' x y Hs Hs' Hx Hy Heq. inversion Hs; inversion Hs'; subst.
  rewrite !string_app_assoc in Heq. apply Json.writeString_inj in Heq as [-> Heq]; [|done..].
  cbn in Heq. injection Heq as Heq. apply (Ht t') in Heq as (-> & -> & ->); done.
Qed.

Lemma Writes_unambiguous t : unambiguous Writes t.
Proof.
  induction t as [|b|q|s|l IH|l IH] using jtree_ind'; intros t' u u' x y Hu Hu' Hx Hy Heq;
    pose proof (Writes_same_kind _ _ _ _ _ _ Hu Hu' Heq) as Hk; destruct t'; cbn in Hk; try done;
    inversion Hu; inversion Hu'; subst.
  - by apply string_app_cancel_l in Heq.
  - by apply string_app_cancel_l in Heq.
  - destruct (Number.plain_prefix q u q0 u' x y) as [-> ->]; eauto using delim_not_number.
    split_and!; [done| |done]. by eapply string_app_cancel_r.
  - by apply Json.writeString_inj in Heq as [-> ->].
  - cbn in Heq. injection Heq as Heq. rewrite !string_app_assoc in Heq. cbn in Heq.
    apply (join_unambiguous _ Writes_head l elems) in Heq as (-> & -> & ->); try done. right; by left.
  - cbn in Heq. injection Heq as Heq. rewrite !string_app_assoc in Heq. cbn in Heq.
    apply (join_unambiguous _ WritesMember_head l members0) in Heq as (-> & -> & ->); try done; [by right; right|].
    eapply Forall_impl; [exact IH|]. intros [k t]. apply member_unambiguous.
Qed.

Lemma Writes_functional t : functional Writes t.
Proof.
  induction t as [|b|q|s|l IH|l IH] using jtree_ind'; intros u u' Hu Hu'; inversion Hu; inversion Hu'; subst; try done.
  - by eapply Number.plain_fun.
  - do 2 f_equal. f_equal. by eapply items_functional.
  - do 2 f_equal. f_equal. eapply items_functional; [|done|done].
    eapply Forall_impl; [exact IH|]. intros [k t] Ht s s' Hs Hs'. inversion Hs; inversion Hs'; subst.
    do 2 f_equal. by apply Ht.
Qed.

(** ** writeCanonical writes the grammar *)

Lemma joinTexts_join {A} (f : A -> result string) l body :
  joinTexts (map f l) = Ok body -> exists ss, Forall2 (fun a s => f a = Ok s) l ss /\ body = join ss.
Proof.
  revert body. induction l as [|a l IH]; intros body H.
  - injection H as <-. exists []. by split; [constructor|].
  - destruct l as [|b l].
    + exists [body]. split; [by repeat constructor|]. cbn. by rewrite string_app_nil_r.
    + change (joinTexts (map f (a :: b :: l)))
        with (let? s := f a in let? r := joinTexts (map f (b :: l)) in Ok (s ++ "," ++ r)) in H.
      apply result_bind_Ok in H as (s & Hs & H). apply result_bind_Ok in H as (r & Hr & H). injection H as <-.
      destruct (IH _ Hr) as (ss & Hss & ->). exists (s :: ss). split; [by constructor|].
      inversion Hss; subst. done.
Qed.

(** The nesting depth, for induction through maps. *)
Fixpoint vdepth (v : value) : nat :=
  match v with
  | VRef (Some v) => 1 + vdepth v
  | VSlice (Some l) => 1 + foldr (fun v acc => max (vdepth v) acc) 0%nat l
  | VMap (Some m) => 1 + map_fold (fun _ v acc => max (vdepth v) acc) 0%nat m
  | VStruct fields => 1 + foldr (fun f acc => max (vdepth f.2) acc) 0%nat fields
  | _ => 0
  end.

Lemma foldr_max_le {A} (g : A -> nat) l x : x ∈ l -> (g x <= foldr (fun v acc => max (g v) acc) 0%nat l)%nat.
Proof. induction l as [|y l IH]; cbn; intros H; [inversion H|]. apply elem_of_cons in H as [->|H]; [lia|]. specialize (IH H). lia. Qed.

Lemma members_depth v kv : kv ∈ members v -> (vdepth kv.2 < vdepth v)%nat.
Proof.
  destruct v; cbn [members]; try (intros H; by inversion H).
  - destruct entries as [m|]; [|intros H; by inversion H]. rewrite stable_sort_perm. intros H. cbn [vdepth].
    rewrite map_fold_foldr. apply (foldr_max_le (fun p : string * value => vdepth p.2)) in H.
    apply Nat.lt_succ_r. etrans; [exact H|]. clear.
    induction (map_to_list m) as [|[k v] l IH]; cbn in *; lia.
  - rewrite stable_sort_perm. unfold kept. intros H%list_elem_of_In. apply in_flat_map in H as (f & Hf%list_elem_of_In & H).
    apply (foldr_max_le (fun p : string * string * value => vdepth p.2)) in Hf. cbn [vdepth].
    assert (kv.2 = f.2) as ->; [|lia]. destruct f as [[goName tag] v]. unfold keptField in H.
    destruct (jsonFieldName goName tag). repeat case_match; try (by destruct H). by destruct H as [<-|[]].
Qed.

Lemma ascii_valid_utf8 s : (forall c, c ∈ chars s -> byteZ c < 128) -> Json.valid_utf8 s = true.
Proof.
  intros H. unfold Json.valid_utf8, rune_segments. generalize (String.length s). intros fuel. revert H.
  generalize (chars s). clear. induction fuel as [|fuel IH]; intros [|c l] H; try done. cbn [segments_fuel].
  rewrite decode_rune_ascii by (apply H; left). cbn [forallb drop]. rewrite IH by (intros d Hd; apply H; by right).
  rewrite andb_true_r. unfold Json.valid_segment. cbn [fst snd].
  replace (byteZ c =? RuneError) with false; [done|]. symmetry. apply Z.eqb_neq.
  specialize (H c ltac:(left)). unfold RuneError. lia.
Qed.

Lemma members_write (l : list (string * value)) ss :
  (forall kv, kv ∈ l -> Json.valid_utf8 kv.1 = true) ->
  (forall kv, kv ∈ l -> forall s, writeCanonical kv.2 = Ok s -> Writes (denote kv.2) s) ->
  Forall2 (fun kv s => writeMember (on_value writeCanonical kv) = Ok s) l ss ->
  Forall2 WritesMember (map (on_value denote) l) ss.
Proof.
  intros Hk Hv H. induction H as [|kv s l ss Hs H IH]; [constructor|]. cbn [map]. constructor.
  - unfold writeMember in Hs. apply result_bind_Ok in Hs as (t & Ht & Hs). injection Hs as <-.
    unfold on_value. constructor; [apply Hk; left|]. apply Hv; [left|]. done.
  - apply IH; intros; [apply Hk|apply Hv]; try done; by right.
Qed.

Lemma elems_write (l : list value) ss :
  (forall x, x ∈ l -> forall s, writeCanonical x = Ok s -> Writes (denote x) s) ->
  Forall2 (fun x s => writeCanonical x = Ok s) l ss -> Forall2 Writes (map denote l) ss.
Proof.
  intros Hx H. induction H as [|x s l ss Hs H IH]; [constructor|]. cbn [map].
  constructor; [apply Hx; [left|done]|]. apply IH. intros y Hy. apply Hx. by right.
Qed.

Lemma writeCanonical_Writes v s : utf8_ok v = true -> writeCanonical v = Ok s -> Writes (denote v) s.
Proof.
  remember (vdepth v) as n eqn:En. assert (vdepth v <= n)%nat as Hn by lia. clear En.
  revert v s Hn. induction n as [n IH] using lt_wf_ind; intros v s Hn Hu Hw.
  assert (forall v', (vdepth v' < vdepth v)%nat -> utf8_ok v' = true -> forall s, writeCanonical v' = Ok s -> Writes (denote v') s) as Hrec.
  { intros v' Hlt Hu' s' Hs'. eapply (IH (vdepth v')); [lia|done|done|done]. }
  assert (forall l body, (forall kv, kv ∈ l -> Json.valid_utf8 kv.1 = true /\ utf8_ok kv.2 = true) ->
    (forall kv, kv ∈ l -> (vdepth kv.2 < vdepth v)%nat) ->
    joinTexts (map (fun kv => writeMember (on_value writeCanonical kv)) l) = Ok body ->
    Writes (JObj (map (on_value denote) l)) ("{" ++ body ++ "}")) as Hobj.
  { intros l body Hl Hd (ss & Hss & ->)%joinTexts_join. constructor. apply members_write; [| |done].
    - intros kv Hkv. by apply Hl.
    - intros kv Hkv. apply Hrec; [by apply Hd|by apply Hl]. }
  destruct v as [|b|z|f|lit|t|t|o|o|o|fields].
  - injection Hw as <-. constructor.
  - injection Hw as <-. constructor.
  - injection Hw as <-. constructor. apply Number.Itoa_plain.
  - destruct f as [| |m e]; try done. injection Hw as <-. constructor. apply Number.formatFloat_plain.
  - destruct (Number.writeNumber_plain _ _ Hw) as (q & Hq & Hp). cbn [denote]. rewrite Hq. by constructor.
  - injection Hw as <-. by constructor.
  - injection Hw as <-. constructor. apply ascii_valid_utf8. apply TimeFmt.time_text_ascii.
  - destruct o as [l|]; [|injection Hw as <-; constructor].
    cbn [writeCanonical] in Hw. unfold writeArray in Hw. apply result_bind_Ok in Hw as (body & Hb & Hw). injection Hw as <-.
    apply joinTexts_join in Hb as (ss & Hss & ->). cbn [denote]. constructor.
    cbn [utf8_ok] in Hu. rewrite forallb_forall in Hu.
    apply elems_write; [|done]. intros x Hx. apply Hrec; [|apply Hu; by apply list_elem_of_In].
    apply (foldr_max_le vdepth) in Hx. cbn [vdepth]. lia.
  - destruct o as [m|]; [|injection Hw as <-; constructor].
    rewrite writeMap_members in Hw. apply result_bind_Ok in Hw as (body & Hb & Hw). injection Hw as <-.
    rewrite denote_map_members. apply Hobj; [intros kv; by apply utf8_map_members|intros kv; by apply members_depth|done].
  - destruct o as [v|]; [|injection Hw as <-; constructor]. cbn [denote]. apply Hrec; [cbn; lia|done|done].
  - rewrite writeStruct_members in Hw. apply result_bind_Ok in Hw as (body & Hb & Hw). injection Hw as <-.
    rewrite denote_struct_members.
    apply Hobj; [intros kv; by apply utf8_struct_members|intros kv; by apply members_depth|done].
Qed.

Lemma same_bytes_same_meaning a b s :
  utf8_ok a = true -> utf8_ok b = true -> CanonicalJSON a = Ok s -> CanonicalJSON b = Ok s ->
  denote a = denote b.
Proof.
  intros Ha Hb Hs%writeCanonical_Writes Ht%writeCanonical_Writes; [|done..].
  apply (Writes_unambiguous (denote a) (denote b) s s "" "") in Hs as (? & _); by try intros ? ? ?.
Qed.

(** C39: canonical bytes and JSON meaning determine each other.  For any two
    values [CanonicalJSON] accepts (all strings valid UTF-8), the bytes are
    equal exactly when the values mean the same: equal numbers in any spelling
    or Go type, equal instants, maps and structs with equal members.  Nothing
    is lost and nothing else is distinguished, so a digest of the bytes is a
    digest of the meaning. *)
Theorem canonical_bytes_meaning a b s t :
  utf8_ok a = true -> utf8_ok b = true ->
  CanonicalJSON a = Ok s -> CanonicalJSON b = Ok t ->
  s = t <-> denote a = denote b.
Proof.
  intros Ha Hb Hs Ht. split.
  - intros ->. by eapply same_bytes_same_meaning.
  - intros Heq. apply writeCanonical_Writes in Hs, Ht; [|done..]. rewrite Heq in Hs. by eapply Writes_functional.
Qed.

Definition sample_left : value :=
  VMap (Some {["n" := VNumber "1.50e1"; "t" := VTime 0; "l" := VSlice (Some [VInt 2; VNil])]}).
Definition sample_right : value :=
  VStruct [("L", "l", VSlice (Some [VFloat (FDec 2 0); VRef None])); ("T", "t", VString "0001-01-01T00:00:00Z");
           ("Skip", "skip,omitempty", VString ""); ("N", "n", VInt 15)].

Lemma sample_bytes : exists s, CanonicalJSON sample_left = Ok s /\ CanonicalJSON sample_right = Ok s.
Proof. eexists. split; vm_compute; reflexivity. Qed.

(** A map, a struct, two spellings of 15 and of 2, a time and its text. *)
Lemma canonical_bytes_meaning_witness : denote sample_left = denote sample_right.
Proof.
  destruct sample_bytes as (s & Hl & Hr).
  apply (canonical_bytes_meaning sample_left sample_right s s); [reflexivity|reflexivity|exact Hl|exact Hr|reflexivity].
Defined.

End CanonicalProps.
