(* ===== verification/DigestProps.v ===== *)
(** * What an event's content digest binds

    Two events with one content digest agree on every content field (up to the
    JSON meaning of their dynamic values), or their canonical bytes are a
    SHA-256 collision; and the digest ignores the seven processing fields. *)

From Stdlib Require Import Ascii String QArith Qcanon.
From S2P Require Import Prelude GoStr Sha256 Json Number TimeFmt Domain Canonical CanonicalProps.
Open Scope string_scope.
Open Scope Z_scope.
Import Domain Canonical CanonicalProps.

Module DigestProps.

(** ** Reading fields off a meaning *)

Definition jfield (t : jtree) (k : string) : option jtree :=
  match t with JObj l => (list_to_map l : gmap string jtree) !! k | _ => None end.

Definition fieldName (f : string * string * value) : string := (jsonFieldName f.1.1 f.1.2).1.
Definition fieldOmit (f : string * string * value) : bool := (jsonFieldName f.1.1 f.1.2).2.

Definition struct_ok (fields : list (string * string * value)) : Prop :=
  NoDup (map fieldName fields) /\ "" ∉ map fieldName fields.

Lemma kept_names fields kv : kv ∈ kept fields -> exists f, f ∈ fields /\ kv = (fieldName f, f.2).
Proof.
  unfold kept. intros H%list_elem_of_In. apply in_flat_map in H as (f & Hf%list_elem_of_In & H).
  exists f. split; [done|]. destruct f as [[g tag] v]. unfold keptField, fieldName in *. cbn in *.
  destruct (jsonFieldName g tag). repeat case_match; first [by destruct H as [<-|[]]|by destruct H].
Qed.

Lemma keptField_eq f : fieldName f <> "" ->
  keptField f f.2 = if fieldOmit f && jsonIsEmptyValue f.2 then [] else [(fieldName f, f.2)].
Proof.
  destruct f as [[g tag] v]. unfold keptField, fieldName, fieldOmit. cbn [fst snd].
  destruct (jsonFieldName g tag) as [name omit]. cbn. intros H. by rewrite bool_decide_eq_false_2.
Qed.

Lemma kept_NoDup fields : NoDup (map fieldName fields) -> NoDup (map fst (kept fields)).
Proof.
  induction fields as [|f fields IH]; [constructor|]. cbn [map]. intros [Hn Hf]%NoDup_cons.
  change (kept (f :: fields)) with (keptField f f.2 ++ kept fields)%list. rewrite map_app.
  assert (fieldName f ∉ map fst (kept fields)) as Hnot.
  { intros (kv & Hk & Hin)%list_elem_of_fmap. apply kept_names in Hin as (f' & Hf' & ->).
    apply Hn, list_elem_of_fmap. exists f'. done. }
  destruct f as [[g tag] v]. unfold keptField, fieldName in *. cbn [fst snd] in *.
  destruct (jsonFieldName g tag) as [name omit]. repeat case_match; cbn [app map]; auto.
  constructor; auto.
Qed.

(** A field of the meaning of a struct is the meaning of the field, absent
    when omitempty drops it. *)
Lemma jfield_struct fields f : struct_ok fields -> f ∈ fields ->
  jfield (denote (VStruct fields)) (fieldName f) =
  if fieldOmit f && jsonIsEmptyValue f.2 then None else Some (denote f.2).
Proof.
  intros [Hnd Hne] Hf. assert (fieldName f <> "") as Hname.
  { intros E. apply Hne. rewrite <- E. apply list_elem_of_fmap. eauto. }
  rewrite denote_struct_members. cbn [jfield members].
  set (l := map (on_value denote) (kept fields)).
  assert (NoDup l.*1) as Hl.
  { unfold l. rewrite <- list_fmap_compose. exact (kept_NoDup _ Hnd). }
  assert (list_to_map (map (on_value denote) (stable_sort key_leb (kept fields))) = (list_to_map l : gmap string jtree)) as ->.
  { symmetry. apply list_to_map_proper; [done|]. unfold l. apply Permutation_map. symmetry. apply stable_sort_perm. }
  destruct (fieldOmit f && jsonIsEmptyValue f.2) eqn:E.
  - apply not_elem_of_list_to_map_1. unfold l. intros (kv & Hk & Hin)%list_elem_of_fmap.
    apply list_elem_of_fmap in Hin as (kv' & -> & Hin). cbn in Hk. clear Hl l.
    unfold kept in Hin. apply list_elem_of_In, in_flat_map in Hin as (f' & Hf' & Hin).
    assert (f' = f) as ->.
    { assert (kv'.1 = fieldName f') as Hk'.
      { destruct f' as [[g tag] v]. unfold keptField, fieldName in *. cbn in *. destruct (jsonFieldName g tag).
        repeat case_match; first [by destruct Hin as [<-|[]]|by destruct Hin]. }
      apply list_elem_of_In, list_elem_of_lookup in Hf' as [i Hi]. apply list_elem_of_lookup in Hf as [j Hj].
      assert (i = j) as ->; [|congruence].
      eapply (NoDup_lookup _ i j (fieldName f) Hnd); [rewrite list_lookup_fmap, Hi; cbn; congruence|by rewrite list_lookup_fmap, Hj]. }
    rewrite keptField_eq, E in Hin by done. destruct Hin.
  - apply elem_of_list_to_map; [done|]. unfold l. apply list_elem_of_fmap. exists (fieldName f, f.2). split; [done|].
    unfold kept. apply list_elem_of_In, in_flat_map. exists f. split; [by apply list_elem_of_In|].
    rewrite keptField_eq, E by done. by left.
Qed.

(** Two structs with one meaning agree on each field they share. *)
Lemma field_agree fs fs' i f f' :
  struct_ok fs -> struct_ok fs' -> denote (VStruct fs) = denote (VStruct fs') ->
  fs !! i = Some f -> fs' !! i = Some f' -> f.1 = f'.1 ->
  fieldOmit f = true /\ jsonIsEmptyValue f.2 = true /\ jsonIsEmptyValue f'.2 = true \/ denote f.2 = denote f'.2.
Proof.
  intros Hok Hok' Heq Hf%list_elem_of_lookup_2 Hf'%list_elem_of_lookup_2 Hname.
  pose proof (jfield_struct _ _ Hok Hf) as H. pose proof (jfield_struct _ _ Hok' Hf') as H'.
  assert (fieldName f = fieldName f' /\ fieldOmit f = fieldOmit f') as [En Eo]
    by (unfold fieldName, fieldOmit; by rewrite Hname).
  rewrite <- En, <- Eo, <- Heq, H in H'.
  destruct (fieldOmit f), (jsonIsEmptyValue f.2), (jsonIsEmptyValue f'.2); cbn in H'; simplify_eq; auto.
Qed.

(** ** Content of an event *)

Definition eventFields (e : Event) : list (string * string * value) :=
  match EventValue e with VStruct fields => fields | _ => [] end.

Lemma eventFields_ok e : struct_ok (eventFields e).
Proof.
  unfold struct_ok. change (map fieldName (eventFields e)) with (map fieldName (eventFields zero_Event)).
  split; [apply (bool_decide_unpack _)|apply (bool_decide_unpack _)]; vm_compute; exact I.
Qed.

Definition meaning_of_map (m : option (gmap string value)) : jtree := denote (VMap (Some (default ∅ m))).

(** Agreement on everything a caller supplies. *)
Record same_content (e e' : Event) : Prop := {
  sm_EventID : ev_EventID e = ev_EventID e';
  sm_TenantID : ev_TenantID e = ev_TenantID e';
  sm_SourceSystem : ev_SourceSystem e = ev_SourceSystem e';
  sm_EventType : ev_EventType e = ev_EventType e';
  sm_SchemaID : ev_SchemaID e = ev_SchemaID e';
  sm_SchemaVersion : ev_SchemaVersion e = ev_SchemaVersion e';
  sm_OccurredAt : ev_OccurredAt e = ev_OccurredAt e';
  sm_OperationID : ev_OperationID e = ev_OperationID e';
  sm_CausationID : ev_CausationID e = ev_CausationID e';
  sm_CorrelationID : ev_CorrelationID e = ev_CorrelationID e';
  sm_TraceID : ev_TraceID e = ev_TraceID e';
  sm_SpanID : ev_SpanID e = ev_SpanID e';
  sm_Actor : ev_Actor e = ev_Actor e';
  sm_Targets : ev_Targets e = ev_Targets e';
  sm_AggregateType : ev_AggregateType e = ev_AggregateType e';
  sm_AggregateID : ev_AggregateID e = ev_AggregateID e';
  sm_AggregateVersion : ev_AggregateVersion e = ev_AggregateVersion e';
  sm_WorkflowInstanceID : ev_WorkflowInstanceID e = ev_WorkflowInstanceID e';
  sm_ExecutionRunID : ev_ExecutionRunID e = ev_ExecutionRunID e';
  sm_Action : ev_Action e = ev_Action e';
  sm_Outcome : ev_Outcome e = ev_Outcome e';
  sm_Reason : ev_Reason e = ev_Reason e';
  sm_ChangedFields : denote (VMap (Some (FieldChangeValue <$> ev_ChangedFields e))) =
                     denote (VMap (Some (FieldChangeValue <$> ev_ChangedFields e')));
  sm_Payload : meaning_of_map (ev_Payload e) = meaning_of_map (ev_Payload e');
  sm_PayloadRef : ev_PayloadRef e = ev_PayloadRef e';
  sm_DataClassification : ev_DataClassification e = ev_DataClassification e';
  sm_RetentionClass : ev_RetentionClass e = ev_RetentionClass e';
  sm_IdempotencyKey : ev_IdempotencyKey e = ev_IdempotencyKey e'
}.

(** *** Fields with a determined meaning *)

Lemma field_string fs fs' i g tag x y :
  struct_ok fs -> struct_ok fs' -> denote (VStruct fs) = denote (VStruct fs') ->
  fs !! i = Some (strField g tag x) -> fs' !! i = Some (strField g tag y) -> x = y.
Proof.
  intros Hok Hok' Heq Hf Hf'. destruct (field_agree _ _ _ _ _ Hok Hok' Heq Hf Hf') as [(_ & H & H')|H]; [done| |].
  - apply bool_decide_eq_true in H, H'. cbn in *. by subst.
  - by injection H.
Qed.

Lemma decQ_int_inj x y : Number.decQ x 0 = Number.decQ y 0 -> x = y.
Proof. rewrite (Number.decQ_eq_at _ _ _ _ 0) by lia. lia. Qed.

Lemma field_int fs fs' i g tag x y :
  struct_ok fs -> struct_ok fs' -> denote (VStruct fs) = denote (VStruct fs') ->
  fs !! i = Some (g, tag, VInt x) -> fs' !! i = Some (g, tag, VInt y) -> x = y.
Proof.
  intros Hok Hok' Heq Hf Hf'. destruct (field_agree _ _ _ _ _ Hok Hok' Heq Hf Hf') as [(_ & H & H')|H]; [done| |].
  - apply Z.eqb_eq in H, H'. cbn in *. by subst.
  - apply decQ_int_inj. exact (f_equal (fun t => match t with JNum q => q | _ => Number.decQ 0 0 end) H).
Qed.

Lemma strings_inj l l' : map denote (map VString l) = map denote (map VString l') -> l = l'.
Proof. revert l'. induction l as [|x l IH]; intros [|y l'] H; try (by inversion H). cbn in H. injection H as -> H. f_equal. auto. Qed.

Definition fieldsOf (v : value) : list (string * string * value) :=
  match v with VStruct fields => fields | _ => [] end.

Lemma ActorValue_inj a a' : denote (ActorValue a) = denote (ActorValue a') -> a = a'.
Proof.
  assert (forall a, struct_ok (fieldsOf (ActorValue a))) as Hok.
  { intros b. split; [apply (bool_decide_unpack _)|apply (bool_decide_unpack _)]; vm_compute; exact I. }
  intros H. pose proof (Hok a) as Ha. pose proof (Hok a') as Ha'.
  pose proof (field_string _ _ 0 _ _ _ _ Ha Ha' H eq_refl eq_refl).
  pose proof (field_string _ _ 1 _ _ _ _ Ha Ha' H eq_refl eq_refl).
  pose proof (field_string _ _ 2 _ _ _ _ Ha Ha' H eq_refl eq_refl).
  pose proof (field_string _ _ 3 _ _ _ _ Ha Ha' H eq_refl eq_refl).
  assert (ac_Roles a = ac_Roles a').
  { destruct (field_agree _ _ 4 _ _ Ha Ha' H eq_refl eq_refl eq_refl) as [(_ & E & E')|E]; cbn in *.
    - by destruct (ac_Roles a), (ac_Roles a').
    - injection E as E. by apply strings_inj. }
  destruct a, a'; cbn in *; by subst.
Qed.

Lemma TargetValue_inj t t' : denote (TargetValue t) = denote (TargetValue t') -> t = t'.
Proof.
  assert (forall a, struct_ok (fieldsOf (TargetValue a))) as Hok.
  { intros b. split; [apply (bool_decide_unpack _)|apply (bool_decide_unpack _)]; vm_compute; exact I. }
  intros H. pose proof (Hok t) as Ha. pose proof (Hok t') as Ha'.
  pose proof (field_string _ _ 0 _ _ _ _ Ha Ha' H eq_refl eq_refl).
  pose proof (field_string _ _ 1 _ _ _ _ Ha Ha' H eq_refl eq_refl).
  pose proof (field_string _ _ 2 _ _ _ _ Ha Ha' H eq_refl eq_refl).
  destruct t, t'; cbn in *; by subst.
Qed.

Lemma targets_inj l l' : map denote (map TargetValue l) = map denote (map TargetValue l') -> l = l'.
Proof.
  revert l'. induction l as [|x l IH]; intros [|y l'] H; try (by inversion H). cbn [map] in H.
  f_equal; [apply TargetValue_inj; congruence|apply IH; congruence].
Qed.

Lemma empty_payload m : jsonIsEmptyValue (VMap m) = true -> default ∅ m = ∅.
Proof. destruct m as [m|]; cbn; [apply bool_decide_eq_true|done]. Qed.

Lemma payload_meaning m m' : denote (VMap m) = denote (VMap m') ->
  denote (VMap (Some (default ∅ m))) = denote (VMap (Some (default ∅ m'))).
Proof. destruct m as [m|], m' as [m'|]; cbn; done. Qed.

Lemma content_meaning e e' :
  denote (EventValue (contentEvent e)) = denote (EventValue (contentEvent e')) -> same_content e e'.
Proof.
  intros H. pose proof (eventFields_ok (contentEvent e)) as Ha. pose proof (eventFields_ok (contentEvent e')) as Ha'.
  split.
  - exact (field_string _ _ 0 _ _ _ _ Ha Ha' H eq_refl eq_refl).
  - exact (field_string _ _ 1 _ _ _ _ Ha Ha' H eq_refl eq_refl).
  - exact (field_string _ _ 2 _ _ _ _ Ha Ha' H eq_refl eq_refl).
  - exact (field_string _ _ 3 _ _ _ _ Ha Ha' H eq_refl eq_refl).
  - exact (field_string _ _ 4 _ _ _ _ Ha Ha' H eq_refl eq_refl).
  - exact (field_int _ _ 5 _ _ _ _ Ha Ha' H eq_refl eq_refl).
  - destruct (field_agree _ _ 6 _ _ Ha Ha' H eq_refl eq_refl eq_refl) as [(? & _)|E]; [done|].
    injection E as E. by apply TimeFmt.FormatRFC3339Nano_inj.
  - exact (field_string _ _ 8 _ _ _ _ Ha Ha' H eq_refl eq_refl).
  - exact (field_string _ _ 9 _ _ _ _ Ha Ha' H eq_refl eq_refl).
  - exact (field_string _ _ 10 _ _ _ _ Ha Ha' H eq_refl eq_refl).
  - exact (field_string _ _ 11 _ _ _ _ Ha Ha' H eq_refl eq_refl).
  - exact (field_string _ _ 12 _ _ _ _ Ha Ha' H eq_refl eq_refl).
  - destruct (field_agree _ _ 13 _ _ Ha Ha' H eq_refl eq_refl eq_refl) as [(? & _)|E]; [done|].
    by apply ActorValue_inj.
  - destruct (field_agree _ _ 14 _ _ Ha Ha' H eq_refl eq_refl eq_refl) as [(_ & E & E')|E].
    + cbn in E, E'. by destruct (ev_Targets e), (ev_Targets e').
    + apply targets_inj. exact (f_equal (fun t => match t with JArr l => l | _ => [] end) E).
  - exact (field_string _ _ 15 _ _ _ _ Ha Ha' H eq_refl eq_refl).
  - exact (field_string _ _ 16 _ _ _ _ Ha Ha' H eq_refl eq_refl).
  - exact (field_int _ _ 17 _ _ _ _ Ha Ha' H eq_refl eq_refl).
  - exact (field_string _ _ 18 _ _ _ _ Ha Ha' H eq_refl eq_refl).
  - exact (field_string _ _ 19 _ _ _ _ Ha Ha' H eq_refl eq_refl).
  - exact (field_string _ _ 20 _ _ _ _ Ha Ha' H eq_refl eq_refl).
  - exact (field_string _ _ 21 _ _ _ _ Ha Ha' H eq_refl eq_refl).
  - exact (field_string _ _ 22 _ _ _ _ Ha Ha' H eq_refl eq_refl).
  - destruct (field_agree _ _ 23 _ _ Ha Ha' H eq_refl eq_refl eq_refl) as [(_ & E & E')|E]; [|done].
    apply bool_decide_eq_true in E, E'. cbn in *. by rewrite E, E'.
  - unfold meaning_of_map. destruct (field_agree _ _ 24 _ _ Ha Ha' H eq_refl eq_refl eq_refl) as [(_ & E & E')|E].
    + apply empty_payload in E, E'. cbn in E, E'. by rewrite E, E'.
    + exact (payload_meaning _ _ E).
  - exact (field_string _ _ 25 _ _ _ _ Ha Ha' H eq_refl eq_refl).
  - exact (field_string _ _ 27 _ _ _ _ Ha Ha' H eq_refl eq_refl).
  - exact (field_string _ _ 28 _ _ _ _ Ha Ha' H eq_refl eq_refl).
  - exact (field_string _ _ 29 _ _ _ _ Ha Ha' H eq_refl eq_refl).
Qed.

(** Everything in an event is valid UTF-8. *)
Definition event_utf8 (e : Event) : bool := utf8_ok (EventValue e).

Lemma event_utf8_content e : event_utf8 e = true -> utf8_ok (EventValue (contentEvent e)) = true.
Proof.
  unfold event_utf8. unfold EventValue. cbn [utf8_ok]. rewrite !forallb_forall.
  intros H f Hf. apply list_elem_of_In in Hf. apply list_elem_of_lookup in Hf as [i Hi].
  destruct (decide (i ∈ [7; 26; 30; 31; 32; 33; 34]%nat)) as [Hin|Hnot].
  - repeat (apply elem_of_cons in Hin as [->|Hin]; [injection Hi as <-; vm_compute; reflexivity|]). inversion Hin.
  - apply H. apply list_elem_of_In. apply list_elem_of_lookup. exists i.
    do 35 (destruct i as [|i]; [first [exact Hi|exfalso; apply Hnot; set_solver]|]). done.
Qed.

(** C8: the content digest binds the content of an event.
    Two events with the same digest agree on every field a caller supplies
    (dynamic values up to their JSON meaning), unless their two canonical texts
    are an explicit SHA-256 collision. *)
Theorem content_digest_binds e e' d :
  event_utf8 e = true -> event_utf8 e' = true ->
  EventContentDigest e = Ok d -> EventContentDigest e' = Ok d ->
  same_content e e' \/
  exists x y, CanonicalJSON (EventValue (contentEvent e)) = Ok x /\
    CanonicalJSON (EventValue (contentEvent e')) = Ok y /\ Sha256.collision x y.
Proof.
  unfold EventContentDigest. intros Hu%event_utf8_content Hu'%event_utf8_content Hd Hd'.
  apply result_bind_Ok in Hd as (x & Hx & Hd). apply result_bind_Ok in Hd' as (y & Hy & Hd').
  destruct (decide (x = y)) as [->|Hne].
  - left. apply content_meaning. by eapply same_bytes_same_meaning.
  - right. exists x, y. split_and!; [done|done|split; [done|congruence]].
Qed.

(** A change of processing fields keeps the digest, and so does a different
    spelling of a payload number. *)
Definition digest_left : Event :=
  mkEvent "e1" "t1" "src" "type" "sch" 1 MinOccurredAt 0 "op" "" "" "" "" (mkActor "a" "" "" "" ["r"])
    [mkTarget "k" "1" ""] "" "" 0 "" "" "act" "ok" "" {["f" := mkFieldChange VNil (VString "")]}
    (Some {["n" := VNumber "1e2"]}) "" "" "internal" "std" "key" "" 0 "" "" "".
Definition digest_right : Event :=
  mkEvent "e1" "t1" "src" "type" "sch" 1 MinOccurredAt 77 "op" "" "" "" "" (mkActor "a" "" "" "" ["r"])
    [mkTarget "k" "1" ""] "" "" 0 "" "" "act" "ok" "" {["f" := mkFieldChange VNil (VString "")]}
    (Some {["n" := VInt 100]}) "" "" "internal" "std" "key" "s" 4 "p" "h" "v".

Lemma digest_same : exists d, EventContentDigest digest_left = Ok d /\ EventContentDigest digest_right = Ok d.
Proof. eexists. split; vm_compute; reflexivity. Qed.

Lemma content_digest_binds_witness : exists d, EventContentDigest digest_left = Ok d /\
  (same_content digest_left digest_right \/
  exists x y, CanonicalJSON (EventValue (contentEvent digest_left)) = Ok x /\
    CanonicalJSON (EventValue (contentEvent digest_right)) = Ok y /\ Sha256.collision x y).
Proof.
  destruct digest_same as (d & Hl & Hr). exists d. split; [exact Hl|].
  apply (content_digest_binds digest_left digest_right d); [reflexivity|reflexivity|exact Hl|exact Hr].
Defined.

End DigestProps.
