(* ===== verification/Limits.v ===== *)
(** * Ingest and control-plane caps (internal/domain/limits.go)

    ValidateEventCaps, ValidateSourceCaps and ValidateSchemaCaps with the
    order of their checks and their messages. *)

From Stdlib Require Import Ascii String.
From S2P Require Import Prelude GoStr Domain Canonical.
Open Scope string_scope.
Open Scope Z_scope.
Import Domain Canonical.

Module Limits.

Definition MaxEnvelopeFieldBytes : Z := 8 * 1024.
Definition MaxActorRoles : Z := 64.
Definition MaxTargetsPerEvent : Z := 64.
Definition MaxChangedFields : Z := 256.
Definition MaxBatchEvents : Z := 500.
Definition MaxSourceClientIDs : Z := 256.
Definition MaxSchemaFields : Z := 256.

Definition tooLarge (msg : string) : error := Wrapf (Sentinel ErrEnvelopeTooLarge) msg.

Definition CheckString (name value : string) : result unit :=
  if MaxEnvelopeFieldBytes <? Zlen value
  then Err (tooLarge (name ++ " is " ++ Itoa (Zlen value) ++ " bytes, max " ++ Itoa MaxEnvelopeFieldBytes))
  else Ok tt.

Definition CheckCount (name : string) (n max : Z) : result unit :=
  if max <? n then Err (tooLarge (name ++ " count " ++ Itoa n ++ ", max " ++ Itoa max)) else Ok tt.

(** [for _, x := range l { if err := check(x); err != nil { return err } }]. *)
Fixpoint each {A} (check : A -> result unit) (l : list A) : result unit :=
  match l with [] => Ok tt | x :: l => check x ;? each check l end.

Definition count {A} (l : list A) : Z := Z.of_nat (length l).

Definition checkFieldListCaps (name : string) (entries : list string) : result unit :=
  each (CheckString (name ++ "[]")) (sort_strings entries).

Definition ValidateSourceCaps (source : SourceSystem) : result unit :=
  CheckCount "allowed_client_ids" (count (so_AllowedClientIDs source)) MaxSourceClientIDs ;?
  checkFieldListCaps "allowed_client_ids" (so_AllowedClientIDs source).

Definition checkSchemaList (list : string * list string) : result unit :=
  CheckCount list.1 (count list.2) MaxSchemaFields ;? checkFieldListCaps list.1 list.2.

Definition ValidateSchemaCaps (schema : EventSchema) : result unit :=
  each checkSchemaList
    [("required_fields", sc_RequiredFields schema); ("allowed_fields", sc_AllowedFields schema);
     ("encrypted_fields", sc_EncryptedFields schema); ("searchable_fields", sc_SearchableFields schema)].

Definition checkNamed (f : string * string) : result unit := CheckString f.1 f.2.

Definition eventStrings (e : Event) : list (string * string) := [
  ("event_id", ev_EventID e); ("source_system", ev_SourceSystem e); ("event_type", ev_EventType e);
  ("schema_id", ev_SchemaID e); ("operation_id", ev_OperationID e); ("causation_id", ev_CausationID e);
  ("correlation_id", ev_CorrelationID e); ("trace_id", ev_TraceID e); ("span_id", ev_SpanID e);
  ("aggregate_type", ev_AggregateType e); ("aggregate_id", ev_AggregateID e); ("action", ev_Action e);
  ("outcome", ev_Outcome e); ("reason", ev_Reason e); ("payload_ref", ev_PayloadRef e);
  ("data_classification", ev_DataClassification e); ("retention_class", ev_RetentionClass e);
  ("idempotency_key", ev_IdempotencyKey e); ("workflow_instance_id", ev_WorkflowInstanceID e);
  ("execution_run_id", ev_ExecutionRunID e)].

Definition actorStrings (a : Actor) : list (string * string) := [
  ("actor.id", ac_ID a); ("actor.type", ac_Type a); ("actor.name", ac_Name a);
  ("actor.department", ac_Department a)].

Definition targetStrings (t : Target) : list (string * string) := [
  ("target.type", tg_Type t); ("target.id", tg_ID t); ("target.name", tg_Name t)].

(** One before/after value: nil is skipped, anything else is measured by its
    canonical bytes. *)
Definition checkChangeValue (name : string) (v : value) : result unit :=
  match v with
  | VNil => Ok tt
  | _ =>
      match CanonicalJSON v with
      | Err _ => Err (invalid (name ++ " is invalid"))
      | Ok encoded => CheckString name encoded
      end
  end.

Definition checkChange (fields : gmap string FieldChange) (field : string) : result unit :=
  CheckString "changed_fields[].field" field ;?
  let change := map_get (mkFieldChange VNil VNil) fields field in
  checkChangeValue "changed_fields[].before_json" (fc_Before change) ;?
  checkChangeValue "changed_fields[].after_json" (fc_After change).

Definition ValidateEventCaps (e : Event) : result unit :=
  each checkNamed (eventStrings e) ;?
  each checkNamed (actorStrings (ev_Actor e)) ;?
  each (CheckString "actor.roles[]") (ac_Roles (ev_Actor e)) ;?
  CheckCount "actor.roles" (count (ac_Roles (ev_Actor e))) MaxActorRoles ;?
  CheckCount "targets" (count (ev_Targets e)) MaxTargetsPerEvent ;?
  each (fun t => each checkNamed (targetStrings t)) (ev_Targets e) ;?
  CheckCount "changed_fields" (Z.of_nat (size (ev_ChangedFields e))) MaxChangedFields ;?
  each (checkChange (ev_ChangedFields e)) (sort_strings (map_to_list (ev_ChangedFields e)).*1).

(** ** Specification *)

Definition fits (s : string) : Prop := Zlen s <= MaxEnvelopeFieldBytes.
Definition value_fits (v : value) : Prop :=
  v <> VNil -> exists s, CanonicalJSON v = Ok s /\ fits s.

Record within_caps (e : Event) : Prop := {
  wc_strings : forall f, f ∈ eventStrings e -> fits f.2;
  wc_actor : forall f, f ∈ actorStrings (ev_Actor e) -> fits f.2;
  wc_roles : forall r, r ∈ ac_Roles (ev_Actor e) -> fits r;
  wc_roles_count : count (ac_Roles (ev_Actor e)) <= MaxActorRoles;
  wc_targets_count : count (ev_Targets e) <= MaxTargetsPerEvent;
  wc_targets : forall t f, t ∈ ev_Targets e -> f ∈ targetStrings t -> fits f.2;
  wc_changes_count : Z.of_nat (size (ev_ChangedFields e)) <= MaxChangedFields;
  wc_changes : forall k c, ev_ChangedFields e !! k = Some c ->
    fits k /\ value_fits (fc_Before c) /\ value_fits (fc_After c)
}.

Lemma each_Ok {A} (check : A -> result unit) l :
  each check l = Ok tt <-> forall x, x ∈ l -> check x = Ok tt.
Proof.
  induction l as [|x l IH]; cbn.
  - split; [intros _ x Hx; inversion Hx|done].
  - destruct (check x) as [[]|e] eqn:E; cbn; [rewrite IH|]; split.
    + intros H y [->|Hy]%elem_of_cons; auto.
    + intros H y Hy. apply H. by right.
    + done.
    + intros H. specialize (H x ltac:(left)). congruence.
Qed.

Lemma bind_unit_Ok (m k : result unit) : (m ;? k) = Ok tt <-> m = Ok tt /\ k = Ok tt.
Proof. destruct m as [[]|e]; cbn; naive_solver. Qed.

Lemma CheckString_Ok name s : CheckString name s = Ok tt <-> fits s.
Proof. unfold CheckString, fits. destruct (_ <? _) eqn:E; bool_prop; split; try done; lia. Qed.

Lemma CheckCount_Ok name n m : CheckCount name n m = Ok tt <-> n <= m.
Proof. unfold CheckCount. destruct (_ <? _) eqn:E; bool_prop; split; try done; lia. Qed.

Lemma each_named_Ok l : each checkNamed l = Ok tt <-> forall f, f ∈ l -> fits f.2.
Proof. rewrite each_Ok. by setoid_rewrite CheckString_Ok. Qed.

Lemma checkChangeValue_Ok name v : checkChangeValue name v = Ok tt <-> value_fits v.
Proof.
  unfold checkChangeValue, value_fits.
  assert (forall v, v <> VNil -> match CanonicalJSON v with
    | Ok encoded => CheckString name encoded | Err _ => Err (invalid (name ++ " is invalid")) end = Ok tt <->
    (v <> VNil -> exists s, CanonicalJSON v = Ok s /\ fits s)) as H.
  { intros w Hw. destruct (CanonicalJSON w) as [s|e]; [rewrite CheckString_Ok|]; naive_solver. }
  destruct v; try (by apply H). naive_solver.
Qed.

Lemma checkChange_Ok m k c : m !! k = Some c ->
  checkChange m k = Ok tt <-> fits k /\ value_fits (fc_Before c) /\ value_fits (fc_After c).
Proof.
  intros Hk. unfold checkChange, map_get. rewrite Hk. cbn zeta.
  by rewrite !bind_unit_Ok, CheckString_Ok, !checkChangeValue_Ok.
Qed.

Lemma changes_Ok (m : gmap string FieldChange) :
  each (checkChange m) (sort_strings (map_to_list m).*1) = Ok tt <->
  forall k c, m !! k = Some c -> fits k /\ value_fits (fc_Before c) /\ value_fits (fc_After c).
Proof.
  rewrite each_Ok. setoid_rewrite sort_strings_perm. split.
  - intros H k c Hk. rewrite <- checkChange_Ok by exact Hk. apply H.
    apply list_elem_of_fmap. exists (k, c). split; [done|]. by apply elem_of_map_to_list.
  - intros H k ([k' c] & -> & Hk%elem_of_map_to_list)%list_elem_of_fmap. cbn. rewrite checkChange_Ok by exact Hk. eauto.
Qed.

(** Errors of the checks. *)
Definition rejects_invalid (m : result unit) : Prop := forall e, m = Err e -> errors_Is e ErrInvalid = true.

Lemma rejects_bind m k : rejects_invalid m -> rejects_invalid k -> rejects_invalid (m ;? k).
Proof. intros Hm Hk e. destruct m as [[]|e'] eqn:E; cbn; [apply Hk|]. intros [= ->]. by apply Hm. Qed.

Lemma rejects_each {A} (check : A -> result unit) l :
  (forall x, rejects_invalid (check x)) -> rejects_invalid (each check l).
Proof. intros Hc. induction l as [|x l IH]; cbn; [done|]. by apply rejects_bind. Qed.

Lemma rejects_string name s : rejects_invalid (CheckString name s).
Proof. intros e. unfold CheckString. destruct (_ <? _); [|done]. by intros [= <-]. Qed.

Lemma rejects_count name n m : rejects_invalid (CheckCount name n m).
Proof. intros e. unfold CheckCount. destruct (_ <? _); [|done]. by intros [= <-]. Qed.

Lemma rejects_change_value name v : rejects_invalid (checkChangeValue name v).
Proof.
  unfold checkChangeValue. destruct v; [done|..]; (destruct (CanonicalJSON _); [apply rejects_string|]);
    by intros ? [= <-].
Qed.

#[local] Hint Resolve rejects_bind rejects_each rejects_string rejects_count rejects_change_value : audit.

(** The ingest caps accept an event exactly when every persisted string,
    every list and every changed-field value (measured by its canonical bytes)
    is within its bound, and every rejection is an [ErrInvalid] error. *)
Theorem ValidateEventCaps_spec e :
  (ValidateEventCaps e = Ok tt <-> within_caps e) /\ rejects_invalid (ValidateEventCaps e).
Proof.
  split.
  - unfold ValidateEventCaps. rewrite !bind_unit_Ok, !each_named_Ok, !CheckCount_Ok, changes_Ok, !each_Ok.
    setoid_rewrite CheckString_Ok. setoid_rewrite each_named_Ok.
    split; [intros (? & ? & ? & ? & ? & ? & ? & ?); split; eauto|intros []; eauto 10].
  - unfold ValidateEventCaps, checkNamed, checkChange. repeat (apply rejects_bind; auto with audit);
      apply rejects_each; intros x; cbn zeta; auto 6 with audit.
Qed.

(** The verdict and the reported violation of a control-plane write do not
    depend on the order in which the list entries arrived. *)
Theorem caps_report_order_independent s s' c c' :
  so_AllowedClientIDs s ≡ₚ so_AllowedClientIDs s' ->
  sc_RequiredFields c ≡ₚ sc_RequiredFields c' -> sc_AllowedFields c ≡ₚ sc_AllowedFields c' ->
  sc_EncryptedFields c ≡ₚ sc_EncryptedFields c' -> sc_SearchableFields c ≡ₚ sc_SearchableFields c' ->
  ValidateSourceCaps s = ValidateSourceCaps s' /\ ValidateSchemaCaps c = ValidateSchemaCaps c'.
Proof.
  intros H H1 H2 H3 H4.
  assert (forall name l l', l ≡ₚ l' -> count l = count l' /\ checkFieldListCaps name l = checkFieldListCaps name l') as Hl.
  { intros name l l' Hp. unfold count, checkFieldListCaps. by rewrite Hp. }
  unfold ValidateSourceCaps, ValidateSchemaCaps, checkSchemaList. cbn [each fst snd].
  split.
  - by destruct (Hl "allowed_client_ids" _ _ H) as [-> ->].
  - destruct (Hl "required_fields" _ _ H1) as [-> ->], (Hl "allowed_fields" _ _ H2) as [-> ->],
      (Hl "encrypted_fields" _ _ H3) as [-> ->], (Hl "searchable_fields" _ _ H4) as [-> ->]. done.
Qed.

Definition schema_of (required : list string) : EventSchema :=
  mkEventSchema "t" "s" 1 "e" required ["a"; "b"] [] [] "internal" true 0.

Lemma caps_report_order_independent_witness :
  ValidateSourceCaps (mkSourceSystem "s" "t" "n" ["x"; "y"] true 0) =
  ValidateSourceCaps (mkSourceSystem "s" "t" "n" ["y"; "x"] true 0) /\
  ValidateSchemaCaps (schema_of ["p"; "q"]) = ValidateSchemaCaps (schema_of ["q"; "p"]).
Proof. apply caps_report_order_independent; [apply perm_swap|apply perm_swap|reflexivity..]. Defined.

End Limits.
