(* ===== verification/Keys.v ===== *)
(** * Composite keys ([internal/store/store.go]) and stream frames

    The store joins identifiers with the unit separator 0x1F and the ledger
    groups events by the ':'-framed stream of Event.Stream.  This file holds
    the key constructors, the splitter, and what the identifier rules of
    [Domain] buy: keys of validated components are injective, split back, and
    two validated events share a stream exactly when they name the same
    tenant and the same aggregate, operation or source. *)

From Stdlib Require Import Ascii String.
From S2P Require Import Prelude GoStr Domain.
Import Domain.
Open Scope string_scope.
Open Scope Z_scope.

Module Keys.

Definition SepByte : ascii := Ascii.ascii_of_nat 31.
Definition KeySeparator : string := String SepByte "".

Definition TenantKey (tenantID : string) : string := tenantID.
Definition SourceKey (tenantID sourceID : string) : string := tenantID ++ KeySeparator ++ sourceID.
Definition SchemaKey (tenantID schemaID : string) (version : Z) : string :=
  tenantID ++ KeySeparator ++ schemaID ++ KeySeparator ++ Itoa version.
Definition EventKey (tenantID eventID : string) : string := tenantID ++ KeySeparator ++ eventID.
Definition StreamKey (tenantID streamID : string) : string := tenantID ++ KeySeparator ++ streamID.

Definition ValidTenantID (id : string) : result unit := ValidTenantIDComponent id.

(** [strings.Cut] at the first occurrence of a one-byte separator. *)
Fixpoint cut (c : ascii) (s : string) : option (string * string) :=
  match s with
  | "" => None
  | String d rest =>
      if decide (d = c) then Some ("", rest)
      else match cut c rest with
           | Some (before, after) => Some (String d before, after)
           | None => None
           end
  end.

Definition SplitTenantKey (key : string) : option (string * string) :=
  match cut SepByte key with
  | Some (tenantID, rest) => if contains_char SepByte rest then None else Some (tenantID, rest)
  | None => None
  end.

(** ** Framing lemmas *)

Lemma cut_app c a b : no_char c a -> cut c (a ++ String c b) = Some (a, b).
Proof.
  induction a as [|d a IH]; intros Ha.
  - change ("" ++ String c b) with (String c b). cbn [cut]. by rewrite decide_True.
  - change (String d a ++ String c b) with (String d (a ++ String c b)). cbn [cut].
    unfold no_char in Ha. unfold chars in Ha. cbn in Ha. apply not_elem_of_cons in Ha as [Hd Ha].
    rewrite decide_False by done. by rewrite IH.
Qed.

Lemma cut_Some c s a b : cut c s = Some (a, b) -> s = a ++ String c b /\ no_char c a.
Proof.
  revert a b. induction s as [|d s IH]; intros a b; cbn [cut]; [done|].
  case_decide as Hd.
  - intros [= <- <-]. subst. split; [done|]. apply not_elem_of_nil.
  - destruct (cut c s) as [[a' b']|] eqn:E; [|done]. intros [= <- <-].
    destruct (IH _ _ eq_refl) as [-> Ha]. split; [done|].
    unfold no_char, chars. cbn. apply not_elem_of_cons. done.
Qed.

Lemma EventKey_inj t e t' e' :
  no_char SepByte t -> no_char SepByte t' -> EventKey t e = EventKey t' e' -> t = t' /\ e = e'.
Proof. unfold EventKey, KeySeparator. intros. by apply (sep_inj SepByte). Qed.

(** ** What the identifier rules exclude *)

Lemma keyRunesError_Ok rs u : keyRunesError rs = Ok u <-> Forall (fun r => keyRuneError r = None) rs.
Proof.
  destruct u. induction rs as [|r rs IH]; simpl.
  - split; [constructor|done].
  - rewrite Forall_cons, <- IH. destruct (keyRuneError r); naive_solver.
Qed.

Lemma ValidKeyComponent_no_char v u c :
  ValidKeyComponent v = Ok u -> byteZ c < 128 -> keyRuneError (byteZ c) <> None -> no_char c v.
Proof.
  unfold ValidKeyComponent. rewrite keyRunesError_Ok, Forall_forall.
  intros H Hc Hr Hin. by apply Hr, H, ascii_in_runes.
Qed.

Lemma ValidKeyComponent_no_sep v u : ValidKeyComponent v = Ok u -> no_char SepByte v.
Proof. intros H. eapply ValidKeyComponent_no_char; [done|reflexivity|]. vm_compute. discriminate. Qed.

Lemma ValidTenantID_spec v u :
  ValidTenantID v = Ok u -> no_char SepByte v /\ no_char ":" v /\ Zlen v <= 85.
Proof.
  unfold ValidTenantID, ValidTenantIDComponent. intros H. inv_ok H.
  bool_prop. rewrite contains_char_false in *.
  split_and!; [by eapply ValidKeyComponent_no_sep|done|done].
Qed.

Lemma ValidStreamComponent_no_colon v u : ValidStreamComponent v = Ok u -> no_char ":" v.
Proof.
  unfold ValidStreamComponent. intros H. inv_ok H. bool_prop. by apply contains_char_false.
Qed.

Lemma whenSet_ok v check u : whenSet v check = Ok u -> v <> "" -> check v = Ok tt.
Proof. unfold whenSet. case_decide; [done|]. by destruct u. Qed.

Lemma ValidateBasic_components e u :
  ValidateBasic e = Ok u ->
  no_char SepByte (ev_EventID e) /\ no_char SepByte (ev_SourceSystem e) /\
  Zlen (ev_EventID e) <= 85 /\ Zlen (ev_SourceSystem e) <= 85 /\
  (ev_AggregateType e <> "" -> no_char ":" (ev_AggregateType e)) /\
  MinOccurredAt <= ev_OccurredAt e <= MaxOccurredAt /\ 0 < ev_SchemaVersion e.
Proof.
  unfold ValidateBasic, ValidArchiveComponentLength, time_Before, time_After, time_IsZero.
  intros H. inv_ok H. bool_prop. split_and!; try lia; try done;
    try (by eapply ValidKeyComponent_no_sep).
  intros Hne. eapply ValidStreamComponent_no_colon, whenSet_ok; done.
Qed.

(** ** Stream frames *)

(** What a stream groups by. *)
Inductive stream_class : Type :=
  | Aggregate (typ id : string)
  | Operation (id : string)
  | Source (id : string).

#[export] Instance stream_class_eq_dec : EqDecision stream_class.
Proof. solve_decision. Defined.

Definition class_of (e : Event) : stream_class :=
  if negb (bool_decide (ev_AggregateType e = "")) && negb (bool_decide (ev_AggregateID e = ""))
  then Aggregate (ev_AggregateType e) (ev_AggregateID e)
  else if negb (bool_decide (ev_OperationID e = "")) then Operation (ev_OperationID e)
  else Source (ev_SourceSystem e).

Definition class_frame (c : stream_class) : string :=
  match c with
  | Aggregate t i => "aggregate:" ++ t ++ ":" ++ i
  | Operation i => "operation:" ++ i
  | Source i => "source:" ++ i
  end.

Lemma Stream_frame e :
  ev_StreamID e = "" -> Stream e = ev_TenantID e ++ String ":" (class_frame (class_of e)).
Proof.
  intros H. unfold Stream, class_of. rewrite (bool_decide_true _ H). simpl negb. cbv iota.
  repeat case_match; reflexivity.
Qed.

Definition class_ok (c : stream_class) : Prop :=
  match c with Aggregate t _ => no_char ":" t | _ => True end.

Lemma class_of_ok e u : ValidateBasic e = Ok u -> class_ok (class_of e).
Proof.
  intros H%ValidateBasic_components. destruct H as (_ & _ & _ & _ & H & _).
  unfold class_of. case_match; bool_prop; [|by case_match]. simpl. auto.
Qed.

Lemma class_frame_inj c c' :
  class_ok c -> class_ok c' -> class_frame c = class_frame c' -> c = c'.
Proof.
  intros Hc Hc' H.
  destruct c as [t i|i|i], c' as [t' i'|i'|i']; simpl in *; try (exfalso; by inversion H).
  - apply (string_app_cancel_l "aggregate:"), (sep_inj ":") in H; [|done..]. by destruct H as [-> ->].
  - apply (string_app_cancel_l "operation:") in H. congruence.
  - apply (string_app_cancel_l "source:") in H. congruence.
Qed.

(** ** Properties *)

(** Two events that pass ValidateBasic under validated tenant ids and
    derive their stream (no stream id of their own) land in the same ledger
    stream exactly when they have the same tenant and name the same
    aggregate, or the same operation, or the same source. *)
Theorem Stream_injective e e' :
  ValidateBasic e = Ok tt -> ValidateBasic e' = Ok tt ->
  ValidTenantID (ev_TenantID e) = Ok tt -> ValidTenantID (ev_TenantID e') = Ok tt ->
  ev_StreamID e = "" -> ev_StreamID e' = "" ->
  (Stream e = Stream e' <-> ev_TenantID e = ev_TenantID e' /\ class_of e = class_of e').
Proof.
  intros H1 H2 Ht%ValidTenantID_spec Ht'%ValidTenantID_spec Hs Hs'.
  rewrite !Stream_frame by done. split; [|by intros [-> ->]].
  intros [Heq Hf]%(sep_inj ":"); [|tauto..].
  split; [done|]. apply class_frame_inj; eauto using class_of_ok.
Qed.

(** Every composite key built from a validated tenant id and a
    separator-free component splits back into exactly those two parts, so a
    key is attributed to the tenant it was built for and to no other. *)
Theorem SplitTenantKey_roundtrip tenantID rest :
  ValidTenantID tenantID = Ok tt -> no_char SepByte rest ->
  SplitTenantKey (StreamKey tenantID rest) = Some (tenantID, rest) /\
  SplitTenantKey (EventKey tenantID rest) = Some (tenantID, rest) /\
  forall key t r, SplitTenantKey key = Some (t, r) -> key = StreamKey t r.
Proof.
  intros Ht%ValidTenantID_spec Hr.
  assert (SplitTenantKey (StreamKey tenantID rest) = Some (tenantID, rest)) as Hk.
  { unfold SplitTenantKey, StreamKey, KeySeparator.
    change (String SepByte "" ++ rest) with (String SepByte rest).
    rewrite cut_app by tauto. by rewrite (proj2 (contains_char_false _ _) Hr). }
  split_and!; [done|done|].
  intros key t r. unfold SplitTenantKey. destruct (cut SepByte key) as [[a b]|] eqn:E; [|done].
  case_match; [done|]. intros [= -> ->]. apply cut_Some in E as [-> _]. done.
Qed.

Definition sample_event : Event :=
  mkEvent "e1" "t1" "billing" "invoice.paid" "sch" 1 (693595 * Day) 0 "op1" "" "" "" ""
    (mkActor "u1" "" "" "" []) [] "" "" 0 "" "" "pay" "ok" "" ∅ (Some ∅) "" "" "internal"
    "standard" "k1" "" 0 "" "" "".

Lemma Stream_injective_witness :
  Stream sample_event = Stream (set_ev_ReceivedAt sample_event 5) <->
  ev_TenantID sample_event = ev_TenantID (set_ev_ReceivedAt sample_event 5) /\
  class_of sample_event = class_of (set_ev_ReceivedAt sample_event 5).
Proof. apply (Stream_injective _ _); vm_compute; reflexivity. Defined.

Lemma SplitTenantKey_roundtrip_witness :
  SplitTenantKey (StreamKey "t1" "t1:source:billing") = Some ("t1", "t1:source:billing").
Proof.
  apply (SplitTenantKey_roundtrip "t1" "t1:source:billing"); [vm_compute; reflexivity|].
  apply contains_char_false. vm_compute. reflexivity.
Defined.

End Keys.
