(* ===== verification/Ledger.v ===== *)
(** * The tenant ledger ([internal/store/ledger.go], [ledger_page.go])

    One tenant's append-only cold ledger: the committed records with their
    indexes, the private append buffer of one update pass, lookups through a
    lazily queried reader and a parent ledger, deduplication and conflict
    detection of immutable records, and the bounded page scan.

    A [TenantLedger] is its own fields plus the parent it reads through; a
    method that fills a cache returns the updated ledger, parent included. *)

From Stdlib Require Import Ascii String.
From stdpp Require Import sorting.
From S2P Require Import Prelude GoStr Domain Keys.
Import Domain Keys.
Open Scope string_scope.
Open Scope Z_scope.

Module Ledger.

Inductive CommitOrder : Type := HotFirst | ColdFirst.

#[export] Instance CommitOrder_eq_dec : EqDecision CommitOrder.
Proof. solve_decision. Defined.

(** [LedgerRecordType] is a Go string type. *)
Definition LedgerRecordType : Type := string.
Definition LedgerReceipt : LedgerRecordType := "receipt".
Definition LedgerSegment : LedgerRecordType := "segment".
Definition LedgerCheckpoint : LedgerRecordType := "checkpoint".

Record LedgerRecord : Type := mkLedgerRecord {
  lr_TenantID : string;
  lr_RecordType : string;
  lr_Key : string;
  lr_Version : Z;
  lr_Receipt : option EventReceipt;
  lr_Segment : option Segment;
  lr_Checkpoint : option Checkpoint;
  lr_WrittenAt : time
}.

#[export] Instance LedgerRecord_eq_dec : EqDecision LedgerRecord.
Proof. solve_decision. Defined.

Definition set_lr_TenantID (r : LedgerRecord) v : LedgerRecord :=
  mkLedgerRecord v (lr_RecordType r) (lr_Key r) (lr_Version r) (lr_Receipt r) (lr_Segment r)
    (lr_Checkpoint r) (lr_WrittenAt r).

(** The lazy cold-tier queries a ledger opened over a database reads through. *)
Record ledgerReader : Type := mkledgerReader {
  rd_receipt : string -> result (option (EventReceipt * Z));
  rd_idempotency : string -> result (option (EventReceipt * Z));
  rd_segments : string -> result (list Segment);
  rd_checkpoints : string -> result (list Checkpoint);
  rd_records : result (list LedgerRecord)
}.

(** The fields of TenantLedger other than [parent]. *)
Record LedgerData : Type := mkLedgerData {
  ld_tenantID : string;
  ld_records : list LedgerRecord;
  ld_reader : option ledgerReader;
  ld_readerErr : option error;
  ld_recordsLoaded : bool;
  ld_receipts : gmap string EventReceipt;
  ld_receiptVersions : gmap string Z;
  ld_idempotency : gmap string string;
  ld_segments : gmap string (list Segment);
  ld_checkpoints : gmap string (list Checkpoint);
  ld_committedRecordKey : gset string;
  ld_recordPositions : gmap string Z;
  ld_pending : list LedgerRecord;
  ld_pendingReceipts : gmap string EventReceipt;
  ld_pendingRecordKey : gset string
}.

Definition set_ld_records (d : LedgerData) v : LedgerData :=
  mkLedgerData (ld_tenantID d) v (ld_reader d) (ld_readerErr d) (ld_recordsLoaded d) (ld_receipts d) (ld_receiptVersions d) (ld_idempotency d) (ld_segments d) (ld_checkpoints d) (ld_committedRecordKey d) (ld_recordPositions d) (ld_pending d) (ld_pendingReceipts d) (ld_pendingRecordKey d).
Definition set_ld_readerErr (d : LedgerData) v : LedgerData :=
  mkLedgerData (ld_tenantID d) (ld_records d) (ld_reader d) v (ld_recordsLoaded d) (ld_receipts d) (ld_receiptVersions d) (ld_idempotency d) (ld_segments d) (ld_checkpoints d) (ld_committedRecordKey d) (ld_recordPositions d) (ld_pending d) (ld_pendingReceipts d) (ld_pendingRecordKey d).
Definition set_ld_recordsLoaded (d : LedgerData) v : LedgerData :=
  mkLedgerData (ld_tenantID d) (ld_records d) (ld_reader d) (ld_readerErr d) v (ld_receipts d) (ld_receiptVersions d) (ld_idempotency d) (ld_segments d) (ld_checkpoints d) (ld_committedRecordKey d) (ld_recordPositions d) (ld_pending d) (ld_pendingReceipts d) (ld_pendingRecordKey d).
Definition set_ld_receipts (d : LedgerData) v : LedgerData :=
  mkLedgerData (ld_tenantID d) (ld_records d) (ld_reader d) (ld_readerErr d) (ld_recordsLoaded d) v (ld_receiptVersions d) (ld_idempotency d) (ld_segments d) (ld_checkpoints d) (ld_committedRecordKey d) (ld_recordPositions d) (ld_pending d) (ld_pendingReceipts d) (ld_pendingRecordKey d).
Definition set_ld_receiptVersions (d : LedgerData) v : LedgerData :=
  mkLedgerData (ld_tenantID d) (ld_records d) (ld_reader d) (ld_readerErr d) (ld_recordsLoaded d) (ld_receipts d) v (ld_idempotency d) (ld_segments d) (ld_checkpoints d) (ld_committedRecordKey d) (ld_recordPositions d) (ld_pending d) (ld_pendingReceipts d) (ld_pendingRecordKey d).
Definition set_ld_idempotency (d : LedgerData) v : LedgerData :=
  mkLedgerData (ld_tenantID d) (ld_records d) (ld_reader d) (ld_readerErr d) (ld_recordsLoaded d) (ld_receipts d) (ld_receiptVersions d) v (ld_segments d) (ld_checkpoints d) (ld_committedRecordKey d) (ld_recordPositions d) (ld_pending d) (ld_pendingReceipts d) (ld_pendingRecordKey d).
Definition set_ld_segments (d : LedgerData) v : LedgerData :=
  mkLedgerData (ld_tenantID d) (ld_records d) (ld_reader d) (ld_readerErr d) (ld_recordsLoaded d) (ld_receipts d) (ld_receiptVersions d) (ld_idempotency d) v (ld_checkpoints d) (ld_committedRecordKey d) (ld_recordPositions d) (ld_pending d) (ld_pendingReceipts d) (ld_pendingRecordKey d).
Definition set_ld_checkpoints (d : LedgerData) v : LedgerData :=
  mkLedgerData (ld_tenantID d) (ld_records d) (ld_reader d) (ld_readerErr d) (ld_recordsLoaded d) (ld_receipts d) (ld_receiptVersions d) (ld_idempotency d) (ld_segments d) v (ld_committedRecordKey d) (ld_recordPositions d) (ld_pending d) (ld_pendingReceipts d) (ld_pendingRecordKey d).
Definition set_ld_committedRecordKey (d : LedgerData) v : LedgerData :=
  mkLedgerData (ld_tenantID d) (ld_records d) (ld_reader d) (ld_readerErr d) (ld_recordsLoaded d) (ld_receipts d) (ld_receiptVersions d) (ld_idempotency d) (ld_segments d) (ld_checkpoints d) v (ld_recordPositions d) (ld_pending d) (ld_pendingReceipts d) (ld_pendingRecordKey d).
Definition set_ld_recordPositions (d : LedgerData) v : LedgerData :=
  mkLedgerData (ld_tenantID d) (ld_records d) (ld_reader d) (ld_readerErr d) (ld_recordsLoaded d) (ld_receipts d) (ld_receiptVersions d) (ld_idempotency d) (ld_segments d) (ld_checkpoints d) (ld_committedRecordKey d) v (ld_pending d) (ld_pendingReceipts d) (ld_pendingRecordKey d).
Definition set_ld_pending (d : LedgerData) v : LedgerData :=
  mkLedgerData (ld_tenantID d) (ld_records d) (ld_reader d) (ld_readerErr d) (ld_recordsLoaded d) (ld_receipts d) (ld_receiptVersions d) (ld_idempotency d) (ld_segments d) (ld_checkpoints d) (ld_committedRecordKey d) (ld_recordPositions d) v (ld_pendingReceipts d) (ld_pendingRecordKey d).
Definition set_ld_pendingReceipts (d : LedgerData) v : LedgerData :=
  mkLedgerData (ld_tenantID d) (ld_records d) (ld_reader d) (ld_readerErr d) (ld_recordsLoaded d) (ld_receipts d) (ld_receiptVersions d) (ld_idempotency d) (ld_segments d) (ld_checkpoints d) (ld_committedRecordKey d) (ld_recordPositions d) (ld_pending d) v (ld_pendingRecordKey d).
Definition set_ld_pendingRecordKey (d : LedgerData) v : LedgerData :=
  mkLedgerData (ld_tenantID d) (ld_records d) (ld_reader d) (ld_readerErr d) (ld_recordsLoaded d) (ld_receipts d) (ld_receiptVersions d) (ld_idempotency d) (ld_segments d) (ld_checkpoints d) (ld_committedRecordKey d) (ld_recordPositions d) (ld_pending d) (ld_pendingReceipts d) v.

#[warnings="-register-all"]
Inductive TenantLedger : Type :=
  | TL (data : LedgerData) (parent : option TenantLedger).

Definition tl_data (l : TenantLedger) : LedgerData := let 'TL d _ := l in d.
Definition tl_parent (l : TenantLedger) : option TenantLedger := let 'TL _ p := l in p.

(** ** Identities *)

Definition ledgerRecordIdentity (r : LedgerRecord) : string :=
  lr_RecordType r ++ KeySeparator ++ lr_Key r ++ KeySeparator ++ Itoa (lr_Version r).

(** The identity of the probe [LedgerRecord{RecordType, Key, Version}]. *)
Definition identityOf (recordType key : string) (version : Z) : string :=
  recordType ++ KeySeparator ++ key ++ KeySeparator ++ Itoa version.

Definition segmentLedgerKey (s : Segment) : string :=
  StreamKey (sg_TenantID s) (sg_StreamID s) ++ KeySeparator ++ Itoa (sg_FirstSequence s).
Definition checkpointLedgerKey (c : Checkpoint) : string :=
  StreamKey (cp_TenantID c) (cp_StreamID c) ++ KeySeparator ++ Itoa (cp_Sequence c).

Definition matchesRecord (recordType key : string) (version : Z) (r : LedgerRecord) : bool :=
  bool_decide (lr_RecordType r = recordType) && bool_decide (lr_Key r = key) &&
  bool_decide (lr_Version r = version).

Definition is_set {A} (o : option A) : bool := match o with Some _ => true | None => false end.

Definition validateLedgerRecord (r : LedgerRecord) : result unit :=
  guard_err (negb (bool_decide (lr_TenantID r = "") || bool_decide (lr_RecordType r = "") ||
                   bool_decide (lr_Key r = "") || (lr_Version r <=? 0)))
    (NewErr "invalid ledger record identity") ;?
  guard_err (Nat.eqb (Nat.b2n (is_set (lr_Receipt r)) + Nat.b2n (is_set (lr_Segment r)) +
                      Nat.b2n (is_set (lr_Checkpoint r))) 1)
    (NewErr "ledger record must contain exactly one payload") ;?
  if decide (lr_RecordType r = LedgerReceipt) then
    match lr_Receipt r with
    | None => Err (NewErr "receipt ledger record has no receipt")
    | Some receipt =>
        guard_err (negb (negb (bool_decide (rc_TenantID receipt = lr_TenantID r)) ||
                         bool_decide (rc_EventID receipt = "")))
          (NewErr "receipt ledger record has non-canonical ownership") ;?
        guard_err (bool_decide (lr_Key r = EventKey (lr_TenantID r) (rc_EventID receipt)))
          (NewErr "receipt ledger record key")
    end
  else if decide (lr_RecordType r = LedgerSegment) then
    match lr_Segment r with
    | None => Err (NewErr "segment ledger record has no segment")
    | Some segment =>
        guard_err (negb (negb (bool_decide (sg_TenantID segment = lr_TenantID r)) ||
                         bool_decide (sg_StreamID segment = "") || (sg_FirstSequence segment <=? 0)))
          (NewErr "segment ledger record has non-canonical ownership") ;?
        guard_err (bool_decide (lr_Key r = segmentLedgerKey segment))
          (NewErr "segment ledger record key")
    end
  else if decide (lr_RecordType r = LedgerCheckpoint) then
    match lr_Checkpoint r with
    | None => Err (NewErr "checkpoint ledger record has no checkpoint")
    | Some checkpoint =>
        guard_err (bool_decide (cp_TenantID checkpoint = lr_TenantID r))
          (NewErr "checkpoint ledger record has non-canonical ownership") ;?
        let? expected :=
          (if decide (cp_ID checkpoint = "") then
             guard_err (negb (bool_decide (cp_StreamID checkpoint = "") || (cp_Sequence checkpoint <=? 0)))
               (NewErr "checkpoint ledger record has empty identity") ;?
             Ok (checkpointLedgerKey checkpoint)
           else Ok (cp_ID checkpoint)) in
        guard_err (bool_decide (lr_Key r = expected)) (NewErr "checkpoint ledger record key")
    end
  else Err (NewErr "unknown ledger record type").

Definition immutableLedgerRecordEqual (left right : LedgerRecord) : bool :=
  if negb (bool_decide (lr_TenantID left = lr_TenantID right)) ||
     negb (bool_decide (lr_RecordType left = lr_RecordType right)) ||
     negb (bool_decide (lr_Key left = lr_Key right)) ||
     negb (bool_decide (lr_Version left = lr_Version right))
  then false
  else if decide (lr_RecordType left = LedgerReceipt) then bool_decide (lr_Receipt left = lr_Receipt right)
  else if decide (lr_RecordType left = LedgerSegment) then bool_decide (lr_Segment left = lr_Segment right)
  else if decide (lr_RecordType left = LedgerCheckpoint) then bool_decide (lr_Checkpoint left = lr_Checkpoint right)
  else false.

Definition ledgerConflict (r : LedgerRecord) : error :=
  Wrapf (Sentinel ErrLedgerRecordConflict) (ledgerRecordIdentity r).

(** ** Construction and replay *)

Definition emptyData (tenantID : string) (reader : option ledgerReader) (loaded : bool) : LedgerData :=
  mkLedgerData tenantID [] reader None loaded ∅ ∅ ∅ ∅ ∅ ∅ ∅ [] ∅ ∅.

Definition committedHere (d : LedgerData) (recordType key : string) (version : Z) : bool :=
  bool_decide (identityOf recordType key version ∈ ld_committedRecordKey d).

Fixpoint hasCommittedRecord (l : TenantLedger) (recordType key : string) (version : Z) : bool :=
  match l with
  | TL d parent =>
      if committedHere d recordType key version then true
      else match parent with
           | Some p => hasCommittedRecord p recordType key version
           | None => false
           end
  end.

(** The tail of applyRecord: append the record and index its position. *)
Definition appendRecord (d : LedgerData) (r : LedgerRecord) : LedgerData :=
  let d := set_ld_records d (ld_records d ++ [r])%list in
  let identity := ledgerRecordIdentity r in
  let d := set_ld_committedRecordKey d ({[identity]} ∪ ld_committedRecordKey d) in
  set_ld_recordPositions d
    (<[identity := Z.of_nat (length (ld_records d)) - 1]> (ld_recordPositions d)).

(** The switch of applyRecord: [None] is one of its early returns. *)
Definition indexRecord (d : LedgerData) (r : LedgerRecord) : option LedgerData :=
  if decide (lr_RecordType r = LedgerReceipt) then
    match lr_Receipt r with
    | None => None
    | Some receipt =>
        if (match ld_receiptVersions d !! lr_Key r with
            | Some current => lr_Version r <=? current
            | None => false
            end) then None
        else
          let d := set_ld_receipts d (<[lr_Key r := receipt]> (ld_receipts d)) in
          let d := set_ld_receiptVersions d (<[lr_Key r := lr_Version r]> (ld_receiptVersions d)) in
          Some (if decide (rc_IdempotencyKey receipt = "") then d
                else set_ld_idempotency d (<[rc_IdempotencyKey receipt := lr_Key r]> (ld_idempotency d)))
    end
  else if decide (lr_RecordType r = LedgerSegment) then
    match lr_Segment r with
    | None => None
    | Some segment =>
        let streamKey := StreamKey (sg_TenantID segment) (sg_StreamID segment) in
        Some (set_ld_segments d
          (<[streamKey := (map_get [] (ld_segments d) streamKey ++ [segment])%list]> (ld_segments d)))
    end
  else if decide (lr_RecordType r = LedgerCheckpoint) then
    match lr_Checkpoint r with
    | None => None
    | Some checkpoint =>
        let streamKey := StreamKey (cp_TenantID checkpoint) (cp_StreamID checkpoint) in
        Some (set_ld_checkpoints d
          (<[streamKey := (map_get [] (ld_checkpoints d) streamKey ++ [checkpoint])%list]> (ld_checkpoints d)))
    end
  else Some d.

Definition applyRecord (l : TenantLedger) (record : LedgerRecord) : TenantLedger :=
  let 'TL d parent := l in
  let r := if decide (lr_TenantID record = "") then set_lr_TenantID record (ld_tenantID d) else record in
  if negb (bool_decide (lr_TenantID r = ld_tenantID d)) || (lr_Version r <=? 0) then l
  else if hasCommittedRecord l (lr_RecordType r) (lr_Key r) (lr_Version r) then l
  else match indexRecord d r with
       | None => l
       | Some d' => TL (appendRecord d' r) parent
       end.

Definition newTenantLedger (tenantID : string) (records : list LedgerRecord) : TenantLedger :=
  foldl applyRecord (TL (emptyData tenantID None true) None) records.
Definition NewTenantLedger (tenantID : string) : TenantLedger := newTenantLedger tenantID [].
Definition newTenantLedgerWithReader (tenantID : string) (reader : ledgerReader) : TenantLedger :=
  TL (emptyData tenantID (Some reader) false) None.
Definition newTenantLedgerView (parent : TenantLedger) : TenantLedger :=
  TL (emptyData (ld_tenantID (tl_data parent)) None true) (Some parent).

(** Replace the record list and every committed index by a full load. *)
Definition loadRecords (d : LedgerData) (records : list LedgerRecord) : LedgerData :=
  let loaded := tl_data (newTenantLedger (ld_tenantID d) records) in
  mkLedgerData (ld_tenantID d) records (ld_reader d) (ld_readerErr d) true
    (ld_receipts loaded) (ld_receiptVersions loaded) (ld_idempotency loaded)
    (ld_segments loaded) (ld_checkpoints loaded) (ld_committedRecordKey loaded)
    (ld_recordPositions loaded) (ld_pending d) (ld_pendingReceipts d) (ld_pendingRecordKey d).

(** ** Lookups *)

(** A reader query runs only while no reader error was recorded; its failure
    is recorded and reads as a miss. *)
Definition query {A} (d : LedgerData) (q : ledgerReader -> result A) : LedgerData * option A :=
  match ld_reader d, ld_readerErr d with
  | Some rd, None =>
      match q rd with
      | Ok a => (d, Some a)
      | Err e => (set_ld_readerErr d (Some e), None)
      end
  | _, _ => (d, None)
  end.

Definition cacheReceipt (d : LedgerData) (key : string) (receipt : EventReceipt) (version : Z) : LedgerData :=
  set_ld_receiptVersions (set_ld_receipts d (<[key := receipt]> (ld_receipts d)))
    (<[key := version]> (ld_receiptVersions d)).
Definition cacheIdempotency (d : LedgerData) (idem key : string) : LedgerData :=
  set_ld_idempotency d (<[idem := key]> (ld_idempotency d)).

Definition versionOf (l : TenantLedger) (key : string) : Z :=
  map_get 0 (ld_receiptVersions (tl_data l)) key.

Fixpoint Receipt (l : TenantLedger) (key : string) : TenantLedger * option EventReceipt :=
  match l with
  | TL d parent =>
      match ld_receipts d !! key with
      | Some receipt => (l, Some receipt)
      | None =>
          match query d (fun rd => rd_receipt rd key) with
          | (d, Some (Some (receipt, version))) =>
              let d := cacheReceipt d key receipt version in
              let d := if decide (rc_IdempotencyKey receipt = "") then d
                       else cacheIdempotency d (rc_IdempotencyKey receipt) key in
              (TL d parent, Some receipt)
          | (d, _) =>
              match parent with
              | None => (TL d None, None)
              | Some p =>
                  match Receipt p key with
                  | (p, Some receipt) => (TL (cacheReceipt d key receipt (versionOf p key)) (Some p), Some receipt)
                  | (p, None) => (TL d (Some p), None)
                  end
              end
          end
      end
  end.

Fixpoint FindReceiptByIdempotencyKey (l : TenantLedger) (key : string) : TenantLedger * option EventReceipt :=
  match l with
  | TL d parent =>
      if decide (key = "") then (l, None)
      else match ld_idempotency d !! key with
      | Some eventKey => (l, ld_receipts d !! eventKey)
      | None =>
          match query d (fun rd => rd_idempotency rd key) with
          | (d, Some (Some (receipt, version))) =>
              let eventKey := EventKey (rc_TenantID receipt) (rc_EventID receipt) in
              (TL (cacheIdempotency (cacheReceipt d eventKey receipt version) key eventKey) parent, Some receipt)
          | (d, _) =>
              match parent with
              | None => (TL d None, None)
              | Some p =>
                  match FindReceiptByIdempotencyKey p key with
                  | (p, Some receipt) =>
                      let eventKey := EventKey (rc_TenantID receipt) (rc_EventID receipt) in
                      (TL (cacheIdempotency (cacheReceipt d eventKey receipt (versionOf p eventKey)) key eventKey)
                          (Some p), Some receipt)
                  | (p, None) => (TL d (Some p), None)
                  end
              end
          end
      end
  end.

Fixpoint Segments (l : TenantLedger) (streamKey : string) : TenantLedger * list Segment :=
  match l with
  | TL d parent =>
      match ld_segments d !! streamKey with
      | Some values => (l, values)
      | None =>
          let '(d, values) :=
            match query d (fun rd => rd_segments rd streamKey) with
            | (d, Some values) => (set_ld_segments d (<[streamKey := values]> (ld_segments d)), values)
            | (d, None) => (d, [])
            end in
          match parent with
          | Some p => let '(p, values) := Segments p streamKey in (TL d (Some p), values)
          | None => (TL d None, values)
          end
      end
  end.

Fixpoint Checkpoints (l : TenantLedger) (streamKey : string) : TenantLedger * list Checkpoint :=
  match l with
  | TL d parent =>
      match ld_checkpoints d !! streamKey with
      | Some values => (l, values)
      | None =>
          let '(d, values) :=
            match query d (fun rd => rd_checkpoints rd streamKey) with
            | (d, Some values) => (set_ld_checkpoints d (<[streamKey := values]> (ld_checkpoints d)), values)
            | (d, None) => (d, [])
            end in
          match parent with
          | Some p => let '(p, values) := Checkpoints p streamKey in (TL d (Some p), values)
          | None => (TL d None, values)
          end
      end
  end.

Definition recordLe (left right : LedgerRecord) : bool :=
  if negb (bool_decide (lr_RecordType left = lr_RecordType right))
  then str_ltb (lr_RecordType left) (lr_RecordType right)
  else if negb (bool_decide (lr_Key left = lr_Key right)) then str_ltb (lr_Key left) (lr_Key right)
  else lr_Version left <=? lr_Version right.
Definition sortLedgerRecords (records : list LedgerRecord) : list LedgerRecord :=
  stable_sort recordLe records.

Definition loadIfNeeded (d : LedgerData) : LedgerData :=
  if ld_recordsLoaded d then d
  else match query d rd_records with
       | (d, Some records) => loadRecords d records
       | (d, None) => d
       end.

Fixpoint Records (l : TenantLedger) : TenantLedger * list LedgerRecord :=
  match l with
  | TL d parent =>
      let d := loadIfNeeded d in
      match parent with
      | Some p => let '(p, records) := Records p in (TL d (Some p), records)
      | None => (TL d None, sortLedgerRecords (ld_records d))
      end
  end.

Definition LedgerErr (l : TenantLedger) : option error := ld_readerErr (tl_data l).

Fixpoint ensureRecordsLoaded (l : TenantLedger) : TenantLedger * option error :=
  match l with
  | TL d parent =>
      let d := loadIfNeeded d in
      match ld_readerErr d with
      | Some e => (TL d parent, Some e)
      | None =>
          match parent with
          | Some p => let '(p, e) := ensureRecordsLoaded p in (TL d (Some p), e)
          | None => (TL d None, None)
          end
      end
  end.

(** The committed record at the hinted position, when the hint is checked out. *)
Definition hintedRecord (d : LedgerData) (recordType key : string) (version : Z) : option LedgerRecord :=
  match ld_recordPositions d !! identityOf recordType key version with
  | Some index =>
      if (0 <=? index) && (index <? Z.of_nat (length (ld_records d))) then
        match ld_records d !! Z.to_nat index with
        | Some r =>
            if bool_decide (lr_TenantID r = ld_tenantID d) && matchesRecord recordType key version r
            then Some r else None
        | None => None
        end
      else None
  | None => None
  end.

Definition localCommittedRecord (d : LedgerData) (recordType key : string) (version : Z) : option LedgerRecord :=
  match hintedRecord d recordType key version with
  | Some r => Some r
  | None => find_first (matchesRecord recordType key version) (ld_records d)
  end.

(** The parent was loaded by ensureRecordsLoaded already; loading is idempotent,
    so recursing on it before or after the load finds the same record. *)
Fixpoint findCommittedRecord (l : TenantLedger) (recordType key : string) (version : Z)
    : TenantLedger * result (option LedgerRecord) :=
  match ensureRecordsLoaded l with
  | (l', Some e) => (l', Err e)
  | (l', None) =>
      match localCommittedRecord (tl_data l') recordType key version with
      | Some r => (l', Ok (Some r))
      | None =>
          match l with
          | TL _ (Some p) =>
              let '(p', found) := findCommittedRecord p recordType key version in
              (TL (tl_data l') (Some p'), found)
          | TL _ None => (l', Ok None)
          end
      end
  end.

Fixpoint findRecord (l : TenantLedger) (recordType key : string) (version : Z)
    : TenantLedger * result (option LedgerRecord) :=
  match ensureRecordsLoaded l with
  | (l', Some e) => (l', Err e)
  | (l', None) =>
      match find_first (matchesRecord recordType key version) (ld_pending (tl_data l')) with
      | Some r => (l', Ok (Some r))
      | None =>
          match localCommittedRecord (tl_data l') recordType key version with
          | Some r => (l', Ok (Some r))
          | None =>
              match l with
              | TL _ (Some p) =>
                  let '(p', found) := findRecord p recordType key version in
                  (TL (tl_data l') (Some p'), found)
              | TL _ None => (l', Ok None)
              end
          end
      end
  end.

Definition hasRecord (l : TenantLedger) (recordType key : string) (version : Z) : TenantLedger * bool :=
  match findRecord l recordType key version with
  | (l', Ok (Some _)) => (l', true)
  | (l', _) => (l', false)
  end.

(** ** Buffering *)

Definition latestStep (key : string) (latest : option LedgerRecord) (r : LedgerRecord) : option LedgerRecord :=
  if bool_decide (lr_RecordType r = LedgerReceipt) && bool_decide (lr_Key r = key) &&
     (match latest with None => true | Some best => lr_Version best <? lr_Version r end)
  then Some r else latest.
Definition pendingReceiptRecord (l : TenantLedger) (key : string) : option LedgerRecord :=
  foldl (latestStep key) None (ld_pending (tl_data l)).

Definition set_data (l : TenantLedger) (d : LedgerData) : TenantLedger := TL d (tl_parent l).

(** The last lines of the three buffering operations: find the identity, then
    no-op, conflict or append to the buffer. *)
Definition bufferRecord (l : TenantLedger) (r : LedgerRecord) : TenantLedger * option error :=
  match findRecord l (lr_RecordType r) (lr_Key r) (lr_Version r) with
  | (l, Err e) => (l, Some e)
  | (l, Ok (Some existing)) =>
      (l, if immutableLedgerRecordEqual existing r then None else Some (ledgerConflict r))
  | (l, Ok None) =>
      let d := tl_data l in
      let d := set_ld_pending d (ld_pending d ++ [r])%list in
      (set_data l (set_ld_pendingRecordKey d ({[ledgerRecordIdentity r]} ∪ ld_pendingRecordKey d)), None)
  end.

Definition nextReceiptVersion (l : TenantLedger) (key : string) : Z :=
  match pendingReceiptRecord l key with
  | Some previous => lr_Version previous + 1
  | None => versionOf l key + 1
  end.

Definition receiptUnchanged (d : LedgerData) (key : string) (receipt : EventReceipt) : bool :=
  bool_decide (ld_pendingReceipts d !! key = Some receipt) ||
  (bool_decide (ld_receipts d !! key = Some receipt) && bool_decide (ld_pendingReceipts d !! key = None)).

Definition SetReceipt (l : TenantLedger) (now : time) (receipt : EventReceipt) : TenantLedger * option error :=
  let tenantID := ld_tenantID (tl_data l) in
  let receipt := if decide (rc_TenantID receipt = "") then set_rc_TenantID receipt tenantID else receipt in
  if negb (bool_decide (rc_TenantID receipt = tenantID)) then
    (l, Some (NewErr "receipt does not belong to ledger tenant"))
  else
    let key := EventKey tenantID (rc_EventID receipt) in
    match ensureRecordsLoaded l with
    | (l, Some e) => (l, Some e)
    | (l, None) =>
        let l := if is_set (ld_reader (tl_data l)) || is_set (tl_parent l) then fst (Receipt l key) else l in
        match (if is_set (ld_reader (tl_data l)) || is_set (tl_parent l) then LedgerErr l else None) with
        | Some e => (l, Some e)
        | None =>
            if receiptUnchanged (tl_data l) key receipt then (l, None)
            else
              let record := mkLedgerRecord tenantID LedgerReceipt key (nextReceiptVersion l key)
                              (Some receipt) None None now in
              match validateLedgerRecord record with
              | Err e => (l, Some e)
              | Ok _ =>
                  match findRecord l LedgerReceipt key (lr_Version record) with
                  | (l, Err e) => (l, Some e)
                  | (l, Ok (Some existing)) =>
                      (l, if immutableLedgerRecordEqual existing record then None else Some (ledgerConflict record))
                  | (l, Ok None) =>
                      let d := tl_data l in
                      let d := set_ld_pending d (ld_pending d ++ [record])%list in
                      let d := set_ld_pendingReceipts d (<[key := receipt]> (ld_pendingReceipts d)) in
                      (set_data l (set_ld_pendingRecordKey d
                         ({[ledgerRecordIdentity record]} ∪ ld_pendingRecordKey d)), None)
                  end
              end
        end
    end.

Definition AppendSegment (l : TenantLedger) (now : time) (segment : Segment) : TenantLedger * option error :=
  let tenantID := ld_tenantID (tl_data l) in
  if negb (bool_decide (sg_TenantID segment = tenantID)) then
    (l, Some (NewErr "segment does not belong to ledger tenant"))
  else
    let record := mkLedgerRecord tenantID LedgerSegment (segmentLedgerKey segment) 1 None (Some segment) None now in
    match validateLedgerRecord record with
    | Err e => (l, Some e)
    | Ok _ => bufferRecord l record
    end.

Definition AppendCheckpoint (l : TenantLedger) (now : time) (checkpoint : Checkpoint) : TenantLedger * option error :=
  let tenantID := ld_tenantID (tl_data l) in
  if negb (bool_decide (cp_TenantID checkpoint = tenantID)) then
    (l, Some (NewErr "checkpoint does not belong to ledger tenant"))
  else
    let key := if decide (cp_ID checkpoint = "") then checkpointLedgerKey checkpoint else cp_ID checkpoint in
    let record := mkLedgerRecord tenantID LedgerCheckpoint key 1 None None (Some checkpoint) now in
    match validateLedgerRecord record with
    | Err e => (l, Some e)
    | Ok _ => bufferRecord l record
    end.

(** ** Committing *)

Fixpoint appendLoop (l : TenantLedger) (seen : gmap string LedgerRecord) (records : list LedgerRecord)
    : TenantLedger * result (list LedgerRecord) :=
  match records with
  | [] => (l, Ok [])
  | r :: records =>
      match validateLedgerRecord r with
      | Err e => (l, Err e)
      | Ok _ =>
          let identity := ledgerRecordIdentity r in
          match seen !! identity with
          | Some previous =>
              if immutableLedgerRecordEqual previous r then appendLoop l seen records
              else (l, Err (ledgerConflict r))
          | None =>
              let seen := <[identity := r]> seen in
              match findCommittedRecord l (lr_RecordType r) (lr_Key r) (lr_Version r) with
              | (l, Err e) => (l, Err e)
              | (l, Ok (Some existing)) =>
                  if immutableLedgerRecordEqual existing r then appendLoop l seen records
                  else (l, Err (ledgerConflict r))
              | (l, Ok None) =>
                  let '(l, rest) := appendLoop l seen records in
                  (l, let? rest := rest in Ok (r :: rest))
              end
          end
      end
  end.
Definition recordsToAppend (l : TenantLedger) (records : list LedgerRecord)
    : TenantLedger * result (list LedgerRecord) := appendLoop l ∅ records.

Definition resetPending (d : LedgerData) : LedgerData :=
  set_ld_pendingRecordKey (set_ld_pendingReceipts (set_ld_pending d []) ∅) ∅.

Definition commitRecord (l : TenantLedger) (r : LedgerRecord) : TenantLedger :=
  if hasCommittedRecord l (lr_RecordType r) (lr_Key r) (lr_Version r) then l else applyRecord l r.
Definition commitPending (l : TenantLedger) (records : list LedgerRecord) : TenantLedger :=
  let 'TL d parent := foldl commitRecord l records in TL (resetPending d) parent.

Definition versionStep (key : string) (version : Z) (r : LedgerRecord) : Z :=
  if bool_decide (lr_RecordType r = LedgerReceipt) && bool_decide (lr_Key r = key) && (version <? lr_Version r)
  then lr_Version r else version.
Definition receiptVersionFor (records : list LedgerRecord) (key : string) : Z :=
  foldl (versionStep key) 0 records.

Definition clearPending (l : TenantLedger) : TenantLedger :=
  let 'TL d parent := l in
  let d := resetPending d in
  TL (set_ld_receiptVersions d
        (map_imap (fun key _ => Some (receiptVersionFor (ld_records d) key)) (ld_receipts d) ∪
         ld_receiptVersions d)) parent.

Definition committedRecords (l : TenantLedger) : list LedgerRecord := ld_records (tl_data l).
Definition pendingRecords (l : TenantLedger) : list LedgerRecord := ld_pending (tl_data l).

(** ** Bounded page scan (ledger_page.go) *)

Record LedgerPageCursor : Type := mkLedgerPageCursor { pc_After : Z; pc_Through : Z }.
Record LedgerPage : Type := mkLedgerPage {
  pg_Records : list LedgerRecord; pg_Next : LedgerPageCursor; pg_Done : bool }.
Definition MaxLedgerPageSize : Z := 100.

Definition ledgerRecordsPage (records : list LedgerRecord) (cursor : LedgerPageCursor) (limit : Z) : LedgerPage :=
  let len := Z.of_nat (length records) in
  let through := if pc_Through cursor =? 0 then len else pc_Through cursor in
  let endOfSweep := Z.min through len in
  if endOfSweep <=? pc_After cursor then
    mkLedgerPage [] (mkLedgerPageCursor endOfSweep through) true
  else
    let stop := pc_After cursor + Z.min limit (endOfSweep - pc_After cursor) in
    mkLedgerPage (take (Z.to_nat (stop - pc_After cursor)) (drop (Z.to_nat (pc_After cursor)) records))
      (mkLedgerPageCursor stop through) (stop =? endOfSweep).

Definition validPageRequest (tenantID : string) (cursor : LedgerPageCursor) (limit : Z) : bool :=
  negb (bool_decide (tenantID = "") || (pc_After cursor <? 0) || (pc_Through cursor <? 0) ||
        ((0 <? pc_Through cursor) && (pc_Through cursor <? pc_After cursor)) ||
        (limit <? 1) || (MaxLedgerPageSize <? limit)).

End Ledger.
