(* ===== verification/LedgerFacts.v ===== *)
(** * Facts about the tenant ledger

    Identity framing, checked position hints, deduplication of an append
    batch, replay, and the refinement of the indexed ledger to its record
    history. *)

From Stdlib Require Import Ascii String.
From S2P Require Import Prelude GoStr Domain Keys Ledger.
Import Domain Keys Ledger.
Open Scope string_scope.
Open Scope Z_scope.

Module LedgerFacts.

(** ** Identities *)

Lemma identity_probe r :
  ledgerRecordIdentity r = identityOf (lr_RecordType r) (lr_Key r) (lr_Version r).
Proof. reflexivity. Qed.

Lemma sep_not_digit : ~ digit_or_minus SepByte.
Proof. unfold digit_or_minus. vm_compute. intros [H|[H _]]; [discriminate|by apply H]. Qed.

Lemma identityOf_inj t k v t' k' v' :
  no_char SepByte t -> no_char SepByte t' ->
  identityOf t k v = identityOf t' k' v' -> t = t' /\ k = k' /\ v = v'.
Proof.
  intros Ht Ht' H. unfold identityOf, KeySeparator in H.
  apply (sep_inj SepByte) in H as [-> H]; [|done..].
  apply (sep_inj_r SepByte) in H as [-> H]; [|by apply Itoa_no_char, sep_not_digit..].
  by apply Itoa_inj in H as ->.
Qed.

Definition same_identity (a b : LedgerRecord) : Prop :=
  lr_RecordType a = lr_RecordType b /\ lr_Key a = lr_Key b /\ lr_Version a = lr_Version b.

Lemma matchesRecord_true t k v r :
  matchesRecord t k v r = true <-> lr_RecordType r = t /\ lr_Key r = k /\ lr_Version r = v.
Proof. unfold matchesRecord. rewrite !andb_true_iff, !bool_decide_eq_true. tauto. Qed.

Lemma matchesRecord_identity t k v r :
  matchesRecord t k v r = true -> ledgerRecordIdentity r = identityOf t k v.
Proof. rewrite matchesRecord_true, identity_probe. by intros (-> & -> & ->). Qed.

(** The three families the ledger validates. *)
Definition known_type (t : string) : Prop :=
  t = LedgerReceipt \/ t = LedgerSegment \/ t = LedgerCheckpoint.

Lemma known_type_no_sep t : known_type t -> no_char SepByte t.
Proof. intros [-> | [-> | ->]]; apply contains_char_false; reflexivity. Qed.

Definition ids (rs : list LedgerRecord) : list string := ledgerRecordIdentity <$> rs.

Lemma ids_app a b : ids (a ++ b) = (ids a ++ ids b)%list.
Proof. apply fmap_app. Qed.

Lemma identity_matches r t k v :
  known_type (lr_RecordType r) -> known_type t ->
  ledgerRecordIdentity r = identityOf t k v -> matchesRecord t k v r = true.
Proof.
  intros Hr Ht H. rewrite identity_probe in H. apply matchesRecord_true.
  apply identityOf_inj in H; auto using known_type_no_sep.
Qed.

(** ** Validation *)

Record valid_record (r : LedgerRecord) : Prop := {
  vr_ok : validateLedgerRecord r = Ok tt;
  vr_tenant : lr_TenantID r <> "";
  vr_version : 0 < lr_Version r;
  vr_key : lr_Key r <> "";
  vr_type : known_type (lr_RecordType r);
  vr_receipt : lr_RecordType r = LedgerReceipt ->
    exists rc, lr_Receipt r = Some rc /\ rc_TenantID rc = lr_TenantID r /\
               lr_Key r = EventKey (lr_TenantID r) (rc_EventID rc);
  vr_segment : lr_RecordType r = LedgerSegment ->
    exists sg, lr_Segment r = Some sg /\ sg_TenantID sg = lr_TenantID r /\ lr_Key r = segmentLedgerKey sg;
  vr_checkpoint : lr_RecordType r = LedgerCheckpoint ->
    exists cp, lr_Checkpoint r = Some cp /\ cp_TenantID cp = lr_TenantID r
}.

Lemma validate_valid r u : validateLedgerRecord r = Ok u -> valid_record r.
Proof.
  destruct u. intros H. pose proof H as Hok. unfold validateLedgerRecord in H. inv_ok H. bool_prop.
  unfold LedgerReceipt, LedgerSegment, LedgerCheckpoint in *.
  repeat case_decide; try done; case_match; try done; inv_ok H; bool_prop;
    split; try lia; try done; try (by unfold known_type; auto); intros;
    unfold LedgerReceipt, LedgerSegment, LedgerCheckpoint in *; simplify_eq; eauto 6; congruence.
Qed.

(** ** Checked hints *)

Lemma find_first_unique {A} (p : A -> bool) l r :
  r ∈ l -> p r = true -> (forall x, x ∈ l -> p x = true -> x = r) -> find_first p l = Some r.
Proof.
  intros Hin Hr Huniq. destruct (find_first p l) as [x|] eqn:E.
  - apply find_first_Some in E as [Hx Hp]. f_equal. auto.
  - rewrite find_first_None in E. by rewrite (E r Hin) in Hr.
Qed.

Lemma fmap_unique {A B} (f : A -> B) l x y : NoDup (f <$> l) -> x ∈ l -> y ∈ l -> f x = f y -> x = y.
Proof.
  induction l as [|z l IH]; simpl; [intros _ H; inversion H|].
  intros [Hz Hl]%NoDup_cons Hx Hy Hf.
  assert (forall w, w ∈ l -> f w ∈ f <$> l) as Hm by (intros; by apply list_elem_of_fmap_2).
  apply elem_of_cons in Hx as [->|Hx]; apply elem_of_cons in Hy as [->|Hy]; auto;
    exfalso; apply Hz; [rewrite Hf|rewrite <- Hf]; auto.
Qed.

Lemma ids_unique rs x y : NoDup (ids rs) -> x ∈ rs -> y ∈ rs ->
  ledgerRecordIdentity x = ledgerRecordIdentity y -> x = y.
Proof. apply fmap_unique. Qed.

(** Whatever the position index holds, the lookup equals the full scan. *)
Lemma localCommittedRecord_scan d t k v :
  NoDup (ids (ld_records d)) ->
  localCommittedRecord d t k v = find_first (matchesRecord t k v) (ld_records d).
Proof.
  intros Hnd. unfold localCommittedRecord, hintedRecord.
  destruct (ld_recordPositions d !! _) as [i|]; [|done].
  destruct (_ && _); [|done].
  destruct (ld_records d !! Z.to_nat i) as [r|] eqn:Hr; [|done].
  destruct (bool_decide _ && matchesRecord t k v r) eqn:Hm; [|done].
  apply andb_true_iff in Hm as [_ Hm]. symmetry.
  apply list_elem_of_lookup_2 in Hr. apply find_first_unique; [done|done|].
  intros x Hx Hxm. eapply ids_unique; [done..|].
  by rewrite (matchesRecord_identity _ _ _ _ Hm), (matchesRecord_identity _ _ _ _ Hxm).
Qed.

(** ** The record history and what the indexes must say about it *)

Definition receiptFor (key : string) (r : LedgerRecord) : option EventReceipt :=
  if bool_decide (lr_RecordType r = LedgerReceipt) && bool_decide (lr_Key r = key)
  then lr_Receipt r else None.
Definition idemFor (idem : string) (r : LedgerRecord) : option string :=
  if bool_decide (lr_RecordType r = LedgerReceipt) then
    match lr_Receipt r with
    | Some rc => if bool_decide (rc_IdempotencyKey rc = idem) then Some (lr_Key r) else None
    | None => None
    end
  else None.
Definition segmentFor (streamKey : string) (r : LedgerRecord) : option Segment :=
  if bool_decide (lr_RecordType r = LedgerSegment) then
    match lr_Segment r with
    | Some sg => if bool_decide (StreamKey (sg_TenantID sg) (sg_StreamID sg) = streamKey) then Some sg else None
    | None => None
    end
  else None.
Definition checkpointFor (streamKey : string) (r : LedgerRecord) : option Checkpoint :=
  if bool_decide (lr_RecordType r = LedgerCheckpoint) then
    match lr_Checkpoint r with
    | Some cp => if bool_decide (StreamKey (cp_TenantID cp) (cp_StreamID cp) = streamKey) then Some cp else None
    | None => None
    end
  else None.

Definition latestReceipt (rs : list LedgerRecord) (key : string) : option EventReceipt :=
  last (omap (receiptFor key) rs).
Definition latestIdem (rs : list LedgerRecord) (idem : string) : option string :=
  last (omap (idemFor idem) rs).
Definition segmentsOf (rs : list LedgerRecord) (streamKey : string) : list Segment := omap (segmentFor streamKey) rs.
Definition checkpointsOf (rs : list LedgerRecord) (streamKey : string) : list Checkpoint := omap (checkpointFor streamKey) rs.

(** A record the history [rs] of tenant [t] can take next. *)
Record fresh (t : string) (rs : list LedgerRecord) (r : LedgerRecord) : Prop := {
  fr_valid : valid_record r;
  fr_tenant : lr_TenantID r = t;
  fr_new : ledgerRecordIdentity r ∉ ids rs;
  fr_version : lr_RecordType r = LedgerReceipt -> receiptVersionFor rs (lr_Key r) < lr_Version r
}.

Fixpoint acceptable (t : string) (rs ps : list LedgerRecord) : Prop :=
  match ps with
  | [] => True
  | r :: ps => fresh t rs r /\ acceptable t (rs ++ [r]) ps
  end.

Lemma acceptable_snoc t rs ps r :
  acceptable t rs (ps ++ [r]) <-> acceptable t rs ps /\ fresh t (rs ++ ps) r.
Proof.
  revert rs. induction ps as [|p ps IH]; intros rs; simpl.
  - rewrite app_nil_r. tauto.
  - rewrite IH, <- app_assoc. simpl. tauto.
Qed.

(** The indexes of a committed ledger describe its record list exactly. *)
Record indexed (d : LedgerData) : Prop := {
  ix_nodup : NoDup (ids (ld_records d));
  ix_valid : forall r, r ∈ ld_records d -> valid_record r /\ lr_TenantID r = ld_tenantID d;
  ix_keys : forall i, i ∈ ld_committedRecordKey d <-> i ∈ ids (ld_records d);
  ix_versions : forall k, map_get 0 (ld_receiptVersions d) k = receiptVersionFor (ld_records d) k;
  ix_receipts : forall k, ld_receipts d !! k = latestReceipt (ld_records d) k;
  ix_idem : forall k, k <> "" -> ld_idempotency d !! k = latestIdem (ld_records d) k;
  ix_segments : forall k, map_get [] (ld_segments d) k = segmentsOf (ld_records d) k;
  ix_checkpoints : forall k, map_get [] (ld_checkpoints d) k = checkpointsOf (ld_records d) k
}.

Lemma indexed_empty t reader loaded : indexed (emptyData t reader loaded).
Proof.
  split; cbn; try done.
  - constructor.
  - intros r H. inversion H.
  - intros i. split; intros H; [by apply elem_of_empty in H|inversion H].
Qed.

Lemma last_omap_snoc {A B} (f : A -> option B) (l : list A) x :
  last (omap f (l ++ [x])%list) = match f x with Some y => Some y | None => last (omap f l) end.
Proof.
  rewrite omap_app. simpl. destruct (f x); simpl; [apply last_snoc|by rewrite app_nil_r].
Qed.

Lemma omap_snoc {A B} (f : A -> option B) (l : list A) x :
  omap f (l ++ [x])%list = match f x with Some y => (omap f l ++ [y])%list | None => omap f l end.
Proof. rewrite omap_app. simpl. destruct (f x); simpl; [done|by rewrite app_nil_r]. Qed.

Lemma receiptVersionFor_snoc rs r k :
  receiptVersionFor (rs ++ [r]) k = versionStep k (receiptVersionFor rs k) r.
Proof. unfold receiptVersionFor. by rewrite foldl_app. Qed.

Lemma map_get_insert {V} (z : V) m k v j :
  map_get z (<[k := v]> m) j = if decide (j = k) then v else map_get z m j.
Proof.
  unfold map_get. case_decide; subst; [by rewrite lookup_insert_eq|by rewrite lookup_insert_ne].
Qed.

Definition keeps_frame (d d' : LedgerData) : Prop :=
  ld_tenantID d' = ld_tenantID d /\ ld_reader d' = ld_reader d /\ ld_readerErr d' = ld_readerErr d /\
  ld_recordsLoaded d' = ld_recordsLoaded d /\ ld_pending d' = ld_pending d /\
  ld_pendingReceipts d' = ld_pendingReceipts d /\ ld_pendingRecordKey d' = ld_pendingRecordKey d.

(** What indexing one more record must do to every index. *)
Record index_step (d : LedgerData) (r : LedgerRecord) (d' : LedgerData) : Prop := {
  is_frame : keeps_frame d d';
  is_records : ld_records d' = ld_records d;
  is_keys : ld_committedRecordKey d' = ld_committedRecordKey d;
  is_versions : forall k, map_get 0 (ld_receiptVersions d') k = versionStep k (receiptVersionFor (ld_records d) k) r;
  is_receipts : forall k, ld_receipts d' !! k =
    match receiptFor k r with Some y => Some y | None => latestReceipt (ld_records d) k end;
  is_idem : forall k, k <> "" -> ld_idempotency d' !! k =
    match idemFor k r with Some y => Some y | None => latestIdem (ld_records d) k end;
  is_segments : forall k, map_get [] (ld_segments d') k =
    match segmentFor k r with Some y => (segmentsOf (ld_records d) k ++ [y])%list | None => segmentsOf (ld_records d) k end;
  is_checkpoints : forall k, map_get [] (ld_checkpoints d') k =
    match checkpointFor k r with Some y => (checkpointsOf (ld_records d) k ++ [y])%list | None => checkpointsOf (ld_records d) k end
}.

(** A record of one family says nothing about the indexes of the others. *)
Lemma receiptFor_off r k : lr_RecordType r <> LedgerReceipt -> receiptFor k r = None.
Proof. intros H. unfold receiptFor. by rewrite (bool_decide_false _ H). Qed.
Lemma idemFor_off r k : lr_RecordType r <> LedgerReceipt -> idemFor k r = None.
Proof. intros H. unfold idemFor. by rewrite (bool_decide_false _ H). Qed.
Lemma versionStep_off r k n : lr_RecordType r <> LedgerReceipt -> versionStep k n r = n.
Proof. intros H. unfold versionStep. by rewrite (bool_decide_false _ H). Qed.
Lemma segmentFor_off r k : lr_RecordType r <> LedgerSegment -> segmentFor k r = None.
Proof. intros H. unfold segmentFor. by rewrite (bool_decide_false _ H). Qed.
Lemma checkpointFor_off r k : lr_RecordType r <> LedgerCheckpoint -> checkpointFor k r = None.
Proof. intros H. unfold checkpointFor. by rewrite (bool_decide_false _ H). Qed.

(** [off H]: drop the parts of a goal that the record type [H] makes void. *)
Ltac off H :=
  rewrite ?receiptFor_off, ?idemFor_off, ?versionStep_off, ?segmentFor_off, ?checkpointFor_off
    by (rewrite H; done).

Lemma indexRecord_segment d r sg :
  indexed d -> lr_RecordType r = LedgerSegment -> lr_Segment r = Some sg ->
  exists d', indexRecord d r = Some d' /\ index_step d r d'.
Proof.
  intros Hix Hty Hsg. unfold indexRecord. rewrite Hty, Hsg.
  rewrite decide_False, decide_True by done. eexists; split; [done|].
  split; simpl; try done; intros k; off Hty; try (by apply Hix).
  rewrite map_get_insert. unfold segmentFor. rewrite Hsg, (bool_decide_true _ Hty).
  case_decide; [subst k; rewrite bool_decide_true by done|rewrite bool_decide_false by congruence];
    rewrite (ix_segments _ Hix); done.
Qed.

Lemma indexRecord_checkpoint d r cp :
  indexed d -> lr_RecordType r = LedgerCheckpoint -> lr_Checkpoint r = Some cp ->
  exists d', indexRecord d r = Some d' /\ index_step d r d'.
Proof.
  intros Hix Hty Hcp. unfold indexRecord. rewrite Hty, Hcp.
  rewrite !decide_False, decide_True by done. eexists; split; [done|].
  split; simpl; try done; intros k; off Hty; try (by apply Hix).
  rewrite map_get_insert. unfold checkpointFor. rewrite Hcp, (bool_decide_true _ Hty).
  case_decide; [subst k; rewrite bool_decide_true by done|rewrite bool_decide_false by congruence];
    rewrite (ix_checkpoints _ Hix); done.
Qed.

(** A receipt is indexed when its version is ahead of the indexed one. *)
Lemma indexRecord_receipt d r rc :
  indexed d -> lr_RecordType r = LedgerReceipt -> lr_Receipt r = Some rc ->
  0 < lr_Version r ->
  if receiptVersionFor (ld_records d) (lr_Key r) <? lr_Version r
  then exists d', indexRecord d r = Some d' /\ index_step d r d'
  else indexRecord d r = None.
Proof.
  intros Hix Hty Hrc Hpos. unfold indexRecord. rewrite Hty, Hrc, decide_True by done.
  match goal with |- context [if ?b then None else _] =>
    assert (b = negb (receiptVersionFor (ld_records d) (lr_Key r) <? lr_Version r)) as -> end.
  { rewrite <- (ix_versions _ Hix). unfold map_get.
    destruct (ld_receiptVersions d !! lr_Key r) as [c|]; simpl; [apply Z.leb_antisym|].
    by rewrite (proj2 (Z.ltb_lt _ _) Hpos). }
  destruct (_ <? _) eqn:Hlt; simpl; [|done]. eexists; split; [done|].
  split; try (by repeat case_decide); try (intros k; off Hty); try (case_decide; by apply Hix).
  - case_decide; simpl; rewrite map_get_insert; unfold versionStep; rewrite (bool_decide_true _ Hty); simpl;
      (case_decide; [subst k; by rewrite bool_decide_true, Hlt|rewrite bool_decide_false by congruence; by apply Hix]).
  - unfold receiptFor. rewrite (bool_decide_true _ Hty), Hrc. simpl.
    case_decide; simpl; (destruct (decide (k = lr_Key r)) as [->|Hk];
      [by rewrite lookup_insert_eq, bool_decide_true
      |rewrite lookup_insert_ne, bool_decide_false by congruence; by apply Hix]).
  - unfold idemFor. rewrite (bool_decide_true _ Hty), Hrc. intros Hk.
    case_decide as Hi; simpl.
    + rewrite bool_decide_false by congruence. by apply Hix.
    + destruct (decide (k = rc_IdempotencyKey rc)) as [->|Hne];
        [by rewrite lookup_insert_eq, bool_decide_true
        |rewrite lookup_insert_ne, bool_decide_false by congruence; by apply Hix].
Qed.

(** Appending the indexed record re-establishes the invariant. *)
Lemma appendRecord_indexed d d' r :
  indexed d -> index_step d r d' -> valid_record r -> lr_TenantID r = ld_tenantID d ->
  ledgerRecordIdentity r ∉ ids (ld_records d) ->
  indexed (appendRecord d' r) /\ ld_records (appendRecord d' r) = (ld_records d ++ [r])%list /\
  keeps_frame d (appendRecord d' r).
Proof.
  intros Hix Hs Hv Ht Hn. split; [|split; [simpl; by rewrite (is_records _ _ _ Hs)|by apply Hs]].
  pose proof (is_records _ _ _ Hs) as Hr.
  split; cbn [appendRecord ld_records ld_committedRecordKey ld_tenantID set_ld_recordPositions
    set_ld_committedRecordKey set_ld_records ld_receiptVersions ld_receipts ld_idempotency ld_segments ld_checkpoints];
    rewrite ?Hr, ?(is_keys _ _ _ Hs).
  - rewrite ids_app. apply NoDup_snoc; [apply Hix|done].
  - destruct (is_frame _ _ _ Hs) as [-> _].
    intros x [Hx|Hx%list_elem_of_singleton]%elem_of_app; [by apply Hix|by subst].
  - intros i. rewrite ids_app, elem_of_union, elem_of_singleton, elem_of_app, (ix_keys _ Hix).
    simpl. rewrite list_elem_of_singleton. tauto.
  - intros k. rewrite receiptVersionFor_snoc. apply Hs.
  - intros k. unfold latestReceipt. rewrite last_omap_snoc. apply Hs.
  - intros k Hk. unfold latestIdem. rewrite last_omap_snoc. by apply Hs.
  - intros k. unfold segmentsOf. rewrite omap_snoc. apply Hs.
  - intros k. unfold checkpointsOf. rewrite omap_snoc. apply Hs.
Qed.

(** ** Applying and committing records *)

Lemma hasCommitted_root d r :
  indexed d ->
  hasCommittedRecord (TL d None) (lr_RecordType r) (lr_Key r) (lr_Version r) =
  bool_decide (ledgerRecordIdentity r ∈ ids (ld_records d)).
Proof.
  intros Hix. simpl. unfold committedHere. rewrite <- identity_probe.
  rewrite (bool_decide_ext _ _ (ix_keys _ Hix _)). by destruct (bool_decide _).
Qed.

Lemma applyRecord_root d r :
  indexed d -> valid_record r -> lr_TenantID r = ld_tenantID d ->
  applyRecord (TL d None) r =
    if bool_decide (ledgerRecordIdentity r ∈ ids (ld_records d)) then TL d None
    else match indexRecord d r with None => TL d None | Some d' => TL (appendRecord d' r) None end.
Proof.
  intros Hix Hv Ht. unfold applyRecord. rewrite decide_False by apply Hv.
  rewrite (bool_decide_true _ Ht). simpl negb.
  rewrite (proj2 (Z.leb_gt _ _) (vr_version _ Hv)). simpl orb. cbv iota.
  by rewrite hasCommitted_root.
Qed.

Lemma indexRecord_valid d r :
  indexed d -> valid_record r ->
  (lr_RecordType r = LedgerReceipt -> receiptVersionFor (ld_records d) (lr_Key r) < lr_Version r) ->
  exists d', indexRecord d r = Some d' /\ index_step d r d'.
Proof.
  intros Hix Hv Hver. destruct (vr_type _ Hv) as [Hty|[Hty|Hty]].
  - destruct (vr_receipt _ Hv Hty) as (rc & Hrc & _).
    pose proof (indexRecord_receipt d r rc Hix Hty Hrc (vr_version _ Hv)) as H.
    by rewrite (proj2 (Z.ltb_lt _ _) (Hver Hty)) in H.
  - destruct (vr_segment _ Hv Hty) as (sg & Hsg & _). by eapply indexRecord_segment.
  - destruct (vr_checkpoint _ Hv Hty) as (cp & Hcp & _). by eapply indexRecord_checkpoint.
Qed.

Lemma applyRecord_fresh d r :
  indexed d -> fresh (ld_tenantID d) (ld_records d) r ->
  exists d', applyRecord (TL d None) r = TL d' None /\ indexed d' /\
    ld_records d' = (ld_records d ++ [r])%list /\ keeps_frame d d'.
Proof.
  intros Hix [Hv Ht Hn Hver]. rewrite applyRecord_root by done.
  rewrite bool_decide_false by done.
  destruct (indexRecord_valid d r Hix Hv Hver) as (d' & -> & Hs).
  eexists. split; [done|]. by apply appendRecord_indexed.
Qed.

(** A valid record of the tenant is either taken or leaves the ledger as it is. *)
Lemma applyRecord_cases d r :
  indexed d -> valid_record r -> lr_TenantID r = ld_tenantID d ->
  applyRecord (TL d None) r = TL d None \/ fresh (ld_tenantID d) (ld_records d) r.
Proof.
  intros Hix Hv Ht. rewrite applyRecord_root by done.
  case_bool_decide as Hn; [by left|].
  destruct (decide (lr_RecordType r = LedgerReceipt)) as [Hty|Hty]; [|right; by split].
  destruct (vr_receipt _ Hv Hty) as (rc & Hrc & _).
  pose proof (indexRecord_receipt d r rc Hix Hty Hrc (vr_version _ Hv)) as H.
  destruct (_ <? _) eqn:E; [|by left; rewrite H].
  right. bool_prop. by split.
Qed.

Lemma keeps_frame_trans d1 d2 d3 : keeps_frame d1 d2 -> keeps_frame d2 d3 -> keeps_frame d1 d3.
Proof. unfold keeps_frame. intuition congruence. Qed.

Lemma commitRecord_fresh d r :
  indexed d -> fresh (ld_tenantID d) (ld_records d) r ->
  commitRecord (TL d None) r = applyRecord (TL d None) r.
Proof.
  intros Hix Hf. unfold commitRecord. rewrite hasCommitted_root by done.
  by rewrite bool_decide_false by apply Hf.
Qed.

Lemma commit_fold d ps :
  indexed d -> acceptable (ld_tenantID d) (ld_records d) ps ->
  exists d', foldl commitRecord (TL d None) ps = TL d' None /\ indexed d' /\
    ld_records d' = (ld_records d ++ ps)%list /\ keeps_frame d d'.
Proof.
  revert d. induction ps as [|r ps IH]; intros d Hix Ha; simpl.
  - exists d. rewrite app_nil_r. split_and!; try done; by repeat split.
  - destruct Ha as [Hf Ha]. rewrite commitRecord_fresh by done.
    destruct (applyRecord_fresh d r Hix Hf) as (d1 & -> & Hix1 & Hr1 & Hk1).
    destruct (IH d1) as (d2 & -> & Hix2 & Hr2 & Hk2); [done| |].
    { rewrite Hr1. by destruct Hk1 as [-> _]. }
    exists d2. split_and!; [done|done| |by eapply keeps_frame_trans].
    by rewrite Hr2, Hr1, <- app_assoc.
Qed.

(** Replaying a record list that is acceptable in order rebuilds it. *)
Lemma apply_fold d ps :
  indexed d -> acceptable (ld_tenantID d) (ld_records d) ps ->
  foldl applyRecord (TL d None) ps = foldl commitRecord (TL d None) ps.
Proof.
  revert d. induction ps as [|r ps IH]; intros d Hix Ha; cbn [foldl]; [done|].
  destruct Ha as [Hf Ha]. rewrite commitRecord_fresh by done.
  destruct (applyRecord_fresh d r Hix Hf) as (d1 & -> & Hix1 & Hr1 & Hk1).
  apply IH; [done|]. rewrite Hr1. by destruct Hk1 as [-> _].
Qed.

Definition loadable (t : string) (rs : list LedgerRecord) : Prop :=
  forall r, r ∈ rs -> valid_record r /\ lr_TenantID r = t.

(** Any list of valid records loads into an indexed ledger whose history is an
    acceptable sublist of it. *)
Lemma newTenantLedger_indexed t rs :
  loadable t rs ->
  exists d, newTenantLedger t rs = TL d None /\ indexed d /\
    keeps_frame (emptyData t None true) d /\ acceptable t [] (ld_records d).
Proof.
  unfold newTenantLedger. induction rs as [|r rs IH] using rev_ind; intros Hl.
  - exists (emptyData t None true). split_and!; try done. apply indexed_empty.
  - destruct IH as (d & Hd & Hix & Hk & Ha).
    { intros x Hx. apply Hl. apply elem_of_app. by left. }
    rewrite foldl_app, Hd. cbn [foldl].
    destruct (Hl r) as [Hv Ht]; [apply elem_of_app; right; left|].
    assert (ld_tenantID d = t) as Hdt by apply Hk. rewrite <- Hdt in Ht.
    destruct (applyRecord_cases d r Hix Hv Ht) as [->|Hf]; [by exists d|].
    destruct (applyRecord_fresh d r Hix Hf) as (d1 & -> & Hix1 & Hr1 & Hk1).
    exists d1. split_and!; [done|done|by eapply keeps_frame_trans|].
    rewrite Hr1. apply acceptable_snoc. split; [done|]. by rewrite <- Hdt.
Qed.

(** No receipt of a key in a valid history means no version of it either. *)
Lemma latestReceipt_None rs k :
  (forall r, r ∈ rs -> valid_record r) -> latestReceipt rs k = None -> receiptVersionFor rs k = 0.
Proof.
  induction rs as [|r rs IH] using rev_ind; intros Hv; [done|].
  unfold latestReceipt. rewrite last_omap_snoc, receiptVersionFor_snoc.
  assert (valid_record r) as Hr by (apply Hv, elem_of_app; right; left).
  unfold receiptFor at 1. unfold versionStep.
  destruct (bool_decide (lr_RecordType r = LedgerReceipt) && bool_decide (lr_Key r = k)) eqn:E; simpl.
  - bool_prop. destruct (vr_receipt _ Hr) as (rc & -> & _); done.
  - intros H. apply IH; [|done]. intros x Hx. apply Hv, elem_of_app. by left.
Qed.

(** The latest receipt of a key carries that key. *)
Lemma latestReceipt_Some t rs k rc :
  loadable t rs -> latestReceipt rs k = Some rc ->
  k = EventKey t (rc_EventID rc) /\ rc_TenantID rc = t /\ exists r, r ∈ rs /\ receiptFor k r = Some rc.
Proof.
  intros Hl H. unfold latestReceipt in H. apply last_Some_elem_of, list_elem_of_omap in H.
  destruct H as (r & Hr & Hf). destruct (Hl r Hr) as [Hv Ht].
  pose proof Hf as Hf'. unfold receiptFor in Hf'. case_match; [|done]. bool_prop.
  destruct (vr_receipt _ Hv) as (rc' & Hrc & Htc & Hk); [done|]. simplify_eq. eauto.
Qed.

(** Reloading the committed records of a ledger rebuilds the same ledger. *)
Lemma newTenantLedger_reload t rs :
  loadable t rs -> newTenantLedger t (committedRecords (newTenantLedger t rs)) = newTenantLedger t rs.
Proof.
  induction rs as [|r rs IH] using rev_ind; intros Hl; [done|].
  assert (loadable t rs) as Hl' by (intros x Hx; apply Hl, elem_of_app; by left).
  destruct (newTenantLedger_indexed t rs Hl') as (d & Hd & Hix & Hk & _).
  specialize (IH Hl'). unfold newTenantLedger, committedRecords in *.
  rewrite foldl_app. cbn [foldl]. rewrite Hd in *. simpl in IH.
  destruct (Hl r) as [Hv Ht]; [apply elem_of_app; right; left|].
  assert (ld_tenantID d = t) as Hdt by apply Hk. rewrite <- Hdt in Ht.
  destruct (applyRecord_cases d r Hix Hv Ht) as [->|Hf]; [done|].
  destruct (applyRecord_fresh d r Hix Hf) as (d1 & Happ & Hix1 & Hr1 & Hk1).
  rewrite Happ. simpl. rewrite Hr1, foldl_app, IH. done.
Qed.

End LedgerFacts.
