(* ===== verification/LedgerViews.v ===== *)
(** * Update views over a committed ledger

    An update closure works on a view: an empty ledger whose parent is the
    committed one.  This file shows that whatever sequence of operations the
    closure performs, the view reads exactly the committed history and buffers
    a batch that the committed ledger takes whole. *)

From Stdlib Require Import Ascii String.
From S2P Require Import Prelude GoStr Domain Keys Ledger LedgerFacts.
Import Domain Keys Ledger LedgerFacts.
Open Scope string_scope.
Open Scope Z_scope.

Module LedgerViews.

(** A committed ledger of the file tier: indexed, fully loaded, nothing
    buffered, no reader. *)
Record base_ok (b : LedgerData) : Prop := {
  bo_indexed : indexed b;
  bo_reader : ld_reader b = None;
  bo_err : ld_readerErr b = None;
  bo_loaded : ld_recordsLoaded b = true;
  bo_pending : ld_pending b = []
}.

(** A cache entry of the view repeats the committed entry. *)
Definition cached (b d : LedgerData) (k : string) : Prop :=
  (ld_receipts d !! k = None /\ ld_receiptVersions d !! k = None) \/
  (is_Some (ld_receipts b !! k) /\ ld_receipts d !! k = ld_receipts b !! k /\
   map_get 0 (ld_receiptVersions d) k = map_get 0 (ld_receiptVersions b) k).

Record view_ok (b d : LedgerData) : Prop := {
  vo_tenant : ld_tenantID d = ld_tenantID b;
  vo_reader : ld_reader d = None;
  vo_err : ld_readerErr d = None;
  vo_loaded : ld_recordsLoaded d = true;
  vo_records : ld_records d = [];
  vo_segments : ld_segments d = ∅;
  vo_checkpoints : ld_checkpoints d = ∅;
  vo_cached : forall k, cached b d k;
  vo_idem : forall k ek, ld_idempotency d !! k = Some ek ->
    k <> "" /\ ld_idempotency b !! k = Some ek /\ ld_receipts d !! ek = ld_receipts b !! ek;
  vo_pending : acceptable (ld_tenantID b) (ld_records b) (ld_pending d);
  vo_pendingReceipts : forall k, ld_pendingReceipts d !! k = latestReceipt (ld_pending d) k
}.

Definition view (b d : LedgerData) : TenantLedger := TL d (Some (TL b None)).

Lemma view_start b : base_ok b -> view_ok b (tl_data (newTenantLedgerView (TL b None))).
Proof. intros []. split; try done. intros k. by left. Qed.

Lemma newTenantLedgerView_view b :
  newTenantLedgerView (TL b None) = view b (emptyData (ld_tenantID b) None true).
Proof. done. Qed.

(** ** Lookups on the committed ledger and through the view *)

Lemma base_Receipt b k : base_ok b -> Receipt (TL b None) k = (TL b None, latestReceipt (ld_records b) k).
Proof.
  intros [Hix Hr He _ _]. simpl. rewrite (ix_receipts _ Hix).
  destruct (latestReceipt _ _); [done|]. unfold query. by rewrite Hr.
Qed.

Lemma query_none {A} d (q : ledgerReader -> result A) : ld_reader d = None -> query d q = (d, None).
Proof. intros H. unfold query. by rewrite H. Qed.

Lemma cached_miss b d k :
  base_ok b -> view_ok b d -> ld_receipts d !! k = None -> ld_receiptVersions d !! k = None.
Proof. intros Hb Hv Hn. destruct (vo_cached _ _ Hv k) as [[_ ?]|([? E] & ? & _)]; [done|congruence]. Qed.

Lemma view_ok_cacheReceipt b d k rc :
  base_ok b -> view_ok b d -> ld_receipts b !! k = Some rc ->
  view_ok b (cacheReceipt d k rc (versionOf (TL b None) k)).
Proof.
  intros Hb Hv Hk. split; simpl; try apply Hv.
  - intros j. destruct (decide (j = k)) as [->|Hne].
    + right. simpl. rewrite lookup_insert_eq, map_get_insert, decide_True, Hk by done. by split; [eexists|].
    + destruct (vo_cached _ _ Hv j) as [[H1 H2]|H]; [left|right]; simpl;
        rewrite ?map_get_insert, ?decide_False, !lookup_insert_ne by done; done.
  - intros j ek Hj. destruct (vo_idem _ _ Hv j ek Hj) as (? & ? & ?). split_and!; try done.
    destruct (decide (ek = k)) as [->|Hne]; [by rewrite lookup_insert_eq|by rewrite lookup_insert_ne].
Qed.

Lemma view_Receipt b d k :
  base_ok b -> view_ok b d ->
  exists d', Receipt (view b d) k = (view b d', latestReceipt (ld_records b) k) /\
    view_ok b d' /\ ld_pending d' = ld_pending d /\ ld_pendingReceipts d' = ld_pendingReceipts d /\
    ld_receipts d' !! k = latestReceipt (ld_records b) k /\
    map_get 0 (ld_receiptVersions d') k = receiptVersionFor (ld_records b) k.
Proof.
  intros Hb Hv. unfold view. cbn [Receipt].
  rewrite <- (ix_receipts _ (bo_indexed _ Hb)), <- (ix_versions _ (bo_indexed _ Hb)).
  destruct (vo_cached _ _ Hv k) as [[Hn Hvn]|([rc Hrc] & Heq & Hver)].
  - rewrite Hn, query_none by apply Hv. fold (Receipt (TL b None) k).
    rewrite base_Receipt by done. rewrite <- (ix_receipts _ (bo_indexed _ Hb)).
    destruct (ld_receipts b !! k) as [rc|] eqn:Hbk.
    + exists (cacheReceipt d k rc (versionOf (TL b None) k)).
      split; [done|]. split; [by apply view_ok_cacheReceipt|]. split_and!; try done; simpl.
      * by rewrite lookup_insert_eq.
      * by rewrite map_get_insert, decide_True.
    + exists d. split_and!; try done. unfold map_get at 1. rewrite Hvn. simpl. symmetry.
      rewrite (ix_versions _ (bo_indexed _ Hb)).
      apply latestReceipt_None; [apply (bo_indexed _ Hb)|].
      by rewrite <- (ix_receipts _ (bo_indexed _ Hb)).
  - rewrite Heq, Hrc. exists d. by rewrite Heq, Hrc.
Qed.

Lemma base_loadable b : base_ok b -> loadable (ld_tenantID b) (ld_records b).
Proof. intros Hb. exact (ix_valid _ (bo_indexed _ Hb)). Qed.

(** The idempotency index: the event that last used the key, then its latest
    receipt. *)
Definition receiptByIdem (rs : list LedgerRecord) (idem : string) : option EventReceipt :=
  if decide (idem = "") then None
  else match latestIdem rs idem with Some key => latestReceipt rs key | None => None end.

Lemma base_FindReceipt b k :
  base_ok b -> FindReceiptByIdempotencyKey (TL b None) k = (TL b None, receiptByIdem (ld_records b) k).
Proof.
  intros Hb. simpl. unfold receiptByIdem. case_decide as Hk; [done|].
  rewrite <- (ix_idem _ (bo_indexed _ Hb)) by done.
  destruct (ld_idempotency b !! k) as [ek|] eqn:E; [|by rewrite query_none by apply Hb].
  by rewrite (ix_receipts _ (bo_indexed _ Hb)).
Qed.

(** One level of the recursion through the parent. *)
Lemma FindReceipt_parent d p k :
  k <> "" -> ld_idempotency d !! k = None -> ld_reader d = None ->
  FindReceiptByIdempotencyKey (TL d (Some p)) k =
  match FindReceiptByIdempotencyKey p k with
  | (p, Some receipt) =>
      let eventKey := EventKey (rc_TenantID receipt) (rc_EventID receipt) in
      (TL (cacheIdempotency (cacheReceipt d eventKey receipt (versionOf p eventKey)) k eventKey)
          (Some p), Some receipt)
  | (p, None) => (TL d (Some p), None)
  end.
Proof.
  intros Hk Hd Hr. cbn [FindReceiptByIdempotencyKey].
  rewrite decide_False by done. rewrite Hd, query_none by done. done.
Qed.

Lemma view_FindReceipt b d k :
  base_ok b -> view_ok b d ->
  exists d', FindReceiptByIdempotencyKey (view b d) k = (view b d', receiptByIdem (ld_records b) k) /\
    view_ok b d' /\ ld_pending d' = ld_pending d /\ ld_pendingReceipts d' = ld_pendingReceipts d.
Proof.
  intros Hb Hv. unfold view.
  destruct (decide (k = "")) as [->|Hk]; [by exists d|].
  destruct (ld_idempotency d !! k) as [ek|] eqn:Hd.
  - cbn [FindReceiptByIdempotencyKey]. rewrite decide_False, Hd by done. destruct (vo_idem _ _ Hv _ _ Hd) as (_ & Hbk & Heq). exists d. split_and!; try done. f_equal.
    unfold receiptByIdem. rewrite decide_False by done.
    by rewrite <- (ix_idem _ (bo_indexed _ Hb)), Hbk, Heq, (ix_receipts _ (bo_indexed _ Hb)).
  - rewrite FindReceipt_parent, base_FindReceipt by (done || apply Hv).
    destruct (receiptByIdem (ld_records b) k) as [rc|] eqn:Hr; [|by exists d].
    unfold receiptByIdem in Hr. rewrite decide_False in Hr by done.
    rewrite <- (ix_idem _ (bo_indexed _ Hb)) in Hr by done.
    destruct (ld_idempotency b !! k) as [ek|] eqn:Hbk; [|done].
    destruct (latestReceipt_Some _ _ _ _ (base_loadable b Hb) Hr) as (Hek & Ht & _).
    rewrite Ht, <- Hek. rewrite <- (ix_receipts _ (bo_indexed _ Hb)) in Hr.
    eexists. split; [done|]. split; [|done].
    pose proof (view_ok_cacheReceipt b d ek rc Hb Hv Hr) as Hv'.
    split; try apply Hv'. simpl. intros j ej.
    destruct (decide (j = k)) as [->|Hne].
    + rewrite lookup_insert_eq. intros [= <-]. by rewrite lookup_insert_eq.
    + rewrite lookup_insert_ne by done. apply Hv'.
Qed.

Lemma view_Segments b d k :
  base_ok b -> view_ok b d -> Segments (view b d) k = (view b d, segmentsOf (ld_records b) k).
Proof.
  intros Hb Hv. unfold view. simpl. rewrite (vo_segments _ _ Hv), lookup_empty.
  rewrite query_none by apply Hv. rewrite query_none by apply Hb.
  rewrite <- (ix_segments _ (bo_indexed _ Hb)). unfold map_get. by destruct (ld_segments b !! k).
Qed.

Lemma view_Checkpoints b d k :
  base_ok b -> view_ok b d -> Checkpoints (view b d) k = (view b d, checkpointsOf (ld_records b) k).
Proof.
  intros Hb Hv. unfold view. simpl. rewrite (vo_checkpoints _ _ Hv), lookup_empty.
  rewrite query_none by apply Hv. rewrite query_none by apply Hb.
  rewrite <- (ix_checkpoints _ (bo_indexed _ Hb)). unfold map_get. by destruct (ld_checkpoints b !! k).
Qed.

(** ** Finding records *)

Lemma ensure_base b : base_ok b -> ensureRecordsLoaded (TL b None) = (TL b None, None).
Proof. intros Hb. simpl. unfold loadIfNeeded. by rewrite (bo_loaded _ Hb), (bo_err _ Hb). Qed.

Lemma ensure_view b d : base_ok b -> view_ok b d -> ensureRecordsLoaded (view b d) = (view b d, None).
Proof.
  intros Hb Hv. unfold view. cbn [ensureRecordsLoaded]. unfold loadIfNeeded.
  by rewrite (vo_loaded _ _ Hv), (vo_err _ _ Hv), (bo_loaded _ Hb), (bo_err _ Hb).
Qed.

Lemma localCommitted_empty d t k v : ld_records d = [] -> localCommittedRecord d t k v = None.
Proof. intros H. rewrite localCommittedRecord_scan; rewrite H; [done|constructor]. Qed.

Lemma base_findCommitted b t k v :
  base_ok b ->
  findCommittedRecord (TL b None) t k v = (TL b None, Ok (find_first (matchesRecord t k v) (ld_records b))).
Proof.
  intros Hb. simpl. unfold loadIfNeeded. rewrite (bo_loaded _ Hb), (bo_err _ Hb). simpl.
  rewrite localCommittedRecord_scan by apply (bo_indexed _ Hb). by destruct (find_first _ _).
Qed.

Lemma view_findRecord b d t k v :
  base_ok b -> view_ok b d ->
  findRecord (view b d) t k v =
  (view b d, Ok (match find_first (matchesRecord t k v) (ld_pending d) with
                 | Some r => Some r | None => find_first (matchesRecord t k v) (ld_records b) end)).
Proof.
  intros Hb Hv. unfold view. cbn [findRecord]. fold (view b d). rewrite ensure_view by done. simpl.
  destruct (find_first _ (ld_pending d)); [done|].
  rewrite localCommitted_empty by apply Hv.
  unfold loadIfNeeded. rewrite (bo_loaded _ Hb), (bo_err _ Hb). simpl. rewrite (bo_pending _ Hb). simpl.
  rewrite localCommittedRecord_scan by apply (bo_indexed _ Hb). by destruct (find_first _ (ld_records b)).
Qed.

Lemma acceptable_members t rs ps r : acceptable t rs ps -> r ∈ ps -> valid_record r /\ lr_TenantID r = t.
Proof.
  revert rs. induction ps as [|p ps IH]; intros rs Ha Hr; [inversion Hr|].
  destruct Ha as [Hf Ha]. apply elem_of_cons in Hr as [->|Hr]; [split; apply Hf|by eapply IH].
Qed.

(** A record that is found nowhere is new to history and buffer. *)
Lemma not_found_fresh_id b d r :
  base_ok b -> view_ok b d -> valid_record r ->
  find_first (matchesRecord (lr_RecordType r) (lr_Key r) (lr_Version r)) (ld_pending d) = None ->
  find_first (matchesRecord (lr_RecordType r) (lr_Key r) (lr_Version r)) (ld_records b) = None ->
  ledgerRecordIdentity r ∉ ids (ld_records b ++ ld_pending d)%list.
Proof.
  intros Hb Hv Hr Hp Hc (x & Hid & Hx)%list_elem_of_fmap.
  rewrite find_first_None in Hp, Hc.
  assert (valid_record x) as Hxv.
  { apply elem_of_app in Hx as [Hx|Hx]; [by apply (bo_indexed _ Hb)|].
    by eapply acceptable_members; [apply Hv|]. }
  symmetry in Hid. rewrite (identity_probe r) in Hid. apply identity_matches in Hid; [|apply Hxv|apply Hr].
  apply elem_of_app in Hx as [Hx|Hx]; [rewrite Hc in Hid|rewrite Hp in Hid]; done.
Qed.

Definition buffered (d : LedgerData) (r : LedgerRecord) : LedgerData :=
  let d := set_ld_pending d (ld_pending d ++ [r])%list in
  set_ld_pendingRecordKey d ({[ledgerRecordIdentity r]} ∪ ld_pendingRecordKey d).

Lemma view_ok_buffered b d r :
  base_ok b -> view_ok b d -> lr_RecordType r <> LedgerReceipt ->
  fresh (ld_tenantID b) (ld_records b ++ ld_pending d) r -> view_ok b (buffered d r).
Proof.
  intros Hb Hv Hty Hf. split; simpl; try apply Hv.
  - apply acceptable_snoc. split; [apply Hv|done].
  - intros k. unfold latestReceipt. rewrite last_omap_snoc, receiptFor_off by done. apply Hv.
Qed.

Lemma view_bufferRecord b d r :
  base_ok b -> view_ok b d -> valid_record r -> lr_TenantID r = ld_tenantID b ->
  lr_RecordType r <> LedgerReceipt ->
  exists d' e, bufferRecord (view b d) r = (view b d', e) /\ view_ok b d' /\
    (d' = d \/ ld_pending d' = (ld_pending d ++ [r])%list).
Proof.
  intros Hb Hv Hr Ht Hty. unfold bufferRecord. rewrite view_findRecord by done.
  destruct (find_first _ (ld_pending d)) eqn:Hp; [by eauto 6|].
  destruct (find_first _ (ld_records b)) eqn:Hc; [by eauto 6|].
  exists (buffered d r), None. split; [done|]. split; [|by right].
  apply view_ok_buffered; [done..|]. split; [done|done|by apply not_found_fresh_id|done].
Qed.

(** ** Buffering a receipt *)

(** The newest buffered record of a key carries the newest version. *)
Lemma latest_pending_version t rs ps k :
  acceptable t rs ps ->
  match foldl (latestStep k) None ps with
  | Some best => lr_Version best = receiptVersionFor (rs ++ ps)%list k
  | None => receiptVersionFor (rs ++ ps)%list k = receiptVersionFor rs k
  end.
Proof.
  induction ps as [|r ps IH] using rev_ind; intros Ha.
  - simpl. by rewrite app_nil_r.
  - apply acceptable_snoc in Ha as [Ha Hf]. specialize (IH Ha).
    rewrite foldl_app, app_assoc, receiptVersionFor_snoc. cbn [foldl].
    unfold latestStep at 1, versionStep.
    destruct (bool_decide (lr_RecordType r = LedgerReceipt) && bool_decide (lr_Key r = k)) eqn:E; simpl.
    + bool_prop. pose proof (fr_version _ _ _ Hf) as Hver. subst k.
      rewrite (proj2 (Z.ltb_lt _ _)) by auto.
      destruct (foldl _ None ps) as [best|]; [|done].
      by rewrite IH, (proj2 (Z.ltb_lt _ _)) by auto.
    + destruct (foldl _ None ps); done.
Qed.

Lemma nextReceiptVersion_view b d k :
  base_ok b -> view_ok b d -> map_get 0 (ld_receiptVersions d) k = receiptVersionFor (ld_records b) k ->
  nextReceiptVersion (view b d) k = receiptVersionFor (ld_records b ++ ld_pending d)%list k + 1.
Proof.
  intros Hb Hv Hk. unfold nextReceiptVersion, pendingReceiptRecord, versionOf. simpl.
  pose proof (latest_pending_version _ _ _ k (vo_pending _ _ Hv)) as H.
  destruct (foldl _ None _); simpl; [by rewrite H|]. by rewrite Hk, H.
Qed.

Lemma receiptVersionFor_bound rs r k :
  r ∈ rs -> lr_RecordType r = LedgerReceipt -> lr_Key r = k -> lr_Version r <= receiptVersionFor rs k.
Proof.
  induction rs as [|x rs IH] using rev_ind; intros Hr Hty Hk; [inversion Hr|].
  rewrite receiptVersionFor_snoc. unfold versionStep.
  apply elem_of_app in Hr as [Hr|Hr%list_elem_of_singleton].
  - specialize (IH Hr Hty Hk). case_match; bool_prop; lia.
  - subst. rewrite !bool_decide_true by done. simpl. destruct (_ <? _) eqn:E; bool_prop; lia.
Qed.

Definition bufferedReceipt (d : LedgerData) (r : LedgerRecord) (rc : EventReceipt) : LedgerData :=
  let d := set_ld_pending d (ld_pending d ++ [r])%list in
  let d := set_ld_pendingReceipts d (<[lr_Key r := rc]> (ld_pendingReceipts d)) in
  set_ld_pendingRecordKey d ({[ledgerRecordIdentity r]} ∪ ld_pendingRecordKey d).

Lemma view_ok_bufferedReceipt b d r rc :
  base_ok b -> view_ok b d -> lr_RecordType r = LedgerReceipt -> lr_Receipt r = Some rc ->
  fresh (ld_tenantID b) (ld_records b ++ ld_pending d) r -> view_ok b (bufferedReceipt d r rc).
Proof.
  intros Hb Hv Hty Hrc Hf. split; simpl; try apply Hv.
  - apply acceptable_snoc. split; [apply Hv|done].
  - intros k. unfold latestReceipt. rewrite last_omap_snoc. unfold receiptFor at 1.
    rewrite (bool_decide_true _ Hty), Hrc. simpl. destruct (decide (k = lr_Key r)) as [->|Hne].
    + by rewrite lookup_insert_eq, bool_decide_true.
    + rewrite lookup_insert_ne, bool_decide_false by congruence. apply Hv.
Qed.

(** The receipt SetReceipt buffers: the caller's, with the tenant filled in. *)
Definition ownReceipt (b : LedgerData) (rc : EventReceipt) : EventReceipt :=
  if decide (rc_TenantID rc = "") then set_rc_TenantID rc (ld_tenantID b) else rc.

Definition nextRecord (b d : LedgerData) (now : time) (rc : EventReceipt) : LedgerRecord :=
  let key := EventKey (ld_tenantID b) (rc_EventID rc) in
  mkLedgerRecord (ld_tenantID b) LedgerReceipt key
    (receiptVersionFor (ld_records b ++ ld_pending d)%list key + 1) (Some rc) None None now.

(** The latest value of the key, buffer included. *)
Definition currentReceipt (b d : LedgerData) (key : string) : option EventReceipt :=
  match latestReceipt (ld_pending d) key with
  | Some rc => Some rc
  | None => latestReceipt (ld_records b) key
  end.

Lemma receiptUnchanged_current b d d' key rc :
  view_ok b d' -> ld_pending d' = ld_pending d ->
  ld_receipts d' !! key = latestReceipt (ld_records b) key ->
  receiptUnchanged d' key rc = bool_decide (currentReceipt b d key = Some rc).
Proof.
  intros Hv Hp Hr. unfold receiptUnchanged, currentReceipt.
  rewrite (vo_pendingReceipts _ _ Hv), Hr, Hp.
  destruct (latestReceipt (ld_pending d) key) as [x|].
  - replace (bool_decide (Some x = None)) with false by (symmetry; by apply bool_decide_eq_false).
    by rewrite andb_false_r, orb_false_r.
  - replace (bool_decide (None = Some rc)) with false by (symmetry; by apply bool_decide_eq_false).
    rewrite (bool_decide_true (None = None)) by done. by rewrite andb_true_r.
Qed.

Lemma nextRecord_fresh b d now rc u :
  base_ok b -> view_ok b d -> validateLedgerRecord (nextRecord b d now rc) = Ok u ->
  fresh (ld_tenantID b) (ld_records b ++ ld_pending d) (nextRecord b d now rc) /\
  find_first (matchesRecord LedgerReceipt (lr_Key (nextRecord b d now rc)) (lr_Version (nextRecord b d now rc)))
    (ld_records b ++ ld_pending d) = None.
Proof.
  intros Hb Hv Hval%validate_valid.
  assert (forall x, x ∈ (ld_records b ++ ld_pending d)%list ->
    matchesRecord LedgerReceipt (lr_Key (nextRecord b d now rc)) (lr_Version (nextRecord b d now rc)) x = false) as Hno.
  { intros x Hx. apply not_true_iff_false. rewrite matchesRecord_true. intros (Hty & Hk & Hver).
    pose proof (receiptVersionFor_bound _ _ _ Hx Hty Hk). simpl in *. lia. }
  split; [|by apply find_first_None].
  apply find_first_None in Hno as Hnone. rewrite find_first_app in Hnone.
  split; [done|done| |simpl; lia].
  apply not_found_fresh_id; try done; destruct (find_first _ (ld_records b)) eqn:E; try done.
Qed.

(** What SetReceipt does on a view, branch by branch. *)
Lemma view_SetReceipt b d now rc :
  base_ok b -> view_ok b d ->
  let own := ownReceipt b rc in
  let key := EventKey (ld_tenantID b) (rc_EventID own) in
  exists d' e, SetReceipt (view b d) now rc = (view b d', e) /\ view_ok b d' /\
    (e = None -> rc_TenantID own = ld_tenantID b) /\
    match e with
    | Some _ => ld_pending d' = ld_pending d
    | None => ld_pending d' =
        if bool_decide (currentReceipt b d key = Some own) then ld_pending d
        else (ld_pending d ++ [nextRecord b d now own])%list
    end.
Proof.
  intros Hb Hv own key. unfold SetReceipt. cbn [tl_data view].
  rewrite !(vo_tenant _ _ Hv). fold (ownReceipt b rc). fold own. fold key.
  case_bool_decide as Ht; [|exists d; eexists; split_and!; [done..|intros H; discriminate H|done]].
  simpl negb. cbv iota. rewrite ensure_view by done.
  replace (is_set (ld_reader (tl_data (view b d))) || is_set (tl_parent (view b d))) with true
    by (simpl; by rewrite (vo_reader _ _ Hv)).
  destruct (view_Receipt b d key Hb Hv) as (d1 & Hrc & Hv1 & Hp1 & Hpr1 & Hcr & Hcv).
  rewrite Hrc. cbn [fst].
  replace (is_set (ld_reader (tl_data (view b d1))) || is_set (tl_parent (view b d1))) with true
    by (simpl; by rewrite (vo_reader _ _ Hv1)).
  unfold LedgerErr. cbn [tl_data view]. rewrite (vo_err _ _ Hv1).
  rewrite (receiptUnchanged_current b d d1) by done.
  case_bool_decide as Hcur; [exists d1, None; by split_and!|].
  rewrite nextReceiptVersion_view, Hp1 by done.
  change (mkLedgerRecord (ld_tenantID b) LedgerReceipt key _ _ _ _ _) with (nextRecord b d now own).
  destruct (validateLedgerRecord (nextRecord b d now own)) as [u|e] eqn:Hval;
    [|exists d1, (Some e); by split_and!].
  replace (nextRecord b d now own) with (nextRecord b d1 now own) in * by (unfold nextRecord; by rewrite Hp1).
  destruct (nextRecord_fresh b d1 now own u Hb Hv1 Hval) as [Hf Hnone].
  change key with (lr_Key (nextRecord b d1 now own)).
  rewrite view_findRecord by done. rewrite find_first_app in Hnone.
  destruct (find_first _ (ld_records b)) eqn:E1; [done|]. rewrite Hnone.
  exists (bufferedReceipt d1 (nextRecord b d1 now own) own), None. split_and!; try done.
  - by apply view_ok_bufferedReceipt.
  - simpl. by rewrite Hp1.
Qed.

End LedgerViews.
