(* ===== verification/LedgerProps.v ===== *)
(** * Properties of the tenant ledger

    The theorems the store relies on: hints never change an answer, an append
    batch is deduplicated and conflicts are reported, a closure's buffered
    batch is taken whole and survives a restart, and the page scan visits every
    record of a sweep once. *)

From Stdlib Require Import Ascii String.
From S2P Require Import Prelude GoStr Domain Keys Ledger LedgerFacts LedgerViews.
Import Domain Keys Ledger LedgerFacts LedgerViews.
Open Scope string_scope.
Open Scope Z_scope.

Module LedgerProps.

(** ** Immutable equality *)

Lemma immutable_equal_spec a b :
  known_type (lr_RecordType a) ->
  immutableLedgerRecordEqual a b = true <->
  lr_TenantID a = lr_TenantID b /\ same_identity a b /\
  (lr_RecordType a = LedgerReceipt -> lr_Receipt a = lr_Receipt b) /\
  (lr_RecordType a = LedgerSegment -> lr_Segment a = lr_Segment b) /\
  (lr_RecordType a = LedgerCheckpoint -> lr_Checkpoint a = lr_Checkpoint b).
Proof.
  intros Hk. unfold immutableLedgerRecordEqual, same_identity.
  destruct (negb _ || _ || _ || _) eqn:E.
  - split; [done|]. intros (H1 & (H2 & H3 & H4) & _).
    rewrite !bool_decide_true in E by done. done.
  - bool_prop. destruct Hk as [Hk|[Hk|Hk]]; rewrite Hk in *;
      unfold LedgerReceipt, LedgerSegment, LedgerCheckpoint in *;
      repeat (rewrite decide_False by done); rewrite decide_True by done;
      rewrite bool_decide_eq_true; intuition discriminate.
Qed.

Lemma immutable_equal_refl a : known_type (lr_RecordType a) -> immutableLedgerRecordEqual a a = true.
Proof. intros. apply immutable_equal_spec; [done|]. by repeat split. Qed.

Lemma immutable_equal_trans a b c :
  known_type (lr_RecordType a) -> known_type (lr_RecordType b) ->
  immutableLedgerRecordEqual a b = true -> immutableLedgerRecordEqual b c = true ->
  immutableLedgerRecordEqual a c = true.
Proof.
  intros Ha Hb. rewrite !immutable_equal_spec by done. unfold same_identity.
  intros (Ht & (Hab & Hk & Hv) & P1 & P2 & P3) (Ht' & (Hab' & Hk' & Hv') & Q1 & Q2 & Q3).
  split_and!; try congruence; intros Hty;
    [rewrite P1, <- Q1|rewrite P2, <- Q2|rewrite P3, <- Q3]; congruence.
Qed.

Lemma immutable_equal_identity a b :
  immutableLedgerRecordEqual a b = true -> ledgerRecordIdentity a = ledgerRecordIdentity b.
Proof.
  unfold immutableLedgerRecordEqual. destruct (negb _ || _ || _ || _) eqn:E; [done|].
  bool_prop. intros _. rewrite !identity_probe. congruence.
Qed.

(** ** Append batches *)

Section append.
Context (b : LedgerData) (Hb : base_ok b).

Definition covered (out : list LedgerRecord) (seen : gmap string LedgerRecord) (r : LedgerRecord) : Prop :=
  (exists r', (r' ∈ (ld_records b ++ out)%list) /\ immutableLedgerRecordEqual r' r = true) \/
  (exists p, seen !! ledgerRecordIdentity r = Some p /\ immutableLedgerRecordEqual p r = true).

Definition seen_ok (seen : gmap string LedgerRecord) : Prop :=
  forall i p, seen !! i = Some p -> ledgerRecordIdentity p = i /\ known_type (lr_RecordType p).

Lemma committed_known r : r ∈ ld_records b -> known_type (lr_RecordType r).
Proof using Hb. intros H. apply (ix_valid _ (bo_indexed _ Hb)) in H as [H _]. apply H. Qed.

Lemma found_committed r existing :
  find_first (matchesRecord (lr_RecordType r) (lr_Key r) (lr_Version r)) (ld_records b) = Some existing ->
  existing ∈ ld_records b /\ ledgerRecordIdentity existing = ledgerRecordIdentity r.
Proof.
  intros [Hin Hm]%find_first_Some. split; [done|]. by rewrite (matchesRecord_identity _ _ _ _ Hm).
Qed.

Lemma not_found_committed r :
  known_type (lr_RecordType r) ->
  find_first (matchesRecord (lr_RecordType r) (lr_Key r) (lr_Version r)) (ld_records b) = None ->
  ledgerRecordIdentity r ∉ ids (ld_records b).
Proof using Hb.
  intros Hk Hn (x & Hid & Hx)%list_elem_of_fmap. rewrite find_first_None in Hn.
  symmetry in Hid. rewrite (identity_probe r) in Hid.
  apply identity_matches in Hid; [|by apply committed_known|done]. by rewrite Hn in Hid.
Qed.

Record append_ok (seen : gmap string LedgerRecord) (records out : list LedgerRecord) : Prop := {
  ao_valid : forall r, r ∈ records -> valid_record r;
  ao_sublist : sublist out records;
  ao_nodup : NoDup (ids out);
  ao_new : forall r, r ∈ out -> (ledgerRecordIdentity r ∉ ids (ld_records b)) /\ seen !! ledgerRecordIdentity r = None;
  ao_covered : forall r, r ∈ records -> covered out seen r
}.

Definition append_err (seen : gmap string LedgerRecord) (records : list LedgerRecord) (e : error) : Prop :=
  exists r, r ∈ records /\ (validateLedgerRecord r = Err e \/
    (e = ledgerConflict r /\ exists r', ledgerRecordIdentity r' = ledgerRecordIdentity r /\
      immutableLedgerRecordEqual r' r = false /\
      ((r' ∈ (ld_records b ++ records)%list) \/ seen !! ledgerRecordIdentity r = Some r'))).

(** Remembering [r] adds nothing to what was covered, once [r] itself is. *)
Lemma covered_shift seen r x out out' :
  seen_ok seen -> (forall y, y ∈ out' -> known_type (lr_RecordType y)) -> known_type (lr_RecordType r) ->
  (forall y, y ∈ out -> y ∈ out') -> covered out' seen r ->
  covered out (<[ledgerRecordIdentity r := r]> seen) x -> covered out' seen x.
Proof using Hb.
  intros Hs Ho Hr Hsub Hc [(r' & Hin & He)|(p & Hp & He)].
  - left. exists r'. split; [|done]. rewrite elem_of_app in *. naive_solver.
  - destruct (decide (ledgerRecordIdentity r = ledgerRecordIdentity x)) as [Hid|Hid].
    + rewrite Hid, lookup_insert_eq in Hp. injection Hp as <-.
      destruct Hc as [(r' & Hin & He')|(p & Hp & He')].
      * left. exists r'. split; [done|]. eapply immutable_equal_trans; [|done..].
        apply elem_of_app in Hin as [Hin|Hin]; [by apply committed_known|by apply Ho].
      * right. exists p. rewrite <- Hid. split; [done|].
        eapply immutable_equal_trans; [by eapply Hs|done..].
    + rewrite lookup_insert_ne in Hp by done. right. by exists p.
Qed.

Lemma seen_ok_insert seen r :
  seen_ok seen -> known_type (lr_RecordType r) -> seen_ok (<[ledgerRecordIdentity r := r]> seen).
Proof.
  intros Hs Hk i p. destruct (decide (ledgerRecordIdentity r = i)) as [<-|Hne].
  - rewrite lookup_insert_eq. by intros [= <-].
  - rewrite lookup_insert_ne by done. apply Hs.
Qed.

(** [r] was seen before with the same content: it adds nothing. *)
Lemma append_ok_seen seen p r records out :
  valid_record r -> append_ok seen records out ->
  seen !! ledgerRecordIdentity r = Some p -> immutableLedgerRecordEqual p r = true ->
  append_ok seen (r :: records) out.
Proof.
  intros Hv Ho Hp He. split; try apply Ho.
  - intros x [->|Hx]%elem_of_cons; [done|by apply Ho].
  - constructor. apply Ho.
  - intros x [->|Hx]%elem_of_cons; [right; by exists p|by apply Ho].
Qed.

(** [r] is committed with the same content: it adds nothing. *)
Lemma append_ok_committed seen existing r records out :
  seen_ok seen -> valid_record r -> append_ok (<[ledgerRecordIdentity r := r]> seen) records out ->
  existing ∈ ld_records b -> immutableLedgerRecordEqual existing r = true ->
  append_ok seen (r :: records) out.
Proof using Hb.
  intros Hs Hv Ho Hin He.
  assert (covered out seen r) as Hc by (left; exists existing; rewrite elem_of_app; auto).
  split; try apply Ho.
  - intros x [->|Hx]%elem_of_cons; [done|by apply Ho].
  - constructor. apply Ho.
  - intros x Hx. destruct (ao_new _ _ _ Ho x Hx) as [H1 H2]. split; [done|].
    by apply lookup_insert_None in H2 as [? _].
  - intros x [->|Hx]%elem_of_cons; [done|].
    eapply covered_shift; [done| |apply Hv|by intros ?| |by apply Ho]; [|done].
    intros y Hy. apply (ao_valid _ _ _ Ho). eapply elem_of_sublist; [done|apply Ho].
Qed.

(** [r] is new: it joins the batch. *)
Lemma append_ok_new seen r records out :
  seen_ok seen -> valid_record r -> seen !! ledgerRecordIdentity r = None ->
  ledgerRecordIdentity r ∉ ids (ld_records b) ->
  append_ok (<[ledgerRecordIdentity r := r]> seen) records out ->
  append_ok seen (r :: records) (r :: out).
Proof using Hb.
  intros Hs Hv Hn Hid Ho.
  assert (forall x, x ∈ out -> valid_record x) as Hvo.
  { intros x Hx. apply (ao_valid _ _ _ Ho). eapply elem_of_sublist; [done|apply Ho]. }
  split.
  - intros x [->|Hx]%elem_of_cons; [done|by apply Ho].
  - constructor. apply Ho.
  - simpl. constructor; [|apply Ho]. intros (x & Heq & Hx)%list_elem_of_fmap.
    destruct (ao_new _ _ _ Ho x Hx) as [_ Hnone]. by rewrite <- Heq, lookup_insert_eq in Hnone.
  - intros x [->|Hx]%elem_of_cons; [done|].
    destruct (ao_new _ _ _ Ho x Hx) as [H1 H2]. split; [done|].
    by apply lookup_insert_None in H2 as [? _].
  - assert (covered (r :: out) seen r) as Hc.
    { left. exists r. split; [apply elem_of_app; right; left|by apply immutable_equal_refl, Hv]. }
    intros x [->|Hx]%elem_of_cons; [done|].
    eapply covered_shift; [done| |apply Hv| |done|by apply Ho].
    + intros y [->|Hy]%elem_of_cons; [apply Hv|by apply Hvo].
    + intros y Hy. by right.
Qed.

Lemma append_err_tail seen r records e :
  append_err seen records e -> append_err seen (r :: records) e.
Proof.
  intros (x & Hx & H). exists x. split; [by right|]. destruct H as [H|(-> & r' & ? & ? & H)]; [by left|].
  right. split; [done|]. exists r'. split_and!; [done|done|].
  destruct H as [H|H]; [left|by right]. rewrite elem_of_app, ?elem_of_cons in *. naive_solver.
Qed.

Lemma append_err_insert seen r records e :
  append_err (<[ledgerRecordIdentity r := r]> seen) records e -> append_err seen (r :: records) e.
Proof.
  intros (x & Hx & H). exists x. split; [by right|]. destruct H as [H|(-> & r' & Hid & He & H)]; [by left|].
  right. split; [done|]. exists r'. split_and!; [done|done|].
  destruct H as [H|H]; [left; rewrite elem_of_app, ?elem_of_cons in *; naive_solver|].
  apply lookup_insert_Some in H as [[_ <-]|[_ H]]; [|by right].
  left. apply elem_of_app. right. left.
Qed.

Lemma appendLoop_spec seen records :
  seen_ok seen ->
  exists res, appendLoop (TL b None) seen records = (TL b None, res) /\
    match res with Ok out => append_ok seen records out | Err e => append_err seen records e end.
Proof using Hb.
  revert seen. induction records as [|r records IH]; intros seen Hs.
  - exists (Ok []). split; [done|]. split; try (intros r Hr; inversion Hr); constructor.
  - cbn [appendLoop]. destruct (validateLedgerRecord r) as [u|e] eqn:Hval.
    2: { exists (Err e). split; [done|]. exists r. split; [left|by left]. }
    pose proof (validate_valid _ _ Hval) as Hv.
    destruct (seen !! ledgerRecordIdentity r) as [p|] eqn:Hp.
    + destruct (immutableLedgerRecordEqual p r) eqn:He.
      * destruct (IH seen Hs) as (res & -> & Hres). exists res. split; [done|].
        destruct res; [by eapply append_ok_seen|by apply append_err_tail].
      * exists (Err (ledgerConflict r)). split; [done|]. exists r. split; [left|]. right.
        split; [done|]. exists p. split; [by apply Hs|]. by split; [|right].
    + rewrite base_findCommitted by done.
      destruct (IH _ (seen_ok_insert seen r Hs (vr_type _ Hv))) as (res & Hl & Hres).
      destruct (find_first _ (ld_records b)) as [existing|] eqn:Hf.
      * apply found_committed in Hf as [Hin Hid].
        destruct (immutableLedgerRecordEqual existing r) eqn:He.
        -- rewrite Hl. exists res. split; [done|].
           destruct res; [by eapply append_ok_committed|by apply append_err_insert].
        -- exists (Err (ledgerConflict r)). split; [done|]. exists r. split; [left|]. right.
           split; [done|]. exists existing. split_and!; [done..|]. left. apply elem_of_app. by left.
      * apply not_found_committed in Hf; [|apply Hv]. rewrite Hl.
        destruct res as [out|e]; eexists; (split; [done|]).
        -- by apply append_ok_new.
        -- by apply append_err_insert.
Qed.

End append.

(** ** Committing a closure's batch *)

Lemma base_ok_frame b d :
  base_ok b -> indexed d -> keeps_frame b d -> base_ok d.
Proof. intros [_ H1 H2 H3 H4] Hi (_ & F1 & F2 & F3 & F4 & _). split; congruence || done. Qed.

Lemma base_ok_reset d : base_ok d -> base_ok (resetPending d).
Proof. intros [Hi ? ? ? ?]. split; try done. destruct Hi. by split. Qed.

Lemma commitPending_acceptable b ps :
  base_ok b -> acceptable (ld_tenantID b) (ld_records b) ps ->
  exists b', commitPending (TL b None) ps = TL b' None /\ base_ok b' /\
    ld_tenantID b' = ld_tenantID b /\ ld_records b' = (ld_records b ++ ps)%list.
Proof.
  intros Hb Ha. unfold commitPending.
  destruct (commit_fold b ps (bo_indexed _ Hb) Ha) as (d & -> & Hix & Hr & Hk).
  exists (resetPending d). split_and!; [done| |by apply Hk|done].
  eapply base_ok_reset, base_ok_frame; done.
Qed.

(** Records already committed, with the same identities, change nothing. *)
Lemma commit_fold_committed d ps :
  indexed d -> (forall r, r ∈ ps -> ledgerRecordIdentity r ∈ ids (ld_records d)) ->
  foldl commitRecord (TL d None) ps = TL d None.
Proof.
  intros Hix. induction ps as [|r ps IH]; intros H; cbn [foldl]; [done|].
  unfold commitRecord at 2. rewrite hasCommitted_root by done.
  rewrite bool_decide_true by (apply H; left). apply IH. intros x Hx. apply H. by right.
Qed.

(** A batch that continues the history is kept whole, whatever was seen of the
    history before. *)
Lemma appendLoop_acceptable b ds seen ps :
  base_ok b -> acceptable (ld_tenantID b) (ld_records b ++ ds) ps ->
  (forall i, is_Some (seen !! i) -> i ∈ ids (ld_records b ++ ds)%list) ->
  appendLoop (TL b None) seen ps = (TL b None, Ok ps).
Proof.
  intros Hb. revert ds seen. induction ps as [|r ps IH]; intros ds seen Ha Hs; [done|].
  destruct Ha as [[Hv Ht Hn _] Ha]. cbn [appendLoop]. rewrite (vr_ok _ Hv).
  destruct (seen !! ledgerRecordIdentity r) eqn:E; [exfalso; apply Hn, Hs; by rewrite E|].
  rewrite base_findCommitted by done.
  destruct (find_first _ (ld_records b)) as [x|] eqn:F.
  { exfalso. apply found_committed in F as [Hx Hid]. apply Hn. rewrite ids_app, elem_of_app. left.
    rewrite <- Hid. by apply list_elem_of_fmap_2. }
  rewrite (IH (ds ++ [r])%list); [done|by rewrite app_assoc|].
  intros i. rewrite app_assoc, ids_app, elem_of_app.
  destruct (decide (ledgerRecordIdentity r = i)) as [<-|Hne].
  - intros _. right. left.
  - rewrite lookup_insert_ne by done. auto.
Qed.

Lemma recordsToAppend_acceptable b ps :
  base_ok b -> acceptable (ld_tenantID b) (ld_records b) ps ->
  recordsToAppend (TL b None) ps = (TL b None, Ok ps).
Proof.
  intros Hb Ha. apply (appendLoop_acceptable b []); [done|by rewrite app_nil_r|].
  intros i. rewrite lookup_empty. by intros [].
Qed.

(** A batch of which a prefix is already committed keeps the rest. *)
Lemma appendLoop_resume b seen p q :
  base_ok b -> (forall r, r ∈ p -> r ∈ ld_records b) -> NoDup (ids p) ->
  (forall r, r ∈ p -> seen !! ledgerRecordIdentity r = None) ->
  (forall i, is_Some (seen !! i) -> i ∈ ids (ld_records b)) ->
  acceptable (ld_tenantID b) (ld_records b) q ->
  appendLoop (TL b None) seen (p ++ q) = (TL b None, Ok q).
Proof.
  intros Hb. revert seen. induction p as [|r p IH]; intros seen Hp Hnd Hns Hs Hq.
  - apply (appendLoop_acceptable b []); [done|by rewrite app_nil_r|]. intros i Hi. rewrite app_nil_r. auto.
  - assert (r ∈ ld_records b) as Hr by (apply Hp; left).
    destruct (ix_valid _ (bo_indexed _ Hb) _ Hr) as [Hv _].
    cbn [app appendLoop]. rewrite (vr_ok _ Hv), Hns by left.
    rewrite base_findCommitted by done.
    rewrite (find_first_unique _ _ r); [|done|by apply matchesRecord_true|].
    2: { intros x Hx Hm. eapply ids_unique; [apply (bo_indexed _ Hb)|done..|]. by apply matchesRecord_identity in Hm. }
    rewrite immutable_equal_refl by apply Hv. apply NoDup_cons in Hnd as [Hn Hnd].
    apply IH; [intros x Hx; apply Hp; by right|done| |  |done].
    + intros x Hx. rewrite lookup_insert_ne; [apply Hns; by right|].
      intros Heq. apply Hn. rewrite Heq. by apply list_elem_of_fmap_2.
    + intros i. destruct (decide (ledgerRecordIdentity r = i)) as [<-|Hne].
      * intros _. by apply list_elem_of_fmap_2.
      * rewrite lookup_insert_ne by done. auto.
Qed.

(** Records that are all committed leave nothing to append. *)
Lemma recordsToAppend_committed b ps :
  base_ok b -> (forall r, r ∈ ps -> r ∈ ld_records b) ->
  recordsToAppend (TL b None) ps = (TL b None, Ok []).
Proof.
  intros Hb Hin. destruct (appendLoop_spec b Hb ∅ ps) as (res & Hres & Hs);
    [intros i p; by rewrite lookup_empty|].
  unfold recordsToAppend. rewrite Hres. f_equal. pose proof (bo_indexed _ Hb) as Hix.
  destruct res as [[|x out]|e]; [done| |]; exfalso.
  - destruct (ao_new _ _ _ _ Hs x) as [Hno _]; [left|].
    apply Hno, list_elem_of_fmap_2, Hin. eapply elem_of_sublist; [left|apply Hs].
  - destruct Hs as (r & Hr%Hin & [Hval|(-> & r' & Hid & Hne & Hor)]).
    { destruct (ix_valid _ Hix _ Hr) as [Hvr _]. by rewrite (vr_ok _ Hvr) in Hval. }
    rewrite lookup_empty, elem_of_app in Hor. destruct Hor as [Hor|]; [|done].
    assert (r' = r) as ->. { eapply ids_unique; [apply Hix|destruct Hor; auto|done..]. }
    rewrite immutable_equal_refl in Hne; [done|]. by apply (committed_known b).
Qed.

(** The calls an update closure makes on its view. *)
Inductive ledger_call : Type :=
  | CallReceipt (key : string)
  | CallFindReceipt (idem : string)
  | CallSegments (streamKey : string)
  | CallCheckpoints (streamKey : string)
  | CallSetReceipt (now : time) (receipt : EventReceipt)
  | CallAppendSegment (now : time) (segment : Segment)
  | CallAppendCheckpoint (now : time) (checkpoint : Checkpoint).

Definition run_call (l : TenantLedger) (c : ledger_call) : TenantLedger :=
  match c with
  | CallReceipt k => fst (Receipt l k)
  | CallFindReceipt k => fst (FindReceiptByIdempotencyKey l k)
  | CallSegments k => fst (Segments l k)
  | CallCheckpoints k => fst (Checkpoints l k)
  | CallSetReceipt now r => fst (SetReceipt l now r)
  | CallAppendSegment now s => fst (AppendSegment l now s)
  | CallAppendCheckpoint now c => fst (AppendCheckpoint l now c)
  end.

Lemma view_buffer_call b d r :
  base_ok b -> view_ok b d -> lr_TenantID r = ld_tenantID b -> lr_RecordType r <> LedgerReceipt ->
  exists d', fst (match validateLedgerRecord r with
                  | Err e => (view b d, Some e)
                  | Ok _ => bufferRecord (view b d) r
                  end) = view b d' /\ view_ok b d'.
Proof.
  intros Hb Hv Ht Hty. destruct (validateLedgerRecord r) eqn:E; [|by exists d].
  apply validate_valid in E. destruct (view_bufferRecord b d r) as (d' & e' & -> & H & _); eauto.
Qed.

Lemma run_call_view b d c :
  base_ok b -> view_ok b d -> exists d', run_call (view b d) c = view b d' /\ view_ok b d'.
Proof.
  intros Hb Hv. destruct c as [k|k|k|k|now r|now s|now c]; cbn [run_call].
  - destruct (view_Receipt b d k Hb Hv) as (d' & -> & H & _). eauto.
  - destruct (view_FindReceipt b d k Hb Hv) as (d' & -> & H & _). eauto.
  - rewrite view_Segments by done. eauto.
  - rewrite view_Checkpoints by done. eauto.
  - destruct (view_SetReceipt b d now r Hb Hv) as (d' & e & -> & H & _). eauto.
  - unfold AppendSegment. cbn [tl_data view]. rewrite (vo_tenant _ _ Hv).
    case_bool_decide; simpl negb; cbv iota; [|by exists d].
    by apply view_buffer_call.
  - unfold AppendCheckpoint. cbn [tl_data view]. rewrite (vo_tenant _ _ Hv).
    case_bool_decide; simpl negb; cbv iota; [|by exists d].
    by apply view_buffer_call.
Qed.

Lemma run_calls_view b d cs :
  base_ok b -> view_ok b d -> exists d', foldl run_call (view b d) cs = view b d' /\ view_ok b d'.
Proof.
  intros Hb. revert d. induction cs as [|c cs IH]; intros d Hv; simpl; [eauto|].
  destruct (run_call_view b d c Hb Hv) as (d1 & -> & Hv1). by apply IH.
Qed.

Lemma newTenantLedger_base t rs :
  loadable t rs -> exists b, newTenantLedger t rs = TL b None /\ base_ok b /\ ld_tenantID b = t /\
    acceptable t [] (ld_records b).
Proof.
  intros Hl. destruct (newTenantLedger_indexed t rs Hl) as (d & -> & Hix & (F0 & F1 & F2 & F3 & F4 & _) & Ha).
  exists d. by split_and!.
Qed.

(** ** Sweeping pages *)

(** The caller's loop: read pages from the zero cursor until one is done.  The
    history may grow between two pages ([hist i] is what page [i] sees). *)
Fixpoint sweep (fuel : nat) (hist : nat -> list LedgerRecord) (i : nat) (cursor : LedgerPageCursor) (limit : Z)
    : option (list LedgerRecord) :=
  match fuel with
  | O => None
  | S fuel =>
      let page := ledgerRecordsPage (hist i) cursor limit in
      if pg_Done page then Some (pg_Records page)
      else match sweep fuel hist (S i) (pg_Next page) limit with
           | Some rest => Some (pg_Records page ++ rest)%list
           | None => None
           end
  end.

Lemma sweep_from fuel hist i after limit h0 :
  1 <= limit -> (forall j, (i <= j)%nat -> h0 `prefix_of` hist j) ->
  0 <= after < Z.of_nat (length h0) -> (length h0 - Z.to_nat after <= fuel)%nat ->
  sweep fuel hist i (mkLedgerPageCursor after (Z.of_nat (length h0))) limit = Some (drop (Z.to_nat after) h0).
Proof.
  revert i after. induction fuel as [|fuel IH]; intros i after Hl Hh Ha Hf; [lia|].
  cbn [sweep]. destruct (Hh i (le_n i)) as [k Hk].
  unfold ledgerRecordsPage. cbn [pc_Through pc_After].
  rewrite (proj2 (Z.eqb_neq (Z.of_nat (length h0)) 0)) by lia.
  rewrite Z.min_l by (rewrite Hk, length_app; lia).
  rewrite (proj2 (Z.leb_gt _ _)) by lia. cbn [pg_Done pg_Records pg_Next].
  set (n := Z.min limit (Z.of_nat (length h0) - after)).
  assert (take (Z.to_nat (after + n - after)) (drop (Z.to_nat after) (hist i)) = take (Z.to_nat n) (drop (Z.to_nat after) h0)) as ->.
  { replace (after + n - after) with n by lia. rewrite Hk, drop_app_le, take_app_le; [done| |]; rewrite ?length_drop; lia. }
  destruct (after + n =? Z.of_nat (length h0)) eqn:E; bool_prop.
  - rewrite take_ge; [done|]. rewrite length_drop. lia.
  - rewrite IH; [|done|intros j Hj; apply Hh; lia|lia|lia].
    rewrite <- (take_drop (Z.to_nat n) (drop (Z.to_nat after) h0)) at 2. rewrite drop_drop.
    do 3 f_equal. lia.
Qed.

(** ** Properties *)

(** A position hint is never evidence: whatever the position index holds
    (missing, stale or corrupt entries), looking up a committed identity gives
    exactly what scanning the whole committed history gives. *)
Theorem hints_never_change_lookup t rs hints recordType key version :
  loadable t rs ->
  localCommittedRecord (set_ld_recordPositions (tl_data (newTenantLedger t rs)) hints) recordType key version =
  find_first (matchesRecord recordType key version) (committedRecords (newTenantLedger t rs)).
Proof.
  intros Hl. destruct (newTenantLedger_base t rs Hl) as (b & -> & Hb & _).
  apply localCommittedRecord_scan, (bo_indexed _ Hb).
Qed.

(** C21: a ledger loaded from any list of valid records is a function of its
    history: reloading its committed records rebuilds the identical ledger,
    and every indexed read returns what the record history says. *)
Theorem ledger_refines_history t rs :
  loadable t rs ->
  let l := newTenantLedger t rs in
  let history := committedRecords l in
  newTenantLedger t history = l /\ NoDup (ids history) /\
  (forall k, Receipt l k = (l, latestReceipt history k)) /\
  (forall k, versionOf l k = receiptVersionFor history k) /\
  (forall k, FindReceiptByIdempotencyKey l k = (l, receiptByIdem history k)) /\
  (forall k, snd (Segments l k) = segmentsOf history k) /\
  (forall k, snd (Checkpoints l k) = checkpointsOf history k).
Proof.
  intros Hl l history. pose proof (newTenantLedger_reload t rs Hl) as Hre. unfold history, l in *.
  destruct (newTenantLedger_base t rs Hl) as (b & Hd & Hb & _). rewrite Hd in *.
  pose proof (bo_indexed _ Hb) as Hix. split_and!; [done|apply Hix|..]; intros k.
  - by apply base_Receipt.
  - by apply ix_versions.
  - by apply base_FindReceipt.
  - simpl. rewrite <- (ix_segments _ Hix). unfold map_get.
    destruct (ld_segments b !! k); [done|]. by rewrite query_none by apply Hb.
  - simpl. rewrite <- (ix_checkpoints _ Hix). unfold map_get.
    destruct (ld_checkpoints b !! k); [done|]. by rewrite query_none by apply Hb.
Qed.

(** C10: whatever calls an update closure makes on its view, the batch it
    buffers is taken whole: the append check accepts every record and drops
    none, the commit appends exactly the batch to the history, reloading the
    appended file gives the ledger the commit left in memory, and repeating
    the append or the commit does nothing. *)
Theorem closure_batch_commits_whole t rs calls :
  loadable t rs ->
  let l := newTenantLedger t rs in
  let batch := pendingRecords (foldl run_call (newTenantLedgerView l) calls) in
  recordsToAppend l batch = (l, Ok batch) /\
  committedRecords (commitPending l batch) = (committedRecords l ++ batch)%list /\
  newTenantLedger t (committedRecords l ++ batch) = commitPending l batch /\
  recordsToAppend (commitPending l batch) batch = (commitPending l batch, Ok []) /\
  commitPending (commitPending l batch) batch = commitPending l batch.
Proof.
  intros Hl l batch. pose proof (newTenantLedger_reload t rs Hl) as Hre.
  destruct (newTenantLedger_indexed t rs Hl) as (b & Hd & Hix & Hfr & _).
  assert (base_ok b) as Hb by (destruct Hfr as (_ & ? & ? & ? & ? & _); by split).
  unfold batch, l in *. rewrite Hd in *. clear batch l.
  destruct (run_calls_view b _ calls Hb (view_start b Hb)) as (d & Hcalls & Hv).
  rewrite newTenantLedgerView_view in *. simpl in Hcalls. rewrite Hcalls.
  change (pendingRecords (view b d)) with (ld_pending d).
  pose proof (vo_pending _ _ Hv) as Ha. set (ps := ld_pending d) in *.
  destruct (commit_fold b ps Hix Ha) as (b2 & Hfold & Hix2 & Hr2 & Hk2).
  assert (resetPending b2 = b2) as Hreset.
  { destruct (keeps_frame_trans _ _ _ Hfr Hk2) as (_ & _ & _ & _ & F4 & F5 & F6).
    destruct b2. simpl in *. by subst. }
  assert (commitPending (TL b None) ps = TL b2 None) as Hcp
    by (unfold commitPending; by rewrite Hfold, Hreset).
  assert (base_ok b2) as Hb2 by (by eapply base_ok_frame).
  assert (forall r, r ∈ ps -> ledgerRecordIdentity r ∈ ids (ld_records b2)) as Hin.
  { intros r Hr. rewrite Hr2, ids_app, elem_of_app. right. by apply list_elem_of_fmap_2. }
  rewrite Hcp. split_and!.
  - by apply recordsToAppend_acceptable.
  - done.
  - unfold newTenantLedger in *. rewrite foldl_app. simpl committedRecords in Hre. simpl committedRecords.
    rewrite Hre, apply_fold by done. done.
  - apply recordsToAppend_committed; [done|]. intros r Hr. rewrite Hr2. apply elem_of_app. by right.
  - unfold commitPending. rewrite commit_fold_committed by done. by rewrite Hreset.
Qed.

(** The append check of an arbitrary batch.  On success the result is the
    sub-batch of identities that are neither committed nor repeated, and every
    record of the batch is then present with equal content.  On failure the
    error names a record that is malformed, or one whose identity is already
    taken, by the history or earlier in the batch, with different content. *)
Theorem recordsToAppend_spec t rs batch :
  loadable t rs ->
  let l := newTenantLedger t rs in
  let history := committedRecords l in
  exists res, recordsToAppend l batch = (l, res) /\
  match res with
  | Ok out =>
      sublist out batch /\ NoDup (ids out) /\
      (forall r, r ∈ out -> ledgerRecordIdentity r ∉ ids history) /\
      (forall r, r ∈ batch -> exists r', (r' ∈ (history ++ out)%list) /\ immutableLedgerRecordEqual r' r = true)
  | Err e =>
      exists r, r ∈ batch /\ (validateLedgerRecord r = Err e \/
        e = ledgerConflict r /\ exists r', (r' ∈ (history ++ batch)%list) /\
          ledgerRecordIdentity r' = ledgerRecordIdentity r /\ immutableLedgerRecordEqual r' r = false)
  end.
Proof.
  intros Hl l history. unfold history, l. destruct (newTenantLedger_base t rs Hl) as (b & -> & Hb & _).
  destruct (appendLoop_spec b Hb ∅ batch) as (res & Hres & Hs); [intros i p; by rewrite lookup_empty|].
  exists res. split; [done|]. destruct res as [out|e].
  - split_and!; [apply Hs|apply Hs| |].
    + intros r Hr. by apply (ao_new _ _ _ _ Hs).
    + intros r Hr. destruct (ao_covered _ _ _ _ Hs r Hr) as [H|(p & Hp & _)]; [done|by rewrite lookup_empty in Hp].
  - destruct Hs as (r & Hr & Hor). exists r. split; [done|].
    destruct Hor as [H|(He & r' & Hid & Hne & Hin)]; [by left|right].
    split; [done|]. exists r'. rewrite lookup_empty in Hin. destruct Hin; [done|discriminate].
Qed.

(** SetReceipt on a view.  When it succeeds the receipt belongs to the
    tenant; a value equal to the current one (buffered or committed) buffers
    nothing, any other value is buffered as exactly one record whose version
    is one above every committed and buffered version of its key.  When it
    fails, nothing is buffered. *)
Theorem SetReceipt_next_version t rs calls now rc :
  loadable t rs ->
  let l := newTenantLedger t rs in
  let v := foldl run_call (newTenantLedgerView l) calls in
  let own := if decide (rc_TenantID rc = "") then set_rc_TenantID rc t else rc in
  let key := EventKey t (rc_EventID own) in
  let current := match latestReceipt (pendingRecords v) key with
                 | Some r => Some r | None => latestReceipt (committedRecords l) key end in
  let version := receiptVersionFor (committedRecords l ++ pendingRecords v) key + 1 in
  let '(v', e) := SetReceipt v now rc in
  match e with
  | Some _ => pendingRecords v' = pendingRecords v
  | None =>
      rc_TenantID own = t /\
      pendingRecords v' =
        if bool_decide (current = Some own) then pendingRecords v
        else (pendingRecords v ++
              [mkLedgerRecord t LedgerReceipt key version (Some own) None None now])%list
  end.
Proof.
  intros Hl. destruct (newTenantLedger_base t rs Hl) as (b & -> & Hb & <- & _). cbv zeta.
  destruct (run_calls_view b _ calls Hb (view_start b Hb)) as (d & Hcalls & Hv).
  rewrite newTenantLedgerView_view in *. simpl in Hcalls. rewrite Hcalls.
  destruct (view_SetReceipt b d now rc Hb Hv) as (d' & e & -> & _ & Ht & Hp).
  destruct e; [done|]. split; [by apply Ht|]. exact Hp.
Qed.

(** C40: a page sweep from the zero cursor returns exactly the records that
    were committed when it started, each once and in order, in at most one
    page per record, even when records keep being appended while it runs. *)
Theorem sweep_complete hist limit :
  1 <= limit -> (forall j, hist 0%nat `prefix_of` hist j) ->
  sweep (S (length (hist 0%nat))) hist 0 (mkLedgerPageCursor 0 0) limit = Some (hist 0%nat).
Proof.
  intros Hl Hh. destruct (hist 0%nat) as [|r h] eqn:H0.
  - cbn [sweep]. unfold ledgerRecordsPage. rewrite H0. done.
  - rewrite <- H0 in *.
    assert (0 < Z.of_nat (length (hist 0%nat))) as Hpos by (rewrite H0; simpl; lia).
    assert (forall fuel, sweep (S fuel) hist 0 (mkLedgerPageCursor 0 0) limit =
      sweep (S fuel) hist 0 (mkLedgerPageCursor 0 (Z.of_nat (length (hist 0%nat)))) limit) as ->.
    { intros fuel. cbn [sweep]. unfold ledgerRecordsPage. cbn [pc_Through pc_After].
      rewrite Z.eqb_refl, (proj2 (Z.eqb_neq (Z.of_nat (length (hist 0%nat))) 0)) by lia. done. }
    rewrite (sweep_from _ _ _ _ _ (hist 0%nat)); [done|done|auto|lia|lia].
Qed.

(** ** Witnesses *)

Definition sample_receipt : EventReceipt :=
  mkEventReceipt "e1" "t1" "k1" StatusLedgered 5 6 0 0 "t1:source:billing" 1 "h" false false "" "".
Definition sample_record : LedgerRecord :=
  mkLedgerRecord "t1" LedgerReceipt (EventKey "t1" "e1") 1 (Some sample_receipt) None None 7.
Definition sample_calls : list ledger_call :=
  [CallFindReceipt "k1"; CallSetReceipt 9 (set_rc_Status sample_receipt StatusIndexed)].

Lemma sample_loadable : loadable "t1" [sample_record].
Proof.
  intros r ->%list_elem_of_singleton. split; [|done].
  apply (validate_valid _ tt). vm_compute. reflexivity.
Qed.

Lemma hints_never_change_lookup_witness :
  localCommittedRecord
    (set_ld_recordPositions (tl_data (newTenantLedger "t1" [sample_record]))
       {[ledgerRecordIdentity sample_record := 41]}) LedgerReceipt (EventKey "t1" "e1") 1 = Some sample_record.
Proof.
  etransitivity; [apply (hints_never_change_lookup "t1" [sample_record]); exact sample_loadable|].
  vm_compute. reflexivity.
Defined.

Lemma ledger_refines_history_witness :
  FindReceiptByIdempotencyKey (newTenantLedger "t1" [sample_record]) "k1" =
  (newTenantLedger "t1" [sample_record], Some sample_receipt).
Proof.
  destruct (ledger_refines_history "t1" [sample_record] sample_loadable) as (_ & _ & _ & _ & H & _).
  etransitivity; [apply H|]. vm_compute. reflexivity.
Defined.

Lemma closure_batch_commits_whole_witness :
  let l := newTenantLedger "t1" [sample_record] in
  let batch := pendingRecords (foldl run_call (newTenantLedgerView l) sample_calls) in
  length batch = 1%nat /\ recordsToAppend l batch = (l, Ok batch).
Proof.
  split; [vm_compute; reflexivity|].
  apply (closure_batch_commits_whole "t1" [sample_record] sample_calls sample_loadable).
Defined.

Lemma sample_retry :
  snd (recordsToAppend (newTenantLedger "t1" [sample_record]) [sample_record]) = Ok [].
Proof. vm_compute. reflexivity. Qed.

Lemma recordsToAppend_spec_witness :
  recordsToAppend (newTenantLedger "t1" [sample_record]) [sample_record] =
    (newTenantLedger "t1" [sample_record], Ok []).
Proof.
  destruct (recordsToAppend_spec "t1" [sample_record] [sample_record] sample_loadable) as (res & H & _).
  pose proof sample_retry as Hr. rewrite H in Hr. simpl in Hr. rewrite <- Hr. exact H.
Defined.

Lemma sample_set_ok :
  snd (SetReceipt (newTenantLedgerView (newTenantLedger "t1" [sample_record])) 9
         (set_rc_Status sample_receipt StatusIndexed)) = None.
Proof. vm_compute. reflexivity. Qed.

Lemma SetReceipt_next_version_witness :
  pendingRecords (fst (SetReceipt (newTenantLedgerView (newTenantLedger "t1" [sample_record])) 9
      (set_rc_Status sample_receipt StatusIndexed))) =
  [mkLedgerRecord "t1" LedgerReceipt (EventKey "t1" "e1") 2
     (Some (set_rc_Status sample_receipt StatusIndexed)) None None 9].
Proof.
  pose proof (SetReceipt_next_version "t1" [sample_record] [] 9 (set_rc_Status sample_receipt StatusIndexed)
    sample_loadable) as H.
  cbv zeta in H. cbn [foldl] in H. rewrite (surjective_pairing (SetReceipt _ _ _)), sample_set_ok in H.
  destruct H as [_ H]. etransitivity; [exact H|]. vm_compute. reflexivity.
Defined.

Lemma sweep_complete_witness :
  sweep 3 (fun i => [sample_record; sample_record] ++ repeat sample_record i)%list 0 (mkLedgerPageCursor 0 0) 1 =
  Some [sample_record; sample_record].
Proof.
  apply (sweep_complete (fun i => [sample_record; sample_record] ++ repeat sample_record i)%list 1); [lia|].
  intros j. by exists (repeat sample_record j).
Defined.

End LedgerProps.
