(* ===== verification/Store.v ===== *)
(** * The control snapshot ([internal/store]: store.go, export_*.go,
    control_clone.go, control_checked.go, operation.go, and the control merge
    of postgres_hotcold.go)

    The Snapshot record with its nested types, the control clone and its time
    validation, the optimistic update loop over an abstract backend, the
    checked control update, the classification of operation deadlines and the
    merge of a tenant commit's control delta. *)

From Stdlib Require Import Ascii String.
From S2P Require Import Prelude GoStr Domain Keys.
Import Domain Keys.
Open Scope string_scope.
Open Scope Z_scope.

Module Store.

Record StreamState : Type := mkStreamState {
  ss_TenantID : string;
  ss_StreamID : string;
  ss_NextSequence : Z;
  ss_HeadHash : string;
  ss_PendingPrevHash : string;
  ss_PendingHashes : list string;
  ss_PendingEvents : list string
}.

#[export] Instance StreamState_eq_dec : EqDecision StreamState.
Proof. solve_decision. Defined.

Record ExportLease : Type := mkExportLease {
  xl_Version : Z;
  xl_JobID : string;
  xl_TenantID : string;
  xl_Owner : string;
  xl_HeartbeatAt : time;
  xl_ExpiresAt : time
}.

#[export] Instance ExportLease_eq_dec : EqDecision ExportLease.
Proof. solve_decision. Defined.

Record ExportCheckpoint : Type := mkExportCheckpoint {
  xc_Version : Z;
  xc_SealVersion : Z;
  xc_JobID : string;
  xc_TenantID : string;
  xc_Binding : string;
  xc_ObjectPath : string;
  xc_SealedDigest : string;
  xc_Digest : string;
  xc_EventCount : Z;
  xc_CreatedAt : time;
  xc_Signature : string
}.

#[export] Instance ExportCheckpoint_eq_dec : EqDecision ExportCheckpoint.
Proof. solve_decision. Defined.

Record EventReference : Type := mkEventReference {
  er_OccurredAt : time;
  er_EventID : string;
  er_StreamID : string;
  er_Sequence : Z;
  er_Hash : string
}.

#[export] Instance EventReference_eq_dec : EqDecision EventReference.
Proof. solve_decision. Defined.

(** [EventReference] is embedded in the Go struct. *)
Record ExportPlanMember : Type := mkExportPlanMember {
  xm_EventReference : EventReference;
  xm_SchemaID : string;
  xm_SchemaVersion : Z;
  xm_SchemaDigest : string
}.

#[export] Instance ExportPlanMember_eq_dec : EqDecision ExportPlanMember.
Proof. solve_decision. Defined.

Record ExportPlanChunk : Type := mkExportPlanChunk {
  xk_SealVersion : Z;
  xk_First : Z;
  xk_Count : Z;
  xk_ObjectPath : string;
  xk_SealedDigest : string;
  xk_Digest : string;
  xk_CreatedAt : time
}.

#[export] Instance ExportPlanChunk_eq_dec : EqDecision ExportPlanChunk.
Proof. solve_decision. Defined.

Record ExportPlan : Type := mkExportPlan {
  xp_Version : Z;
  xp_FormatVersion : Z;
  xp_JobID : string;
  xp_TenantID : string;
  xp_Binding : string;
  xp_CreatedAt : time;
  xp_Members : list ExportPlanMember;
  xp_Chunks : list ExportPlanChunk;
  xp_Signature : string
}.

#[export] Instance ExportPlan_eq_dec : EqDecision ExportPlan.
Proof. solve_decision. Defined.

Record Snapshot : Type := mkSnapshot {
  sn_LayoutVersion : Z;
  sn_Tenants : gmap string Tenant;
  sn_Sources : gmap string SourceSystem;
  sn_Schemas : gmap string EventSchema;
  sn_Policies : gmap string RetentionPolicy;
  sn_Events : gmap string Event;
  sn_Receipts : gmap string EventReceipt;
  sn_Streams : gmap string StreamState;
  sn_Segments : gmap string (list Segment);
  sn_Checkpoints : gmap string (list Checkpoint);
  sn_LegalHolds : gmap string LegalHold;
  sn_Exports : gmap string ExportJob;
  sn_ExportLeases : gmap string ExportLease;
  sn_ExportCheckpoints : gmap string ExportCheckpoint;
  sn_ExportPlans : gmap string ExportPlan;
  sn_RestoreRuns : gmap string RestoreRun;
  sn_LedgeredOutbox : gmap string Event;
  sn_AdminActions : list AdminAction;
  sn_AggregateCheckpoints : list AggregateCheckpoint;
  sn_ArchiveConflictFailures : gmap string Z;
  sn_DeadLetters : gmap string DeadLetter
}.

#[export] Instance Snapshot_eq_dec : EqDecision Snapshot.
Proof. solve_decision. Defined.

Definition set_sn_LayoutVersion (x : Snapshot) v : Snapshot :=
  mkSnapshot v (sn_Tenants x) (sn_Sources x) (sn_Schemas x) (sn_Policies x) (sn_Events x) (sn_Receipts x) (sn_Streams x) (sn_Segments x) (sn_Checkpoints x) (sn_LegalHolds x) (sn_Exports x) (sn_ExportLeases x) (sn_ExportCheckpoints x) (sn_ExportPlans x) (sn_RestoreRuns x) (sn_LedgeredOutbox x) (sn_AdminActions x) (sn_AggregateCheckpoints x) (sn_ArchiveConflictFailures x) (sn_DeadLetters x).
Definition set_sn_Tenants (x : Snapshot) v : Snapshot :=
  mkSnapshot (sn_LayoutVersion x) v (sn_Sources x) (sn_Schemas x) (sn_Policies x) (sn_Events x) (sn_Receipts x) (sn_Streams x) (sn_Segments x) (sn_Checkpoints x) (sn_LegalHolds x) (sn_Exports x) (sn_ExportLeases x) (sn_ExportCheckpoints x) (sn_ExportPlans x) (sn_RestoreRuns x) (sn_LedgeredOutbox x) (sn_AdminActions x) (sn_AggregateCheckpoints x) (sn_ArchiveConflictFailures x) (sn_DeadLetters x).
Definition set_sn_Sources (x : Snapshot) v : Snapshot :=
  mkSnapshot (sn_LayoutVersion x) (sn_Tenants x) v (sn_Schemas x) (sn_Policies x) (sn_Events x) (sn_Receipts x) (sn_Streams x) (sn_Segments x) (sn_Checkpoints x) (sn_LegalHolds x) (sn_Exports x) (sn_ExportLeases x) (sn_ExportCheckpoints x) (sn_ExportPlans x) (sn_RestoreRuns x) (sn_LedgeredOutbox x) (sn_AdminActions x) (sn_AggregateCheckpoints x) (sn_ArchiveConflictFailures x) (sn_DeadLetters x).
Definition set_sn_Schemas (x : Snapshot) v : Snapshot :=
  mkSnapshot (sn_LayoutVersion x) (sn_Tenants x) (sn_Sources x) v (sn_Policies x) (sn_Events x) (sn_Receipts x) (sn_Streams x) (sn_Segments x) (sn_Checkpoints x) (sn_LegalHolds x) (sn_Exports x) (sn_ExportLeases x) (sn_ExportCheckpoints x) (sn_ExportPlans x) (sn_RestoreRuns x) (sn_LedgeredOutbox x) (sn_AdminActions x) (sn_AggregateCheckpoints x) (sn_ArchiveConflictFailures x) (sn_DeadLetters x).
Definition set_sn_Policies (x : Snapshot) v : Snapshot :=
  mkSnapshot (sn_LayoutVersion x) (sn_Tenants x) (sn_Sources x) (sn_Schemas x) v (sn_Events x) (sn_Receipts x) (sn_Streams x) (sn_Segments x) (sn_Checkpoints x) (sn_LegalHolds x) (sn_Exports x) (sn_ExportLeases x) (sn_ExportCheckpoints x) (sn_ExportPlans x) (sn_RestoreRuns x) (sn_LedgeredOutbox x) (sn_AdminActions x) (sn_AggregateCheckpoints x) (sn_ArchiveConflictFailures x) (sn_DeadLetters x).
Definition set_sn_Events (x : Snapshot) v : Snapshot :=
  mkSnapshot (sn_LayoutVersion x) (sn_Tenants x) (sn_Sources x) (sn_Schemas x) (sn_Policies x) v (sn_Receipts x) (sn_Streams x) (sn_Segments x) (sn_Checkpoints x) (sn_LegalHolds x) (sn_Exports x) (sn_ExportLeases x) (sn_ExportCheckpoints x) (sn_ExportPlans x) (sn_RestoreRuns x) (sn_LedgeredOutbox x) (sn_AdminActions x) (sn_AggregateCheckpoints x) (sn_ArchiveConflictFailures x) (sn_DeadLetters x).
Definition set_sn_Receipts (x : Snapshot) v : Snapshot :=
  mkSnapshot (sn_LayoutVersion x) (sn_Tenants x) (sn_Sources x) (sn_Schemas x) (sn_Policies x) (sn_Events x) v (sn_Streams x) (sn_Segments x) (sn_Checkpoints x) (sn_LegalHolds x) (sn_Exports x) (sn_ExportLeases x) (sn_ExportCheckpoints x) (sn_ExportPlans x) (sn_RestoreRuns x) (sn_LedgeredOutbox x) (sn_AdminActions x) (sn_AggregateCheckpoints x) (sn_ArchiveConflictFailures x) (sn_DeadLetters x).
Definition set_sn_Streams (x : Snapshot) v : Snapshot :=
  mkSnapshot (sn_LayoutVersion x) (sn_Tenants x) (sn_Sources x) (sn_Schemas x) (sn_Policies x) (sn_Events x) (sn_Receipts x) v (sn_Segments x) (sn_Checkpoints x) (sn_LegalHolds x) (sn_Exports x) (sn_ExportLeases x) (sn_ExportCheckpoints x) (sn_ExportPlans x) (sn_RestoreRuns x) (sn_LedgeredOutbox x) (sn_AdminActions x) (sn_AggregateCheckpoints x) (sn_ArchiveConflictFailures x) (sn_DeadLetters x).
Definition set_sn_Segments (x : Snapshot) v : Snapshot :=
  mkSnapshot (sn_LayoutVersion x) (sn_Tenants x) (sn_Sources x) (sn_Schemas x) (sn_Policies x) (sn_Events x) (sn_Receipts x) (sn_Streams x) v (sn_Checkpoints x) (sn_LegalHolds x) (sn_Exports x) (sn_ExportLeases x) (sn_ExportCheckpoints x) (sn_ExportPlans x) (sn_RestoreRuns x) (sn_LedgeredOutbox x) (sn_AdminActions x) (sn_AggregateCheckpoints x) (sn_ArchiveConflictFailures x) (sn_DeadLetters x).
Definition set_sn_Checkpoints (x : Snapshot) v : Snapshot :=
  mkSnapshot (sn_LayoutVersion x) (sn_Tenants x) (sn_Sources x) (sn_Schemas x) (sn_Policies x) (sn_Events x) (sn_Receipts x) (sn_Streams x) (sn_Segments x) v (sn_LegalHolds x) (sn_Exports x) (sn_ExportLeases x) (sn_ExportCheckpoints x) (sn_ExportPlans x) (sn_RestoreRuns x) (sn_LedgeredOutbox x) (sn_AdminActions x) (sn_AggregateCheckpoints x) (sn_ArchiveConflictFailures x) (sn_DeadLetters x).
Definition set_sn_LegalHolds (x : Snapshot) v : Snapshot :=
  mkSnapshot (sn_LayoutVersion x) (sn_Tenants x) (sn_Sources x) (sn_Schemas x) (sn_Policies x) (sn_Events x) (sn_Receipts x) (sn_Streams x) (sn_Segments x) (sn_Checkpoints x) v (sn_Exports x) (sn_ExportLeases x) (sn_ExportCheckpoints x) (sn_ExportPlans x) (sn_RestoreRuns x) (sn_LedgeredOutbox x) (sn_AdminActions x) (sn_AggregateCheckpoints x) (sn_ArchiveConflictFailures x) (sn_DeadLetters x).
Definition set_sn_Exports (x : Snapshot) v : Snapshot :=
  mkSnapshot (sn_LayoutVersion x) (sn_Tenants x) (sn_Sources x) (sn_Schemas x) (sn_Policies x) (sn_Events x) (sn_Receipts x) (sn_Streams x) (sn_Segments x) (sn_Checkpoints x) (sn_LegalHolds x) v (sn_ExportLeases x) (sn_ExportCheckpoints x) (sn_ExportPlans x) (sn_RestoreRuns x) (sn_LedgeredOutbox x) (sn_AdminActions x) (sn_AggregateCheckpoints x) (sn_ArchiveConflictFailures x) (sn_DeadLetters x).
Definition set_sn_ExportLeases (x : Snapshot) v : Snapshot :=
  mkSnapshot (sn_LayoutVersion x) (sn_Tenants x) (sn_Sources x) (sn_Schemas x) (sn_Policies x) (sn_Events x) (sn_Receipts x) (sn_Streams x) (sn_Segments x) (sn_Checkpoints x) (sn_LegalHolds x) (sn_Exports x) v (sn_ExportCheckpoints x) (sn_ExportPlans x) (sn_RestoreRuns x) (sn_LedgeredOutbox x) (sn_AdminActions x) (sn_AggregateCheckpoints x) (sn_ArchiveConflictFailures x) (sn_DeadLetters x).
Definition set_sn_ExportCheckpoints (x : Snapshot) v : Snapshot :=
  mkSnapshot (sn_LayoutVersion x) (sn_Tenants x) (sn_Sources x) (sn_Schemas x) (sn_Policies x) (sn_Events x) (sn_Receipts x) (sn_Streams x) (sn_Segments x) (sn_Checkpoints x) (sn_LegalHolds x) (sn_Exports x) (sn_ExportLeases x) v (sn_ExportPlans x) (sn_RestoreRuns x) (sn_LedgeredOutbox x) (sn_AdminActions x) (sn_AggregateCheckpoints x) (sn_ArchiveConflictFailures x) (sn_DeadLetters x).
Definition set_sn_ExportPlans (x : Snapshot) v : Snapshot :=
  mkSnapshot (sn_LayoutVersion x) (sn_Tenants x) (sn_Sources x) (sn_Schemas x) (sn_Policies x) (sn_Events x) (sn_Receipts x) (sn_Streams x) (sn_Segments x) (sn_Checkpoints x) (sn_LegalHolds x) (sn_Exports x) (sn_ExportLeases x) (sn_ExportCheckpoints x) v (sn_RestoreRuns x) (sn_LedgeredOutbox x) (sn_AdminActions x) (sn_AggregateCheckpoints x) (sn_ArchiveConflictFailures x) (sn_DeadLetters x).
Definition set_sn_RestoreRuns (x : Snapshot) v : Snapshot :=
  mkSnapshot (sn_LayoutVersion x) (sn_Tenants x) (sn_Sources x) (sn_Schemas x) (sn_Policies x) (sn_Events x) (sn_Receipts x) (sn_Streams x) (sn_Segments x) (sn_Checkpoints x) (sn_LegalHolds x) (sn_Exports x) (sn_ExportLeases x) (sn_ExportCheckpoints x) (sn_ExportPlans x) v (sn_LedgeredOutbox x) (sn_AdminActions x) (sn_AggregateCheckpoints x) (sn_ArchiveConflictFailures x) (sn_DeadLetters x).
Definition set_sn_LedgeredOutbox (x : Snapshot) v : Snapshot :=
  mkSnapshot (sn_LayoutVersion x) (sn_Tenants x) (sn_Sources x) (sn_Schemas x) (sn_Policies x) (sn_Events x) (sn_Receipts x) (sn_Streams x) (sn_Segments x) (sn_Checkpoints x) (sn_LegalHolds x) (sn_Exports x) (sn_ExportLeases x) (sn_ExportCheckpoints x) (sn_ExportPlans x) (sn_RestoreRuns x) v (sn_AdminActions x) (sn_AggregateCheckpoints x) (sn_ArchiveConflictFailures x) (sn_DeadLetters x).
Definition set_sn_AdminActions (x : Snapshot) v : Snapshot :=
  mkSnapshot (sn_LayoutVersion x) (sn_Tenants x) (sn_Sources x) (sn_Schemas x) (sn_Policies x) (sn_Events x) (sn_Receipts x) (sn_Streams x) (sn_Segments x) (sn_Checkpoints x) (sn_LegalHolds x) (sn_Exports x) (sn_ExportLeases x) (sn_ExportCheckpoints x) (sn_ExportPlans x) (sn_RestoreRuns x) (sn_LedgeredOutbox x) v (sn_AggregateCheckpoints x) (sn_ArchiveConflictFailures x) (sn_DeadLetters x).
Definition set_sn_AggregateCheckpoints (x : Snapshot) v : Snapshot :=
  mkSnapshot (sn_LayoutVersion x) (sn_Tenants x) (sn_Sources x) (sn_Schemas x) (sn_Policies x) (sn_Events x) (sn_Receipts x) (sn_Streams x) (sn_Segments x) (sn_Checkpoints x) (sn_LegalHolds x) (sn_Exports x) (sn_ExportLeases x) (sn_ExportCheckpoints x) (sn_ExportPlans x) (sn_RestoreRuns x) (sn_LedgeredOutbox x) (sn_AdminActions x) v (sn_ArchiveConflictFailures x) (sn_DeadLetters x).
Definition set_sn_ArchiveConflictFailures (x : Snapshot) v : Snapshot :=
  mkSnapshot (sn_LayoutVersion x) (sn_Tenants x) (sn_Sources x) (sn_Schemas x) (sn_Policies x) (sn_Events x) (sn_Receipts x) (sn_Streams x) (sn_Segments x) (sn_Checkpoints x) (sn_LegalHolds x) (sn_Exports x) (sn_ExportLeases x) (sn_ExportCheckpoints x) (sn_ExportPlans x) (sn_RestoreRuns x) (sn_LedgeredOutbox x) (sn_AdminActions x) (sn_AggregateCheckpoints x) v (sn_DeadLetters x).
Definition set_sn_DeadLetters (x : Snapshot) v : Snapshot :=
  mkSnapshot (sn_LayoutVersion x) (sn_Tenants x) (sn_Sources x) (sn_Schemas x) (sn_Policies x) (sn_Events x) (sn_Receipts x) (sn_Streams x) (sn_Segments x) (sn_Checkpoints x) (sn_LegalHolds x) (sn_Exports x) (sn_ExportLeases x) (sn_ExportCheckpoints x) (sn_ExportPlans x) (sn_RestoreRuns x) (sn_LedgeredOutbox x) (sn_AdminActions x) (sn_AggregateCheckpoints x) (sn_ArchiveConflictFailures x) v.

(** Go's [normalize] replaces nil maps by empty ones, which a [gmap] already
    is. *)
Definition NewSnapshot : Snapshot :=
  mkSnapshot 0 ∅ ∅ ∅ ∅ ∅ ∅ ∅ ∅ ∅ ∅ ∅ ∅ ∅ ∅ ∅ ∅ [] [] ∅ ∅.

(** ** control_clone.go *)

(** time.Time.AppendText accepts the years 0 to 9999: from 366 days before the
    zero time up to 3652059 days after it. *)
Definition timeEncodable (t : time) : bool := (-366 * Day <=? t) && (t <? 3652059 * Day).
Definition checkControlCloneTimes (ts : list time) : bool := forallb timeEncodable ts.

Definition opt_times (ts : list (option time)) : list time := omap id ts.

Definition validateControlClonePlanTimes (plan : ExportPlan) : bool :=
  checkControlCloneTimes [xp_CreatedAt plan] &&
  forallb (fun m => checkControlCloneTimes [er_OccurredAt (xm_EventReference m)]) (xp_Members plan) &&
  forallb (fun c => checkControlCloneTimes [xk_CreatedAt c]) (xp_Chunks plan).

(** [all_values p m]: the loop over the values of a map. *)
Definition all_values {V} (p : V -> bool) (m : gmap string V) : bool :=
  forallb (fun kv => p kv.2) (map_to_list m).

Definition validateControlCloneTimes (data : Snapshot) : bool :=
  all_values (fun t => checkControlCloneTimes [tn_CreatedAt t]) (sn_Tenants data) &&
  all_values (fun s => checkControlCloneTimes [so_CreatedAt s]) (sn_Sources data) &&
  all_values (fun s => checkControlCloneTimes [sc_CreatedAt s]) (sn_Schemas data) &&
  all_values (fun h => checkControlCloneTimes
     ([lh_CreatedAt h; qy_From (lh_Filter h); qy_To (lh_Filter h)] ++ opt_times [lh_ReleasedAt h])%list) (sn_LegalHolds data) &&
  all_values (fun j => checkControlCloneTimes
     ([ej_CreatedAt j; qy_From (ej_Query j); qy_To (ej_Query j)] ++ opt_times [ej_StartedAt j; ej_FinishedAt j])%list) (sn_Exports data) &&
  all_values (fun l => checkControlCloneTimes [xl_HeartbeatAt l; xl_ExpiresAt l]) (sn_ExportLeases data) &&
  all_values (fun c => checkControlCloneTimes [xc_CreatedAt c]) (sn_ExportCheckpoints data) &&
  all_values validateControlClonePlanTimes (sn_ExportPlans data) &&
  all_values (fun r => checkControlCloneTimes
     ([rn_CreatedAt r] ++ opt_times [rn_ApprovedAt r; rn_RejectedAt r])%list) (sn_RestoreRuns data) &&
  forallb (fun a => checkControlCloneTimes [aa_CreatedAt a]) (sn_AdminActions data) &&
  forallb (fun c => checkControlCloneTimes [ag_CreatedAt c]) (sn_AggregateCheckpoints data) &&
  all_values (fun d => checkControlCloneTimes [dl_At d]) (sn_DeadLetters data).

(** The copy keeps the control document and drops the evidence a legacy caller
    may carry in the same Snapshot; the nested copies are values here. *)
Definition dropEvidence (control : Snapshot) : Snapshot :=
  set_sn_Checkpoints (set_sn_Segments (set_sn_Streams (set_sn_Receipts (set_sn_Events control ∅) ∅) ∅) ∅) ∅.

Definition cloneControl (control : Snapshot) : result Snapshot :=
  if validateControlCloneTimes control then Ok (dropEvidence control)
  else Err (NewErr "Time.MarshalJSON: year outside of range [0,9999]").

Definition hotColdLayoutVersion : Z := 2.

Definition controlSnapshot (data : Snapshot) : result Snapshot :=
  let? control := cloneControl data in Ok (set_sn_LayoutVersion control hotColdLayoutVersion).

(** ** The optimistic update loop

    The backend as the loop sees it: a versioned snapshot that another replica
    may replace between a load and a save.  [interfere i] is what other writers
    leave in the backend before our [i]-th save; [saves i] and [sleeps i] are
    the failures of the [i]-th save and backoff. *)
Definition snapshotConflictRetries : nat := 3.

Record backend : Type := mkbackend { bk_data : Snapshot; bk_version : Z }.

Record environment : Type := mkenvironment {
  env_interfere : nat -> backend -> backend;
  env_load : nat -> option error;
  env_save : nat -> option error;
  env_sleep : nat -> option error
}.

(** One save: refused when the version moved since the load. *)
Definition backendSave (env : environment) (attempt : nat) (loaded : Z) (b : backend) (data : Snapshot)
    : backend * option error :=
  let b := env_interfere env attempt b in
  match env_save env attempt with
  | Some e => (b, Some e)
  | None =>
      if decide (bk_version b = loaded) then (mkbackend data (bk_version b + 1), None)
      else (b, Some (Sentinel ErrSnapshotConflict))
  end.

(** [remaining] counts the attempts left after this one. *)
Fixpoint updateLoop (env : environment) (fn : Snapshot -> result (Snapshot * bool)) (remaining attempt : nat)
    (b : backend) : backend * option error :=
  match env_load env attempt with
  | Some e => (b, Some e)
  | None =>
      match fn (bk_data b) with
      | Err e => (b, Some e)
      | Ok (data, mutated) =>
          if mutated then
            match backendSave env attempt (bk_version b) b data with
            | (b, None) => (b, None)
            | (b, Some e) =>
                match remaining with
                | O => (b, Some e)
                | S remaining =>
                    if errors_Is e ErrSnapshotConflict then
                      match env_sleep env attempt with
                      | Some e => (b, Some e)
                      | None => updateLoop env fn remaining (S attempt) b
                      end
                    else (b, Some e)
                end
            end
          else (b, None)
      end
  end.

Definition updateChecked (env : environment) (fn : Snapshot -> result (Snapshot * bool)) (b : backend) :=
  updateLoop env fn snapshotConflictRetries 0 b.
Definition updateLocked (env : environment) (fn : Snapshot -> result Snapshot) (b : backend) :=
  updateLoop env (fun data => let? data := fn data in Ok (data, true)) snapshotConflictRetries 0 b.

Definition snapshotConflictBackoffBase (attempt : Z) : Z :=
  let base := 5 * Z.shiftl 1 (Z.min attempt 3) * 1000000 in
  if 25 * 1000000 <? base then 25 * 1000000 else base.

(** [jitter] is the drawn rand.IntN(5_000_000). *)
Definition snapshotConflictBackoff (attempt jitter : Z) : Z := snapshotConflictBackoffBase attempt + jitter.

(** ** operation.go *)

Record operation : Type := mkoperation {
  op_bounded : bool;
  op_ctxErr : option error  (** [op.ctx.Err()] when the operation ends *)
}.

Definition DefaultOperationTimeout : Z := 10 * Second.
Definition operationTimeout (configured : Z) : Z :=
  if 0 <? configured then configured else DefaultOperationTimeout.

(** [begin]: a nested operation inherits the context and is not bounded. *)
Definition begin (nested : bool) (ctxErr : option error) : operation := mkoperation (negb nested) ctxErr.

(** [end]: returns the counter of exhausted deadlines and the error. *)
Definition opEnd (op : operation) (exhausted : Z) (err : option error) : Z * option error :=
  match err with
  | None => (exhausted, None)
  | Some e =>
      if op_bounded op then
        match op_ctxErr op with
        | Some c =>
            if errors_Is c ErrContextDeadline
            then (exhausted + 1, Some (Join (Sentinel ErrOperationDeadline) e))
            else (exhausted, Some e)
        | None => (exhausted, Some e)
        end
      else (exhausted, Some e)
  end.

(** ** The control merge of a tenant commit (postgres_hotcold.go) *)

Definition overlayControlMap {V} `{EqDecision V} (current baseline mutated : gmap string V) : gmap string V :=
  if decide (mutated = baseline) then current else mutated ∪ current.

Definition unionControlSlice {T} `{EqDecision T} (current mutated : list T) : list T :=
  (current ++ filter (fun m => m ∉ current) mutated)%list.

(** The two slice fields are merged only when the writer touched them. *)
Definition mergeControlSlice {T} `{EqDecision T} (current baseline mutated : list T) : list T :=
  if decide (mutated = baseline) then current else unionControlSlice current mutated.

Definition mergeControlDelta (current baseline mutated : Snapshot) : Snapshot :=
  mkSnapshot
    (sn_LayoutVersion current)
    (overlayControlMap (sn_Tenants current) (sn_Tenants baseline) (sn_Tenants mutated))
    (overlayControlMap (sn_Sources current) (sn_Sources baseline) (sn_Sources mutated))
    (overlayControlMap (sn_Schemas current) (sn_Schemas baseline) (sn_Schemas mutated))
    (overlayControlMap (sn_Policies current) (sn_Policies baseline) (sn_Policies mutated))
    (sn_Events current)
    (sn_Receipts current)
    (sn_Streams current)
    (sn_Segments current)
    (sn_Checkpoints current)
    (overlayControlMap (sn_LegalHolds current) (sn_LegalHolds baseline) (sn_LegalHolds mutated))
    (overlayControlMap (sn_Exports current) (sn_Exports baseline) (sn_Exports mutated))
    (overlayControlMap (sn_ExportLeases current) (sn_ExportLeases baseline) (sn_ExportLeases mutated))
    (overlayControlMap (sn_ExportCheckpoints current) (sn_ExportCheckpoints baseline) (sn_ExportCheckpoints mutated))
    (overlayControlMap (sn_ExportPlans current) (sn_ExportPlans baseline) (sn_ExportPlans mutated))
    (overlayControlMap (sn_RestoreRuns current) (sn_RestoreRuns baseline) (sn_RestoreRuns mutated))
    (overlayControlMap (sn_LedgeredOutbox current) (sn_LedgeredOutbox baseline) (sn_LedgeredOutbox mutated))
    (mergeControlSlice (sn_AdminActions current) (sn_AdminActions baseline) (sn_AdminActions mutated))
    (mergeControlSlice (sn_AggregateCheckpoints current) (sn_AggregateCheckpoints baseline) (sn_AggregateCheckpoints mutated))
    (overlayControlMap (sn_ArchiveConflictFailures current) (sn_ArchiveConflictFailures baseline) (sn_ArchiveConflictFailures mutated))
    (overlayControlMap (sn_DeadLetters current) (sn_DeadLetters baseline) (sn_DeadLetters mutated)).

(** ** Lemmas *)

Section loop.
Context (env : environment).

(** Every save of any writer moves the version, so an unchanged version means
    an unchanged document. *)
Definition versioned : Prop :=
  forall i b, bk_version (env_interfere env i b) = bk_version b -> env_interfere env i b = b.

(** What the other writers alone can have left in the backend by attempt [i]. *)
Inductive others (b : backend) : backend -> Prop :=
  | others_refl : others b b
  | others_step i b' : others b b' -> others b (env_interfere env i b').

Lemma others_trans b1 b2 b3 : others b1 b2 -> others b2 b3 -> others b1 b3.
Proof. intros H. induction 1; [done|]. by constructor. Qed.

Lemma backendSave_cases attempt b data b' e :
  versioned -> backendSave env attempt (bk_version b) b data = (b', e) ->
  (e = None /\ env_interfere env attempt b = b /\ b' = mkbackend data (bk_version b + 1)) \/
  (is_Some e /\ b' = env_interfere env attempt b).
Proof.
  intros Hv. unfold backendSave. destruct (env_save env attempt); [by intros [= <- <-]; eauto|].
  case_decide as Hd; intros [= <- <-]; [left|eauto].
  split_and!; [done|by apply Hv|by rewrite Hd].
Qed.

Definition outcome (fn : Snapshot -> result (Snapshot * bool)) (b b' : backend) (e : option error) : Prop :=
  match e with
  | Some _ => others b b'
  | None =>
      exists pre data mutated, others b pre /\ fn (bk_data pre) = Ok (data, mutated) /\
        b' = if mutated : bool then mkbackend data (bk_version pre + 1) else pre
  end.

Lemma outcome_others fn b1 b2 b' e : others b1 b2 -> outcome fn b2 b' e -> outcome fn b1 b' e.
Proof.
  intros H. destruct e; simpl; [by apply others_trans|].
  intros (pre & data & mutated & Hp & ?). exists pre, data, mutated. split; [by eapply others_trans|done].
Qed.

Lemma updateLoop_spec fn remaining attempt b b' e :
  versioned -> updateLoop env fn remaining attempt b = (b', e) -> outcome fn b b' e.
Proof.
  intros Hv. revert attempt b. induction remaining as [|remaining IH]; intros attempt b; cbn [updateLoop];
    (destruct (env_load env attempt); [intros [= <- <-]; constructor|]);
    (destruct (fn (bk_data b)) as [[data mutated]|ef] eqn:Hfn; [|intros [= <- <-]; constructor]);
    (destruct mutated; [|intros [= <- <-]; exists b, data, false; split_and!; [constructor|done|done]]);
    (destruct (backendSave env attempt (bk_version b) b data) as [b1 es] eqn:Hs);
    (apply backendSave_cases in Hs as [(-> & Hi & ->)|([ec ->] & ->)];
      [intros [= <- <-]; exists b, data, true; split_and!; [constructor|done|done]| |done]).
  - intros [= <- <-]. constructor. constructor.
  - destruct (errors_Is ec ErrSnapshotConflict); [|intros [= <- <-]; constructor; constructor].
    destruct (env_sleep env attempt); [intros [= <- <-]; constructor; constructor|].
    intros H%IH. eapply outcome_others; [|exact H]. constructor. constructor.
Qed.

(** How often the closure ran. *)
Fixpoint runs (fn : Snapshot -> result (Snapshot * bool)) (remaining attempt : nat) (b : backend) : nat :=
  match env_load env attempt, fn (bk_data b) with
  | None, Ok (data, true) =>
      match backendSave env attempt (bk_version b) b data, remaining with
      | (b, Some e), S remaining =>
          if errors_Is e ErrSnapshotConflict && negb (bool_decide (is_Some (env_sleep env attempt)))
          then S (runs fn remaining (S attempt) b) else 1
      | _, _ => 1
      end
  | None, _ => 1
  | Some _, _ => 0
  end.

Lemma runs_bound fn remaining attempt b : (runs fn remaining attempt b <= S remaining)%nat.
Proof.
  revert attempt b. induction remaining as [|r IH]; intros attempt b; simpl; repeat case_match; try lia.
  match goal with |- context [runs fn r ?a ?x] => pose proof (IH a x) end. lia.
Qed.

End loop.

Lemma overlay_idem {V} `{EqDecision V} (c b m : gmap string V) :
  overlayControlMap (overlayControlMap c b m) b m = overlayControlMap c b m.
Proof. unfold overlayControlMap. case_decide; [done|]. by rewrite (assoc_L (∪)), (idemp_L (∪)). Qed.

Lemma overlay_fresh {V} `{EqDecision V} (b m : gmap string V) :
  dom b ⊆ dom m -> overlayControlMap b b m = m.
Proof.
  intros Hd. unfold overlayControlMap. case_decide; [by subst|].
  apply map_eq. intros k. destruct (m !! k) as [v|] eqn:E; [by apply lookup_union_Some_l|].
  rewrite lookup_union_r by done. destruct (b !! k) eqn:Eb; [|done]. exfalso. apply not_elem_of_dom in E. apply E, Hd, elem_of_dom. eauto.
Qed.

Lemma union_slice_idem {T} `{EqDecision T} (c m : list T) :
  unionControlSlice (unionControlSlice c m) m = unionControlSlice c m.
Proof.
  unfold unionControlSlice. rewrite <- (app_nil_r (c ++ filter _ m)%list) at 2. f_equal.
  apply list_filter_none. intros x Hx Hn. apply Hn, elem_of_app.
  destruct (decide (x ∈ c)); [by left|right]. by apply list_elem_of_filter.
Qed.

Lemma merge_slice_idem {T} `{EqDecision T} (c b m : list T) :
  mergeControlSlice (mergeControlSlice c b m) b m = mergeControlSlice c b m.
Proof. unfold mergeControlSlice. case_decide; [done|apply union_slice_idem]. Qed.

Lemma overlay_absent {V} `{EqDecision V} (c b m : gmap string V) k :
  m !! k = None -> overlayControlMap c b m !! k = c !! k.
Proof.
  intros H. unfold overlayControlMap. case_decide; [done|]. by apply lookup_union_r.
Qed.

Lemma union_slice_append {T} `{EqDecision T} (c d : list T) :
  (forall x, x ∈ d -> x ∉ c) -> unionControlSlice c (c ++ d) = (c ++ d)%list.
Proof.
  intros H. unfold unionControlSlice. f_equal. rewrite filter_app.
  rewrite (list_filter_none _ c), (list_filter_all _ d) by naive_solver. done.
Qed.


(** ** Properties *)


(** Merging a tenant commit's control delta.  Re-applying the same delta
    after a conflict changes nothing more; a field the writer did not touch
    keeps the concurrent writer's value; a key the writer's copy does not hold
    keeps its current value; and without a concurrent writer the result is the
    writer's document, provided the writer removed no key and only appended
    new trail entries. *)
Theorem mergeControlDelta_spec current baseline mutated :
  mergeControlDelta (mergeControlDelta current baseline mutated) baseline mutated =
    mergeControlDelta current baseline mutated /\
  (sn_ExportLeases mutated = sn_ExportLeases baseline ->
     sn_ExportLeases (mergeControlDelta current baseline mutated) = sn_ExportLeases current) /\
  (forall k, sn_LedgeredOutbox mutated !! k = None ->
     sn_LedgeredOutbox (mergeControlDelta current baseline mutated) !! k = sn_LedgeredOutbox current !! k) /\
  (forall k v, sn_DeadLetters mutated <> sn_DeadLetters baseline -> sn_DeadLetters mutated !! k = Some v ->
     sn_DeadLetters (mergeControlDelta current baseline mutated) !! k = Some v) /\
  (dom (sn_LedgeredOutbox baseline) ⊆ dom (sn_LedgeredOutbox mutated) ->
     sn_LedgeredOutbox (mergeControlDelta baseline baseline mutated) = sn_LedgeredOutbox mutated) /\
  (forall added, sn_AdminActions mutated = (sn_AdminActions baseline ++ added)%list ->
     (forall a, a ∈ added -> a ∉ sn_AdminActions baseline) ->
     sn_AdminActions (mergeControlDelta baseline baseline mutated) = sn_AdminActions mutated).
Proof.
  split_and!.
  - unfold mergeControlDelta. cbn. by rewrite !overlay_idem, !merge_slice_idem.
  - intros H. cbn. unfold overlayControlMap. by rewrite decide_True.
  - intros k H. cbn. by apply overlay_absent.
  - intros k v Hne H. cbn. unfold overlayControlMap. rewrite decide_False by done.
    by apply lookup_union_Some_l.
  - intros H. cbn. by apply overlay_fresh.
  - intros added H Hn. cbn. unfold mergeControlSlice. rewrite H.
    case_decide; [congruence|by apply union_slice_append].
Qed.

(** The merge re-applies every key of a field the writer touched, also the
    keys the writer left alone: a value another writer committed for such a
    key after the baseline was taken is overwritten by the stale baseline
    value, and a key that writer removed comes back. *)
Theorem mergeControlDelta_restores_stale_keys (k : string) (stale newer : Z) (other : string) :
  other <> k -> stale <> newer ->
  let baseline := set_sn_ArchiveConflictFailures NewSnapshot {[k := stale]} in
  let mutated := set_sn_ArchiveConflictFailures NewSnapshot {[k := stale; other := 0]} in
  let changed := set_sn_ArchiveConflictFailures NewSnapshot {[k := newer]} in
  sn_ArchiveConflictFailures (mergeControlDelta changed baseline mutated) !! k = Some stale /\
  sn_ArchiveConflictFailures (mergeControlDelta NewSnapshot baseline mutated) !! k = Some stale.
Proof.
  intros Hne Hv baseline mutated changed.
  assert (forall c, sn_ArchiveConflictFailures (mergeControlDelta c baseline mutated) !! k = Some stale) as H.
  { intros c.
    assert (({[k := stale; other := 0]} : gmap string Z) <> {[k := stale]}) as Hd.
    { intros H%(f_equal (fun m : gmap string Z => m !! other)). by simplify_map_eq. }
    cbn. unfold overlayControlMap. rewrite decide_False by done. apply lookup_union_Some_l. by simplify_map_eq. }
  split; apply H.
Qed.

(** ** Witnesses *)

Definition one_conflict : environment :=
  mkenvironment (fun i b => if decide (i = 0)%nat then mkbackend (set_sn_LayoutVersion (bk_data b) 7) (bk_version b + 1) else b)
    (fun _ => None) (fun _ => None) (fun _ => None).
Definition count_layout (s : Snapshot) : result (Snapshot * bool) :=
  Ok (set_sn_LayoutVersion s (sn_LayoutVersion s + 1), true).


Lemma mergeControlDelta_restores_stale_keys_witness :
  sn_ArchiveConflictFailures (mergeControlDelta
    (set_sn_ArchiveConflictFailures NewSnapshot {["t2" := 5]})
    (set_sn_ArchiveConflictFailures NewSnapshot {["t2" := 4]})
    (set_sn_ArchiveConflictFailures NewSnapshot {["t2" := 4; "t1" := 0]})) !! "t2" = Some 4.
Proof.
  apply (mergeControlDelta_restores_stale_keys "t2" 4 5 "t1"); discriminate.
Defined.

End Store.
