(* ===== verification/SplitStore.v ===== *)
(** * The split file store ([internal/store]: hotcold_split.go, hotcold_commit.go,
    hotcold_files.go, hotcold_api.go, tenant_commit.go, tenant_commit_anchors.go)

    One tenant commit touches three documents: the tenant's hot document, its
    append-only ledger file and the control document.  The model keeps the
    process state and the disk side by side, and lets every write fail, also
    after it has reached the disk (a rename whose directory sync fails, an
    append of which only a prefix was written).

    A hot document is the Events and Streams of the Go Snapshot; the other
    fields of a tenant-hot Snapshot are empty by construction (emptyTenantHot,
    cloneTenantHot).  Deep copies are identities on values. *)

From Stdlib Require Import Ascii String.
From S2P Require Import Prelude GoStr Domain Keys Ledger Store.
Import Domain Keys Ledger Store.
Open Scope string_scope.
Open Scope Z_scope.

Module SplitStore.

Record hotDoc : Type := mkhotDoc {
  hd_Events : gmap string Event;
  hd_Streams : gmap string StreamState
}.

#[export] Instance hotDoc_eq_dec : EqDecision hotDoc.
Proof. solve_decision. Defined.

Definition emptyTenantHot : hotDoc := mkhotDoc ∅ ∅.

Record tenantHotSnapshot : Type := mktenantHotSnapshot {
  th_TenantID : string;
  th_Version : Z;
  th_Events : gmap string Event;
  th_Streams : gmap string StreamState;
  th_PendingLedger : list LedgerRecord
}.

Record tenantState : Type := mktenantState {
  ts_hot : hotDoc;
  ts_ledger : TenantLedger;
  ts_version : Z;
  ts_pending : list LedgerRecord
}.

(** The files under the store root. *)
Record disk : Type := mkdisk {
  dk_control : option Snapshot;
  dk_hot : gmap string tenantHotSnapshot;
  dk_ledger : gmap string (list LedgerRecord)
}.

(** The process: [sp_durable] is [path != ""]. *)
Record splitStore : Type := mksplitStore {
  sp_durable : bool;
  sp_control : Snapshot;
  sp_tenant : gmap string tenantState;
  sp_disk : disk
}.

Definition set_control (s : splitStore) (c : Snapshot) : splitStore :=
  mksplitStore (sp_durable s) c (sp_tenant s) (sp_disk s).
Definition set_tenant (s : splitStore) (t : string) (st : tenantState) : splitStore :=
  mksplitStore (sp_durable s) (sp_control s) (<[t := st]> (sp_tenant s)) (sp_disk s).
Definition set_disk (s : splitStore) (d : disk) : splitStore :=
  mksplitStore (sp_durable s) (sp_control s) (sp_tenant s) d.

Definition write_control (d : disk) (c : Snapshot) : disk := mkdisk (Some c) (dk_hot d) (dk_ledger d).
Definition write_hot (d : disk) (t : string) (h : tenantHotSnapshot) : disk :=
  mkdisk (dk_control d) (<[t := h]> (dk_hot d)) (dk_ledger d).
Definition ledger_of (d : disk) (t : string) : list LedgerRecord := map_get [] (dk_ledger d) t.
Definition append_ledger (d : disk) (t : string) (rs : list LedgerRecord) : disk :=
  mkdisk (dk_control d) (dk_hot d) (<[t := (ledger_of d t ++ rs)%list]> (dk_ledger d)).

(** ** Faults of one operation *)

(** An atomic replace can fail before or after the rename. *)
Inductive write_outcome : Type :=
  | WriteOk
  | WriteFails (replaced : bool) (e : error).

(** An append can fail with the first [written] records already in the file. *)
Inductive append_outcome : Type :=
  | AppendOk
  | AppendFails (written : nat) (e : error).

Record faults : Type := mkfaults {
  ft_ctx_update : option error;   (** ctx.Err() on entry *)
  ft_ctx_commit : option error;   (** ctx.Err() in commitTenant *)
  ft_ctx_append : option error;   (** ctx.Err() in appendLedger *)
  ft_tmp : option error;          (** checkControlTempPath *)
  ft_hot : write_outcome;         (** writeTenantFile *)
  ft_ledger_hook : option error;  (** ledgerWriteFault *)
  ft_append : append_outcome;     (** appendLedgerFile *)
  ft_control_hook : option error; (** controlWriteFault *)
  ft_control : write_outcome      (** writeControlFile *)
}.
Definition no_faults : faults := mkfaults None None None None WriteOk None AppendOk None WriteOk.

(** ** tenant_commit.go *)

Definition MaxTenantCommitRecords : Z := 100.

Definition tenantRecordOk (tenantID : string) (r : LedgerRecord) : result unit :=
  guard_err (bool_decide (lr_TenantID r = tenantID)) (invalid "tenant commit identity mismatch") ;?
  validateLedgerRecord r.

Fixpoint checkRecords (tenantID : string) (rs : list LedgerRecord) : result unit :=
  match rs with
  | [] => Ok tt
  | r :: rs => tenantRecordOk tenantID r ;? checkRecords tenantID rs
  end.

Definition validateTenantCommitRecords (tenantID : string) (rs : list LedgerRecord) : result unit :=
  guard_err (Z.of_nat (length rs) <=? MaxTenantCommitRecords) (invalid "tenant commit record budget exceeded") ;?
  checkRecords tenantID rs.

(** Whether the journal still has records the ledger lacks.  The ledger is not
    updated: a committed file ledger has no reader to load from. *)
Definition unresolvedTenantCommit (st : tenantState) : result bool :=
  match ts_pending st with
  | [] => Ok false
  | first :: _ =>
      validateTenantCommitRecords (lr_TenantID first) (ts_pending st) ;?
      let? missing := snd (recordsToAppend (ts_ledger st) (ts_pending st)) in
      Ok (negb (bool_decide (missing = [])))
  end.

(** ** Loading (hotcold_files.go) *)

Definition readLedgerFile (d : disk) (tenantID : string) : result (list LedgerRecord) :=
  checkRecords tenantID (ledger_of d tenantID) ;? Ok (ledger_of d tenantID).

Definition loadTenantLedger (d : disk) (tenantID : string) (hot : hotDoc) (version : Z) : result tenantState :=
  let? records := readLedgerFile d tenantID in
  Ok (mktenantState hot (newTenantLedger tenantID records) version []).

Definition loadTenantState (d : disk) (tenantID : string) : result tenantState :=
  match dk_hot d !! tenantID with
  | Some file =>
      guard_err (bool_decide (th_TenantID file = tenantID)) (NewErr "tenant hot identity mismatch") ;?
      let? st := loadTenantLedger d tenantID (mkhotDoc (th_Events file) (th_Streams file)) (th_Version file) in
      validateTenantCommitRecords tenantID (th_PendingLedger file) ;?
      let st := mktenantState (ts_hot st) (ts_ledger st) (ts_version st) (th_PendingLedger file) in
      let? unresolved := unresolvedTenantCommit st in
      Ok (if unresolved : bool then st
          else mktenantState (ts_hot st) (ts_ledger st) (ts_version st) [])
  | None => loadTenantLedger d tenantID emptyTenantHot 1
  end.

(** ** hotcold_commit.go *)

Record TenantView : Type := mkTenantView {
  tv_Hot : hotDoc;
  tv_Ledger : TenantLedger;
  tv_Global : Snapshot
}.

Definition freshTenant (tenantID : string) : tenantState :=
  mktenantState emptyTenantHot (NewTenantLedger tenantID) 1 [].

(** [s.tenantState(id)]: look up or create. *)
Definition tenantStateOf (s : splitStore) (tenantID : string) : tenantState :=
  default (freshTenant tenantID) (sp_tenant s !! tenantID).

Definition with_ledger (st : tenantState) (l : TenantLedger) : tenantState :=
  mktenantState (ts_hot st) l (ts_version st) (ts_pending st).
Definition with_pending (st : tenantState) (p : list LedgerRecord) : tenantState :=
  mktenantState (ts_hot st) (ts_ledger st) (ts_version st) p.
Definition committed_hot (st : tenantState) (hot : hotDoc) (p : list LedgerRecord) : tenantState :=
  mktenantState hot (ts_ledger st) (ts_version st + 1) p.

Definition readTenant (s : splitStore) (ctxErr : option error) (tenantID : string)
    (fn : TenantView -> TenantView * option error) : option error :=
  match ctxErr with
  | Some e => Some e
  | None =>
      let st := tenantStateOf s tenantID in
      match cloneControl (sp_control s) with
      | Err e => Some e
      | Ok global =>
          match fn (mkTenantView (ts_hot st) (newTenantLedgerView (ts_ledger st)) global) with
          | (_, Some e) => Some e
          | (view, None) => LedgerErr (tv_Ledger view)
          end
      end
  end.

Definition appendLedger (f : faults) (s : splitStore) (tenantID : string) (pending : list LedgerRecord)
    : splitStore * option error :=
  match ft_ctx_append f with
  | Some e => (s, Some e)
  | None =>
      if bool_decide (pending = []) then (s, None)
      else
        let st := tenantStateOf s tenantID in
        match recordsToAppend (ts_ledger st) pending with
        | (l, Err e) => (set_tenant s tenantID (with_ledger st l), Some e)
        | (l, Ok toAppend) =>
            let commit s := set_tenant s tenantID (with_ledger st (commitPending l pending)) in
            if sp_durable s && negb (bool_decide (toAppend = [])) then
              match ft_ledger_hook f with
              | Some e => (set_tenant s tenantID (with_ledger st l), Some e)
              | None =>
                  match ft_append f with
                  | AppendFails written e =>
                      (set_disk (set_tenant s tenantID (with_ledger st l))
                         (append_ledger (sp_disk s) tenantID (take written toAppend)), Some e)
                  | AppendOk => (commit (set_disk s (append_ledger (sp_disk s) tenantID toAppend)), None)
                  end
              end
            else (commit s, None)
        end
  end.

Definition saveTenantHotWithCommit (f : faults) (s : splitStore) (tenantID : string) (hot : hotDoc) (version : Z)
    (records : list LedgerRecord) : splitStore * option error :=
  if sp_durable s then
    let file := mktenantHotSnapshot tenantID version (hd_Events hot) (hd_Streams hot) records in
    match ft_hot f with
    | WriteOk => (set_disk s (write_hot (sp_disk s) tenantID file), None)
    | WriteFails true e => (set_disk s (write_hot (sp_disk s) tenantID file), Some e)
    | WriteFails false e => (s, Some e)
    end
  else (s, None).
Definition saveTenantHot (f : faults) (s : splitStore) (tenantID : string) (hot : hotDoc) (version : Z) :=
  saveTenantHotWithCommit f s tenantID hot version [].

Definition writeControl (f : faults) (s : splitStore) (global : Snapshot) : splitStore * option error :=
  if sp_durable s then
    match ft_control_hook f with
    | Some e => (s, Some e)
    | None =>
        match ft_control f with
        | WriteOk => (set_control (set_disk s (write_control (sp_disk s) global)) global, None)
        | WriteFails true e => (set_disk s (write_control (sp_disk s) global), Some e)
        | WriteFails false e => (s, Some e)
        end
    end
  else (set_control s global, None).

(** The records a HotFirst commit journals in the hot document. *)
Definition commitJournal (st : tenantState) (hot : hotDoc) (pending : list LedgerRecord) : list LedgerRecord :=
  if negb (bool_decide (pending = [])) &&
     (negb (bool_decide (hd_Events hot = hd_Events (ts_hot st))) ||
      negb (bool_decide (hd_Streams hot = hd_Streams (ts_hot st))))
  then pending else [].

Definition coldFirstTier (f : faults) (s : splitStore) (tenantID : string) (hot : hotDoc) (pending : list LedgerRecord)
    : splitStore * option error :=
  match appendLedger f s tenantID pending with
  | (s, Some e) => (s, Some e)
  | (s, None) =>
      let st := tenantStateOf s tenantID in
      match saveTenantHot f s tenantID hot (ts_version st + 1) with
      | (s, Some e) => (s, Some e)
      | (s, None) => (set_tenant s tenantID (committed_hot st hot (ts_pending st)), None)
      end
  end.

Definition hotFirstTier (f : faults) (s : splitStore) (tenantID : string) (hot : hotDoc) (pending : list LedgerRecord)
    : splitStore * option error :=
  let st := tenantStateOf s tenantID in
  let journal := commitJournal st hot pending in
  match (if bool_decide (journal = []) then Ok tt else validateTenantCommitRecords tenantID pending) with
  | Err e => (s, Some e)
  | Ok _ =>
      match saveTenantHotWithCommit f s tenantID hot (ts_version st + 1) journal with
      | (s, Some e) => (s, Some e)
      | (s, None) =>
          let s := set_tenant s tenantID (committed_hot st hot journal) in
          match appendLedger f s tenantID pending with
          | (s, Some e) => (s, Some e)
          | (s, None) => (set_tenant s tenantID (with_pending (tenantStateOf s tenantID) []), None)
          end
      end
  end.

Definition commitTenant (f : faults) (s : splitStore) (tenantID : string) (order : CommitOrder) (hot : hotDoc)
    (pending : list LedgerRecord) (global : Snapshot) (globalChanged : bool) : splitStore * option error :=
  match (if sp_durable s then ft_tmp f else None) with
  | Some e => (s, Some e)
  | None =>
      match ft_ctx_commit f with
      | Some e => (s, Some e)
      | None =>
          match (match order with
                 | ColdFirst => coldFirstTier f s tenantID hot pending
                 | HotFirst => hotFirstTier f s tenantID hot pending
                 end) with
          | (s, Some e) => (s, Some e)
          | (s, None) =>
              match (if globalChanged then writeControl f s global else (s, None)) with
              | (s, Some e) => (s, Some e)
              | (s, None) =>
                  let st := tenantStateOf s tenantID in
                  (set_tenant s tenantID (with_ledger st (commitPending (ts_ledger st) pending)), None)
              end
          end
      end
  end.

Definition updateTenant (f : faults) (s : splitStore) (tenantID : string) (order : CommitOrder)
    (fn : TenantView -> TenantView * option error) : splitStore * option error :=
  match ft_ctx_update f with
  | Some e => (s, Some e)
  | None =>
      let st := tenantStateOf s tenantID in
      let s := set_tenant s tenantID st in
      match unresolvedTenantCommit st with
      | Err e => (s, Some e)
      | Ok true => (s, Some (Sentinel ErrTenantCommitPending))
      | Ok false =>
          let st := with_pending st [] in
          let s := set_tenant s tenantID st in
          match cloneControl (sp_control s) with
          | Err e => (s, Some e)
          | Ok global =>
              match fn (mkTenantView (ts_hot st) (newTenantLedgerView (ts_ledger st)) global) with
              | (_, Some e) => (s, Some e)
              | (view, None) =>
                  match LedgerErr (tv_Ledger view) with
                  | Some e => (s, Some e)
                  | None =>
                      match cloneControl (tv_Global view) with
                      | Err e => (s, Some e)
                      | Ok retainedGlobal =>
                          commitTenant f s tenantID order (tv_Hot view) (pendingRecords (tv_Ledger view))
                            retainedGlobal (negb (bool_decide (retainedGlobal = sp_control s)))
                      end
                  end
              end
          end
      end
  end.

(** ** Recovery (tenant_commit.go) *)

(** [LedgerCoordinate{StreamID, Sequence}]. *)
Definition LedgerCoordinate : Type := (string * Z)%type.

Record TenantCommitCandidate : Type := mkTenantCommitCandidate {
  tc_TenantID : string;
  tc_Version : Z;
  tc_Records : list LedgerRecord;
  tc_Hot : hotDoc;
  tc_Schemas : gmap string EventSchema;
  tc_Anchors : gmap LedgerCoordinate EventReceipt;
  tc_PendingReceipts : gmap string EventReceipt
}.

Definition set_tc_Anchors (c : TenantCommitCandidate) v : TenantCommitCandidate :=
  mkTenantCommitCandidate (tc_TenantID c) (tc_Version c) (tc_Records c) (tc_Hot c) (tc_Schemas c) v (tc_PendingReceipts c).
Definition set_tc_PendingReceipts (c : TenantCommitCandidate) v : TenantCommitCandidate :=
  mkTenantCommitCandidate (tc_TenantID c) (tc_Version c) (tc_Records c) (tc_Hot c) (tc_Schemas c) (tc_Anchors c) v.

(** *** tenant_commit_anchors.go *)

(** The coordinates one journaled record asks for. *)
Definition wantedBy (tenantID : string) (hot : hotDoc) (r : LedgerRecord) : list LedgerCoordinate :=
  (match lr_Receipt r with
   | Some receipt =>
       (rc_StreamID receipt, rc_Sequence receipt - 1) ::
       match hd_Streams hot !! StreamKey tenantID (rc_StreamID receipt) with
       | Some stream =>
           [(rc_StreamID receipt, ss_NextSequence stream - Z.of_nat (length (ss_PendingHashes stream)) - 1)]
       | None => []
       end
   | None => []
   end ++
   match lr_Segment r with
   | Some segment => [(sg_StreamID segment, sg_FirstSequence segment - 1)]
   | None => []
   end)%list.

(** The committed receipts of the pending events of a journaled receipt's stream. *)
Definition pendingReceiptsOf (receipts : gmap string EventReceipt) (tenantID : string) (hot : hotDoc)
    (acc : gmap string EventReceipt) (r : LedgerRecord) : gmap string EventReceipt :=
  match lr_Receipt r with
  | Some receipt =>
      match hd_Streams hot !! StreamKey tenantID (rc_StreamID receipt) with
      | Some stream =>
          foldl (fun acc key => match receipts !! key with Some value => <[key := value]> acc | None => acc end)
            acc (ss_PendingEvents stream)
      | None => acc
      end
  | None => acc
  end.

(** One receipt of the scan: two receipts at a wanted coordinate must agree. *)
Definition captureAnchor (wanted : list LedgerCoordinate) (acc : result (gmap LedgerCoordinate EventReceipt))
    (anchor : EventReceipt) : result (gmap LedgerCoordinate EventReceipt) :=
  let? anchors := acc in
  let coord : LedgerCoordinate := (rc_StreamID anchor, rc_Sequence anchor) in
  if bool_decide (coord ∈ wanted) then
    match anchors !! coord with
    | Some previous =>
        if negb (bool_decide (rc_EventID previous = rc_EventID anchor)) || negb (bool_decide (rc_Hash previous = rc_Hash anchor))
        then Err (Sentinel ErrLedgerRecordConflict)
        else Ok (<[coord := anchor]> anchors)
    | None => Ok (<[coord := anchor]> anchors)
    end
  else Ok anchors.

Definition captureRecoveryAnchors (st : tenantState) (c : TenantCommitCandidate) : result TenantCommitCandidate :=
  let receipts := ld_receipts (tl_data (ts_ledger st)) in
  let wanted := concat (map (wantedBy (tc_TenantID c) (tc_Hot c)) (tc_Records c)) in
  let c := set_tc_PendingReceipts c
             (foldl (pendingReceiptsOf receipts (tc_TenantID c) (tc_Hot c)) (tc_PendingReceipts c) (tc_Records c)) in
  let? anchors := foldl (captureAnchor wanted) (Ok (tc_Anchors c)) (map_to_list receipts).*2 in
  Ok (set_tc_Anchors c anchors).

(** The capture before the anchors are read. *)
Definition pendingCandidate (s : splitStore) (ctxErr : option error) (tenantID : string)
    : result (option TenantCommitCandidate) :=
  ValidKeyComponent tenantID ;?
  match ctxErr with
  | Some e => Err e
  | None =>
      match sp_tenant s !! tenantID with
      | None => Ok None
      | Some st =>
          let? unresolved := unresolvedTenantCommit st in
          if unresolved : bool then
            let? control := cloneControl (sp_control s) in
            Ok (Some (mkTenantCommitCandidate tenantID (ts_version st) (ts_pending st) (ts_hot st) (sn_Schemas control) ∅ ∅))
          else Ok None
      end
  end.

Definition ReadPendingTenantCommit (s : splitStore) (ctxErr : option error) (tenantID : string)
    : result (option TenantCommitCandidate) :=
  let? candidate := pendingCandidate s ctxErr tenantID in
  match candidate with
  | None => Ok None
  | Some c => let? c := captureRecoveryAnchors (tenantStateOf s tenantID) c in Ok (Some c)
  end.

Definition CommitPendingTenantCommit (f : faults) (s : splitStore) (c : TenantCommitCandidate)
    : splitStore * result Z :=
  match (ValidKeyComponent (tc_TenantID c) ;? validateTenantCommitRecords (tc_TenantID c) (tc_Records c)) with
  | Err e => (s, Err e)
  | Ok _ =>
      match ft_ctx_update f with
      | Some e => (s, Err e)
      | None =>
          match sp_tenant s !! tc_TenantID c with
          | None => (s, Err (Sentinel ErrSnapshotConflict))
          | Some st =>
              if bool_decide (ts_pending st = []) then (s, Ok 0)
              else if negb (bool_decide (ts_version st = tc_Version c)) ||
                      negb (bool_decide (ts_pending st = tc_Records c))
              then (s, Err (Sentinel ErrSnapshotConflict))
              else
                match recordsToAppend (ts_ledger st) (ts_pending st) with
                | (_, Err e) => (s, Err e)
                | (_, Ok missing) =>
                    match appendLedger f s (tc_TenantID c) (ts_pending st) with
                    | (s, Some e) => (s, Err e)
                    | (s, None) =>
                        let st := tenantStateOf s (tc_TenantID c) in
                        match saveTenantHot f s (tc_TenantID c) (ts_hot st) (ts_version st + 1) with
                        | (s, Some e) => (s, Err e)
                        | (s, None) =>
                            (set_tenant s (tc_TenantID c) (committed_hot st (ts_hot st) []),
                             Ok (Z.of_nat (length missing)))
                        end
                    end
                end
          end
      end
  end.

(** ** hotcold_api.go: control updates *)

Definition updateControl (f : faults) (s : splitStore) (fn : Snapshot -> result Snapshot) : splitStore * option error :=
  match cloneControl (sp_control s) with
  | Err e => (s, Some e)
  | Ok control =>
      match (let? mutated := fn control in cloneControl mutated) with
      | Err e => (s, Some e)
      | Ok retained => writeControl f s retained
      end
  end.

Definition errControlUnchanged : error := Sentinel ErrControlUnchanged.

(** control_checked.go: a closure that reports no change discards its copy. *)
Definition UpdateControlChecked (f : faults) (s : splitStore) (fn : Snapshot -> result (Snapshot * bool))
    : splitStore * option error :=
  match updateControl f s (fun data =>
          let? res := fn data in
          if snd res : bool then Ok (fst res) else Err errControlUnchanged) with
  | (s, Some e) => if errors_Is e ErrControlUnchanged then (s, None) else (s, Some e)
  | (s, None) => (s, None)
  end.

End SplitStore.
