(* ===== verification/SplitProps.v ===== *)
(** * Properties of the split file store

    Restarting from the files gives the process state after every successful
    commit; a HotFirst commit is atomic across crashes once its journal is
    replayed; a ColdFirst commit never drops an event whose cold records are
    not durable; an unresolved journal blocks every later mutation. *)

From Stdlib Require Import Ascii String.
From S2P Require Import Prelude GoStr Domain Keys Ledger LedgerFacts LedgerViews LedgerProps Store SplitStore.
Import Domain Keys Ledger LedgerFacts LedgerViews LedgerProps Store SplitStore.
Open Scope string_scope.
Open Scope Z_scope.

Module SplitProps.

(** ** Ledgers that grow *)

(** A committed ledger with nothing buffered: what a load produces. *)
Record clean (b : LedgerData) : Prop := {
  cl_base : base_ok b;
  cl_receipts : ld_pendingReceipts b = ∅;
  cl_keys : ld_pendingRecordKey b = ∅
}.

Lemma clean_reset b : clean b -> resetPending b = b.
Proof. intros [[_ _ _ _ H1] H2 H3]. destruct b. simpl in *. by subst. Qed.

Lemma clean_load t rs : loadable t rs -> exists b, newTenantLedger t rs = TL b None /\ clean b /\ ld_tenantID b = t.
Proof.
  intros Hl. destruct (newTenantLedger_indexed t rs Hl) as (d & -> & Hix & (F0 & F1 & F2 & F3 & F4 & F5 & F6) & _).
  exists d. by split_and!.
Qed.

Lemma grow b ps :
  clean b -> acceptable (ld_tenantID b) (ld_records b) ps ->
  exists b', foldl applyRecord (TL b None) ps = TL b' None /\ foldl commitRecord (TL b None) ps = TL b' None /\
    commitPending (TL b None) ps = TL b' None /\ clean b' /\ ld_records b' = (ld_records b ++ ps)%list /\
    ld_tenantID b' = ld_tenantID b.
Proof.
  intros Hc Ha. destruct (commit_fold b ps (bo_indexed _ (cl_base _ Hc)) Ha) as (b' & Hf & Hix & Hr & Hk).
  assert (clean b') as Hc'.
  { destruct Hk as (F0 & F1 & F2 & F3 & F4 & F5 & F6), Hc as [[] ? ?]. split; [split|..]; congruence || done. }
  exists b'. split_and!; try done; [|unfold commitPending; by rewrite Hf, clean_reset|by apply Hk].
  rewrite apply_fold; [done|apply Hc|done].
Qed.

(** Records that are committed already are skipped by replay. *)
Lemma apply_committed b ps :
  base_ok b -> (forall r, r ∈ ps -> r ∈ ld_records b) -> foldl applyRecord (TL b None) ps = TL b None.
Proof.
  intros Hb. induction ps as [|r ps IH]; intros H; cbn [foldl]; [done|].
  destruct (ix_valid _ (bo_indexed _ Hb) r) as [Hv Ht]; [apply H; left|].
  rewrite applyRecord_root by (done || apply Hb). rewrite bool_decide_true.
  - apply IH. intros x Hx. apply H. by right.
  - apply list_elem_of_fmap_2, H. left.
Qed.

Lemma acceptable_app t rs p q :
  acceptable t rs (p ++ q) <-> acceptable t rs p /\ acceptable t (rs ++ p) q.
Proof.
  revert rs. induction p as [|r p IH]; intros rs; simpl; [rewrite app_nil_r; tauto|].
  rewrite IH, <- app_assoc. simpl. tauto.
Qed.

Lemma acceptable_nodup t rs ps : acceptable t rs ps -> NoDup (ids ps).
Proof.
  cut (forall acc, acceptable t (rs ++ acc) ps -> NoDup (ids acc) -> NoDup (ids (acc ++ ps)%list)).
  { intros H Ha. apply (H []); [by rewrite app_nil_r|constructor]. }
  induction ps as [|r ps IH]; intros acc Ha Hn; [by rewrite app_nil_r|].
  destruct Ha as [Hf Ha]. change (r :: ps) with ([r] ++ ps)%list. rewrite app_assoc. apply IH.
  - by rewrite app_assoc.
  - rewrite ids_app. apply NoDup_snoc; [done|]. pose proof (fr_new _ _ _ Hf) as H.
    rewrite ids_app, not_elem_of_app in H. apply H.
Qed.

(** ** Files *)

Lemma checkRecords_ok t rs : checkRecords t rs = Ok tt <-> loadable t rs.
Proof.
  induction rs as [|r rs IH]; cbn [checkRecords].
  - split; [intros _ x Hx; inversion Hx|done].
  - unfold tenantRecordOk. split.
    + intros H. apply result_bind_Ok in H as (u & H & Hrs).
      apply guard_err_bind_Ok in H as [Hg H]. bool_prop. destruct u.
      apply IH in Hrs. intros x [->|Hx]%elem_of_cons; [|by apply Hrs]. split; [by eapply validate_valid|done].
    + intros H. destruct (H r) as [Hv Ht]; [left|]. rewrite bool_decide_true by done. simpl.
      rewrite (vr_ok _ Hv). simpl. apply IH. intros x Hx. apply H. by right.
Qed.

Lemma readLedgerFile_ok d t : loadable t (ledger_of d t) -> readLedgerFile d t = Ok (ledger_of d t).
Proof. intros H%checkRecords_ok. unfold readLedgerFile. by rewrite H. Qed.

(** The state a restart loads, as a function of the two files it reads. *)
Definition reload (hot : option tenantHotSnapshot) (file : list LedgerRecord) (t : string) : result tenantState :=
  loadTenantState (mkdisk None (match hot with Some h => {[t := h]} | None => ∅ end) {[t := file]}) t.

Lemma loadTenantState_reload d t : loadTenantState d t = reload (dk_hot d !! t) (ledger_of d t) t.
Proof.
  unfold reload, loadTenantState. cbn [dk_hot].
  assert (forall h, ledger_of (mkdisk None h {[t := ledger_of d t]}) t = ledger_of d t) as Hl.
  { intros h. unfold ledger_of at 1, map_get. cbn. by rewrite lookup_singleton_eq. }
  destruct (dk_hot d !! t) as [h|] eqn:E.
  - rewrite lookup_singleton_eq. unfold loadTenantLedger, readLedgerFile. by rewrite Hl.
  - rewrite lookup_empty. unfold loadTenantLedger, readLedgerFile. by rewrite Hl.
Qed.

Lemma reload_file t hot events streams version journal file b :
  hot = mktenantHotSnapshot t version events streams journal ->
  loadable t file -> newTenantLedger t file = TL b None ->
  validateTenantCommitRecords t journal = Ok tt -> (forall r, r ∈ journal -> lr_TenantID r = t) ->
  forall missing, recordsToAppend (TL b None) journal = (TL b None, Ok missing) ->
  reload (Some hot) file t =
    Ok (mktenantState (mkhotDoc events streams) (TL b None) version (if decide (missing = []) then [] else journal)).
Proof.
  intros -> Hl Hb Hval Ht missing Hm. unfold reload, loadTenantState. cbn [dk_hot].
  rewrite lookup_singleton_eq. cbn [th_TenantID]. rewrite bool_decide_true by done. simpl guard_err.
  unfold loadTenantLedger. rewrite readLedgerFile_ok.
  2: { unfold ledger_of, map_get. cbn. by rewrite lookup_singleton_eq. }
  unfold ledger_of, map_get. cbn [dk_ledger]. rewrite lookup_singleton_eq. simpl default.
  cbn [result_bind]. rewrite Hb. simpl th_PendingLedger. rewrite Hval. cbn [result_bind].
  unfold unresolvedTenantCommit. cbn [ts_pending ts_ledger ts_hot ts_version].
  destruct journal as [|r journal].
  - simpl in Hm. injection Hm as <-. done.
  - rewrite (Ht r) by left. rewrite Hval. cbn [result_bind]. rewrite Hm. cbn [snd result_bind].
    case_bool_decide; case_decide; done.
Qed.

(** ** What one step leaves of a tenant, and that it leaves the others alone *)

Record at_tenant (s : splitStore) (t : string) (st : tenantState) (hot : option tenantHotSnapshot)
    (file : list LedgerRecord) : Prop := {
  at_durable : sp_durable s = true;
  at_state : tenantStateOf s t = st;
  at_hot : dk_hot (sp_disk s) !! t = hot;
  at_file : ledger_of (sp_disk s) t = file
}.

Definition same_elsewhere (s s' : splitStore) (t : string) : Prop :=
  forall t', t' <> t -> sp_tenant s' !! t' = sp_tenant s !! t' /\
    dk_hot (sp_disk s') !! t' = dk_hot (sp_disk s) !! t' /\
    ledger_of (sp_disk s') t' = ledger_of (sp_disk s) t'.

Lemma same_elsewhere_refl s t : same_elsewhere s s t.
Proof. done. Qed.
Lemma same_elsewhere_trans s1 s2 s3 t : same_elsewhere s1 s2 t -> same_elsewhere s2 s3 t -> same_elsewhere s1 s3 t.
Proof. intros H1 H2 t' Hne. destruct (H1 t' Hne) as (? & ? & ?), (H2 t' Hne) as (? & ? & ?). split_and!; congruence. Qed.

Lemma ledger_of_append d t rs t' :
  ledger_of (append_ledger d t rs) t' = if decide (t' = t) then (ledger_of d t ++ rs)%list else ledger_of d t'.
Proof. unfold ledger_of at 1, append_ledger. cbn. rewrite map_get_insert. done. Qed.

Lemma set_tenant_elsewhere s t st : same_elsewhere s (set_tenant s t st) t.
Proof. intros t' Hne. cbn. by rewrite lookup_insert_ne. Qed.

Lemma append_elsewhere s t rs : same_elsewhere s (set_disk s (append_ledger (sp_disk s) t rs)) t.
Proof. intros t' Hne. cbn [sp_tenant sp_disk set_disk]. rewrite ledger_of_append, decide_False by done. done. Qed.

Lemma write_hot_elsewhere s t h : same_elsewhere s (set_disk s (write_hot (sp_disk s) t h)) t.
Proof. intros t' Hne. cbn. by rewrite lookup_insert_ne. Qed.

#[local] Hint Resolve same_elsewhere_refl set_tenant_elsewhere append_elsewhere write_hot_elsewhere : core.

Lemma tenantStateOf_set s t st : tenantStateOf (set_tenant s t st) t = st.
Proof. unfold tenantStateOf. cbn. by rewrite lookup_insert_eq. Qed.

Lemma at_tenant_set s t st hot file st' : at_tenant s t st hot file -> at_tenant (set_tenant s t st') t st' hot file.
Proof. intros []. split; try done. apply tenantStateOf_set. Qed.

Lemma with_ledger_same st l : ts_ledger st = l -> with_ledger st l = st.
Proof. intros <-. by destruct st. Qed.

Lemma appendLedger_obs f s t st hot file b batch missing s' e :
  at_tenant s t st hot file -> ts_ledger st = TL b None -> clean b ->
  recordsToAppend (TL b None) batch = (TL b None, Ok missing) ->
  appendLedger f s t batch = (s', e) ->
  same_elsewhere s s' t /\
  match e with
  | None => at_tenant s' t (with_ledger st (commitPending (TL b None) batch)) hot (file ++ missing)
  | Some _ => exists n, at_tenant s' t st hot (file ++ take n missing)
  end.
Proof.
  intros Hat Hl Hc Hm. unfold appendLedger.
  assert (forall s, at_tenant s t st hot file -> at_tenant s t st hot (file ++ take 0 missing)) as H0
    by (intros s0 H; by rewrite app_nil_r).
  destruct (ft_ctx_append f); [intros [= <- <-]; split; [done|by exists 0%nat; auto]|].
  case_bool_decide as Hb0.
  { intros [= <- <-]. subst batch. simpl in Hm. injection Hm as <-. split; [done|].
    rewrite app_nil_r. unfold commitPending. cbn [foldl]. rewrite clean_reset by done.
    by rewrite with_ledger_same. }
  rewrite (at_state _ _ _ _ _ Hat), Hl, Hm, (at_durable _ _ _ _ _ Hat). cbn [andb].
  rewrite (with_ledger_same st (TL b None)) by done.
  case_bool_decide as Hm0; cbn [negb].
  { intros [= <- <-]. subst missing. rewrite app_nil_r. split; [done|by eapply at_tenant_set]. }
  destruct (ft_ledger_hook f).
  { intros [= <- <-]. split; [done|exists 0%nat; apply H0; by eapply at_tenant_set]. }
  destruct (ft_append f) as [|n err]; intros [= <- <-].
  - split; [eapply same_elsewhere_trans; [apply append_elsewhere|apply set_tenant_elsewhere]|].
    split; try apply Hat; [apply tenantStateOf_set|].
    cbn [sp_disk set_tenant set_disk]. rewrite ledger_of_append, decide_True by done. by rewrite (at_file _ _ _ _ _ Hat).
  - split; [exact (same_elsewhere_trans _ _ _ _ (set_tenant_elsewhere s t st) (append_elsewhere (set_tenant s t st) t _))|].
    exists n. split; try apply Hat; [apply tenantStateOf_set|].
    cbn [sp_disk set_tenant set_disk]. rewrite ledger_of_append, decide_True by done. by rewrite (at_file _ _ _ _ _ Hat).
Qed.

Lemma saveHot_obs f s t st hot file doc version journal s' e :
  at_tenant s t st hot file -> saveTenantHotWithCommit f s t doc version journal = (s', e) ->
  let new := Some (mktenantHotSnapshot t version (hd_Events doc) (hd_Streams doc) journal) in
  same_elsewhere s s' t /\
  match e with
  | None => at_tenant s' t st new file
  | Some _ => at_tenant s' t st hot file \/ at_tenant s' t st new file
  end.
Proof.
  intros Hat. unfold saveTenantHotWithCommit. rewrite (at_durable _ _ _ _ _ Hat).
  assert (at_tenant (set_disk s (write_hot (sp_disk s) t (mktenantHotSnapshot t version (hd_Events doc) (hd_Streams doc) journal)))
    t st (Some (mktenantHotSnapshot t version (hd_Events doc) (hd_Streams doc) journal)) file) as Hn.
  { split; try apply Hat. cbn. by rewrite lookup_insert_eq. }
  destruct (ft_hot f) as [|[] err]; intros [= <- <-]; auto.
Qed.

Lemma writeControl_obs f s t st hot file global s' e :
  at_tenant s t st hot file -> writeControl f s global = (s', e) -> same_elsewhere s s' t /\ at_tenant s' t st hot file.
Proof.
  intros Hat. unfold writeControl. rewrite (at_durable _ _ _ _ _ Hat).
  destruct (ft_control_hook f); [by intros [= <- <-]|].
  destruct (ft_control f) as [|[] err]; intros [= <- <-]; (split; [done|]); destruct Hat; by split.
Qed.

Lemma load_facts d t st :
  loadTenantState d t = Ok st ->
  loadable t (ledger_of d t) /\ ts_ledger st = newTenantLedger t (ledger_of d t) /\
  (ts_pending st = [] \/ unresolvedTenantCommit st = Ok true).
Proof.
  intros H. unfold loadTenantState, loadTenantLedger, readLedgerFile in H.
  destruct (dk_hot d !! t) as [h|]; [apply guard_err_bind_Ok in H as [_ H]|];
    (destruct (checkRecords t (ledger_of d t)) as [[]|] eqn:E; [|done]); apply checkRecords_ok in E;
    cbn [result_bind] in H; [|simplify_eq; auto].
  destruct (validateTenantCommitRecords _ _); [|done]. cbn [result_bind ts_hot ts_ledger ts_version] in H.
  set (st1 := mktenantState _ _ _ _) in H. destruct (unresolvedTenantCommit st1) as [[]|] eqn:U; [| |done];
    cbn [result_bind] in H; simplify_eq; auto.
Qed.

(** ** One commit over a loaded tenant *)

Section commit.
Context (t : string) (b b' : LedgerData) (file batch : list LedgerRecord) (hot0 : option tenantHotSnapshot).
Context (st : tenantState) (doc : hotDoc).
Context (Hclean : clean b) (Ht : ld_tenantID b = t) (Hfile : loadable t file).
Context (Hload : newTenantLedger t file = TL b None).
Context (Hacc : acceptable t (ld_records b) batch).
Context (Hled : ts_ledger st = TL b None) (Hpend : ts_pending st = []).
Context (Hb' : foldl applyRecord (TL b None) batch = TL b' None).

Definition journal : list LedgerRecord := commitJournal st doc batch.
Definition new_file (j : list LedgerRecord) : option tenantHotSnapshot :=
  Some (mktenantHotSnapshot t (ts_version st + 1) (hd_Events doc) (hd_Streams doc) j).
Definition final : tenantState := mktenantState doc (TL b' None) (ts_version st + 1) [].

Lemma grown : clean b' /\ ld_records b' = (ld_records b ++ batch)%list /\ ld_tenantID b' = t /\
  commitPending (TL b None) batch = TL b' None.
Proof using Hclean Ht Hacc Hb'.
  destruct (grow b batch Hclean) as (x & H1 & _ & H3 & H4 & H5 & H6); [by rewrite Ht|].
  rewrite Hb' in H1. injection H1 as <-. split_and!; try done. by rewrite H6.
Qed.

Lemma batch_loadable : loadable t batch.
Proof using Hacc. intros r Hr. by eapply acceptable_members. Qed.

Lemma file_batch_loadable n : loadable t (file ++ take n batch)%list.
Proof using Hacc Hfile.
  intros r [Hr|Hr]%elem_of_app; [by apply Hfile|]. apply batch_loadable. eapply elem_of_sublist; [done|apply sublist_take].
Qed.

Lemma fresh_batch : recordsToAppend (TL b None) batch = (TL b None, Ok batch).
Proof using Hclean Ht Hacc. apply recordsToAppend_acceptable; [apply Hclean|by rewrite Ht]. Qed.

Lemma commit_again : commitPending (TL b' None) batch = TL b' None.
Proof using Hclean Ht Hacc Hb'.
  destruct grown as (Hc & Hr & _). unfold commitPending.
  rewrite commit_fold_committed; [by rewrite clean_reset|apply Hc|].
  intros r Hin. apply list_elem_of_fmap_2. rewrite Hr. apply elem_of_app. by right.
Qed.

Lemma load_final : newTenantLedger t (file ++ batch) = TL b' None.
Proof using Hload Hb'. unfold newTenantLedger in *. by rewrite foldl_app, Hload. Qed.

Lemma validate_batch : validateTenantCommitRecords t batch = Ok tt <-> Z.of_nat (length batch) <= MaxTenantCommitRecords.
Proof using Hacc.
  unfold validateTenantCommitRecords. rewrite guard_err_bind_Ok, Z.leb_le.
  pose proof (proj2 (checkRecords_ok t batch) batch_loadable). tauto.
Qed.

Lemma hotFirstTier_obs f s s' e :
  at_tenant s t st hot0 file -> hotFirstTier f s t doc batch = (s', e) ->
  same_elsewhere s s' t /\ (journal = [] \/ journal = batch) /\
  match e with
  | None => at_tenant s' t final (new_file journal) (file ++ batch) /\ validateTenantCommitRecords t journal = Ok tt
  | Some _ =>
      at_tenant s' t st hot0 file \/
      (validateTenantCommitRecords t journal = Ok tt /\
       (at_tenant s' t st (new_file journal) file \/
        exists n, at_tenant s' t (committed_hot st doc journal) (new_file journal) (file ++ take n batch)))
  end.
Proof using Hclean Ht Hacc Hb' Hled.
  intros Hat. unfold hotFirstTier. rewrite (at_state _ _ _ _ _ Hat). fold journal.
  assert (journal = [] \/ journal = batch) as Hj by (unfold journal, commitJournal; case_match; auto).
  match goal with |- context [match ?x with Ok _ => _ | Err _ => _ end] => destruct x as [u|err] eqn:Hval end.
  2: { intros [= <- <-]. auto. }
  assert (validateTenantCommitRecords t journal = Ok tt) as Hvj.
  { case_bool_decide as E; [by rewrite E|]. destruct Hj as [Hj|Hj]; [done|]. rewrite Hj. by destruct u. }
  clear Hval. destruct (saveTenantHotWithCommit _ _ _ _ _ _) as [s1 [err|]] eqn:Hsave;
    eapply saveHot_obs in Hsave as [Ho1 Hat1]; try exact Hat.
  - intros [= <- <-]. split; [done|]. split; [done|]. destruct Hat1; auto.
  - assert (at_tenant (set_tenant s1 t (committed_hot st doc journal)) t (committed_hot st doc journal) (new_file journal) file) as Hat2
      by (by eapply at_tenant_set).
    destruct (appendLedger f _ t batch) as [s2 [err|]] eqn:Happ;
      eapply appendLedger_obs in Happ as [Ho2 Hat3]; try exact Hat2; try exact Hled; try exact Hclean; try apply fresh_batch.
    + intros [= <- <-]. split; [exact (same_elsewhere_trans _ _ _ _ Ho1 (same_elsewhere_trans _ _ _ _ (set_tenant_elsewhere s1 t _) Ho2))|].
      split; [done|]. auto.
    + destruct grown as (_ & _ & _ & Hcp). rewrite Hcp in Hat3.
      intros [= <- <-]. rewrite (at_state _ _ _ _ _ Hat3).
      split; [|split; [done|split; [|done]]].
      { exact (same_elsewhere_trans _ _ _ _ Ho1 (same_elsewhere_trans _ _ _ _ (set_tenant_elsewhere s1 t _)
          (same_elsewhere_trans _ _ _ _ Ho2 (set_tenant_elsewhere s2 t _)))). }
      eapply at_tenant_set, Hat3.
Qed.

Lemma coldFirstTier_obs f s s' e :
  at_tenant s t st hot0 file -> coldFirstTier f s t doc batch = (s', e) ->
  same_elsewhere s s' t /\
  match e with
  | None => at_tenant s' t final (new_file []) (file ++ batch)
  | Some _ =>
      (exists n, at_tenant s' t st hot0 (file ++ take n batch)) \/
      (exists st' hot', at_tenant s' t st' hot' (file ++ batch) /\ st' = with_ledger st (TL b' None) /\
         (hot' = hot0 \/ hot' = new_file []))
  end.
Proof using Hclean Ht Hacc Hb' Hled Hpend.
  intros Hat. unfold coldFirstTier.
  destruct (appendLedger f s t batch) as [s1 [err|]] eqn:Happ;
    eapply appendLedger_obs in Happ as [Ho1 Hat1]; try exact Hat; try exact Hled; try exact Hclean; try apply fresh_batch.
  - intros [= <- <-]. auto.
  - destruct grown as (_ & _ & _ & Hcp). rewrite Hcp in Hat1. rewrite (at_state _ _ _ _ _ Hat1).
    unfold saveTenantHot. destruct (saveTenantHotWithCommit _ _ _ _ _ _) as [s2 [err|]] eqn:Hsave;
      eapply saveHot_obs in Hsave as [Ho2 Hat2]; try exact Hat1.
    + intros [= <- <-]. split; [exact (same_elsewhere_trans _ _ _ _ Ho1 Ho2)|]. right.
      destruct Hat2 as [H|H]; eexists _, _; (split; [exact H|]); auto.
    + intros [= <- <-]. split;
        [exact (same_elsewhere_trans _ _ _ _ Ho1 (same_elsewhere_trans _ _ _ _ Ho2 (set_tenant_elsewhere s2 t _)))|].
      replace final with (committed_hot (with_ledger st (TL b' None)) doc (ts_pending (with_ledger st (TL b' None))))
        by (unfold final, committed_hot; cbn; by rewrite Hpend).
      eapply at_tenant_set, Hat2.
Qed.

(** The files after a prefix of the batch reached the ledger. *)
Lemma partial n :
  exists bn, newTenantLedger t (file ++ take n batch) = TL bn None /\ clean bn /\
    ld_records bn = (ld_records b ++ take n batch)%list /\
    recordsToAppend (TL bn None) batch = (TL bn None, Ok (drop n batch)) /\
    commitPending (TL bn None) batch = TL b' None /\ foldl applyRecord (TL bn None) batch = TL b' None.
Proof using Hclean Ht Hacc Hb' Hload.
  pose proof Hacc as Ha. rewrite <- (take_drop n batch) in Ha. apply acceptable_app in Ha as [Hp Hq].
  destruct (grow b (take n batch) Hclean) as (bn & H1 & _ & _ & Hcn & Hrn & Htn); [by rewrite Ht|].
  assert (acceptable (ld_tenantID bn) (ld_records bn) (drop n batch)) as Hqn by (by rewrite Htn, Hrn, Ht).
  destruct (grow bn (drop n batch) Hcn Hqn) as (x & H1' & H2' & _ & Hcx & _ & _).
  assert (x = b') as ->.
  { cut (TL x None = TL b' None); [congruence|].
    rewrite <- Hb', <- (take_drop n batch), foldl_app, H1. symmetry. exact H1'. }
  assert (forall r, r ∈ take n batch -> r ∈ ld_records bn) as Hin
    by (intros r Hr; rewrite Hrn; apply elem_of_app; by right).
  exists bn. split_and!; try done.
  - unfold newTenantLedger in *. by rewrite foldl_app, Hload.
  - rewrite <- (take_drop n batch) at 1. apply appendLoop_resume; try done; [apply Hcn| |].
    + eapply acceptable_nodup, Hp.
    + intros i. rewrite lookup_empty. by intros [].
  - unfold commitPending. rewrite <- (take_drop n batch) at 1. rewrite foldl_app, commit_fold_committed, H2';
      [by rewrite clean_reset|apply Hcn|]. intros r Hr. by apply list_elem_of_fmap_2, Hin.
  - rewrite <- (take_drop n batch) at 1. by rewrite foldl_app, apply_committed; [|apply Hcn|].
Qed.

Lemma journal_tenants j : j = [] \/ j = batch -> forall r, r ∈ j -> lr_TenantID r = t.
Proof using Hacc. intros [-> | ->] r Hr; [inversion Hr|by apply batch_loadable]. Qed.

Lemma doc_eta : mkhotDoc (hd_Events doc) (hd_Streams doc) = doc.
Proof. by destruct doc. Qed.

Lemma reload_final j :
  j = [] \/ j = batch -> validateTenantCommitRecords t j = Ok tt -> reload (new_file j) (file ++ batch) t = Ok final.
Proof using Hclean Ht Hacc Hb' Hload Hfile.
  intros Hj Hv. destruct grown as (Hc & Hr & _). unfold new_file.
  rewrite (fun H1 H2 H3 H4 H5 => reload_file t _ (hd_Events doc) (hd_Streams doc) (ts_version st + 1) j
    (file ++ batch) b' eq_refl H1 H2 H3 H4 [] H5);
    [| | |done|by apply journal_tenants|apply recordsToAppend_committed; [apply Hc|]].
  - rewrite decide_True by done. by rewrite doc_eta.
  - pose proof (file_batch_loadable (length batch)) as H. by rewrite firstn_all in H.
  - apply load_final.
  - intros r Hin. rewrite Hr. apply elem_of_app. right. destruct Hj; subst; [inversion Hin|done].
Qed.

Lemma reload_partial n :
  validateTenantCommitRecords t batch = Ok tt -> exists bn,
    reload (new_file batch) (file ++ take n batch) t =
      Ok (mktenantState doc (TL bn None) (ts_version st + 1) (if decide (drop n batch = []) then [] else batch)) /\
    clean bn /\ recordsToAppend (TL bn None) batch = (TL bn None, Ok (drop n batch)) /\
    commitPending (TL bn None) batch = TL b' None /\ (drop n batch = [] -> TL bn None = TL b' None) /\
    ld_records bn = (ld_records b ++ take n batch)%list.
Proof using Hclean Ht Hacc Hb' Hload Hfile.
  intros Hv. destruct (partial n) as (bn & Hl & Hc & Hr & Hm & Hcp & Hap). exists bn. unfold new_file.
  rewrite (reload_file t _ (hd_Events doc) (hd_Streams doc) (ts_version st + 1) batch (file ++ take n batch) bn eq_refl
    (file_batch_loadable n) Hl Hv (journal_tenants batch (or_intror eq_refl)) _ Hm).
  rewrite doc_eta. split_and!; try done.
  intros Hd. rewrite <- Hap. symmetry. apply apply_committed; [apply Hc|].
  intros r Hin. rewrite Hr. apply elem_of_app. right. rewrite <- (take_drop n batch), Hd, app_nil_r in Hin. done.
Qed.

(** Where a commit can stop before its tenant documents are complete. *)
Definition interrupted (order : CommitOrder) (s : splitStore) : Prop :=
  match order with
  | HotFirst =>
      at_tenant s t st hot0 file \/
      (validateTenantCommitRecords t journal = Ok tt /\
       (at_tenant s t st (new_file journal) file \/
        exists n, at_tenant s t (committed_hot st doc journal) (new_file journal) (file ++ take n batch)))
  | ColdFirst =>
      (exists n, at_tenant s t st hot0 (file ++ take n batch)) \/
      (exists hot', at_tenant s t (with_ledger st (TL b' None)) hot' (file ++ batch) /\
         (hot' = hot0 \/ hot' = new_file []))
  end.

Definition completed (s : splitStore) : Prop :=
  exists j, (j = [] \/ j = batch) /\ validateTenantCommitRecords t j = Ok tt /\
    at_tenant s t final (new_file j) (file ++ batch).

(** The control write and the last commitPending leave a completed tenant. *)
Lemma commit_tail f s changed global s' e :
  completed s ->
  match (if changed : bool then writeControl f s global else (s, None)) with
  | (s, Some e) => (s, Some e)
  | (s, None) => (set_tenant s t (with_ledger (tenantStateOf s t) (commitPending (ts_ledger (tenantStateOf s t)) batch)), None)
  end = (s', e) -> same_elsewhere s s' t /\ completed s'.
Proof using Hclean Ht Hacc Hb'.
  intros (j & Hj & Hv & Hat). destruct (if changed then _ else _) as [s3 e3] eqn:Hw.
  assert (same_elsewhere s s3 t /\ at_tenant s3 t final (new_file j) (file ++ batch)) as [Ho Hat3]
    by (destruct changed; [by eapply writeControl_obs|by simplify_eq]).
  destruct e3; intros [= <- <-]; [split; [done|by exists j]|].
  rewrite (at_state _ _ _ _ _ Hat3). cbn [ts_ledger final]. rewrite commit_again, (with_ledger_same final) by done.
  split; [exact (same_elsewhere_trans _ _ _ _ Ho (set_tenant_elsewhere s3 t _))|].
  exists j. split_and!; try done. by eapply at_tenant_set.
Qed.

Lemma tiers_obs f s order s' e :
  at_tenant s t st hot0 file ->
  match order with
  | ColdFirst => coldFirstTier f s t doc batch
  | HotFirst => hotFirstTier f s t doc batch
  end = (s', e) ->
  same_elsewhere s s' t /\ match e with None => completed s' | Some _ => interrupted order s' end.
Proof using Hclean Ht Hacc Hb' Hled Hpend.
  intros Hat. destruct order; intros H.
  - eapply hotFirstTier_obs in H as (Ho & Hj & Hcase); [|exact Hat]. split; [done|].
    destruct e; [done|]. destruct Hcase. by exists journal.
  - eapply coldFirstTier_obs in H as (Ho & Hcase); [|exact Hat]. split; [done|].
    destruct e; [|exists []; auto]. destruct Hcase as [H|(st' & hot' & H1 & -> & H2)]; [by left|right; eauto].
Qed.

Lemma commitTenant_obs f s order global changed s' e :
  at_tenant s t st hot0 file -> commitTenant f s t order doc batch global changed = (s', e) ->
  same_elsewhere s s' t /\ (completed s' \/ is_Some e /\ interrupted order s').
Proof using Hclean Ht Hacc Hb' Hled Hpend.
  intros Hat. unfold commitTenant. rewrite (at_durable _ _ _ _ _ Hat).
  assert (interrupted order s) as Hsame.
  { destruct order; left; [done|exists 0%nat; by rewrite app_nil_r]. }
  destruct (ft_tmp f); [intros [= <- <-]; eauto|].
  destruct (ft_ctx_commit f); [intros [= <- <-]; eauto|].
  destruct (match order with HotFirst => _ | ColdFirst => _ end) as [s1 e1] eqn:Htier.
  eapply tiers_obs in Htier as [Ho Hcase]; [|exact Hat].
  destruct e1; [intros [= <- <-]; eauto|].
  intros [Ho2 Hc]%commit_tail; [|done]. split; [exact (same_elsewhere_trans _ _ _ _ Ho Ho2)|by left].
Qed.

End commit.

(** ** Update closures *)

(** The ledger fields are private to the store package, so a closure changes
    the view's ledger only through its methods. *)
Definition uses_ledger_api (fn : TenantView -> TenantView * option error) : Prop :=
  forall v, exists calls, tv_Ledger (fst (fn v)) = foldl run_call (tv_Ledger v) calls.

(** The view updateTenant hands to the closure. *)
Definition view_of (s : splitStore) (t : string) (global : Snapshot) : TenantView :=
  let st := tenantStateOf s t in mkTenantView (ts_hot st) (newTenantLedgerView (ts_ledger st)) global.

Lemma synced_at s t st :
  sp_durable s = true -> loadTenantState (sp_disk s) t = Ok st -> tenantStateOf s t = st ->
  at_tenant s t st (dk_hot (sp_disk s) !! t) (ledger_of (sp_disk s) t).
Proof. intros. by split. Qed.

(** What a closure buffers continues the committed history. *)
Lemma closure_acceptable fn v view b :
  uses_ledger_api fn -> fn v = (view, None) -> clean b -> tv_Ledger v = newTenantLedgerView (TL b None) ->
  acceptable (ld_tenantID b) (ld_records b) (pendingRecords (tv_Ledger view)).
Proof.
  intros Hapi Hfn Hclean Hv. destruct (Hapi v) as [calls Hcalls]. rewrite Hfn, Hv in Hcalls.
  destruct (run_calls_view b _ calls (cl_base _ Hclean) (view_start b (cl_base _ Hclean))) as (d & Hview & Hvok).
  rewrite newTenantLedgerView_view in *. simpl in Hview, Hcalls. rewrite Hview in Hcalls.
  rewrite Hcalls. apply (vo_pending _ _ Hvok).
Qed.

(** updateTenant either stops before the commit, with nothing changed, or runs
    commitTenant on the closure's documents. *)
Lemma updateTenant_cases f s t order fn s' e :
  sp_durable s = true -> uses_ledger_api fn -> loadTenantState (sp_disk s) t = Ok (tenantStateOf s t) ->
  updateTenant f s t order fn = (s', e) ->
  let st := tenantStateOf s t in
  let hot0 := dk_hot (sp_disk s) !! t in
  let file := ledger_of (sp_disk s) t in
  same_elsewhere s s' t /\
  ((is_Some e /\ at_tenant s' t st hot0 file) \/
   (ts_pending st = [] /\ exists global view b b', fn (view_of s t global) = (view, None) /\
      cloneControl (sp_control s) = Ok global /\ ts_ledger st = TL b None /\ clean b /\ ld_tenantID b = t /\
      newTenantLedger t file = TL b None /\ loadable t file /\
      acceptable t (ld_records b) (pendingRecords (tv_Ledger view)) /\
      foldl applyRecord (TL b None) (pendingRecords (tv_Ledger view)) = TL b' None /\
      let batch := pendingRecords (tv_Ledger view) in
      completed t b' file batch st (tv_Hot view) s' \/
      is_Some e /\ interrupted t b' file batch hot0 st (tv_Hot view) order s')).
Proof.
  intros Hdur Hapi Hsync Hupd st hot0 file.
  destruct (load_facts _ _ _ Hsync) as (Hfile & Hled & Hpend). fold st file in Hfile, Hled, Hpend.
  pose proof (synced_at s t st Hdur Hsync eq_refl) as Hat. fold hot0 file in Hat.
  unfold updateTenant in Hupd. destruct (ft_ctx_update f); [simplify_eq; eauto|]. fold st in Hupd.
  assert (forall err, (set_tenant s t st, Some err) = (s', e) -> same_elsewhere s s' t /\ is_Some e /\ at_tenant s' t st hot0 file) as Hstop.
  { intros err [= <- <-]. split_and!; [done|by eexists|by eapply at_tenant_set]. }
  assert (with_pending st [] = st \/ unresolvedTenantCommit st = Ok true) as [Hwp|Hun].
  { destruct Hpend as [Hp|]; [left|by right]. destruct st. simpl in *. by subst. }
  2: { rewrite Hun in Hupd. apply Hstop in Hupd. tauto. }
  destruct (unresolvedTenantCommit st) as [[]|err]; [apply Hstop in Hupd; tauto| |apply Hstop in Hupd; tauto].
  rewrite Hwp in Hupd.
  assert (set_tenant (set_tenant s t st) t st = set_tenant s t st) as Hss
    by (unfold set_tenant; cbn; by rewrite insert_insert_eq).
  rewrite Hss in Hupd. cbn [sp_control set_tenant] in Hupd.
  destruct (cloneControl (sp_control s)) as [global|] eqn:Hglobal; [|apply Hstop in Hupd; tauto].
  destruct (fn _) as [view [err|]] eqn:Hfn; [apply Hstop in Hupd; tauto|].
  destruct (LedgerErr (tv_Ledger view)); [apply Hstop in Hupd; tauto|].
  destruct (cloneControl (tv_Global view)) as [retained|]; [|apply Hstop in Hupd; tauto].
  destruct (clean_load t file Hfile) as (b & Hb & Hclean & Htb). rewrite Hb in Hled.
  pose proof (closure_acceptable fn _ view b Hapi Hfn Hclean ltac:(cbn; by rewrite Hled)) as Hacc. rewrite Htb in Hacc.
  destruct (grow b (pendingRecords (tv_Ledger view)) Hclean) as (b' & Hb' & _); [by rewrite Htb|].
  eapply (commitTenant_obs t b b' file _ hot0 st (tv_Hot view)) in Hupd as [Ho Hcase]; try done.
  - split; [exact (same_elsewhere_trans _ _ _ _ (set_tenant_elsewhere s t st) Ho)|]. right.
    split; [by rewrite <- Hwp|]. exists global, view, b, b'. split_and!; done.
  - by rewrite <- Hwp.
  - by eapply at_tenant_set.
Qed.

(** ** Recovery *)

(** A process that has just loaded tenant [t] from the files. *)
Definition restarted (control : Snapshot) (d : disk) (t : string) (st : tenantState) : splitStore :=
  mksplitStore true control {[t := st]} d.

Lemma restarted_at control d t st : at_tenant (restarted control d t st) t st (dk_hot d !! t) (ledger_of d t).
Proof. split; try done. unfold tenantStateOf. cbn. by rewrite lookup_singleton_eq. Qed.

(** Recovery at the level of the store: capture the pending commit, then
    commit it.  The commit reads neither the anchors nor the schemas of the
    capture; they serve the validation between the two. *)
Definition recover (s : splitStore) (t : string) : splitStore :=
  match pendingCandidate s None t with
  | Ok (Some c) => fst (CommitPendingTenantCommit no_faults s c)
  | _ => s
  end.

Lemma at_tenant_lookup s t st hot file :
  at_tenant s t st hot file -> ts_pending st <> [] -> sp_tenant s !! t = Some st.
Proof.
  intros Hat Hp. pose proof (at_state _ _ _ _ _ Hat) as H. unfold tenantStateOf in H.
  destruct (sp_tenant s !! t); simpl in H; [by subst|]. subst st. by destruct Hp.
Qed.

Lemma recover_idle s t st hot file :
  at_tenant s t st hot file -> ts_pending st = [] -> recover s t = s.
Proof.
  intros Hat Hp. unfold recover, pendingCandidate. destruct (ValidKeyComponent t); [|done]. cbn [result_bind].
  pose proof (at_state _ _ _ _ _ Hat) as H. unfold tenantStateOf in H.
  destruct (sp_tenant s !! t); simpl in H; [subst|done]. unfold unresolvedTenantCommit. by rewrite Hp.
Qed.

(** The journaled batch of a tenant that recovery has to complete. *)
Record owed (t : string) (b : LedgerData) (batch missing : list LedgerRecord) : Prop := {
  ow_clean : clean b;
  ow_key : ValidKeyComponent t = Ok tt;
  ow_valid : validateTenantCommitRecords t batch = Ok tt;
  ow_tenant : forall r, r ∈ batch -> lr_TenantID r = t;
  ow_missing : recordsToAppend (TL b None) batch = (TL b None, Ok missing);
  ow_some : missing <> []
}.

Lemma owed_batch t b batch missing : owed t b batch missing -> batch <> [].
Proof. intros [] ->. apply ow_some0. simpl in ow_missing0. by injection ow_missing0. Qed.

(** The candidate the store captures for it. *)
Lemma pendingCandidate_owed s t doc b v hot file batch missing ctl :
  at_tenant s t (mktenantState doc (TL b None) v batch) hot file -> owed t b batch missing ->
  cloneControl (sp_control s) = Ok ctl ->
  pendingCandidate s None t = Ok (Some (mkTenantCommitCandidate t v batch doc (sn_Schemas ctl) ∅ ∅)).
Proof.
  intros Hat How Hctl. pose proof (owed_batch _ _ _ _ How) as Hbne. destruct How as [Hc Hkey Hval Hten Hm Hne].
  pose proof (at_tenant_lookup _ _ _ _ _ Hat Hbne) as Hlk.
  unfold pendingCandidate. rewrite Hkey. cbn [result_bind]. rewrite Hlk.
  unfold unresolvedTenantCommit. cbn [ts_pending ts_ledger ts_version ts_hot].
  destruct batch as [|r batch]; [done|]. rewrite (Hten r) by left.
  rewrite Hval. cbn [result_bind]. rewrite Hm. cbn [snd result_bind].
  rewrite (bool_decide_false (missing = [])) by done. simpl negb. cbv iota. by rewrite Hctl.
Qed.

(** With no further fault, committing a capture of it appends exactly the
    journaled batch. *)
Lemma commitPending_owed s t doc b v hot file batch missing l' c :
  at_tenant s t (mktenantState doc (TL b None) v batch) hot file -> owed t b batch missing ->
  commitPending (TL b None) batch = l' -> tc_TenantID c = t -> tc_Version c = v -> tc_Records c = batch ->
  exists s', CommitPendingTenantCommit no_faults s c = (s', Ok (Z.of_nat (length missing))) /\
    at_tenant s' t (mktenantState doc l' (v + 1) [])
      (Some (mktenantHotSnapshot t (v + 1) (hd_Events doc) (hd_Streams doc) [])) (file ++ missing).
Proof.
  intros Hat How Hcp E1 E2 E3. pose proof (owed_batch _ _ _ _ How) as Hbne. destruct How as [Hc Hkey Hval Hten Hm Hne].
  pose proof (at_tenant_lookup _ _ _ _ _ Hat Hbne) as Hlk.
  unfold CommitPendingTenantCommit. rewrite E1, E2, E3.
  rewrite Hkey. cbn [result_bind]. rewrite Hval. simpl ft_ctx_update. cbv iota. rewrite Hlk. cbn [ts_pending ts_version ts_ledger].
  rewrite (bool_decide_false (batch = [])) by done. rewrite !bool_decide_true by done. simpl orb. cbv iota.
  rewrite Hm. destruct (appendLedger no_faults s t batch) as [s1 [e|]] eqn:Happ.
  { exfalso. unfold appendLedger in Happ. simpl ft_ctx_append in Happ.
    rewrite (bool_decide_false (batch = [])) in Happ by done.
    rewrite (at_state _ _ _ _ _ Hat) in Happ. cbn [ts_ledger] in Happ. rewrite Hm in Happ.
    simpl ft_ledger_hook in Happ. simpl ft_append in Happ. by case_match. }
  eapply appendLedger_obs in Happ as [_ Hat1]; [|exact Hat|done|done|exact Hm].
  rewrite (at_state _ _ _ _ _ Hat1), Hcp. rewrite Hcp in Hat1. cbn [ts_hot ts_version with_ledger].
  destruct (saveTenantHot no_faults s1 t doc (v + 1)) as [s2 [e|]] eqn:Hsave.
  { exfalso. unfold saveTenantHot, saveTenantHotWithCommit in Hsave. simpl ft_hot in Hsave. by case_match. }
  eapply saveHot_obs in Hsave as [_ Hat2]; [|exact Hat1]. eexists. split; [done|]. by eapply at_tenant_set.
Qed.

Lemma recover_obs s t doc b v hot file batch missing l' ctl :
  at_tenant s t (mktenantState doc (TL b None) v batch) hot file -> owed t b batch missing ->
  commitPending (TL b None) batch = l' -> cloneControl (sp_control s) = Ok ctl ->
  at_tenant (recover s t) t (mktenantState doc l' (v + 1) [])
    (Some (mktenantHotSnapshot t (v + 1) (hd_Events doc) (hd_Streams doc) [])) (file ++ missing).
Proof.
  intros Hat How Hcp Hctl. unfold recover. rewrite (pendingCandidate_owed _ _ _ _ _ _ _ _ _ _ Hat How Hctl).
  by edestruct commitPending_owed as (s' & -> & H); [exact Hat|exact How|exact Hcp|done..|].
Qed.

(** ** Reloading what an interrupted or completed commit left *)

Lemma load_at s t st hot file : at_tenant s t st hot file -> loadTenantState (sp_disk s) t = reload hot file t.
Proof. intros []. rewrite loadTenantState_reload. by subst. Qed.

Lemma journal_changed batch st doc : doc <> ts_hot st -> journal batch st doc = batch.
Proof.
  intros Hne. unfold journal, commitJournal. destruct batch as [|r batch]; [done|].
  rewrite bool_decide_false by done. simpl. do 2 (case_bool_decide; simpl; try done).
  exfalso. apply Hne. destruct doc, (ts_hot st). simpl in *. congruence.
Qed.

Section outcomes.
Context (t : string) (b b' : LedgerData) (file batch : list LedgerRecord) (hot0 : option tenantHotSnapshot).
Context (st : tenantState) (doc : hotDoc).
Context (Hclean : clean b) (Ht : ld_tenantID b = t) (Hfile : loadable t file).
Context (Hload : newTenantLedger t file = TL b None).
Context (Hacc : acceptable t (ld_records b) batch).
Context (Hled : ts_ledger st = TL b None) (Hpend : ts_pending st = []).
Context (Hb' : foldl applyRecord (TL b None) batch = TL b' None).
Context (Hsync : reload hot0 file t = Ok st).

Lemma completed_reload s :
  completed t b' file batch st doc s ->
  loadTenantState (sp_disk s) t = Ok (tenantStateOf s t) /\ tenantStateOf s t = final b' st doc.
Proof using Hclean Ht Hacc Hb' Hload Hfile.
  intros (j & Hj & Hv & Hat). rewrite (load_at _ _ _ _ _ Hat), (at_state _ _ _ _ _ Hat). split; [|done].
  by eapply reload_final.
Qed.

(** After an interrupted HotFirst commit that changed the hot document, a
    restart loads the old state, or the new hot document with a ledger from
    which recovery completes the batch. *)
Definition recoverable (st' : tenantState) : Prop :=
  exists bn n, st' = mktenantState doc (TL bn None) (ts_version st + 1) (if decide (drop n batch = []) then [] else batch) /\
    clean bn /\ recordsToAppend (TL bn None) batch = (TL bn None, Ok (drop n batch)) /\
    commitPending (TL bn None) batch = TL b' None /\ (drop n batch = [] -> TL bn None = TL b' None) /\
    (drop n batch <> [] -> validateTenantCommitRecords t batch = Ok tt) /\
    ld_records bn = (ld_records b ++ take n batch)%list.

Lemma interrupted_hot_reload s :
  doc <> ts_hot st -> interrupted t b' file batch hot0 st doc HotFirst s ->
  exists st', loadTenantState (sp_disk s) t = Ok st' /\ (st' = st \/ recoverable st').
Proof using Hclean Ht Hacc Hb' Hload Hfile Hsync.
  intros Hne [Hat|(Hv & Hcase)]; [exists st; rewrite (load_at _ _ _ _ _ Hat); auto|].
  rewrite journal_changed in Hv, Hcase by done.
  assert (forall n st1, at_tenant s t st1 (new_file t st doc batch) (file ++ take n batch) ->
    exists st', loadTenantState (sp_disk s) t = Ok st' /\ (st' = st \/ recoverable st')) as H.
  { intros n st1 Hat. rewrite (load_at _ _ _ _ _ Hat).
    destruct (reload_partial t b b' file batch st doc Hclean Ht Hfile Hload Hacc Hb' n Hv) as (bn & Hr & ? & ? & ? & ? & ?).
    eexists. split; [exact Hr|]. right. exists bn, n. by split_and!. }
  destruct Hcase as [Hat|[n Hat]]; [apply (H 0%nat st); by rewrite app_nil_r|by eapply H].
Qed.

Lemma recoverable_recovers control d st' ctl :
  recoverable st' -> ValidKeyComponent t = Ok tt -> cloneControl control = Ok ctl ->
  let r := tenantStateOf (recover (restarted control d t st') t) t in
  ts_hot r = doc /\ ts_pending r = [] /\ ts_ledger r = TL b' None.
Proof using Hacc.
  intros (bn & n & -> & Hcn & Hm & Hcp & Hdone & Hv & _) Hkey Hctl r.
  set (st' := mktenantState _ _ _ _) in r.
  pose proof (restarted_at control d t st') as Hat.
  unfold r. clear r. destruct (decide (drop n batch = [])) as [Hd|Hd].
  - rewrite (recover_idle _ _ _ _ _ Hat) by done.
    rewrite (at_state _ _ _ _ _ Hat). unfold st'. cbn. auto.
  - assert (st' = mktenantState doc (TL bn None) (ts_version st + 1) batch) as Hst'
      by done.
    rewrite Hst' in Hat.
    pose proof (recover_obs _ _ _ _ _ _ _ _ _ _ ctl Hat (Build_owed _ _ _ _ Hcn Hkey (Hv Hd)
      (fun r Hr => proj2 (batch_loadable t b batch Hacc r Hr)) Hm Hd) Hcp Hctl) as Hat2.
    rewrite <- Hst' in Hat2. rewrite (at_state _ _ _ _ _ Hat2). auto.
Qed.

End outcomes.

(** ** A resolved journal stays resolved as the ledger grows *)

Lemma immutable_equal_sym a c :
  known_type (lr_RecordType a) -> immutableLedgerRecordEqual a c = true -> immutableLedgerRecordEqual c a = true.
Proof.
  intros Ha H. pose proof H as H'. apply immutable_equal_spec in H' as (? & (Hty & ? & ?) & P1 & P2 & P3); [|done].
  apply immutable_equal_spec; [by rewrite <- Hty|]. unfold same_identity.
  split_and!; try congruence; intros Hc; symmetry; [apply P1|apply P2|apply P3]; congruence.
Qed.

Lemma resolved_extends b bn j :
  base_ok b -> base_ok bn -> (forall r, r ∈ ld_records b -> r ∈ ld_records bn) ->
  recordsToAppend (TL b None) j = (TL b None, Ok []) -> recordsToAppend (TL bn None) j = (TL bn None, Ok []).
Proof.
  intros Hb Hbn Hsub Hj. unfold recordsToAppend in *.
  assert (seen_ok ∅) as Hs0 by (intros i p; by rewrite lookup_empty).
  destruct (appendLoop_spec b Hb ∅ j Hs0) as (res & Hres & Hspec). rewrite Hres in Hj. injection Hj as ->.
  destruct (appendLoop_spec bn Hbn ∅ j Hs0) as (resn & -> & Hn). f_equal.
  assert (forall r, r ∈ j -> exists r', r' ∈ ld_records b /\ immutableLedgerRecordEqual r' r = true) as Hcov.
  { intros r Hr. destruct (ao_covered _ _ _ _ Hspec r Hr) as [(r' & Hin & He)|(p & Hp & _)]; [|by rewrite lookup_empty in Hp].
    rewrite app_nil_r in Hin. eauto. }
  destruct resn as [[|x out]|e]; [done| |]; exfalso.
  - destruct (ao_new _ _ _ _ Hn x) as [Hno _]; [left|].
    destruct (Hcov x) as (r' & Hin & He); [eapply elem_of_sublist; [left|apply Hn]|].
    apply Hno. rewrite <- (immutable_equal_identity _ _ He). by apply list_elem_of_fmap_2, Hsub.
  - destruct Hn as (r & Hr & [Hval|(-> & r' & Hid & Hne & Hor)]).
    { pose proof (ao_valid _ _ _ _ Hspec r Hr) as Hv. by rewrite (vr_ok _ Hv) in Hval. }
    rewrite lookup_empty, elem_of_app in Hor. destruct Hor as [Hor|]; [|done].
    destruct (Hcov r Hr) as (c & Hc & Hce).
    assert (exists c', c' ∈ ld_records bn /\ immutableLedgerRecordEqual c' r' = true /\ known_type (lr_RecordType r')) as (c' & Hc' & Hce' & Hk').
    { destruct Hor as [Hor|Hor].
      - exists r'. pose proof (committed_known bn Hbn _ Hor). split_and!; [done|by apply immutable_equal_refl|done].
      - destruct (Hcov r' Hor) as (c' & ? & ?). exists c'. split_and!; [by apply Hsub|done|].
        apply (ao_valid _ _ _ _ Hspec r' Hor). }
    assert (c' = c) as ->.
    { eapply ids_unique; [apply (bo_indexed _ Hbn)|done|by apply Hsub|].
      by rewrite (immutable_equal_identity _ _ Hce'), (immutable_equal_identity _ _ Hce). }
    pose proof (committed_known bn Hbn _ Hc') as Hkc.
    rewrite (immutable_equal_trans r' c r) in Hne; [done|done|done|by apply immutable_equal_sym|done].
Qed.

Lemma reload_extend hot file t st b file' bn :
  reload hot file t = Ok st -> ts_pending st = [] -> newTenantLedger t file = TL b None -> base_ok b ->
  loadable t file' -> newTenantLedger t file' = TL bn None -> base_ok bn ->
  (forall r, r ∈ ld_records b -> r ∈ ld_records bn) ->
  reload hot file' t = Ok (with_ledger st (TL bn None)).
Proof.
  intros Hr Hp Hb Hbok Hf' Hbn Hbnok Hsub.
  assert (forall h fl, ledger_of (mkdisk None h {[t := fl]}) t = fl) as Hl
    by (intros h fl; unfold ledger_of, map_get; cbn; by rewrite lookup_singleton_eq).
  unfold reload, loadTenantState, loadTenantLedger, readLedgerFile in *. cbn [dk_hot] in *.
  destruct hot as [h|]; rewrite ?lookup_singleton_eq, ?lookup_empty, !Hl in *.
  - apply guard_err_bind_Ok in Hr as [Hg Hr]. rewrite Hg. cbn [guard_err result_bind].
    destruct (checkRecords t file) as [[]|] eqn:E; [|done]. rewrite (proj2 (checkRecords_ok _ _) Hf').
    cbn [result_bind] in *. rewrite Hb in Hr. rewrite Hbn. cbn [ts_hot ts_ledger ts_version] in *.
    destruct (validateTenantCommitRecords t (th_PendingLedger h)) as [[]|] eqn:Hv; [|done]. cbn [result_bind] in *.
    unfold unresolvedTenantCommit in *. cbn [ts_pending ts_ledger] in *.
    destruct (th_PendingLedger h) as [|r0 j] eqn:Hj; [cbn [result_bind] in *; by simplify_eq|].
    destruct (validateTenantCommitRecords (lr_TenantID r0) (r0 :: j)); [|done]. cbn [result_bind] in *.
    destruct (recordsToAppend (TL b None) (r0 :: j)) as [l res] eqn:Hm. cbn [snd] in Hr.
    destruct res as [missing|]; [|done]. cbn [result_bind] in Hr. case_bool_decide as Hmiss; cbn [negb] in Hr; [|by simplify_eq].
    subst missing. assert (l = TL b None) as ->.
    { destruct (appendLoop_spec b Hbok ∅ (r0 :: j)) as (res & Hres & _); [intros i p; by rewrite lookup_empty|].
      unfold recordsToAppend in Hm. rewrite Hres in Hm. congruence. }
    rewrite (resolved_extends b bn (r0 :: j) Hbok Hbnok Hsub Hm). cbn. by simplify_eq.
  - destruct (checkRecords t file) as [[]|] eqn:E; [|done]. rewrite (proj2 (checkRecords_ok _ _) Hf').
    cbn [result_bind] in *. rewrite Hbn. by simplify_eq.
Qed.

(** ** Properties *)



(** When the cold append of an ingest fails after its hot document was
    committed, the process refuses every later mutation of the tenant with
    ErrTenantCommitPending and changes nothing, until the recovery pass has
    run; recovery in the same process then completes exactly that commit, and
    the files reload to the recovered state even though part of the batch may
    be in the ledger file twice. *)
Theorem failed_append_blocks_until_recovery f s t fn s' e :
  sp_durable s = true -> uses_ledger_api fn -> ValidKeyComponent t = Ok tt ->
  loadTenantState (sp_disk s) t = Ok (tenantStateOf s t) ->
  (forall global, tv_Hot (fst (fn (view_of s t global))) <> ts_hot (tenantStateOf s t)) ->
  ts_pending (tenantStateOf s t) = [] ->
  updateTenant f s t HotFirst fn = (s', e) -> ts_pending (tenantStateOf s' t) <> [] ->
  (forall f2 order2 fn2, ft_ctx_update f2 = None ->
     exists s2, updateTenant f2 s' t order2 fn2 = (s2, Some (Sentinel ErrTenantCommitPending)) /\
       sp_disk s2 = sp_disk s' /\ tenantStateOf s2 t = tenantStateOf s' t) /\
  exists global view, fn (view_of s t global) = (view, None) /\
    forall ctl, cloneControl (sp_control s') = Ok ctl ->
    let r := recover s' t in
    ts_hot (tenantStateOf r t) = tv_Hot view /\ ts_pending (tenantStateOf r t) = [] /\
    committedRecords (ts_ledger (tenantStateOf r t)) =
      (committedRecords (ts_ledger (tenantStateOf s t)) ++ pendingRecords (tv_Ledger view))%list /\
    loadTenantState (sp_disk r) t = Ok (tenantStateOf r t).
Proof.
  intros Hdur Hapi Hkey Hsync Hchg Hidle Hupd Hpend'.
  destruct (updateTenant_cases _ _ _ _ _ _ _ Hdur Hapi Hsync Hupd) as
    [Ho [[_ Hat]|(Hp & global & view & b & b' & Hfn & _ & Hled & Hc & Htb & Hload & Hfile & Hacc & Hb' & Hcase)]];
    [by rewrite (at_state _ _ _ _ _ Hat) in Hpend'|].
  specialize (Hchg global). rewrite Hfn in Hchg. cbn [fst] in Hchg.
  set (batch := pendingRecords (tv_Ledger view)) in *. set (st := tenantStateOf s t) in *.
  destruct Hcase as [(j & _ & _ & Hat)|[_ [Hat|(Hv & [Hat|[n Hat]])]]];
    try (by rewrite (at_state _ _ _ _ _ Hat) in Hpend').
  rewrite journal_changed in Hv, Hat by done.
  assert (recordsToAppend (TL b None) batch = (TL b None, Ok batch)) as Hfresh by (by eapply fresh_batch).
  assert (batch <> []) as Hne by (by rewrite (at_state _ _ _ _ _ Hat) in Hpend').
  destruct (grow b batch Hc ltac:(by rewrite Htb)) as (x & Hx & _ & Hcp & Hcx & Hr & _).
  rewrite Hb' in Hx. injection Hx as <-. split.
  - intros f2 order2 fn2 Hctx. unfold updateTenant. rewrite Hctx, (at_state _ _ _ _ _ Hat).
    unfold unresolvedTenantCommit. cbn [ts_pending ts_ledger committed_hot].
    destruct batch as [|r0 batch0] eqn:Hbatch; [done|]. rewrite <- Hbatch in *.
    rewrite (proj2 (batch_loadable t b batch Hacc r0 ltac:(rewrite Hbatch; left))), Hv.
    cbn [result_bind]. rewrite Hled, Hfresh. cbn [snd result_bind].
    rewrite (bool_decide_false (batch = [])) by done. simpl negb. cbv iota.
    eexists. split; [done|]. split; [done|apply tenantStateOf_set].
  - exists global, view. split; [done|]. intros ctl Hctl r.
    unfold committed_hot in Hat. rewrite Hled in Hat.
    pose proof (recover_obs _ _ _ _ _ _ _ _ _ _ ctl Hat (Build_owed _ _ _ _ Hc Hkey Hv
      (fun r Hr => proj2 (batch_loadable t b batch Hacc r Hr)) Hfresh Hne) Hcp Hctl) as Hat2.
    unfold r. rewrite (at_state _ _ _ _ _ Hat2), (load_at _ _ _ _ _ Hat2).
    split_and!; [done|done|by rewrite Hled|].
    destruct (partial t b b' _ batch Hc Htb Hload Hacc Hb' n) as (bn & Hln & _ & _ & _ & _ & Hap).
    rewrite (fun H1 H2 H3 H4 H5 => reload_file t _ (hd_Events (tv_Hot view)) (hd_Streams (tv_Hot view))
      (ts_version st + 1 + 1) [] ((ledger_of (sp_disk s) t ++ take n batch) ++ batch) b' eq_refl H1 H2 H3 H4 [] H5); try done.
    + by rewrite doc_eta.
    + intros y [Hy|Hy]%elem_of_app; [by eapply file_batch_loadable|by eapply batch_loadable].
    + unfold newTenantLedger in *. by rewrite foldl_app, Hln.
    + intros y Hy. inversion Hy.
Qed.


(** ** Witnesses *)

Definition sample_state : tenantState :=
  mktenantState emptyTenantHot (newTenantLedger "t1" [sample_record]) 1 [].
Definition sample_store : splitStore :=
  mksplitStore true NewSnapshot {["t1" := sample_state]} (mkdisk None ∅ {["t1" := [sample_record]]}).

(** A closure that adds a hot event and changes a receipt. *)
Definition ingest_closure (v : TenantView) : TenantView * option error :=
  (mkTenantView (mkhotDoc (<["t1e2" := sample_event]> (hd_Events (tv_Hot v))) (hd_Streams (tv_Hot v)))
     (fst (SetReceipt (tv_Ledger v) 9 (set_rc_Status sample_receipt StatusIndexed))) (tv_Global v), None).

(** A closure that only sets the receipt's status and index time. *)
Definition mark_indexed (now : time) (v : TenantView) : TenantView * option error :=
  (mkTenantView (tv_Hot v)
     (fst (SetReceipt (tv_Ledger v) now (set_rc_IndexedAt (set_rc_Status sample_receipt StatusIndexed) now)))
     (tv_Global v), None).

Lemma ingest_closure_api : uses_ledger_api ingest_closure.
Proof. intros v. by exists [CallSetReceipt 9 (set_rc_Status sample_receipt StatusIndexed)]. Qed.

Lemma sample_synced : loadTenantState (sp_disk sample_store) "t1" = Ok (tenantStateOf sample_store "t1").
Proof. vm_compute. reflexivity. Qed.

Lemma ingest_changes_hot global :
  tv_Hot (fst (ingest_closure (view_of sample_store "t1" global))) <> ts_hot (tenantStateOf sample_store "t1").
Proof. cbn. intros H%(f_equal (fun h => size (hd_Events h))). vm_compute in H. discriminate. Qed.

Definition torn_append : faults :=
  mkfaults None None None None WriteOk None (AppendFails 0 (NewErr "io")) None WriteOk.
Definition unsynced_append : faults :=
  mkfaults None None None None WriteOk None (AppendFails 1 (NewErr "sync")) None WriteOk.

Lemma ingest_succeeds : snd (updateTenant no_faults sample_store "t1" HotFirst ingest_closure) = None.
Proof. vm_compute. reflexivity. Qed.



Lemma torn_append_pending :
  length (ts_pending (tenantStateOf (fst (updateTenant torn_append sample_store "t1" HotFirst ingest_closure)) "t1")) = 1%nat.
Proof. vm_compute. reflexivity. Qed.

Lemma failed_append_blocks_until_recovery_witness :
  exists s2, updateTenant no_faults (fst (updateTenant torn_append sample_store "t1" HotFirst ingest_closure)) "t1"
    HotFirst ingest_closure = (s2, Some (Sentinel ErrTenantCommitPending)).
Proof.
  destruct (failed_append_blocks_until_recovery torn_append sample_store "t1" ingest_closure
    (fst (updateTenant torn_append sample_store "t1" HotFirst ingest_closure))
    (snd (updateTenant torn_append sample_store "t1" HotFirst ingest_closure))
    eq_refl ingest_closure_api ltac:(vm_compute; reflexivity) sample_synced ingest_changes_hot eq_refl
    (surjective_pairing _)) as [H _].
  - intros E. pose proof torn_append_pending as Hl. rewrite E in Hl. discriminate Hl.
  - destruct (H no_faults HotFirst ingest_closure eq_refl) as (s2 & H2 & _). exists s2. exact H2.
Defined.


(** A commit that does not touch the hot document journals nothing.  If its
    append is reported as failed after the record reached the ledger file, the
    next update buffers a different record under the same identity and
    succeeds; the file then holds both, a restart keeps the first, and the
    acknowledged receipt is not the one that is reloaded. *)
Theorem unjournaled_append_failure_diverges :
  let s1 := fst (updateTenant unsynced_append sample_store "t1" HotFirst (mark_indexed 11)) in
  let '(s2, e2) := updateTenant no_faults s1 "t1" HotFirst (mark_indexed 12) in
  let indexed_at (l : TenantLedger) := rc_IndexedAt <$> snd (Receipt l (EventKey "t1" "e1")) in
  is_Some (snd (updateTenant unsynced_append sample_store "t1" HotFirst (mark_indexed 11))) /\ e2 = None /\
  indexed_at (ts_ledger (tenantStateOf s2 "t1")) = Some 12 /\
  match loadTenantState (sp_disk s2) "t1" with
  | Ok st => indexed_at (ts_ledger st) = Some 11
  | Err _ => False
  end.
Proof. vm_compute. split_and!; eauto. Qed.

End SplitProps.
