(* ===== verification/Aggregate.v ===== *)
(** * Aggregate checkpoints (internal/service: aggregate_attestation.go,
    aggregate_checkpoint.go, integrity.go: CreateAggregateCheckpoint)

    A tenant's aggregate signs one Merkle root over the latest checkpoint of
    every stream, with a length-prefixed payload that names each checkpoint.
    Go ranges over the checkpoint map in random order; the references are
    sorted by a total order afterwards, so [map_to_list] order is as good. *)

From Stdlib Require Import Ascii String Sorted.
From S2P Require Import Prelude GoStr Sha256 Merkle Signer Domain Keys Store.
Open Scope string_scope.
Open Scope Z_scope.
Import Domain Keys Store Merkle Signer.

Module Aggregate.

Definition aggregateAttestationVersion : Z := 2.
Definition DefaultAggregateCheckpointRetention : Z := 1000.

Definition newerCheckpoint (latest checkpoint : Checkpoint) : Checkpoint :=
  if (cp_Sequence latest <? cp_Sequence checkpoint)
     || ((cp_Sequence checkpoint =? cp_Sequence latest) && time_After (cp_CreatedAt checkpoint) (cp_CreatedAt latest))
     || ((cp_Sequence checkpoint =? cp_Sequence latest) && (cp_CreatedAt checkpoint =? cp_CreatedAt latest)
         && str_ltb (cp_ID latest) (cp_ID checkpoint))
  then checkpoint else latest.
Definition latestCheckpoint (first : Checkpoint) (rest : list Checkpoint) : Checkpoint :=
  fold_left newerCheckpoint rest first.

(** The comparison of sortCheckpointRefs, as a total order. *)
Definition ref_leb : CheckpointRef -> CheckpointRef -> bool :=
  lexb cr_StreamID str_leb (lexb cr_CheckpointID str_leb (lexb cr_Sequence Z.leb
    (fun a b => str_leb (cr_MerkleRoot a) (cr_MerkleRoot b)))).
Definition sortCheckpointRefs (refs : list CheckpointRef) : list CheckpointRef := stable_sort ref_leb refs.

(** One entry of the checkpoint map: nothing, an error, or a reference. *)
Definition checkpointRef (tenantID : string) (entry : string * list Checkpoint) : result (option CheckpointRef) :=
  match entry.2 with
  | [] => Ok None
  | first :: rest =>
      match SplitTenantKey entry.1 with
      | None => Ok None
      | Some (owner, streamID) =>
          if negb (bool_decide (owner = tenantID)) then Ok None
          else
            let c := latestCheckpoint first rest in
            if negb (bool_decide (cp_TenantID c = tenantID)) || negb (bool_decide (cp_StreamID c = streamID))
               || bool_decide (cp_ID c = "") || bool_decide (cp_MerkleRoot c = "") || (cp_Sequence c <=? 0)
            then Err (invalid ("malformed checkpoint for stream " ++ streamID))
            else Ok (Some (mkCheckpointRef (cp_StreamID c) (cp_ID c) (cp_Sequence c) (cp_MerkleRoot c)))
      end
  end.

Fixpoint collectRefs (tenantID : string) (entries : list (string * list Checkpoint)) : result (list CheckpointRef) :=
  match entries with
  | [] => Ok []
  | entry :: entries =>
      let? ref := checkpointRef tenantID entry in
      let? refs := collectRefs tenantID entries in
      Ok (match ref with Some r => r :: refs | None => refs end)
  end.

Definition aggregateCheckpointRefs (checkpoints : gmap string (list Checkpoint)) (tenantID : string)
    : result (list CheckpointRef) :=
  let? refs := collectRefs tenantID (map_to_list checkpoints) in Ok (sortCheckpointRefs refs).

Definition aggregateRoots (refs : list CheckpointRef) : list string := map cr_MerkleRoot refs.

(** ** The signed payload *)

(** binary.BigEndian.PutUint64 of [uint64(value)]. *)
Definition writeAggregateUint (value : Z) : string := string_of (Sha256.be_bytes 8 value).
Definition writeAggregateField (value : string) : string := writeAggregateUint (Zlen value) ++ value.
Definition writeAll {A} (f : A -> string) (l : list A) : string := fold_right (fun x acc => f x ++ acc) "" l.

Definition refPayload (ref : CheckpointRef) : string :=
  writeAggregateField (cr_StreamID ref) ++ writeAggregateField (cr_CheckpointID ref) ++
  writeAggregateUint (cr_Sequence ref) ++ writeAggregateField (cr_MerkleRoot ref).

Definition payloadBody (a : AggregateCheckpoint) : string :=
  writeAggregateField "snaplink.aggregate-checkpoint" ++
  writeAggregateUint (ag_AttestationVersion a) ++
  writeAggregateField (ag_TenantID a) ++ writeAggregateField (ag_Algorithm a) ++
  writeAggregateUint (ag_StreamCount a) ++
  writeAggregateUint (Z.of_nat (length (ag_StreamRoots a))) ++ writeAll writeAggregateField (ag_StreamRoots a) ++
  writeAggregateUint (Z.of_nat (length (ag_CheckpointRefs a))) ++ writeAll refPayload (ag_CheckpointRefs a).

Definition aggregateAttestationPayload (a : AggregateCheckpoint) : result string :=
  if (ag_AttestationVersion a <? 0) || (ag_StreamCount a <? 0)
  then Err (invalid "negative aggregate attestation version or stream count")
  else if existsb (fun r => cr_Sequence r <=? 0) (ag_CheckpointRefs a)
  then Err (invalid "aggregate checkpoint sequence must be positive")
  else Ok (payloadBody a).

(** ** Verification *)

Definition aggregateDiagnostic (id reason : string) : string :=
  "aggregate checkpoint " ++ String.substring 0 64 id ++ " " ++ reason.

Definition exactCheckpointReference (checkpoints : gmap string (list Checkpoint)) (tenantID : string)
    (ref : CheckpointRef) : bool :=
  match checkpoints !! StreamKey tenantID (cr_StreamID ref) with
  | None => false
  | Some values =>
      let named := filter (fun c => cp_ID c = cr_CheckpointID ref) values in
      forallb (fun c => bool_decide (cp_TenantID c = tenantID) && bool_decide (cp_StreamID c = cr_StreamID ref)
                        && (cp_Sequence c =? cr_Sequence ref) && bool_decide (cp_MerkleRoot c = cr_MerkleRoot ref)) named
      && (length named =? 1)%nat
  end.

Definition aggregateReferencesTenant (checkpoints : gmap string (list Checkpoint)) (tenantID : string)
    (a : AggregateCheckpoint) : bool :=
  existsb (exactCheckpointReference checkpoints tenantID) (ag_CheckpointRefs a).

(** The loop over the references, with the streams and checkpoints seen. *)
Fixpoint checkRefs (checkpoints : gmap string (list Checkpoint)) (tenantID : string)
    (refs ordered : list CheckpointRef) (roots : list string) (seenStreams seenCheckpoints : list string)
    : option string :=
  match refs, ordered, roots with
  | ref :: refs, o :: ordered, root :: roots =>
      if negb (bool_decide (ref = o)) then Some "has a checkpoint reference mismatch"
      else if bool_decide (cr_StreamID ref ∈ seenStreams) then Some "has duplicate stream references"
      else if bool_decide (cr_CheckpointID ref ∈ seenCheckpoints) then Some "has duplicate checkpoint references"
      else if bool_decide (cr_CheckpointID ref = "") || bool_decide (cr_MerkleRoot ref = "")
              || negb (bool_decide (cr_MerkleRoot ref = root))
      then Some "has a checkpoint reference mismatch"
      else if negb (exactCheckpointReference checkpoints tenantID ref)
      then Some "has a checkpoint reference mismatch"
      else checkRefs checkpoints tenantID refs ordered roots
             (cr_StreamID ref :: seenStreams) (cr_CheckpointID ref :: seenCheckpoints)
  | _, _, _ => None
  end.

Definition isInterrupted (e : error) : bool := errors_Is e ErrContextCanceled || errors_Is e ErrContextDeadline.

Section signer.
Context {signer : Signer}.

(** [None] is the verdict valid; [Some reason] the diagnostic. *)
Definition aggregateProblem (tenantID : string) (a : AggregateCheckpoint)
    (checkpoints : gmap string (list Checkpoint)) : option string :=
  if (ag_AttestationVersion a =? 0) && bool_decide (ag_CheckpointRefs a = []) then Some "is legacy root-only evidence"
  else if negb (ag_AttestationVersion a =? aggregateAttestationVersion)
  then Some "uses an unsupported attestation version"
  else if negb (bool_decide (ag_TenantID a = tenantID)) then Some "has a tenant mismatch"
  else if negb (bool_decide (ag_Algorithm a = Algorithm)) then Some "has an algorithm mismatch"
  else if (ag_StreamCount a <=? 0) || negb (ag_StreamCount a =? Z.of_nat (length (ag_CheckpointRefs a)))
          || negb (length (ag_StreamRoots a) =? length (ag_CheckpointRefs a))%nat
  then Some "has a checkpoint reference mismatch"
  else
    match checkRefs checkpoints tenantID (ag_CheckpointRefs a) (sortCheckpointRefs (ag_CheckpointRefs a))
            (ag_StreamRoots a) [] [] with
    | Some reason => Some reason
    | None =>
        if negb (bool_decide (merkleRoot (ag_StreamRoots a) = ag_Root a)) then Some "failed root/signature verification"
        else
          match aggregateAttestationPayload a with
          | Err _ => Some "has an invalid numeric field"
          | Ok payload =>
              match Verify payload (ag_Signature a) with
              | Err e => if isInterrupted e then Some "verification interrupted" else Some "failed root/signature verification"
              | Ok false => Some "failed root/signature verification"
              | Ok true => None
              end
          end
    end.

Definition verifyAggregateCheckpoint (tenantID : string) (a : AggregateCheckpoint)
    (checkpoints : gmap string (list Checkpoint)) : bool * string :=
  match aggregateProblem tenantID a checkpoints with
  | None => (true, "")
  | Some reason => (false, aggregateDiagnostic (ag_ID a) reason)
  end.

(** ** Retention and creation *)

Definition ofTenant (tenantID : string) (a : AggregateCheckpoint) : bool := bool_decide (ag_TenantID a = tenantID).

(** Walk from the newest: keep every other tenant's record and the first
    [keep] of this tenant. *)
Fixpoint keepNewest (tenantID : string) (keep : nat) (newestFirst : list AggregateCheckpoint) : list AggregateCheckpoint :=
  match newestFirst with
  | [] => []
  | a :: l =>
      if ofTenant tenantID a then
        match keep with
        | O => keepNewest tenantID O l
        | S keep => a :: keepNewest tenantID keep l
        end
      else a :: keepNewest tenantID keep l
  end.

Definition trimAggregateCheckpoints (items : list AggregateCheckpoint) (tenantID : string) (n : Z)
    : list AggregateCheckpoint * bool :=
  if Z.of_nat (length (List.filter (ofTenant tenantID) items)) <=? n then (items, false)
  else (reverse (keepNewest tenantID (Z.to_nat n) (reverse items)), true).

Definition lastAggregateCheckpoint (items : list AggregateCheckpoint) (tenantID : string) : option AggregateCheckpoint :=
  find_first (ofTenant tenantID) (reverse items).

Definition retentionCap (configured : Z) : Z :=
  if 1 <=? configured then configured else DefaultAggregateCheckpointRetention.

Definition sameAggregateAttestation (l r : AggregateCheckpoint) : bool :=
  bool_decide (ag_TenantID l = ag_TenantID r) && (ag_AttestationVersion l =? ag_AttestationVersion r)
  && (ag_StreamCount l =? ag_StreamCount r) && bool_decide (ag_Root l = ag_Root r)
  && bool_decide (ag_Signature l = ag_Signature r) && bool_decide (ag_Algorithm l = ag_Algorithm r)
  && bool_decide (ag_StreamRoots l = ag_StreamRoots r) && bool_decide (ag_CheckpointRefs l = ag_CheckpointRefs r).

(** The UpdateChecked closure of CreateAggregateCheckpoint: the new list and
    whether it is to be saved. *)
Definition createAggregate (tenantID newID : string) (now : time) (configured : Z) (data : Snapshot)
    : result (Snapshot * bool) :=
  let? refs := aggregateCheckpointRefs (sn_Checkpoints data) tenantID in
  match refs with
  | [] => Ok (data, false)
  | _ =>
      let roots := aggregateRoots refs in
      let candidate := mkAggregateCheckpoint newID tenantID (Z.of_nat (length refs)) (merkleRoot roots) ""
                         Algorithm now roots aggregateAttestationVersion refs in
      let? payload := aggregateAttestationPayload candidate in
      let? signature := match Sign payload with
                        | Ok s => Ok s | Err e => Err (Wrapf e "sign aggregate checkpoint") end in
      let signed := mkAggregateCheckpoint newID tenantID (Z.of_nat (length refs)) (merkleRoot roots) signature
                      Algorithm now roots aggregateAttestationVersion refs in
      let same := match lastAggregateCheckpoint (sn_AggregateCheckpoints data) tenantID with
                  | Some last => sameAggregateAttestation last signed
                  | None => false
                  end in
      if same then
        let '(trimmed, changed) := trimAggregateCheckpoints (sn_AggregateCheckpoints data) tenantID (retentionCap configured) in
        Ok (set_sn_AggregateCheckpoints data trimmed, changed)
      else
        let '(trimmed, _) := trimAggregateCheckpoints (sn_AggregateCheckpoints data ++ [signed]) tenantID (retentionCap configured) in
        Ok (set_sn_AggregateCheckpoints data trimmed, true)
  end.

End signer.

End Aggregate.
