(* ===== verification/AggregateProps.v ===== *)
(** * Properties of aggregate checkpoints

    The signed payload determines every field it covers; retention keeps the
    newest records of the tenant and all of the others; and an aggregate
    verifies against the snapshot it was created from. *)

From Stdlib Require Import Ascii String Sorted.
From S2P Require Import Prelude GoStr Sha256 Merkle Signer Domain Keys Store Aggregate.
Open Scope string_scope.
Open Scope Z_scope.
Import Domain Keys Store Merkle Signer Aggregate.

#[local] Arguments String.append !_ _ / : simpl nomatch.

Module AggregateProps.

(** ** The payload *)

Definition uint64 (z : Z) : Prop := 0 <= z < 2 ^ 64.

Lemma be_bytes_inj z w : uint64 z -> uint64 w -> Sha256.be_bytes 8 z = Sha256.be_bytes 8 w -> z = w.
Proof.
  intros Hz Hw Heq.
  assert (forall i, (i < 8)%nat -> Z.land (Z.shiftr z (8 * Z.of_nat i)) 255 = Z.land (Z.shiftr w (8 * Z.of_nat i)) 255) as Hb.
  { unfold Sha256.be_bytes in Heq. cbn -[Z.land Z.shiftr Z.mul Z.of_nat] in Heq. injection Heq as H7 H6 H5 H4 H3 H2 H1 H0.
    intros i Hi. do 8 (destruct i as [|i]; [done|]). lia. }
  apply Z.bits_inj'. intros n Hn. destruct (Z.lt_ge_cases n 64) as [Hlt|Hge].
  - set (i := Z.to_nat (n / 8)). assert (Z.of_nat i = n / 8) as Hi by (unfold i; rewrite Z2Nat.id; [done|apply Z.div_pos; lia]).
    pose proof (Z.mod_pos_bound n 8 ltac:(lia)) as Hm. pose proof (Z.div_mod n 8 ltac:(lia)) as Hd.
    assert (i < 8)%nat as Hi8 by (unfold i; pose proof (Z.div_lt_upper_bound n 8 8 ltac:(lia) ltac:(lia)); lia).
    specialize (Hb i Hi8). apply (f_equal (fun x => Z.testbit x (n mod 8))) in Hb.
    rewrite !Z.land_spec, !Z.shiftr_spec in Hb by lia.
    replace (Z.testbit 255 (n mod 8)) with true in Hb.
    + rewrite !andb_true_r, Hi in Hb. by replace (n mod 8 + 8 * (n / 8)) with n in Hb by lia.
    + symmetry. change 255 with (Z.ones 8). apply Z.ones_spec_low. lia.
  - rewrite <- (Z.mod_small z (2 ^ 64)), <- (Z.mod_small w (2 ^ 64)) by done.
    rewrite !Z.mod_pow2_bits_high by lia. done.
Qed.

Lemma string_of_inj l k : (forall b, b ∈ l -> 0 <= b < 256) -> (forall b, b ∈ k -> 0 <= b < 256) ->
  string_of l = string_of k -> l = k.
Proof.
  intros Hl Hk Heq%(f_equal chars). unfold string_of, chars in Heq. rewrite !list_ascii_of_string_of_list_ascii in Heq.
  apply (f_equal (map byteZ)) in Heq. rewrite !map_map in Heq.
  assert (forall m, (forall b, b ∈ m -> 0 <= b < 256) -> map (fun x => byteZ (Zbyte x)) m = m) as Hid.
  { clear. intros m Hm. induction m as [|b m IH]; [done|]. cbn. rewrite byteZ_Zbyte by (apply Hm; left).
    f_equal. apply IH. intros c Hc. apply Hm. by right. }
  by rewrite !Hid in Heq.
Qed.

Lemma uint_prefix z w x y : uint64 z -> uint64 w ->
  writeAggregateUint z ++ x = writeAggregateUint w ++ y -> z = w /\ x = y.
Proof.
  intros Hz Hw Heq. apply Zlen_prefix in Heq as [Heq ->]; [|unfold writeAggregateUint, string_of; by rewrite !Zlen_of_list, !length_map].
  split; [|done]. apply be_bytes_inj; [done..|]. apply string_of_inj; [apply Sha256.be_bytes_range..|done].
Qed.

Lemma field_prefix a b x y : uint64 (Zlen a) -> uint64 (Zlen b) ->
  writeAggregateField a ++ x = writeAggregateField b ++ y -> a = b /\ x = y.
Proof.
  unfold writeAggregateField. intros Ha Hb Heq. rewrite !string_app_assoc in Heq.
  apply uint_prefix in Heq as [Hl Heq]; [|done..]. by apply Zlen_prefix.
Qed.

Definition field_ok (s : string) : Prop := uint64 (Zlen s).
Record ref_ok (r : CheckpointRef) : Prop := {
  ro_stream : field_ok (cr_StreamID r); ro_id : field_ok (cr_CheckpointID r);
  ro_seq : uint64 (cr_Sequence r); ro_root : field_ok (cr_MerkleRoot r)
}.

Lemma ref_prefix r r' x y : ref_ok r -> ref_ok r' -> refPayload r ++ x = refPayload r' ++ y -> r = r' /\ x = y.
Proof.
  intros [] [] Heq. unfold refPayload in Heq. rewrite !string_app_assoc in Heq.
  apply field_prefix in Heq as [E1 Heq]; [|done..]. apply field_prefix in Heq as [E2 Heq]; [|done..].
  apply uint_prefix in Heq as [E3 Heq]; [|done..]. apply field_prefix in Heq as [E4 ->]; [|done..].
  split; [|done]. destruct r, r'; cbn in *; by subst.
Qed.

Lemma writeAll_prefix {A} (f : A -> string) (ok : A -> Prop) l l' x y :
  (forall a b x y, ok a -> ok b -> f a ++ x = f b ++ y -> a = b /\ x = y) ->
  Forall ok l -> Forall ok l' -> length l = length l' ->
  writeAll f l ++ x = writeAll f l' ++ y -> l = l' /\ x = y.
Proof.
  intros Hf Hl. revert l'. induction Hl as [|a l Ha Hl IH]; intros [|b l'] Hl' Hlen Heq; try done.
  apply Forall_cons in Hl' as [Hb Hl']. cbn [writeAll fold_right] in Heq. rewrite !string_app_assoc in Heq.
  apply Hf in Heq as [-> Heq]; [|done..]. apply IH in Heq as [-> ->]; [done|done|cbn in Hlen; lia].
Qed.

(** Sizes that fit the 64-bit length prefixes, as every Go value does. *)
Record payload_sizes (a : AggregateCheckpoint) : Prop := {
  ps_version : uint64 (ag_AttestationVersion a);
  ps_tenant : field_ok (ag_TenantID a);
  ps_algorithm : field_ok (ag_Algorithm a);
  ps_count : uint64 (ag_StreamCount a);
  ps_roots : uint64 (Z.of_nat (length (ag_StreamRoots a)));
  ps_root : Forall field_ok (ag_StreamRoots a);
  ps_refs : uint64 (Z.of_nat (length (ag_CheckpointRefs a)));
  ps_ref : Forall ref_ok (ag_CheckpointRefs a)
}.

Lemma payload_body a p : aggregateAttestationPayload a = Ok p -> p = payloadBody a.
Proof. unfold aggregateAttestationPayload. destruct (_ || _); [done|]. destruct (existsb _ _); [done|]. congruence. Qed.

(** C38: the payload an aggregate signature covers determines the attestation:
    equal payloads mean equal version, tenant, algorithm, stream count, roots
    and checkpoint references, so none of them can change under a signature. *)
Theorem aggregate_payload_binds a b p :
  payload_sizes a -> payload_sizes b ->
  aggregateAttestationPayload a = Ok p -> aggregateAttestationPayload b = Ok p ->
  ag_AttestationVersion a = ag_AttestationVersion b /\ ag_TenantID a = ag_TenantID b /\
  ag_Algorithm a = ag_Algorithm b /\ ag_StreamCount a = ag_StreamCount b /\
  ag_StreamRoots a = ag_StreamRoots b /\ ag_CheckpointRefs a = ag_CheckpointRefs b.
Proof.
  intros [] [] Ha%payload_body Hb%payload_body. rewrite Hb in Ha. clear Hb. symmetry in Ha. unfold payloadBody in Ha.
  apply string_app_cancel_l in Ha.
  apply uint_prefix in Ha as [E1 Ha]; [|done..]. apply field_prefix in Ha as [E2 Ha]; [|done..].
  apply field_prefix in Ha as [E3 Ha]; [|done..]. apply uint_prefix in Ha as [E4 Ha]; [|done..].
  apply uint_prefix in Ha as [E5%Nat2Z.inj Ha]; [|done..].
  apply (writeAll_prefix _ field_ok) in Ha as [E6 Ha]; [|intros; by apply field_prefix|done..].
  apply uint_prefix in Ha as [E7%Nat2Z.inj Ha]; [|done..].
  rewrite <- (string_app_nil_r (writeAll refPayload (ag_CheckpointRefs a))),
    <- (string_app_nil_r (writeAll refPayload (ag_CheckpointRefs b))) in Ha.
  apply (writeAll_prefix _ ref_ok) in Ha as [E8 _]; [done|intros; by apply ref_prefix|done..].
Qed.

(** ** Retention *)

Lemma keepNewest_other t k l :
  List.filter (fun a => negb (ofTenant t a)) (keepNewest t k l) = List.filter (fun a => negb (ofTenant t a)) l.
Proof.
  revert k. induction l as [|a l IH]; intros k; [done|]. cbn [keepNewest List.filter].
  destruct (ofTenant t a) eqn:E; [destruct k|]; cbn [List.filter]; rewrite ?E; cbn; by rewrite IH.
Qed.

Lemma keepNewest_own t k l :
  List.filter (ofTenant t) (keepNewest t k l) = take k (List.filter (ofTenant t) l).
Proof.
  revert k. induction l as [|a l IH]; intros k; [by destruct k|]. cbn [keepNewest List.filter].
  destruct (ofTenant t a) eqn:E; [destruct k|]; cbn [List.filter take]; rewrite ?E, IH; done.
Qed.

Lemma filter_reverse {A} (p : A -> bool) l : List.filter p (reverse l) = reverse (List.filter p l).
Proof.
  induction l as [|x l IH]; [done|]. rewrite reverse_cons, List.filter_app, IH. cbn [List.filter].
  destruct (p x); [by rewrite reverse_cons|by rewrite app_nil_r].
Qed.

Lemma find_first_reverse {A} (p : A -> bool) l : find_first p (reverse l) = last (List.filter p l).
Proof.
  induction l as [|x l IH]; [done|]. rewrite reverse_cons, find_first_app, IH. cbn [List.filter find_first].
  destruct (p x) eqn:E; [|by destruct (last _)]. rewrite last_cons. by destruct (last _).
Qed.

Lemma last_drop {A} (l : list A) n : (n < length l)%nat -> last (drop n l) = last l.
Proof.
  revert l. induction n as [|n IH]; intros [|x l] H; try done. cbn in H. cbn [drop].
  rewrite IH by lia. rewrite last_cons. destruct (last l) eqn:E; [done|]. apply last_None in E as ->. cbn in H. lia.
Qed.

Lemma trim_own items t n : 0 <= n -> List.filter (ofTenant t) (trimAggregateCheckpoints items t n).1 =
  drop (length (List.filter (ofTenant t) items) - Z.to_nat n) (List.filter (ofTenant t) items).
Proof.
  intros Hn. unfold trimAggregateCheckpoints. destruct (_ <=? _) eqn:E; bool_prop; cbn [fst].
  - by replace (length _ - Z.to_nat n)%nat with 0%nat by lia.
  - rewrite filter_reverse, keepNewest_own, filter_reverse. by rewrite take_reverse, reverse_involutive.
Qed.

Lemma trim_last items t n : 1 <= n ->
  lastAggregateCheckpoint (trimAggregateCheckpoints items t n).1 t = lastAggregateCheckpoint items t.
Proof.
  intros Hn. unfold lastAggregateCheckpoint. rewrite !find_first_reverse, trim_own by lia.
  destruct (List.filter (ofTenant t) items) as [|a l] eqn:E; [done|]. apply last_drop. cbn [length]. lia.
Qed.

(** Retention of aggregate checkpoints: the tenant keeps its newest [n]
    records in order, every other tenant keeps all of its records in order, and
    the change flag tells whether a record was dropped. *)
Theorem trim_keeps_newest items t n :
  0 <= n ->
  let own := List.filter (ofTenant t) items in
  let '(out, changed) := trimAggregateCheckpoints items t n in
  List.filter (ofTenant t) out = drop (length own - Z.to_nat n) own /\
  List.filter (fun a => negb (ofTenant t a)) out = List.filter (fun a => negb (ofTenant t a)) items /\
  changed = (n <? Z.of_nat (length own)).
Proof.
  intros Hn own. unfold trimAggregateCheckpoints. fold own.
  pose proof (trim_own items t n Hn) as Hown. unfold trimAggregateCheckpoints in Hown. fold own in Hown.
  destruct (Z.of_nat (length own) <=? n) eqn:E; bool_prop; (split; [exact Hown|]).
  - split; [done|symmetry; apply Z.ltb_ge; lia].
  - rewrite !filter_reverse, keepNewest_other, filter_reverse, reverse_involutive.
    split; [done|symmetry; apply Z.ltb_lt; lia].
Qed.

Definition sample_aggregate (id t : string) : AggregateCheckpoint := mkAggregateCheckpoint id t 1 "" "" "" 0 [] 2 [].
Definition sample_items : list AggregateCheckpoint :=
  [sample_aggregate "1" "a"; sample_aggregate "2" "b"; sample_aggregate "3" "a"; sample_aggregate "4" "a"].

Lemma trim_keeps_newest_witness :
  List.filter (ofTenant "a") (trimAggregateCheckpoints sample_items "a" 2).1 =
  [sample_aggregate "3" "a"; sample_aggregate "4" "a"].
Proof. destruct (trim_keeps_newest sample_items "a" 2 ltac:(lia)) as [H _]. exact H. Defined.

Lemma sample_sizes t : payload_sizes (sample_aggregate "1" "a") -> payload_sizes (sample_aggregate t "a").
Proof. intros []. by split. Qed.

Lemma aggregate_payload_binds_witness :
  ag_CheckpointRefs (sample_aggregate "1" "a") = ag_CheckpointRefs (sample_aggregate "2" "a").
Proof.
  assert (payload_sizes (sample_aggregate "1" "a")) as Hs by (split; first [by constructor|split; vm_compute; congruence]).
  apply (aggregate_payload_binds (sample_aggregate "1" "a") (sample_aggregate "2" "a") (payloadBody (sample_aggregate "1" "a")));
    [exact Hs|apply sample_sizes; exact Hs|reflexivity|reflexivity].
Defined.

(** ** A created aggregate verifies *)

Lemma ref_leb_total a b : ref_leb a b = true \/ ref_leb b a = true.
Proof.
  apply lexb_total; [apply str_leb_total|]. apply lexb_total; [apply str_leb_total|].
  apply lexb_total; [intros; rewrite !Z.leb_le; lia|]. intros. apply str_leb_total.
Qed.

Lemma ref_leb_trans a b c : ref_leb a b = true -> ref_leb b c = true -> ref_leb a c = true.
Proof.
  apply lexb_trans; [apply str_leb_trans|apply str_leb_antisym|].
  apply lexb_trans; [apply str_leb_trans|apply str_leb_antisym|].
  apply lexb_trans; [intros x y z; rewrite !Z.leb_le; lia|intros x y; rewrite !Z.leb_le; lia|].
  intros x y z. apply str_leb_trans.
Qed.

Lemma sort_refs_idempotent l : sortCheckpointRefs (sortCheckpointRefs l) = sortCheckpointRefs l.
Proof. apply stable_sort_sorted_id, stable_sort_sorted; [apply ref_leb_total|apply ref_leb_trans]. Qed.

Lemma latest_in first rest : latestCheckpoint first rest ∈ first :: rest.
Proof.
  unfold latestCheckpoint. revert first. induction rest as [|c rest IH]; intros first; [left|]. cbn [fold_left].
  assert (newerCheckpoint first c = c \/ newerCheckpoint first c = first) as Hn
    by (unfold newerCheckpoint; destruct (_ || _); auto).
  specialize (IH (newerCheckpoint first c)). apply elem_of_cons in IH as [->|IH]; [|by right; right].
  destruct Hn as [->| ->]; [right; left|left].
Qed.

(** Checkpoint identifiers are fresh (newID draws them at random). *)
Definition unique_ids (entries : list (string * list Checkpoint)) : Prop :=
  NoDup (map cp_ID (concat (map snd entries))).

Lemma SplitTenantKey_Some key t s : SplitTenantKey key = Some (t, s) -> key = StreamKey t s.
Proof.
  unfold SplitTenantKey. destruct (cut SepByte key) as [[a b]|] eqn:E; [|done].
  destruct (contains_char SepByte b); [done|]. intros [= <- <-]. by apply cut_Some in E as [-> _].
Qed.

(** What a collected reference stands for. *)
Record ref_source (entries : list (string * list Checkpoint)) (tenantID : string) (r : CheckpointRef) : Prop := {
  rs_id : cr_CheckpointID r <> "";
  rs_root : cr_MerkleRoot r <> "";
  rs_seq : 0 < cr_Sequence r;
  rs_entry : exists values c, (StreamKey tenantID (cr_StreamID r), values) ∈ entries /\ c ∈ values /\
    cp_ID c = cr_CheckpointID r /\ cp_TenantID c = tenantID /\ cp_StreamID c = cr_StreamID r /\
    cp_Sequence c = cr_Sequence r /\ cp_MerkleRoot c = cr_MerkleRoot r
}.

Lemma checkpointRef_source t entry r entries :
  checkpointRef t entry = Ok (Some r) -> entry ∈ entries -> ref_source entries t r.
Proof.
  destruct entry as [key values]. unfold checkpointRef. cbn [fst snd]. destruct values as [|first rest]; [done|].
  destruct (SplitTenantKey key) as [[owner sid]|] eqn:Es; [|done].
  destruct (bool_decide_reflect (owner = t)) as [->|]; cbn [negb]; [|done].
  pose proof (latest_in first rest) as Hin. set (c := latestCheckpoint first rest) in *.
  destruct (_ || _) eqn:E; [done|]. intros [= <-] He. bool_prop. apply SplitTenantKey_Some in Es as ->.
  split; cbn; [done|done|lia|]. exists (first :: rest), c. split_and!; try done. by subst sid.
Qed.

Lemma ref_source_mono entries entries' t r :
  (forall x, x ∈ entries -> x ∈ entries') -> ref_source entries t r -> ref_source entries' t r.
Proof. intros Hsub [? ? ? (values & c & ? & ?)]. split; try done. exists values, c. split; [by apply Hsub|done]. Qed.

Lemma collectRefs_sources t entries refs :
  collectRefs t entries = Ok refs -> forall r, r ∈ refs -> ref_source entries t r.
Proof.
  revert refs. induction entries as [|entry entries IH]; intros refs H r Hr.
  - injection H as <-. inversion Hr.
  - cbn [collectRefs] in H. apply result_bind_Ok in H as (ref & Href & H). apply result_bind_Ok in H as (refs' & Hrefs & H).
    injection H as <-. assert (r ∈ refs' -> ref_source (entry :: entries) t r) as Htail.
    { intros Hin. eapply ref_source_mono; [|by eapply IH]. intros x Hx. by right. }
    destruct ref as [r0|]; [|auto]. apply elem_of_cons in Hr as [->|Hr]; [|auto].
    eapply checkpointRef_source; [done|left].
Qed.

Lemma head_entry t entry r : checkpointRef t entry = Ok (Some r) ->
  entry.1 = StreamKey t (cr_StreamID r) /\ exists c, c ∈ entry.2 /\ cp_ID c = cr_CheckpointID r.
Proof.
  intros H. destruct (rs_entry _ _ _ (checkpointRef_source _ _ _ [entry] H ltac:(left))) as (values & c & Hin & Hc & Hid & _).
  apply list_elem_of_singleton in Hin. subst entry. eauto.
Qed.

Lemma collectRefs_NoDup t entries refs :
  NoDup (map fst entries) -> unique_ids entries -> collectRefs t entries = Ok refs ->
  NoDup (map cr_StreamID refs) /\ NoDup (map cr_CheckpointID refs).
Proof.
  unfold unique_ids. revert refs. induction entries as [|entry entries IH]; intros refs Hk Hid H.
  - injection H as <-. by split; constructor.
  - cbn [collectRefs] in H. apply result_bind_Ok in H as (ref & Href & H). apply result_bind_Ok in H as (refs' & Hrefs & H).
    injection H as <-. cbn [map] in Hk. apply NoDup_cons in Hk as [Hk0 Hk].
    cbn [map concat] in Hid. rewrite map_app in Hid. apply NoDup_app in Hid as (_ & Hdisj & Hid).
    destruct (IH _ Hk Hid Hrefs) as [Hs Hi]. destruct ref as [r0|]; [|done].
    destruct (head_entry _ _ _ Href) as [Hkey (c0 & Hc0 & Hcid)].
    assert (forall r, r ∈ refs' -> cr_StreamID r <> cr_StreamID r0 /\ cr_CheckpointID r <> cr_CheckpointID r0) as Hne.
    { intros r Hr. destruct (rs_entry _ _ _ (collectRefs_sources _ _ _ Hrefs r Hr)) as (values & c & Hin & Hc & Hid' & _).
      split; intros E.
      - apply Hk0. rewrite Hkey, <- E. apply list_elem_of_fmap. by exists (StreamKey t (cr_StreamID r), values).
      - apply (Hdisj (cp_ID c0)); [apply list_elem_of_fmap; eauto|]. rewrite Hcid, <- E, <- Hid'.
        apply list_elem_of_fmap. exists c. split; [done|]. apply list_elem_of_In, in_concat. exists values.
        split; [apply in_map_iff; eexists (_, _); split; [done|by apply list_elem_of_In]|by apply list_elem_of_In]. }
    cbn [map]. split; constructor; try done; intros (r & E & Hr)%list_elem_of_fmap; by destruct (Hne r Hr).
Qed.

Lemma filter_unique (values : list Checkpoint) c :
  NoDup (map cp_ID values) -> c ∈ values -> filter (fun x => cp_ID x = cp_ID c) values = [c].
Proof.
  induction values as [|x values IH]; intros Hnd Hc; [inversion Hc|].
  cbn [map] in Hnd. apply NoDup_cons in Hnd as [Hx Hnd]. apply elem_of_cons in Hc as [->|Hc].
  - rewrite filter_cons_True by done. f_equal. apply list_filter_none. intros y Hy E.
    apply Hx. rewrite <- E. apply list_elem_of_fmap. eauto.
  - rewrite filter_cons_False; [by apply IH|]. intros E. apply Hx. rewrite E. apply list_elem_of_fmap. eauto.
Qed.

Lemma unique_in_stream entries key values :
  unique_ids entries -> (key, values) ∈ entries -> NoDup (map cp_ID values).
Proof.
  unfold unique_ids. induction entries as [|e entries IH]; intros Hid Hin; [inversion Hin|].
  cbn [map concat] in Hid. rewrite map_app in Hid. apply NoDup_app in Hid as (H1 & _ & H2).
  apply elem_of_cons in Hin as [<-|Hin]; [done|by apply IH].
Qed.

Lemma source_exact (checkpoints : gmap string (list Checkpoint)) t r :
  unique_ids (map_to_list checkpoints) -> ref_source (map_to_list checkpoints) t r ->
  exactCheckpointReference checkpoints t r = true.
Proof.
  intros Hid [_ _ _ (values & c & Hin & Hc & E1 & E2 & E3 & E4 & E5)]. unfold exactCheckpointReference.
  pose proof (unique_in_stream _ _ _ Hid Hin) as Hnd. apply elem_of_map_to_list in Hin. rewrite Hin, <- E1.
  rewrite (filter_unique values c Hnd Hc). cbn. rewrite <- E2, <- E3, <- E4, <- E5.
  by rewrite !bool_decide_eq_true_2, Z.eqb_refl by done.
Qed.

Lemma checkRefs_None checkpoints t refs ss cs :
  (forall r, r ∈ refs -> cr_CheckpointID r <> "" /\ cr_MerkleRoot r <> "" /\ exactCheckpointReference checkpoints t r = true) ->
  NoDup (map cr_StreamID refs) -> NoDup (map cr_CheckpointID refs) ->
  (forall r, r ∈ refs -> (cr_StreamID r ∉ ss) /\ (cr_CheckpointID r ∉ cs)) ->
  checkRefs checkpoints t refs refs (aggregateRoots refs) ss cs = None.
Proof.
  revert ss cs. induction refs as [|r refs IH]; intros ss cs Hr Hs Hc Hseen; [done|].
  cbn [map] in Hs, Hc. apply NoDup_cons in Hs as [Hs0 Hs], Hc as [Hc0 Hc].
  destruct (Hr r ltac:(left)) as (H1 & H2 & H3). destruct (Hseen r ltac:(left)) as [H4 H5].
  change (aggregateRoots (r :: refs)) with (cr_MerkleRoot r :: aggregateRoots refs). cbn [checkRefs].
  rewrite (bool_decide_eq_true_2 (r = r)), (bool_decide_eq_true_2 (cr_MerkleRoot r = cr_MerkleRoot r)) by done.
  rewrite !bool_decide_eq_false_2, H3 by done. cbn.
  apply IH; [intros x Hx; apply Hr; by right|done|done|].
  intros x Hx. destruct (Hseen x ltac:(by right)) as [H6 H7]. rewrite !not_elem_of_cons.
  split_and!; [|done| |done]; intros E; [apply Hs0|apply Hc0]; rewrite <- E; apply list_elem_of_fmap; eauto.
Qed.

Lemma collected_positive t entries refs : collectRefs t entries = Ok refs ->
  existsb (fun r => cr_Sequence r <=? 0) (sortCheckpointRefs refs) = false.
Proof.
  intros H. apply not_true_is_false. intros (r & Hr%list_elem_of_In & E)%existsb_exists.
  unfold sortCheckpointRefs in Hr. rewrite stable_sort_perm in Hr.
  pose proof (rs_seq _ _ _ (collectRefs_sources _ _ _ H r Hr)). bool_prop. lia.
Qed.

Section created.
Context {signer : Signer} {signer_ok : SignerOk signer}.

(** What verification reads of a record: all but its ID and time. *)
Lemma aggregateProblem_same t a b checkpoints :
  sameAggregateAttestation a b = true -> aggregateProblem t b checkpoints = None -> aggregateProblem t a checkpoints = None.
Proof using Type.
  unfold sameAggregateAttestation. intros H. bool_prop. destruct a, b; cbn in *. by subst.
Qed.

Lemma signed_verifies t checkpoints refs id now sig p :
  unique_ids (map_to_list checkpoints) -> aggregateCheckpointRefs checkpoints t = Ok refs -> refs <> [] ->
  let signed s := mkAggregateCheckpoint id t (Z.of_nat (length refs)) (merkleRoot (aggregateRoots refs)) s
                    Algorithm now (aggregateRoots refs) aggregateAttestationVersion refs in
  aggregateAttestationPayload (signed "") = Ok p -> Sign p = Ok sig ->
  aggregateProblem t (signed sig) checkpoints = None.
Proof using signer_ok.
  intros Hid Hrefs Hne signed Hp Hsig. unfold aggregateCheckpointRefs in Hrefs.
  apply result_bind_Ok in Hrefs as (raw & Hraw & Hrefs). injection Hrefs as <-.
  set (refs := sortCheckpointRefs raw) in *. unfold aggregateProblem. cbn [ag_AttestationVersion ag_CheckpointRefs ag_TenantID ag_Algorithm ag_StreamCount ag_StreamRoots ag_Root ag_Signature signed].
  change (aggregateAttestationVersion =? 0) with false. cbn [andb]. rewrite !Z.eqb_refl.
  rewrite (bool_decide_eq_true_2 (t = t)), (bool_decide_eq_true_2 (Algorithm = Algorithm)),
    (bool_decide_eq_true_2 (merkleRoot (aggregateRoots refs) = merkleRoot (aggregateRoots refs))) by done. cbn [negb].
  assert (length (aggregateRoots refs) = length refs) as Hlen by apply length_map.
  assert (1 <= Z.of_nat (length refs)) as Hpos by (destruct refs; [done|cbn; lia]).
  rewrite Hlen, Nat.eqb_refl. replace (Z.of_nat (length refs) <=? 0) with false by (symmetry; apply Z.leb_gt; lia). cbn [orb negb].
  replace (sortCheckpointRefs refs) with refs by (symmetry; apply sort_refs_idempotent).
  assert (forall r, r ∈ refs -> ref_source (map_to_list checkpoints) t r) as Hsrc.
  { intros r Hr. unfold refs, sortCheckpointRefs in Hr. rewrite stable_sort_perm in Hr. by eapply collectRefs_sources. }
  destruct (collectRefs_NoDup t (map_to_list checkpoints) raw) as [Hs Hi]; [apply NoDup_fst_map_to_list|done|done|].
  assert (refs ≡ₚ raw) as Hperm by apply stable_sort_perm.
  rewrite checkRefs_None.
  - change (aggregateAttestationPayload (signed sig)) with (aggregateAttestationPayload (signed "")).
    rewrite Hp, (sign_verifies _ _ Hsig). done.
  - intros r Hr. split_and!; [apply (rs_id _ _ _ (Hsrc r Hr))|apply (rs_root _ _ _ (Hsrc r Hr))|].
    by apply source_exact, Hsrc.
  - by rewrite Hperm.
  - by rewrite Hperm.
  - intros r _. split; apply not_elem_of_nil.
Qed.

Lemma retentionCap_pos c : 1 <= retentionCap c.
Proof using Type. unfold retentionCap. destruct (1 <=? c) eqn:E; bool_prop; [lia|vm_compute; discriminate]. Qed.

Lemma last_snoc_own t l a : ofTenant t a = true -> lastAggregateCheckpoint (l ++ [a]) t = Some a.
Proof using Type. intros H. unfold lastAggregateCheckpoint. rewrite reverse_snoc. cbn. by rewrite H. Qed.

(** Every pass of CreateAggregateCheckpoint over a tenant with checkpoints
    leaves, as the tenant's newest aggregate, a record that covers the latest
    checkpoint of every stream of the tenant and that verifies against the
    saved snapshot; and the tenant never keeps more records than the cap. *)
Theorem created_aggregate_verifies t id now cap data data' saved refs :
  unique_ids (map_to_list (sn_Checkpoints data)) ->
  aggregateCheckpointRefs (sn_Checkpoints data) t = Ok refs -> refs <> [] ->
  createAggregate t id now cap data = Ok (data', saved) ->
  sn_Checkpoints data' = sn_Checkpoints data /\
  (exists a, lastAggregateCheckpoint (sn_AggregateCheckpoints data') t = Some a /\ ag_CheckpointRefs a = refs /\
    verifyAggregateCheckpoint t a (sn_Checkpoints data') = (true, "")) /\
  Z.of_nat (length (List.filter (ofTenant t) (sn_AggregateCheckpoints data'))) <= retentionCap cap.
Proof using signer_ok.
  intros Hid Hrefs Hne H. pose proof (retentionCap_pos cap) as Hcap.
  pose proof (signed_verifies t (sn_Checkpoints data) refs id now) as Hver.
  unfold createAggregate in H. rewrite Hrefs in H. cbn [result_bind] in H. destruct refs as [|r refs]; [done|].
  apply result_bind_Ok in H as (p & Hp & H). apply result_bind_Ok in H as (sig & Hsig & H).
  destruct (Sign p) as [s|] eqn:Es; [injection Hsig as ->|done].
  specialize (Hver sig p Hid Hrefs Hne Hp Es). cbv zeta in Hver.
  set (signed := mkAggregateCheckpoint id t _ _ sig _ _ _ _ _) in *.
  assert (forall items a, lastAggregateCheckpoint items t = Some a -> ag_CheckpointRefs a = r :: refs ->
    aggregateProblem t a (sn_Checkpoints data) = None -> let d := set_sn_AggregateCheckpoints data (trimAggregateCheckpoints items t (retentionCap cap)).1 in
    sn_Checkpoints d = sn_Checkpoints data /\
    (exists a, lastAggregateCheckpoint (sn_AggregateCheckpoints d) t = Some a /\ ag_CheckpointRefs a = r :: refs /\
      verifyAggregateCheckpoint t a (sn_Checkpoints d) = (true, "")) /\
    Z.of_nat (length (List.filter (ofTenant t) (sn_AggregateCheckpoints d))) <= retentionCap cap) as Hdone.
  { intros items a Hlast Hr Hprob. cbn [sn_AggregateCheckpoints sn_Checkpoints set_sn_AggregateCheckpoints].
    split; [done|]. split.
    - exists a. rewrite trim_last by done. split_and!; [done|done|]. unfold verifyAggregateCheckpoint. by rewrite Hprob.
    - rewrite trim_own, length_drop by lia. lia. }
  destruct (match lastAggregateCheckpoint _ _ with Some _ => _ | None => _ end) eqn:Esame in H.
  - destruct (lastAggregateCheckpoint (sn_AggregateCheckpoints data) t) as [a|] eqn:Elast; [|done].
    specialize (Hdone _ a Elast). destruct (trimAggregateCheckpoints _ _ _) as [out ch]. injection H as <- <-.
    apply Hdone; [|by eapply aggregateProblem_same].
    unfold sameAggregateAttestation in Esame. by bool_prop.
  - specialize (Hdone (sn_AggregateCheckpoints data ++ [signed])%list signed).
    destruct (trimAggregateCheckpoints _ _ _) as [out ch]. injection H as <- <-.
    apply Hdone; [apply last_snoc_own; by apply bool_decide_eq_true_2|done|done].
Qed.

End created.

Definition sample_checkpoint (id sid : string) (n : Z) : Checkpoint :=
  mkCheckpoint id "t" sid n (Sha256.HashBytes id) "sig" "alg" 0.
Definition sample_checkpoints : Snapshot :=
  set_sn_Checkpoints NewSnapshot {[StreamKey "t" "s1" := [sample_checkpoint "c1" "s1" 1; sample_checkpoint "c2" "s1" 4];
                                   StreamKey "t" "s2" := [sample_checkpoint "c3" "s2" 2]]}.
Definition sample_refs : list CheckpointRef :=
  [mkCheckpointRef "s1" "c2" 4 (Sha256.HashBytes "c2"); mkCheckpointRef "s2" "c3" 2 (Sha256.HashBytes "c3")].

Lemma sample_created : exists data' saved,
  createAggregate (signer := hmacSigner "k") "t" "agg" 5 10 sample_checkpoints = Ok (data', saved).
Proof.
  assert (is_ok (createAggregate (signer := hmacSigner "k") "t" "agg" 5 10 sample_checkpoints) = true) as H
    by (vm_compute; reflexivity).
  destruct (createAggregate _ _ _ _ _) as [[d s]|]; [eauto|done].
Qed.

Lemma sample_unique : unique_ids (map_to_list (sn_Checkpoints sample_checkpoints)).
Proof. apply (bool_decide_unpack _). vm_compute. exact I. Qed.

Lemma sample_collected : aggregateCheckpointRefs (sn_Checkpoints sample_checkpoints) "t" = Ok sample_refs.
Proof. vm_compute. reflexivity. Qed.

Lemma created_aggregate_verifies_witness : exists data' a,
  lastAggregateCheckpoint (sn_AggregateCheckpoints data') "t" = Some a /\ ag_CheckpointRefs a = sample_refs /\
  verifyAggregateCheckpoint (signer := hmacSigner "k") "t" a (sn_Checkpoints data') = (true, "").
Proof.
  destruct sample_created as (data' & saved & H). exists data'.
  apply (created_aggregate_verifies (signer := hmacSigner "k") "t" "agg" 5 10 sample_checkpoints data' saved sample_refs
    sample_unique sample_collected); [discriminate|exact H].
Defined.

End AggregateProps.
