(* ===== verification/Evidence.v ===== *)
(** * The evidence chain: hashing, sealing and ingest

    (internal/service: ingest_validation.go, archive_fallback.go, service.go:
    the commit closure of Ingest, tenant_ingest.go: transitionReceipt,
    sealing.go)

    A committed event carries its stream, its sequence number, the hash of its
    predecessor and its own hash.  The commit path here is the closure over the
    whole snapshot; the tenant closures of the split store are in TenantIngest.

    Two collaborators are interfaces: [FieldCrypto] (internal/security, which
    rests on AES-GCM with a random nonce) and [ArchiveReader] (the WORM store
    with JSON decoding of its object).  [CloneEvent] of an acyclic value is the
    value itself.  The digest of the frozen float64 encoder
    (legacy_canonical.go) is the argument [legacyDigest]. *)

From Stdlib Require Import Ascii String.
From S2P Require Import Prelude GoStr Sha256 Merkle Signer KeyCodec Domain Canonical Keys Ledger Store SplitStore.
Open Scope string_scope.
Open Scope Z_scope.
Import Domain Canonical Keys Ledger Store SplitStore Sha256 Merkle Signer.

Module Evidence.

(** ** Interfaces *)

Class FieldCrypto : Type := {
  EncryptJSON : value -> string -> result string;
  DecryptJSON : string -> string -> result value;
  SearchDigestBound : value -> string -> string -> result string
}.

(** [Archive.Get] followed by the UseNumber decoding of the object. *)
Class ArchiveReader : Type := archiveGet : string -> result Event.

Definition SearchDigestSuffix : string := "__search_digest".

(** ** Hashes *)

Definition eventHash (e : Event) : result string :=
  let? digest := EventDigest e in
  let? data := CanonicalJSON (VMap (Some {["digest" := VString digest; "prev_hash" := VString (ev_PrevHash e);
                                           "sequence" := VInt (ev_Sequence e); "stream_id" := VString (ev_StreamID e)]})) in
  Ok (HashBytes data).

Definition manifestText (tenantID : string) (first last : Z) (head root : string) : string :=
  tenantID ++ ":" ++ Itoa first ++ ":" ++ Itoa last ++ ":" ++ head ++ ":" ++ root.

(** ** Access *)

Definition sourceAccessError : error :=
  Wrapf (Sentinel ErrForbidden) "source_system is not allowed for authenticated client".

Definition sourceAccessAllowed (data : Snapshot) (tenantID sourceID clientID : string) : bool :=
  match sn_Sources data !! SourceKey tenantID sourceID with
  | Some source => so_Active source && AllowsClient source clientID
  | None => false
  end.

(** The sweep over all sources: the tenants that accept the client must be one
    and the same (Go's map order cannot change the outcome). *)
Fixpoint sweepSources (sources : list SourceSystem) (clientID sourceID resolved : string) : option string :=
  match sources with
  | [] => Some resolved
  | s :: sources =>
      if negb (so_Active s) || negb (bool_decide (so_ID s = sourceID)) || negb (AllowsClient s clientID)
      then sweepSources sources clientID sourceID resolved
      else if negb (bool_decide (resolved = "")) && negb (bool_decide (resolved = so_TenantID s)) then None
      else sweepSources sources clientID sourceID (so_TenantID s)
  end.

Definition resolveIngestTenantFromData (data : Snapshot) (tenantHint clientID sourceID : string) : result string :=
  if negb (bool_decide (tenantHint = "")) then
    if sourceAccessAllowed data tenantHint sourceID clientID then Ok tenantHint else Err sourceAccessError
  else
    match sweepSources (map_to_list (sn_Sources data)).*2 clientID sourceID "" with
    | Some resolved => if bool_decide (resolved = "") then Err sourceAccessError else Ok resolved
    | None => Err sourceAccessError
    end.

Definition conflictReceipt (tenantID : string) (e : Event) : EventReceipt :=
  mkEventReceipt (ev_EventID e) tenantID (ev_IdempotencyKey e) "" 0 0 0 0 "" 0 "" false true
    "idempotency_key_conflict" "idempotency_key is already associated with another event".

Definition receiptFromEvent (e : Event) : EventReceipt :=
  mkEventReceipt (ev_EventID e) (ev_TenantID e) (ev_IdempotencyKey e) StatusLedgered (ev_ReceivedAt e)
    (ev_ReceivedAt e) 0 0 (ev_StreamID e) (ev_Sequence e) (ev_Hash e) false false "" "".

Section service.
Context {signer : Signer} {crypto : FieldCrypto} {archive : ArchiveReader}.

(** ** Content verification *)

(** Undo protectSensitiveFields on a copy: drop the search digests, decrypt
    the encrypted fields (a field that is not a string is left). *)
Definition dropDigests (fields : list string) (payload : gmap string value) : gmap string value :=
  foldl (fun p field => delete (field ++ SearchDigestSuffix) p) payload fields.

Fixpoint decryptFields (tenantID eventID : string) (fields : list string) (payload : gmap string value)
    : result (gmap string value) :=
  match fields with
  | [] => Ok payload
  | field :: fields =>
      match payload !! field with
      | Some (VString encoded) =>
          match DecryptJSON encoded (tenantID ++ "/" ++ field ++ "/" ++ eventID) with
          | Err e => Err (Wrapf e ("cannot decrypt field " ++ field))
          | Ok original => decryptFields tenantID eventID fields (<[field := original]> payload)
          end
      | _ => decryptFields tenantID eventID fields payload
      end
  end.

Definition reconstructEventForDigest (e : Event) (schemas : gmap string EventSchema) : result Event :=
  match schemas !! SchemaKey (ev_TenantID e) (ev_SchemaID e) (ev_SchemaVersion e) with
  | None => Err (NewErr "schema not found")
  | Some schema =>
      match ev_Payload e with
      | None => Ok e
      | Some payload =>
          let? restored := decryptFields (ev_TenantID e) (ev_EventID e) (sc_EncryptedFields schema)
                             (dropDigests (sc_SearchableFields schema) payload) in
          Ok (set_ev_Payload e (Some restored))
      end
  end.

Definition reconstructAndDerive (e : Event) (schemas : gmap string EventSchema) : result string :=
  let? reconstructed := reconstructEventForDigest e schemas in EventContentDigest reconstructed.

(** The encoding that matches the stored digest: current, legacy or none. *)
Inductive DigestEncoding : Type := DigestEncodingNone | DigestEncodingLossless | DigestEncodingLegacy.

Definition MatchEventContentDigest (legacyDigest : Event -> result string) (e : Event) (expected : string)
    : result DigestEncoding :=
  let? current := EventContentDigest e in
  if bool_decide (current = expected) then Ok DigestEncodingLossless
  else
    let? legacy := legacyDigest e in
    Ok (if bool_decide (legacy = expected) then DigestEncodingLegacy else DigestEncodingNone).

(** [strings.HasSuffix]. *)
Definition hasSuffix (s suffix : string) : bool :=
  let n := (String.length s - String.length suffix)%nat in
  bool_decide (substring n (String.length suffix) s = suffix) && (String.length suffix <=? String.length s)%nat.

Definition firstReservedSearchDigestKey (payload : option (gmap string value)) : option string :=
  head (sort_strings (List.filter (fun key => hasSuffix key SearchDigestSuffix) (map_to_list (default ∅ payload)).*1)).

(** The diagnostics of verifyContentDigest, one constructor per message. *)
Inductive contentProblem : Type :=
  | MissingSourceDigest
  | ContentCheckFailed (e : error)
  | ReservedNamespaceKey (key : string)
  | ContentDigestMismatch.

Definition verifyContentDigest (legacyDigest : Event -> result string) (e : Event) (schemas : gmap string EventSchema)
    : option contentProblem :=
  if bool_decide (ev_SourceDigest e = "") then Some MissingSourceDigest
  else
    match reconstructEventForDigest e schemas with
    | Err err => Some (ContentCheckFailed err)
    | Ok reconstructed =>
        match MatchEventContentDigest legacyDigest reconstructed (ev_SourceDigest e) with
        | Err err => Some (ContentCheckFailed err)
        | Ok DigestEncodingNone =>
            match firstReservedSearchDigestKey (ev_Payload e) with
            | Some key => Some (ReservedNamespaceKey key)
            | None => Some ContentDigestMismatch
            end
        | Ok _ => None
        end
    end.

(** ** Archived bodies *)

(** "%020d". *)
Definition pad20 (z : Z) : string :=
  let digits := Itoa (Z.abs z) in
  let sign := if z <? 0 then "-" else "" in
  sign ++ string_of_list_ascii (repeat "0"%char (20 - String.length digits - String.length sign)) ++ digits.

Definition eventArchiveKey (tenantID streamID : string) (sequence : Z) (eventID : string) : string :=
  "events/" ++ KeyCodec.EncodeKeyComponent tenantID ++ "/" ++ KeyCodec.EncodeKeyComponent streamID ++ "/" ++
  pad20 sequence ++ "-" ++ KeyCodec.EncodeKeyComponent eventID ++ ".json".

Definition archiveError (receipt : EventReceipt) (msg : string) : error :=
  NewErr ("archived event " ++ rc_EventID receipt ++ ": " ++ msg).

Definition archivedEventContext (receipt : EventReceipt) : result Event :=
  match archiveGet (eventArchiveKey (rc_TenantID receipt) (rc_StreamID receipt) (rc_Sequence receipt) (rc_EventID receipt)) with
  | Err e => Err (Wrapf e ("archived event " ++ rc_EventID receipt))
  | Ok e =>
      if negb (bool_decide (ev_EventID e = rc_EventID receipt)) || negb (bool_decide (ev_TenantID e = rc_TenantID receipt))
         || negb (bool_decide (ev_StreamID e = rc_StreamID receipt)) || negb (ev_Sequence e =? rc_Sequence receipt)
      then Err (archiveError receipt "identity mismatch")
      else
        match eventHash e with
        | Err err => Err (Wrapf err ("archived event " ++ rc_EventID receipt ++ ": hash derivation"))
        | Ok hash =>
            if bool_decide (rc_Hash receipt = "") || negb (bool_decide (hash = rc_Hash receipt))
            then Err (archiveError receipt "hash does not match retained receipt")
            else Ok e
        end
  end.

(** ** Streams and segments *)

Definition sealSegment (s : StreamState) (now : time) (checkpointID : string) : result (Segment * Checkpoint) :=
  let hashes := ss_PendingHashes s in
  let root := merkleRoot hashes in
  let first := ss_NextSequence s - Z.of_nat (length hashes) in
  let last := ss_NextSequence s - 1 in
  let manifestHash := HashBytes (manifestText (ss_TenantID s) first last (ss_HeadHash s) root) in
  match Sign manifestHash with
  | Err e => Err (Wrapf e "sign segment")
  | Ok signature =>
      Ok (mkSegment (ss_TenantID s) (ss_StreamID s) first last (ss_PendingPrevHash s) (ss_HeadHash s)
            (Z.of_nat (length hashes)) root manifestHash signature now,
          mkCheckpoint checkpointID (ss_TenantID s) (ss_StreamID s) last root signature Algorithm now)
  end.

Definition clearPendingHashes (s : StreamState) : StreamState :=
  mkStreamState (ss_TenantID s) (ss_StreamID s) (ss_NextSequence s) (ss_HeadHash s) "" [] [].

(** [if stream.StreamID == "" { stream = StreamState{...} }] *)
Definition openStream (streams : gmap string StreamState) (tenantID streamID : string) : StreamState :=
  let s := map_get (mkStreamState "" "" 0 "" "" [] []) streams (StreamKey tenantID streamID) in
  if bool_decide (ss_StreamID s = "") then mkStreamState tenantID streamID 1 "" "" [] [] else s.

(** The coordinates a commit assigns and the advanced stream. *)
Definition chainEvent (e : Event) (streamID key : string) (s : StreamState) : result (Event * StreamState) :=
  let e := set_ev_PrevHash (set_ev_Sequence (set_ev_StreamID e streamID) (ss_NextSequence s)) (ss_HeadHash s) in
  let? hash := eventHash e in
  let hashes := (ss_PendingHashes s ++ [hash])%list in
  Ok (set_ev_Hash e hash,
      mkStreamState (ss_TenantID s) (ss_StreamID s) (ss_NextSequence s + 1) hash
        (if (length hashes =? 1)%nat then ev_PrevHash e else ss_PendingPrevHash s)
        hashes (ss_PendingEvents s ++ [key])%list).

(** ** The commit closure over the snapshot (service.go: Ingest) *)

Definition idempotencyKeyReused (data : Snapshot) (tenantID eventKey idempotencyKey : string) : bool :=
  existsb (fun kv => negb (bool_decide (kv.1 = eventKey)) && bool_decide (ev_TenantID kv.2 = tenantID)
                     && bool_decide (ev_IdempotencyKey kv.2 = idempotencyKey)) (map_to_list (sn_Events data))
  || existsb (fun kv => negb (bool_decide (kv.1 = eventKey)) && bool_decide (rc_TenantID kv.2 = tenantID)
                        && negb (bool_decide (rc_IdempotencyKey kv.2 = ""))
                        && bool_decide (rc_IdempotencyKey kv.2 = idempotencyKey)) (map_to_list (sn_Receipts data)).

Definition contentConflict (r : EventReceipt) : EventReceipt :=
  set_rc_ErrorMessage (set_rc_ErrorCode (set_rc_Conflict r true) "event_id_content_conflict")
    "event_id already exists with different canonical content".
Definition contentDiffers : error := Wrapf (Sentinel ErrConflict) "event_id content differs".

(** [None] lets the caller allocate a sequence; otherwise the receipt to
    return, its error, and the snapshot (a conflict is written to it). *)
Definition checkExistingIngest (data : Snapshot) (tenantID eventID inputDigest : string)
    : option (EventReceipt * result Snapshot) :=
  let key := EventKey tenantID eventID in
  let existing :=
    match sn_Events data !! key with
    | Some e => Some (Ok e)
    | None =>
        match sn_Receipts data !! key with
        | Some stored => if bool_decide (rc_Status stored = StatusArchived) then Some (archivedEventContext stored) else None
        | None => None
        end
    end in
  match existing with
  | None => None
  | Some (Err e) => Some (zero_EventReceipt, Err e)
  | Some (Ok e) =>
      match reconstructAndDerive e (sn_Schemas data) with
      | Err err => Some (zero_EventReceipt, Err err)
      | Ok digest =>
          let receipt := map_get zero_EventReceipt (sn_Receipts data) key in
          if bool_decide (digest = inputDigest) then Some (set_rc_Duplicate receipt true, Ok data)
          else Some (contentConflict receipt, Err contentDiffers)
      end
  end.

Record ingestOutcome : Type := mkIngestOutcome {
  io_receipt : EventReceipt;
  io_event : Event;
  io_sealed : list Segment;
  io_data : result Snapshot
}.

Definition failed (r : EventReceipt) (e : Event) (err : error) : ingestOutcome := mkIngestOutcome r e [] (Err err).

(** The receipt of a committed event: [StatusLedgered] with its coordinates. *)
Definition ledgeredReceipt (tenantID : string) (e : Event) : EventReceipt :=
  mkEventReceipt (ev_EventID e) tenantID (ev_IdempotencyKey e) StatusLedgered (ev_ReceivedAt e) (ev_ReceivedAt e) 0 0
    (ev_StreamID e) (ev_Sequence e) (ev_Hash e) false false "" "".

(** A sealed segment enters the snapshot and its stream starts afresh. *)
Definition closeSegment (data : Snapshot) (key : string) (stream : StreamState) (segment : Segment) (checkpoint : Checkpoint)
    : Snapshot :=
  let data := set_sn_Segments data (<[key := map_get [] (sn_Segments data) key ++ [segment]]> (sn_Segments data))%list in
  let data := set_sn_Checkpoints data (<[key := map_get [] (sn_Checkpoints data) key ++ [checkpoint]]> (sn_Checkpoints data))%list in
  set_sn_Streams data (<[key := clearPendingHashes stream]> (sn_Streams data)).

(** Everything after the event is admitted: coordinates, stream, event,
    publication intent, receipt, and the segment when the stream is full. *)
Definition commitEvent (segmentSize : Z) (publish : bool) (tenantID checkpointID : string) (event : Event) (data : Snapshot)
    : ingestOutcome :=
  let key := EventKey tenantID (ev_EventID event) in
  let streamID := Stream event in
  let streamKey := StreamKey tenantID streamID in
  match chainEvent event streamID key (openStream (sn_Streams data) tenantID streamID) with
  | Err err => failed (ledgeredReceipt tenantID event) event err
  | Ok (event, stream) =>
      let receipt := ledgeredReceipt tenantID event in
      let data := set_sn_Streams data (<[streamKey := stream]> (sn_Streams data)) in
      let data := set_sn_Events data (<[key := event]> (sn_Events data)) in
      let data := if publish then set_sn_LedgeredOutbox data (<[key := event]> (sn_LedgeredOutbox data)) else data in
      let data := set_sn_Receipts data (<[key := receipt]> (sn_Receipts data)) in
      if Z.of_nat (length (ss_PendingHashes stream)) <? segmentSize then mkIngestOutcome receipt event [] (Ok data)
      else
        match sealSegment stream (ev_ReceivedAt event) checkpointID with
        | Err err => failed receipt event err
        | Ok (segment, checkpoint) =>
            mkIngestOutcome receipt event [segment] (Ok (closeSegment data streamKey stream segment checkpoint))
        end
  end.

Definition ingestClosure (segmentSize : Z) (publish : bool) (tenantHint clientID tenantID checkpointID : string)
    (event : Event) (inputDigest : string) (data : Snapshot) : ingestOutcome :=
  match resolveIngestTenantFromData data tenantHint clientID (ev_SourceSystem event) with
  | Err _ => failed zero_EventReceipt event sourceAccessError
  | Ok commitTenant =>
      if negb (bool_decide (commitTenant = tenantID)) then failed zero_EventReceipt event sourceAccessError
      else
        match checkExistingIngest data tenantID (ev_EventID event) inputDigest with
        | Some (receipt, r) => mkIngestOutcome receipt event [] r
        | None =>
            if idempotencyKeyReused data tenantID (EventKey tenantID (ev_EventID event)) (ev_IdempotencyKey event)
            then failed (conflictReceipt tenantID event) event
                   (Wrapf (Sentinel ErrConflict) "idempotency_key is already associated with another event")
            else commitEvent segmentSize publish tenantID checkpointID event data
        end
  end.

(** ** Receipt transitions (tenant_ingest.go: transitionReceipt) *)

Definition transitionClosure (tenantID eventID status : string) (evict : bool) (now : time) (data : Snapshot)
    : result (EventReceipt * Snapshot) :=
  let key := EventKey tenantID eventID in
  match sn_Receipts data !! key with
  | None => Err (Sentinel ErrNotFound)
  | Some receipt =>
      let receipt := set_rc_IndexedAt (set_rc_Status receipt status) now in
      let receipt := if evict then set_rc_ArchivedAt receipt now else receipt in
      let data := if evict then set_sn_Events data (delete key (sn_Events data)) else data in
      Ok (receipt, set_sn_Receipts data (<[key := receipt]> (sn_Receipts data)))
  end.

(** ** The commit of an archive pass (sealing.go: ArchivePending) *)

Definition segmentIDPrefix : string := "seg" ++ KeySeparator.
Definition isSegmentDeadLetter (dead : DeadLetter) : bool := String.prefix segmentIDPrefix (dl_EventID dead).

(** Archived receipts of a snapshot that still holds the body: evict it. *)
Definition evictArchived (data : Snapshot) (key : string) : Snapshot :=
  match sn_Receipts data !! key with
  | Some receipt =>
      if bool_decide (rc_Status receipt = StatusArchived) then set_sn_Events data (delete key (sn_Events data)) else data
  | None => data
  end.

(** One archived event: the receipt becomes archived, the body goes. *)
Definition markArchived (tenantID : string) (now : time) (acc : result Snapshot) (event : Event) : result Snapshot :=
  let? data := acc in
  let key := EventKey tenantID (ev_EventID event) in
  match sn_Receipts data !! key with
  | None => Err (Sentinel ErrNotFound)
  | Some receipt =>
      let receipt := set_rc_ArchivedAt (set_rc_IndexedAt (set_rc_Status receipt StatusArchived) now) now in
      let data := set_sn_Receipts data (<[key := receipt]> (sn_Receipts data)) in
      Ok (set_sn_Events data (delete key (sn_Events data)))
  end.

Definition markDeadLetter (acc : result Snapshot) (entry : string * DeadLetter) : result Snapshot :=
  let? data := acc in
  let '(key, dead) := entry in
  let data := set_sn_DeadLetters data (<[key := dead]> (sn_DeadLetters data)) in
  match sn_Receipts data !! key with
  | None => if isSegmentDeadLetter dead then Ok data else Err (Sentinel ErrNotFound)
  | Some receipt =>
      let receipt := set_rc_ErrorMessage (set_rc_ErrorCode receipt "archive_dead_letter") (dl_ErrorMessage dead) in
      Ok (set_sn_Receipts data (<[key := receipt]> (sn_Receipts data)))
  end.

Definition archiveClosure (tenantID : string) (now : time) (evictedKeys : list string) (archivedEvents : list Event)
    (deadLetters : gmap string DeadLetter) (data : Snapshot) : result Snapshot :=
  let data := fold_left evictArchived evictedKeys data in
  let? data := fold_left (markArchived tenantID now) archivedEvents (Ok data) in
  let? data := fold_left markDeadLetter (map_to_list deadLetters) (Ok data) in
  Ok (set_sn_ArchiveConflictFailures data (<[tenantID := 0]> (sn_ArchiveConflictFailures data))).

(** ** Sealing partial streams (sealing.go: SealPendingSegments) *)

(** One stream of the pass. *)
Definition sealStream (tenantID : string) (now : time) (newID : string -> string) (acc : result (Snapshot * bool))
    (entry : string * StreamState) : result (Snapshot * bool) :=
  let? a := acc in
  let '(data, mutated) := a in
  let '(key, stream) := entry in
  if negb (bool_decide (ss_TenantID stream = tenantID)) || bool_decide (ss_PendingHashes stream = []) then Ok (data, mutated)
  else
    let? sealed := sealSegment stream now (newID key) in
    Ok (closeSegment data key stream sealed.1 sealed.2, true).

(** The UpdateChecked closure. [newID] is the source of checkpoint IDs. *)
Definition sealPendingSegments (tenantID : string) (now : time) (newID : string -> string) (data : Snapshot)
    : result (Snapshot * bool) :=
  fold_left (sealStream tenantID now newID) (map_to_list (sn_Streams data)) (Ok (data, false)).

End service.

End Evidence.
