(* ===== verification/Integrity.v ===== *)
(** * VerifyIntegrity (internal/service/integrity.go)

    The verdict over one snapshot: aggregate attestations, the hash chain and
    content digest of every event stream by stream, and every sealed segment.
    A diagnostic is a value with the coordinates its message prints.  Go ranges
    over maps to collect the evidence; what is collected is sorted before it is
    checked, so [map_to_list] order stands for any order. *)

From Stdlib Require Import Ascii String Sorted.
From S2P Require Import Prelude GoStr Sha256 Merkle Signer Domain Canonical Keys Store Aggregate Evidence.
Open Scope string_scope.
Open Scope Z_scope.
Import Domain Canonical Keys Store Sha256 Merkle Signer Aggregate Evidence.

Module Integrity.

Definition maxVerifyStreamIDLength : Z := 256.

Inductive diagnostic : Type :=
  | AggregateInvalid (text : string)
  | PrevHashMismatch (stream : string) (sequence : Z)
  | HashMismatch (stream : string) (sequence : Z)
  | ContentInvalid (stream : string) (sequence : Z) (problem : contentProblem)
  | SegmentMismatch (stream : string) (first last : Z)
  | SegmentInterrupted (stream : string) (first last : Z)
  | SignatureMismatch (stream : string) (first last : Z)
  | Interrupted.

Record IntegrityResult : Type := mkIntegrityResult {
  ir_Valid : bool;
  ir_TenantID : string;
  ir_StreamID : string;
  ir_EventCount : Z;
  ir_SegmentCount : Z;
  ir_CheckedAt : time;
  ir_Errors : list diagnostic
}.

Definition requireTenantScope (tenantID : string) : result unit :=
  if bool_decide (tenantID = "") then Err (invalid "tenant_id is required") else ValidTenantID tenantID.

Definition verificationInterrupted (e : error) : bool :=
  if errors_Is e ErrOperationDeadline then false else isInterrupted e.

Section service.
Context {signer : Signer} {crypto : FieldCrypto} {archive : ArchiveReader}.
Variable legacyDigest : Event -> result string.

(** ** Collecting the events (archive_fallback.go: resolveSnapshotEvents) *)

(** The hot bodies: of a split snapshot only those with a committed receipt. *)
Fixpoint hotEvents (data : Snapshot) (tenantID : string) (predicate : Event -> bool) (checkCoordinates : bool)
    (entries : list (string * Event)) : result (list Event) :=
  match entries with
  | [] => Ok []
  | (key, e) :: entries =>
      let next := hotEvents data tenantID predicate checkCoordinates entries in
      let keep := let? l := next in Ok (if predicate e then e :: l else l) in
      if negb (bool_decide (tenantID = "")) && negb (bool_decide (ev_TenantID e = tenantID)) then next
      else if 2 <=? sn_LayoutVersion data then
        match sn_Receipts data !! key with
        | None => next
        | Some r =>
            if checkCoordinates &&
               (negb (bool_decide (rc_TenantID r = ev_TenantID e)) || negb (bool_decide (rc_EventID r = ev_EventID e))
                || negb (bool_decide (rc_StreamID r = ev_StreamID e)) || negb (rc_Sequence r =? ev_Sequence e)
                || negb (bool_decide (rc_Hash r = ev_Hash e)))
            then Err (Sentinel ErrConflict)
            else keep
        end
      else keep
  end.

Definition archivedKeys (data : Snapshot) (tenantID : string) : list string :=
  sort_strings (List.filter (fun key =>
    match sn_Receipts data !! key with
    | Some r => (bool_decide (tenantID = "") || bool_decide (rc_TenantID r = tenantID))
                && bool_decide (rc_Status r = StatusArchived) && bool_decide (sn_Events data !! key = None)
    | None => false
    end) (map_to_list (sn_Receipts data)).*1).

Fixpoint archivedEvents (data : Snapshot) (predicate : Event -> bool) (keys : list string) : result (list Event) :=
  match keys with
  | [] => Ok []
  | key :: keys =>
      let? e := archivedEventContext (map_get zero_EventReceipt (sn_Receipts data) key) in
      let? l := archivedEvents data predicate keys in
      Ok (if predicate e then e :: l else l)
  end.

Definition resolveSnapshotEvents (data : Snapshot) (tenantID : string) (predicate : Event -> bool) (checkCoordinates : bool)
    : result (list Event) :=
  let? hot := hotEvents data tenantID predicate checkCoordinates (map_to_list (sn_Events data)) in
  let? archived := archivedEvents data predicate (archivedKeys data tenantID) in
  Ok (hot ++ archived)%list.

(** ** Streams *)

Definition event_leb : Event -> Event -> bool :=
  lexb ev_Sequence Z.leb (fun a b => str_leb (ev_EventID a) (ev_EventID b)).

Definition streamEvents (events : list Event) (sid : string) : list Event :=
  stable_sort event_leb (filter (fun e => ev_StreamID e = sid) events).

Definition streamKeys (events : list Event) : list string := sort_strings (remove_dups (map ev_StreamID events)).

(** One event against the head hash before it. *)
Definition eventProblems (schemas : gmap string EventSchema) (sid head : string) (e : Event) : list diagnostic :=
  ((if bool_decide (ev_PrevHash e = head) then [] else [PrevHashMismatch sid (ev_Sequence e)]) ++
  (match eventHash e with
   | Ok expected => if bool_decide (expected = ev_Hash e) then [] else [HashMismatch sid (ev_Sequence e)]
   | Err _ => [HashMismatch sid (ev_Sequence e)]
   end) ++
  (match verifyContentDigest legacyDigest e schemas with
   | Some problem => [ContentInvalid (ev_StreamID e) (ev_Sequence e) problem]
   | None => []
   end))%list.

Fixpoint chainProblems (schemas : gmap string EventSchema) (sid head : string) (events : list Event) : list diagnostic :=
  match events with
  | [] => []
  | e :: events => (eventProblems schemas sid head e ++ chainProblems schemas sid (ev_Hash e) events)%list
  end.

(** ** Segments *)

(** The last match of a scan that overwrites a variable. *)
Definition lastOf (p : Event -> bool) (f : Event -> string) (events : list Event) : string :=
  fold_left (fun acc e => if p e then f e else acc) events "".

Definition segmentProblems (events : list Event) (sg : Segment) : list diagnostic :=
  let stream := streamEvents events (sg_StreamID sg) in
  let inside := filter (fun e => ev_StreamID e = sg_StreamID sg /\ sg_FirstSequence sg <= ev_Sequence e <= sg_LastSequence sg) stream in
  let hashes := map ev_Hash inside in
  let firstPrevHash := lastOf (fun e => ev_Sequence e =? sg_FirstSequence sg) ev_PrevHash stream in
  let lastHash := lastOf (fun e => ev_Sequence e =? sg_LastSequence sg) ev_Hash stream in
  let contiguous := (sg_FirstSequence sg <=? sg_LastSequence sg) && (sg_EventCount sg =? sg_LastSequence sg - sg_FirstSequence sg + 1) in
  ((if bool_decide (merkleRoot hashes = sg_MerkleRoot sg) && (Z.of_nat (length hashes) =? sg_EventCount sg)
      && bool_decide (firstPrevHash = sg_FirstPrevHash sg) && bool_decide (lastHash = sg_LastHash sg) && contiguous
   then [] else [SegmentMismatch (sg_StreamID sg) (sg_FirstSequence sg) (sg_LastSequence sg)]) ++
  let manifestHash := HashBytes (manifestText (sg_TenantID sg) (sg_FirstSequence sg) (sg_LastSequence sg) (sg_LastHash sg) (sg_MerkleRoot sg)) in
  match Verify manifestHash (sg_Signature sg) with
  | Ok valid =>
      if bool_decide (manifestHash = sg_ManifestHash sg) && valid then []
      else [SignatureMismatch (sg_StreamID sg) (sg_FirstSequence sg) (sg_LastSequence sg)]
  | Err e =>
      [if isInterrupted e then SegmentInterrupted (sg_StreamID sg) (sg_FirstSequence sg) (sg_LastSequence sg)
       else SignatureMismatch (sg_StreamID sg) (sg_FirstSequence sg) (sg_LastSequence sg)]
  end)%list.

(** ** The verdict *)

Definition tenantSegments (data : Snapshot) (tenantID streamID : string) : list Segment :=
  flat_map (fun kv =>
    match SplitTenantKey kv.1 with
    | Some (tid, sid) =>
        if negb (bool_decide (tid = tenantID)) || (negb (bool_decide (streamID = "")) && negb (bool_decide (sid = streamID)))
        then [] else kv.2
    | None => []
    end) (map_to_list (sn_Segments data)).

Definition tenantAggregates (data : Snapshot) (tenantID : string) : list AggregateCheckpoint :=
  List.filter (fun a => bool_decide (ag_TenantID a = tenantID) || aggregateReferencesTenant (sn_Checkpoints data) tenantID a)
    (sn_AggregateCheckpoints data).

Definition aggregateProblems (data : Snapshot) (tenantID : string) : list diagnostic :=
  flat_map (fun a =>
    let '(valid, text) := verifyAggregateCheckpoint tenantID a (sn_Checkpoints data) in
    if valid then [] else [AggregateInvalid text]) (tenantAggregates data tenantID).

Definition evidenceProblems (data : Snapshot) (tenantID streamID : string) (events : list Event) : list diagnostic :=
  (aggregateProblems data tenantID ++
   flat_map (fun sid => chainProblems (sn_Schemas data) sid "" (streamEvents events sid)) (streamKeys events) ++
   flat_map (segmentProblems events) (tenantSegments data tenantID streamID))%list.

(** [data] is what Store.Read delivered, [auditErr] the outcome of recording
    the read in the admin trail. *)
Definition VerifyIntegrity (data : result Snapshot) (auditErr : option error) (now : time) (tenantID streamID : string)
    : IntegrityResult * option error :=
  let result := mkIntegrityResult true tenantID streamID 0 0 now [] in
  let interrupted n m ds := (mkIntegrityResult false tenantID streamID n m now (ds ++ [Interrupted])%list, None) in
  match requireTenantScope tenantID with
  | Err e => (mkIntegrityResult false "" "" 0 0 0 [], Some e)
  | Ok _ =>
      match (if bool_decide (streamID = "") then Ok tt
             else ValidKeyComponent streamID ;?
                  guard_err (Zlen streamID <=? maxVerifyStreamIDLength) (invalid "stream_id exceeds 256 bytes")) with
      | Err e => (result, Some e)
      | Ok _ =>
          match (let? d := data in
                 let? events := resolveSnapshotEvents d tenantID
                   (fun e => bool_decide (streamID = "") || bool_decide (ev_StreamID e = streamID)) false in Ok (d, events)) with
          | Err e => if verificationInterrupted e then interrupted 0 0 [] else (result, Some e)
          | Ok (d, events) =>
              let segments := tenantSegments d tenantID streamID in
              let problems := evidenceProblems d tenantID streamID events in
              let n := Z.of_nat (length events) in
              let m := Z.of_nat (length segments) in
              match auditErr with
              | Some e => if verificationInterrupted e then interrupted n m problems
                          else (mkIntegrityResult (bool_decide (length problems = 0)%nat) tenantID streamID n m now problems, Some e)
              | None => (mkIntegrityResult (bool_decide (length problems = 0)%nat) tenantID streamID n m now problems, None)
              end
          end
      end
  end.

End service.

End Integrity.
