(* ===== verification/ChainProps.v ===== *)
(** * What the hash chain binds

    An event's hash covers its digest, its predecessor's hash, its sequence and
    its stream; so the head hash of a verified stream binds every event of the
    stream, up to a SHA-256 collision that [chainCollision] computes. *)

From Stdlib Require Import Ascii String.
From S2P Require Import Prelude GoStr Sha256 Merkle Signer Json Number Domain Canonical CanonicalProps DigestProps Keys Store Aggregate Evidence Integrity.
Open Scope string_scope.
Open Scope Z_scope.
Import Domain Canonical CanonicalProps DigestProps Keys Store Sha256 Merkle Signer Aggregate Evidence Integrity.

Module ChainProps.

(** The bytes an event hash is taken over. *)
Definition hashValue (digest prev : string) (seq : Z) (sid : string) : value :=
  VMap (Some {["digest" := VString digest; "prev_hash" := VString prev; "sequence" := VInt seq; "stream_id" := VString sid]}).
Definition hashText (e : Event) : string :=
  match (let? d := EventDigest e in CanonicalJSON (hashValue d (ev_PrevHash e) (ev_Sequence e) (ev_StreamID e))) with
  | Ok text => text | Err _ => "" end.

Lemma eventHash_text e h : eventHash e = Ok h -> h = HashBytes (hashText e).
Proof.
  unfold eventHash, hashText, hashValue. intros H. apply result_bind_Ok in H as (d & -> & H). cbn [result_bind].
  apply result_bind_Ok in H as (x & -> & H). by injection H.
Qed.

Lemma eventHash_canonical e h : eventHash e = Ok h -> ev_SourceDigest e <> "" ->
  CanonicalJSON (hashValue (ev_SourceDigest e) (ev_PrevHash e) (ev_Sequence e) (ev_StreamID e)) = Ok (hashText e).
Proof.
  unfold eventHash, hashText, EventDigest. intros H Hd. rewrite bool_decide_eq_false_2 in H |- * by done.
  cbn [result_bind] in *. apply result_bind_Ok in H as (x & Hx & _). unfold hashValue. by rewrite Hx.
Qed.

Definition hashMembers (digest prev : string) (seq : Z) (sid : string) : list (string * jtree) :=
  [("digest", JStr digest); ("prev_hash", JStr prev); ("sequence", JNum (Number.decQ seq 0)); ("stream_id", JStr sid)].

Lemma hashValue_denote d p n s : denote (hashValue d p n s) = JObj (hashMembers d p n s).
Proof.
  unfold hashValue. rewrite denote_map_members. cbn [members].
  assert (stable_sort key_leb (map_to_list (<["digest" := VString d]> (<["prev_hash" := VString p]>
    (<["sequence" := VInt n]> {["stream_id" := VString s]}))) : list (string * value)) =
    [("digest", VString d); ("prev_hash", VString p); ("sequence", VInt n); ("stream_id", VString s)]) as E by reflexivity.
  rewrite E. reflexivity.
Qed.

Lemma hashValue_inj d p n s d' p' n' s' :
  denote (hashValue d p n s) = denote (hashValue d' p' n' s') -> d = d' /\ p = p' /\ n = n' /\ s = s'.
Proof.
  rewrite !hashValue_denote. unfold hashMembers. intros H.
  assert (forall i, nth i (hashMembers d p n s) ("", JNull) = nth i (hashMembers d' p' n' s') ("", JNull)) as Hn
    by (intros i; f_equal; exact (f_equal (fun t => match t with JObj l => l | _ => [] end) H)).
  pose proof (Hn 0%nat) as H0. pose proof (Hn 1%nat) as H1. pose proof (Hn 2%nat) as H2. pose proof (Hn 3%nat) as H3.
  cbn [nth hashMembers] in H0, H1, H2, H3. split_and!; try congruence.
  apply DigestProps.decQ_int_inj. exact (f_equal (fun kv => match kv.2 with JNum q => q | _ => Number.decQ 0 0 end) H2).
Qed.

Lemma utf8_hashValue d p n s :
  Json.valid_utf8 d = true -> Json.valid_utf8 p = true -> Json.valid_utf8 s = true -> utf8_ok (hashValue d p n s) = true.
Proof.
  intros Hd Hp Hs. unfold hashValue. cbn [utf8_ok]. rewrite map_fold_foldr.
  assert (forall l : list (string * value), (forall kv, kv ∈ l -> Json.valid_utf8 kv.1 && utf8_ok kv.2 = true) ->
    foldr (fun '(k, v) acc => Json.valid_utf8 k && utf8_ok v && acc) true l = true) as Hl.
  { intros l. induction l as [|[k v] l IH]; intros H; [done|]. cbn [foldr].
    pose proof (H (k, v) ltac:(left)) as Hkv. cbn [fst snd] in Hkv. rewrite Hkv. apply IH. intros kv Hin. apply H. by right. }
  match goal with |- foldr ?f ?b ?l = true => change (foldr (fun '(k, v) acc => Json.valid_utf8 k && utf8_ok v && acc) true l = true) end.
  apply Hl. intros [k v] Hin%elem_of_map_to_list.
  repeat (apply lookup_insert_Some in Hin as [[<- <-]|[_ Hin]]; [cbn [fst snd utf8_ok]; rewrite ?Hd, ?Hp, ?Hs; reflexivity|]).
  apply lookup_singleton_Some in Hin as [<- <-]. cbn [fst snd utf8_ok]. rewrite Hs. reflexivity.
Qed.

Local Opaque HashBytes hashText hashValue.

(** Agreement on everything a hash covers. *)
Definition same_link (e e' : Event) : Prop :=
  ev_SourceDigest e = ev_SourceDigest e' /\ ev_PrevHash e = ev_PrevHash e' /\
  ev_Sequence e = ev_Sequence e' /\ ev_StreamID e = ev_StreamID e' /\ ev_Hash e = ev_Hash e'.

Definition link_utf8 (e : Event) : bool :=
  Json.valid_utf8 (ev_SourceDigest e) && Json.valid_utf8 (ev_PrevHash e) && Json.valid_utf8 (ev_StreamID e).

(** One event of a verified chain. *)
Definition verified_event (head : string) (e : Event) : Prop :=
  ev_PrevHash e = head /\ eventHash e = Ok (ev_Hash e) /\ ev_SourceDigest e <> "".

(** Equal hashes: equal links from equal texts, or a collision. *)
Lemma eventHash_binds h h' e e' :
  verified_event h e -> verified_event h' e' -> link_utf8 e = true -> link_utf8 e' = true -> ev_Hash e = ev_Hash e' ->
  if decide (hashText e = hashText e') then same_link e e' else collision (hashText e) (hashText e').
Proof.
  intros (_ & H & Hd) (_ & H' & Hd') Hu Hu' Hh. unfold link_utf8 in Hu, Hu'. bool_prop.
  pose proof (eventHash_canonical _ _ H Hd) as Hc. pose proof (eventHash_canonical _ _ H' Hd') as Hc'.
  case_decide as E.
  - rewrite E in Hc. unfold same_link.
    destruct (hashValue_inj (ev_SourceDigest e) (ev_PrevHash e) (ev_Sequence e) (ev_StreamID e)
      (ev_SourceDigest e') (ev_PrevHash e') (ev_Sequence e') (ev_StreamID e')) as (? & ? & ? & ?); [|split_and!; assumption].
    eapply same_bytes_same_meaning; [apply utf8_hashValue; assumption|apply utf8_hashValue; assumption|exact Hc|exact Hc'].
  - split; [exact E|]. rewrite <- (eventHash_text _ _ H), <- (eventHash_text _ _ H'). exact Hh.
Qed.

Fixpoint verified_chain (head : string) (es : list Event) : Prop :=
  match es with
  | [] => True
  | e :: es => verified_event head e /\ verified_chain (ev_Hash e) es
  end.
Definition lastHash (head : string) (es : list Event) : string := fold_left (fun _ e => ev_Hash e) es head.

Lemma verified_snoc head es e :
  verified_chain head (es ++ [e]) <-> verified_chain head es /\ verified_event (lastHash head es) e.
Proof. revert head. induction es as [|x es IH]; intros head; cbn; [tauto|]. rewrite IH. cbn. tauto. Qed.

Lemma lastHash_snoc head es e : lastHash head (es ++ [e]) = ev_Hash e.
Proof. unfold lastHash. by rewrite fold_left_app. Qed.

(** Compare two streams from their newest events. *)
Fixpoint findCollision (newest newest' : list Event) : string * string :=
  match newest, newest' with
  | e :: l, e' :: l' => if decide (hashText e = hashText e') then findCollision l l' else (hashText e, hashText e')
  | _, _ => ("", "")
  end.
Definition chainCollision (es es' : list Event) : string * string := findCollision (reverse es) (reverse es').

Lemma verified_binds h h' es es' :
  verified_chain h es -> verified_chain h' es' -> forallb link_utf8 es = true -> forallb link_utf8 es' = true ->
  length es = length es' -> lastHash h es = lastHash h' es' ->
  Forall2 same_link es es' \/ collision (chainCollision es es').1 (chainCollision es es').2.
Proof.
  revert es'. induction es as [|e es IH] using rev_ind; intros es' Hv Hv' Hu Hu' Hlen Hh.
  { destruct es'; [left; constructor|done]. }
  destruct es' as [|e' es' _] using rev_ind; [rewrite length_app in Hlen; cbn in Hlen; lia|].
  rewrite !length_app in Hlen. cbn in Hlen. rewrite !lastHash_snoc in Hh.
  apply verified_snoc in Hv as [Hv He], Hv' as [Hv' He'].
  rewrite forallb_app in Hu, Hu'. cbn [forallb] in Hu, Hu'. bool_prop.
  pose proof (eventHash_binds _ _ _ _ He He' ltac:(done) ltac:(done) Hh) as Hb.
  unfold chainCollision. rewrite !reverse_snoc. cbn [findCollision].
  destruct (decide (hashText e = hashText e')) as [E|E]; [|by right].
  assert (lastHash h es = lastHash h' es') as Hprev.
  { destruct He as [<- _], He' as [<- _]. by destruct Hb as (_ & ? & _). }
  destruct (IH es' Hv Hv') as [Hall|Hcol]; [done..|lia|done| |by right].
  left. apply Forall2_app; [done|]. by constructor.
Qed.

Section service.
Context {signer : Signer} {crypto : FieldCrypto}.
Variable legacyDigest : Event -> result string.

Lemma eventProblems_nil schemas sid head e :
  eventProblems legacyDigest schemas sid head e = [] ->
  verified_event head e /\ verifyContentDigest legacyDigest e schemas = None.
Proof using Type.
  unfold eventProblems. intros H. apply app_nil in H as [H1 H]. apply app_nil in H as [H2 H3].
  unfold verified_event. destruct (bool_decide_reflect (ev_PrevHash e = head)); [|done].
  destruct (eventHash e) as [x|] eqn:Ex; [|done]. destruct (bool_decide_reflect (x = ev_Hash e)) as [->|]; [|done].
  destruct (verifyContentDigest legacyDigest e schemas) eqn:Ev; [done|]. split_and!; try done.
  unfold verifyContentDigest in Ev. by destruct (bool_decide_reflect (ev_SourceDigest e = "")).
Qed.

Lemma chainProblems_nil schemas sid head es :
  chainProblems legacyDigest schemas sid head es = [] -> verified_chain head es.
Proof using Type.
  revert head. induction es as [|e es IH]; intros head H; [done|]. cbn [chainProblems] in H.
  apply app_nil in H as [H1 H2]. apply eventProblems_nil in H1 as [H1 _]. split; [done|]. by apply IH.
Qed.

(** C7: tamper evidence of the hash chain.  Take any two event sequences of a
    stream in which VerifyIntegrity finds no chain problem, of the same length
    and with the same head hash.  Then they agree, event by event, on content
    digest, predecessor hash, sequence, stream and hash; otherwise
    [chainCollision] computes two different texts with the same SHA-256 hash.
    No event of a verified stream can be changed, reordered or replaced while
    its head hash stays. *)
Theorem head_hash_binds_stream schemas schemas' sid sid' es es' :
  chainProblems legacyDigest schemas sid "" es = [] -> chainProblems legacyDigest schemas' sid' "" es' = [] ->
  forallb link_utf8 es = true -> forallb link_utf8 es' = true ->
  length es = length es' -> lastHash "" es = lastHash "" es' ->
  Forall2 same_link es es' \/ collision (chainCollision es es').1 (chainCollision es es').2.
Proof using Type. intros H%chainProblems_nil H'%chainProblems_nil. by apply verified_binds. Qed.

End service.

(** A field codec that keeps the value, for concrete runs. *)
Definition plainCrypto : FieldCrypto :=
  {| EncryptJSON := fun v _ => match v with VString s => Ok s | _ => Err (NewErr "not a string") end;
     DecryptJSON := fun s _ => Ok (VString s);
     SearchDigestBound := fun v _ _ => match v with VString s => Ok s | _ => Err (NewErr "not a string") end |}.

Definition plainSchema : EventSchema := mkEventSchema "t1" "sch" 1 "invoice.paid" [] [] [] [] "internal" true 0.
Definition plainSchemas : gmap string EventSchema := {[SchemaKey "t1" "sch" 1 := plainSchema]}.

(** Two events of one stream, digested and chained. *)
Definition plainEvent (id key : string) : Event :=
  let e := mkEvent id "t1" "billing" "invoice.paid" "sch" 1 (693595 * Day) 0 "op1" "" "" "" ""
    (mkActor "u1" "" "" "" []) [] "" "" 0 "" "" "pay" "ok" "" ∅ (Some ∅) "" "" "internal" "standard" key "" 0 "" "" "" in
  match EventContentDigest e with Ok d => set_ev_SourceDigest e d | Err _ => e end.
Fixpoint plainChain (s : StreamState) (es : list Event) : list Event :=
  match es with
  | [] => []
  | e :: es => match chainEvent e (Stream e) "" s with Ok (e, s) => e :: plainChain s es | Err _ => [] end
  end.
Definition sample_chain : list Event :=
  Eval vm_compute in plainChain (openStream ∅ "t1" "t1:operation:op1") [plainEvent "e1" "k1"; plainEvent "e2" "k2"].

Lemma sample_chain_verifies :
  chainProblems (crypto := plainCrypto) EventContentDigest plainSchemas "t1:operation:op1" "" sample_chain = [].
Proof. vm_compute. reflexivity. Qed.
Lemma sample_chain_utf8 : forallb link_utf8 sample_chain = true.
Proof. vm_compute. reflexivity. Qed.

Lemma head_hash_binds_stream_witness :
  length sample_chain = 2%nat /\
  (Forall2 same_link sample_chain sample_chain \/
   collision (chainCollision sample_chain sample_chain).1 (chainCollision sample_chain sample_chain).2).
Proof.
  split; [reflexivity|].
  apply (head_hash_binds_stream (crypto := plainCrypto) EventContentDigest plainSchemas plainSchemas "t1:operation:op1"
    "t1:operation:op1" sample_chain sample_chain sample_chain_verifies sample_chain_verifies
    sample_chain_utf8 sample_chain_utf8 eq_refl eq_refl).
Defined.

End ChainProps.
