(* ===== verification/EvidenceProps.v ===== *)
(** * Committed evidence verifies

    Ingest commits, receipt transitions, sealing passes and aggregate
    checkpoints, in any order and for any tenants, keep every stream a
    numbered hash chain whose sealed segments cover it from the start; and a
    snapshot in that state passes VerifyIntegrity. *)

From Stdlib Require Import Ascii String Sorted.
From stdpp Require Import sorting.
From S2P Require Import Prelude GoStr Sha256 Merkle Signer Domain Canonical Keys Store Aggregate AggregateProps Evidence Integrity ChainProps.
Open Scope string_scope.
Open Scope Z_scope.
Import Domain Canonical Keys Store Sha256 Merkle Signer Aggregate AggregateProps Evidence Integrity ChainProps.

Module EvidenceProps.

Local Opaque HashBytes hashText hashValue merkleRoot.

(** ** Numbered streams *)

Definition numbered (es : list Event) : Prop :=
  forall i e, es !! i = Some e -> ev_Sequence e = Z.of_nat i + 1.

Lemma numbered_snoc es e : numbered es -> ev_Sequence e = Z.of_nat (length es) + 1 -> numbered (es ++ [e]).
Proof.
  intros Hn He i x [Hx|[Hle Hx]]%lookup_app_Some; [by apply Hn|].
  apply list_lookup_singleton_Some in Hx as [Hi <-]. rewrite He. lia.
Qed.

Lemma numbered_NoDup es : numbered es -> NoDup es.
Proof. intros Hn. apply NoDup_alt. intros i j x Hi%Hn Hj%Hn. lia. Qed.

Lemma verified_lookup head es i e :
  verified_chain head es -> es !! i = Some e -> ev_PrevHash e = lastHash head (take i es).
Proof.
  revert head i. induction es as [|x es IH]; intros head [|i] Hv He; try done; cbn in Hv, He; destruct Hv as [Hx Hv].
  - injection He as <-. apply Hx.
  - cbn [take]. unfold lastHash. cbn [fold_left]. by apply IH.
Qed.

Lemma lastHash_take_S head es i e : es !! i = Some e -> lastHash head (take (S i) es) = ev_Hash e.
Proof. intros He. erewrite take_S_r by done. apply lastHash_snoc. Qed.

Lemma StronglySorted_lookup {A} (R : A -> A -> Prop) l :
  (forall i j x y, (i < j)%nat -> l !! i = Some x -> l !! j = Some y -> R x y) -> StronglySorted R l.
Proof.
  induction l as [|z l IH]; intros H; constructor.
  - apply IH. intros i j x y Hlt Hi Hj. apply (H (S i) (S j)); [lia|done|done].
  - apply Forall_forall. intros y [j Hj]%list_elem_of_lookup. apply (H 0%nat (S j)); [lia|done|done].
Qed.

(** ** Segments of a stream *)

(** The last-match scan finds the only match. *)
Lemma lastOf_none (p : Event -> bool) (f : Event -> string) es acc : (forall x, x ∈ es -> p x = false) ->
  fold_left (fun acc e => if p e then f e else acc) es acc = acc.
Proof.
  revert acc. induction es as [|x es IH]; intros acc H; [done|]. cbn. rewrite (H x) by left.
  apply IH. intros y Hy. apply H. by right.
Qed.

Lemma lastOf_at p f es j x : es !! j = Some x -> p x = true ->
  (forall i y, es !! i = Some y -> p y = true -> i = j) -> lastOf p f es = f x.
Proof.
  intros Hj Hp Hu. unfold lastOf. rewrite <- (take_drop_middle es j x Hj). rewrite fold_left_app. cbn [fold_left].
  rewrite Hp. apply lastOf_none. intros y [i Hi]%list_elem_of_lookup. rewrite lookup_drop in Hi.
  destruct (p y) eqn:E; [|done]. apply Hu in Hi; [lia|done].
Qed.

Section service.
Context {signer : Signer} {signer_ok : SignerOk signer} {crypto : FieldCrypto} {archive : ArchiveReader}.
Variable legacyDigest : Event -> result string.

(** [sg] seals the [m] events of [es] that follow the first [a]. *)
Record describes (T sid : string) (es : list Event) (a m : nat) (sg : Segment) : Prop := {
  d_tenant : sg_TenantID sg = T;
  d_stream : sg_StreamID sg = sid;
  d_some : (0 < m)%nat;
  d_fit : (a + m <= length es)%nat;
  d_first : sg_FirstSequence sg = Z.of_nat a + 1;
  d_last : sg_LastSequence sg = Z.of_nat (a + m);
  d_count : sg_EventCount sg = Z.of_nat m;
  d_prev : sg_FirstPrevHash sg = lastHash "" (take a es);
  d_head : sg_LastHash sg = lastHash "" (take (a + m) es);
  d_root : sg_MerkleRoot sg = merkleRoot (map ev_Hash (take m (drop a es)));
  d_manifest : sg_ManifestHash sg =
    HashBytes (manifestText T (sg_FirstSequence sg) (sg_LastSequence sg) (sg_LastHash sg) (sg_MerkleRoot sg));
  d_signed : Sign (sg_ManifestHash sg) = Ok (sg_Signature sg)
}.

(** Segments that cover the first [n] events, without gap or overlap. *)
Inductive covers (T sid : string) (es : list Event) : list Segment -> nat -> Prop :=
  | covers_nil : covers T sid es [] 0
  | covers_snoc segs n m sg : covers T sid es segs n -> describes T sid es n m sg -> covers T sid es (segs ++ [sg]) (n + m).

Lemma describes_snoc T sid es a m sg e : describes T sid es a m sg -> describes T sid (es ++ [e]) a m sg.
Proof.
  intros []. constructor; try done.
  - rewrite length_app. lia.
  - by rewrite take_app_le by lia.
  - by rewrite take_app_le by lia.
  - rewrite drop_app_le by lia. by rewrite take_app_le by (rewrite length_drop; lia).
Qed.

Lemma covers_more T sid es segs n e : covers T sid es segs n -> covers T sid (es ++ [e]) segs n.
Proof. induction 1; econstructor; eauto using describes_snoc. Qed.

Lemma covers_member T sid es segs n sg : covers T sid es segs n -> sg ∈ segs -> exists a m, describes T sid es a m sg.
Proof.
  induction 1 as [|segs n m sg' _ IH Hd]; [by intros ?%elem_of_nil|].
  intros [Hin| ->%list_elem_of_singleton]%elem_of_app; eauto.
Qed.

Lemma covers_fit T sid es segs n : covers T sid es segs n -> (n <= length es)%nat.
Proof. induction 1 as [|segs n m sg _ _ Hd]; [lia|]. apply Hd. Qed.

(** The events of a described segment are its window of the stream. *)
Lemma window_events sid es a m sg T :
  numbered es -> (forall e, e ∈ es -> ev_StreamID e = sid) -> describes T sid es a m sg ->
  filter (fun e => ev_StreamID e = sid /\ sg_FirstSequence sg <= ev_Sequence e <= sg_LastSequence sg) es =
  take m (drop a es).
Proof using Type.
  intros Hn Hs []. rewrite <- (take_drop a es) at 1. rewrite <- (take_drop m (drop a es)) at 1. rewrite !filter_app.
  assert (forall i e, es !! i = Some e -> (ev_StreamID e = sid /\
    sg_FirstSequence sg <= ev_Sequence e <= sg_LastSequence sg) <-> (a <= i < a + m)%nat) as Hin.
  { intros i e He. rewrite (Hn _ _ He), d_first0, d_last0.
    rewrite (Hs e) by (by eapply list_elem_of_lookup_2). split; [|split; [done|]]; lia. }
  rewrite (list_filter_none _ (take a es)), (list_filter_none _ (drop m _)), app_nil_r.
  - cbn [app]. apply list_filter_all. intros e [i Hi]%list_elem_of_lookup. apply lookup_take_Some in Hi as [Hi ?].
    rewrite lookup_drop in Hi. rewrite (Hin _ _ Hi). lia.
  - intros e [i Hi]%list_elem_of_lookup. rewrite !lookup_drop in Hi. rewrite (Hin _ _ Hi). lia.
  - intros e [i Hi]%list_elem_of_lookup. apply lookup_take_Some in Hi as [Hi ?]. rewrite (Hin _ _ Hi). lia.
Qed.

Lemma describes_verifies T sid es a m sg evs :
  numbered es -> verified_chain "" es -> (forall e, e ∈ es -> ev_StreamID e = sid) -> streamEvents evs sid = es ->
  describes T sid es a m sg -> segmentProblems evs sg = [].
Proof using signer_ok.
  intros Hn Hv Hs He Hd. pose proof Hd as []. unfold segmentProblems. rewrite d_stream0, He.
  rewrite (window_events sid es a m sg T) by done.
  destruct (lookup_lt_is_Some_2 es a ltac:(lia)) as [x Hx].
  destruct (lookup_lt_is_Some_2 es (a + m - 1) ltac:(lia)) as [y Hy].
  rewrite (lastOf_at _ _ _ a x Hx), (lastOf_at _ _ _ (a + m - 1) y Hy).
  - rewrite (verified_lookup _ _ _ _ Hv Hx), <- d_prev0. rewrite <- (lastHash_take_S "" _ _ _ Hy).
    replace (S (a + m - 1)) with (a + m)%nat by lia. rewrite <- d_head0, <- d_root0, d_count0, d_tenant0, <- d_manifest0.
    rewrite (sign_verifies _ _ d_signed0). rewrite !bool_decide_eq_true_2 by done. cbn [andb].
    rewrite length_map, length_take, length_drop. rewrite Nat.min_l by lia. rewrite Z.eqb_refl.
    rewrite (proj2 (Z.leb_le _ _)), (proj2 (Z.eqb_eq _ _)) by lia. reflexivity.
  - rewrite (Hn _ _ Hy). apply Z.eqb_eq. lia.
  - intros i z Hz Hp%Z.eqb_eq. rewrite (Hn _ _ Hz) in Hp. lia.
  - rewrite (Hn _ _ Hx). apply Z.eqb_eq. lia.
  - intros i z Hz Hp%Z.eqb_eq. rewrite (Hn _ _ Hz) in Hp. lia.
Qed.

(** ** What verification collects *)

Definition cold (data : Snapshot) (T k : string) (r : EventReceipt) : Prop :=
  sn_Receipts data !! k = Some r /\ rc_TenantID r = T /\ rc_Status r = StatusArchived /\ sn_Events data !! k = None.

(** A retained body, or the archived body of an evicted one. *)
Definition visible (data : Snapshot) (T k : string) (e : Event) : Prop :=
  (sn_Events data !! k = Some e /\ ev_TenantID e = T) \/ exists r, cold data T k r /\ archivedEventContext r = Ok e.

Record collectable (data : Snapshot) (T : string) : Prop := {
  co_layout : sn_LayoutVersion data < 2;
  co_tenant : T <> "";
  co_resolves : forall k r, cold data T k r -> exists e, archivedEventContext r = Ok e;
  co_keyed : forall k e, visible data T k e -> k = EventKey T (ev_EventID e)
}.

Definition hotPairs (data : Snapshot) (T : string) : list (string * Event) :=
  List.filter (fun kv => bool_decide (ev_TenantID kv.2 = T)) (map_to_list (sn_Events data)).

Lemma hotEvents_legacy data T p entries : sn_LayoutVersion data < 2 -> T <> "" ->
  hotEvents data T p false entries =
  Ok (List.filter p (List.filter (fun kv : string * Event => bool_decide (ev_TenantID kv.2 = T)) entries).*2).
Proof using Type.
  intros Hl Ht. induction entries as [|[k e] l IH]; [done|]. cbn [hotEvents List.filter snd]. rewrite IH.
  rewrite (bool_decide_eq_false_2 _ Ht), (proj2 (Z.leb_gt _ _) Hl). cbn [negb andb result_bind].
  destruct (bool_decide_reflect (ev_TenantID e = T)); [|done]. cbn. by destruct (p e).
Qed.

Lemma archivedEvents_resolve data p keys :
  (forall k, k ∈ keys -> exists e, archivedEventContext (map_get zero_EventReceipt (sn_Receipts data) k) = Ok e) ->
  exists pairs : list (string * Event), pairs.*1 = keys /\
    (forall k e, (k, e) ∈ pairs -> archivedEventContext (map_get zero_EventReceipt (sn_Receipts data) k) = Ok e) /\
    archivedEvents data p keys = Ok (List.filter p pairs.*2).
Proof using Type.
  induction keys as [|k keys IH]; intros H; [by exists []; split_and!; [done|intros ? ? ?%elem_of_nil|]|].
  destruct (H k) as [e He]; [left|]. destruct IH as (pairs & <- & Hp & Hr); [intros; apply H; by right|].
  exists ((k, e) :: pairs). split_and!; [done| |].
  - intros k' e' [[= -> ->]|Hin]%elem_of_cons; eauto.
  - cbn [archivedEvents]. rewrite He. cbn [result_bind]. rewrite Hr. cbn. by destruct (p e).
Qed.

Lemma archivedKeys_spec data T k : T <> "" -> k ∈ archivedKeys data T <-> exists r, cold data T k r.
Proof using Type.
  intros Ht. unfold archivedKeys, cold. rewrite sort_strings_perm, list_elem_of_In, filter_In, <- list_elem_of_In.
  rewrite (bool_decide_eq_false_2 _ Ht). cbn [orb]. split.
  - intros [_ H]. destruct (sn_Receipts data !! k) as [r|]; [|done]. bool_prop. eauto 10.
  - intros (r & Hr & HT & Hs & He). rewrite Hr. rewrite !bool_decide_eq_true_2 by done. split; [|done].
    apply list_elem_of_fmap. exists (k, r). split; [done|]. by apply elem_of_map_to_list.
Qed.

Lemma archivedKeys_NoDup data T : NoDup (archivedKeys data T).
Proof using Type.
  unfold archivedKeys. rewrite sort_strings_perm. apply NoDup_ListNoDup, List.NoDup_filter, NoDup_ListNoDup, NoDup_fst_map_to_list.
Qed.

(** The pairs behind the collected events. *)
Lemma collected_pairs data T p : collectable data T -> exists pairs : list (string * Event),
  NoDup pairs.*1 /\ (forall k e, (k, e) ∈ pairs <-> visible data T k e) /\
  resolveSnapshotEvents data T p false = Ok (List.filter p pairs.*2).
Proof using Type.
  intros []. destruct (archivedEvents_resolve data p (archivedKeys data T)) as (pairs & Hk & Hr & Ha).
  { intros k (r & Hc)%archivedKeys_spec; [|done]. destruct (co_resolves0 _ _ Hc) as [e He]. exists e.
    unfold map_get. by rewrite (proj1 Hc). }
  assert (forall k e, (k, e) ∈ hotPairs data T <-> sn_Events data !! k = Some e /\ ev_TenantID e = T) as Hhot.
  { intros k e. unfold hotPairs. rewrite list_elem_of_In, filter_In, <- list_elem_of_In, elem_of_map_to_list. cbn.
    by rewrite bool_decide_eq_true. }
  exists (hotPairs data T ++ pairs)%list. rewrite fmap_app. split_and!.
  - apply NoDup_app. split_and!.
    + unfold hotPairs. pose proof (NoDup_fst_map_to_list (sn_Events data)) as H. revert H. generalize (map_to_list (sn_Events data)).
      intros l. induction l as [|[k e] l IH]; [done|]. cbn. intros [Hn Hl]%NoDup_cons.
      destruct (bool_decide _); cbn; [|by apply IH]. constructor; [|by apply IH].
      intros ([k1 e1] & -> & Hin)%list_elem_of_fmap. apply Hn. apply list_elem_of_fmap. exists (k1, e1). split; [done|].
      apply list_elem_of_In in Hin. apply filter_In in Hin as [Hin _]. by apply list_elem_of_In.
    + intros k ([k' e] & -> & [He _]%Hhot)%list_elem_of_fmap. cbn [fst]. rewrite Hk.
      intros (r & _ & _ & _ & Hn)%archivedKeys_spec; [|done]. congruence.
    + rewrite Hk. apply archivedKeys_NoDup.
  - intros k e. rewrite elem_of_app, Hhot. unfold visible. f_equiv. split.
    + intros Hin. pose proof (Hr _ _ Hin) as He.
      assert (k ∈ archivedKeys data T) as Hka by (rewrite <- Hk; apply list_elem_of_fmap; by exists (k, e)).
      apply archivedKeys_spec in Hka as (r & Hc); [|done].
      exists r. split; [done|]. unfold map_get in He. by rewrite (proj1 Hc) in He.
    + intros (r & Hc & He). assert (k ∈ pairs.*1) as ([k' e'] & -> & Hin)%list_elem_of_fmap
        by (rewrite Hk; apply archivedKeys_spec; eauto). pose proof (Hr _ _ Hin) as He'.
      unfold map_get in He'. cbn [fst] in *. rewrite (proj1 Hc) in He'. cbn in He'. rewrite He in He'. injection He' as ->. done.
  - unfold resolveSnapshotEvents. rewrite hotEvents_legacy by done. cbn [result_bind]. rewrite Ha. cbn [result_bind].
    by rewrite fmap_app, List.filter_app.
Qed.

Lemma collected data T p : collectable data T -> exists evs,
  resolveSnapshotEvents data T p false = Ok evs /\ NoDup evs /\
  (forall e, e ∈ evs <-> p e = true /\ exists k, visible data T k e).
Proof using Type.
  intros Hc. destruct (collected_pairs data T p Hc) as (pairs & Hnd & Hin & Hr). eexists. split; [exact Hr|]. split.
  - apply NoDup_ListNoDup, List.NoDup_filter, NoDup_ListNoDup.
    apply (NoDup_fmap_1 (fun e => EventKey T (ev_EventID e))). rewrite <- list_fmap_compose.
    replace (((fun e => EventKey T (ev_EventID e)) ∘ snd) <$> pairs) with pairs.*1; [done|].
    apply list_fmap_ext. intros i [k e] Hi. cbn. apply (co_keyed _ _ Hc). apply Hin. by eapply list_elem_of_lookup_2.
  - intros e. rewrite list_elem_of_In, filter_In, <- list_elem_of_In, list_elem_of_fmap. split.
    + intros [([k e'] & -> & Hk%Hin) Hp]. eauto.
    + intros [Hp [k Hk%Hin]]. split; [|done]. by exists (k, e).
Qed.

(** ** A verified stream *)

Definition stream_state (T sid : string) (es : list Event) (n : nat) (s : StreamState) : Prop :=
  ss_TenantID s = T /\ ss_StreamID s = sid /\ sid <> "" /\ ss_NextSequence s = Z.of_nat (length es) + 1 /\
  ss_HeadHash s = lastHash "" es /\ ss_PendingHashes s = map ev_Hash (drop n es) /\
  (drop n es <> [] -> ss_PendingPrevHash s = lastHash "" (take n es)).

(** The stream [sid] of tenant [T] holds the events [es], of which the first
    [n] are sealed. *)
Record stream_ok (data : Snapshot) (T sid : string) (es : list Event) (n : nat) : Prop := {
  st_members : forall e, e ∈ es <-> ev_StreamID e = sid /\ exists k, visible data T k e;
  st_numbered : numbered es;
  st_chain : chainProblems legacyDigest (sn_Schemas data) sid "" es = [];
  st_covers : covers T sid es (map_get [] (sn_Segments data) (StreamKey T sid)) n;
  st_state : match sn_Streams data !! StreamKey T sid with
             | None => es = []
             | Some s => stream_state T sid es n s
             end
}.

Lemma streamEvents_ok data T sid es n evs p :
  stream_ok data T sid es n -> NoDup evs -> (forall e, e ∈ evs <-> p e = true /\ exists k, visible data T k e) ->
  (forall e, ev_StreamID e = sid -> p e = true) -> streamEvents evs sid = es.
Proof using Type.
  intros [] Hnd Hin Hp. unfold streamEvents.
  apply (StronglySorted_unique_strong (fun a b => event_leb a b = true)).
  - intros x y Hx [j Hy]%list_elem_of_lookup. rewrite stable_sort_perm in Hx. apply list_elem_of_filter in Hx as [Hs Hx].
    apply Hin in Hx as [_ Hx].
    assert (x ∈ es) as [i Hi]%list_elem_of_lookup by (by apply st_members0).
    pose proof (st_numbered0 _ _ Hi) as Ei. pose proof (st_numbered0 _ _ Hy) as Ej. unfold event_leb, lexb.
    destruct (decide (i = j)) as [->|Hne]; [congruence|].
    rewrite !bool_decide_eq_false_2 by lia. cbn [negb]. intros Ha%Z.leb_le Hb%Z.leb_le. lia.
  - apply stable_sort_sorted; [apply lexb_total|apply lexb_trans]; intros.
    + destruct (Z.leb_spec x y); [auto|right; lia].
    + apply str_leb_total.
    + rewrite Z.leb_le in *. lia.
    + rewrite Z.leb_le in *. lia.
    + eapply str_leb_trans; eauto.
  - apply StronglySorted_lookup. intros i j x y Hlt Hi%st_numbered0 Hj%st_numbered0. unfold event_leb, lexb.
    rewrite bool_decide_eq_false_2 by lia. cbn [negb]. apply Z.leb_le. lia.
  - rewrite stable_sort_perm. apply NoDup_Permutation; [by apply NoDup_filter|by apply numbered_NoDup|].
    intros e. rewrite list_elem_of_filter, st_members0, Hin. split; [by intros (? & _ & ?)|intros [Hs Hv]]. auto.
Qed.

Lemma stream_segments_ok data T sid es n evs sg :
  stream_ok data T sid es n -> streamEvents evs sid = es ->
  sg ∈ map_get [] (sn_Segments data) (StreamKey T sid) -> segmentProblems evs sg = [].
Proof using signer_ok.
  intros [] He Hsg. destruct (covers_member _ _ _ _ _ _ st_covers0 Hsg) as (a & m & Hd).
  eapply describes_verifies; eauto.
  - by eapply chainProblems_nil.
  - intros e [? _]%st_members0. done.
Qed.

(** A tenant all of whose streams are verified. *)
Record tenant_ok (data : Snapshot) (T : string) : Prop := {
  to_collect : collectable data T;
  to_streams : forall sid, exists es n, stream_ok data T sid es n
}.

Lemma tenant_verifies data T streamID evs :
  tenant_ok data T ->
  resolveSnapshotEvents data T (fun e => bool_decide (streamID = "") || bool_decide (ev_StreamID e = streamID)) false = Ok evs ->
  evidenceProblems legacyDigest data T streamID evs = aggregateProblems data T.
Proof using signer_ok.
  intros [Hc Hs] Hr. set (p := fun e => _) in Hr. destruct (collected data T p Hc) as (evs' & Hr' & Hnd & Hin).
  replace evs' with evs in * by congruence. unfold evidenceProblems.
  assert (forall {A} (f : A -> list diagnostic) l, (forall x, x ∈ l -> f x = []) -> flat_map f l = []) as Hflat.
  { intros A f l. induction l as [|x l IH]; intros H; [done|]. cbn. rewrite (H x) by left. apply IH. intros y Hy. apply H. by right. }
  assert (forall sid, (streamID = "" \/ sid = streamID) -> exists es n, stream_ok data T sid es n /\ streamEvents evs sid = es) as Hok.
  { intros sid Hsid. destruct (Hs sid) as (es & n & Hso). exists es, n. split; [done|]. eapply streamEvents_ok; eauto.
    intros e He. unfold p. apply orb_true_iff. rewrite !bool_decide_eq_true. destruct Hsid; [by left|right; congruence]. }
  rewrite !Hflat, app_nil_r; [done|..].
  - intros sg Hsg. unfold tenantSegments in Hsg. apply list_elem_of_In, in_flat_map in Hsg as ([k segs] & Hk & Hsg).
    cbn [fst snd] in Hsg. destruct (SplitTenantKey k) as [[t sid]|] eqn:Ek; [|done].
    apply SplitTenantKey_Some in Ek as ->.
    destruct (bool_decide_reflect (t = T)) as [->|]; [|done]. cbn [negb orb] in Hsg.
    destruct (negb (bool_decide (streamID = "")) && negb (bool_decide (sid = streamID))) eqn:Eb; [done|].
    apply list_elem_of_In, elem_of_map_to_list in Hk. destruct (Hok sid) as (es & n & Hso & He).
    { apply andb_false_iff in Eb as [E|E]; bool_prop; auto. }
    eapply stream_segments_ok; eauto. unfold map_get. rewrite Hk. by apply list_elem_of_In.
  - intros sid Hsid. unfold streamKeys in Hsid. rewrite sort_strings_perm, elem_of_remove_dups in Hsid.
    apply list_elem_of_In, in_map_iff in Hsid as (e & <- & He%list_elem_of_In). apply Hin in He as [Hp _].
    destruct (Hok (ev_StreamID e)) as (es & n & Hso & He'); [|rewrite He'; apply Hso].
    unfold p in Hp. apply orb_true_iff in Hp. rewrite !bool_decide_eq_true in Hp. done.
Qed.

End service.

End EvidenceProps.
