(* ===== verification/EvidenceInv.v ===== *)
(** * The evidence invariant

    [evidence_ok] relates the stored snapshot to its streams of events; this
    file has the invariant and its preservation by the parts every mutation is
    made of: changes that keep what is visible, eviction of archived bodies,
    the commit of an event, and the closing of a segment. *)

From Stdlib Require Import Ascii String Sorted.
From S2P Require Import Prelude GoStr Sha256 Merkle Signer Domain Canonical Keys Store Aggregate AggregateProps Evidence Integrity ChainProps EvidenceProps.
Open Scope string_scope.
Open Scope Z_scope.
Import Domain Canonical Keys Store Sha256 Merkle Signer Aggregate AggregateProps Evidence Integrity ChainProps EvidenceProps.

Module EvidenceInv.

Local Opaque HashBytes hashText hashValue merkleRoot.

(** ** Coordinates are not content *)

(** [e] with the coordinates a commit assigns. *)
Definition coordinates (e : Event) (sid : string) (seq : Z) (prev hash : string) : Event :=
  set_ev_Hash (set_ev_PrevHash (set_ev_Sequence (set_ev_StreamID e sid) seq) prev) hash.

Lemma content_coordinates e sid seq prev hash :
  EventContentDigest (coordinates e sid seq prev hash) = EventContentDigest e.
Proof. unfold EventContentDigest. by change (contentEvent (coordinates e sid seq prev hash)) with (contentEvent e). Qed.

Lemma eventHash_set_Hash e h : eventHash (set_ev_Hash e h) = eventHash e.
Proof.
  unfold eventHash, EventDigest. rewrite <- (content_coordinates e (ev_StreamID e) (ev_Sequence e) (ev_PrevHash e) h). by destruct e.
Qed.

Local Opaque EventContentDigest.

(** ** Aggregates against growing checkpoint histories *)

Definition checkpoint_ids (m : gmap string (list Checkpoint)) : list string := map cp_ID (concat (map snd (map_to_list m))).

Lemma checkpoint_ids_append m k c :
  checkpoint_ids (<[k := (map_get [] m k ++ [c])%list]> m) ≡ₚ cp_ID c :: checkpoint_ids m.
Proof.
  unfold checkpoint_ids, map_get. rewrite <- insert_delete_eq.
  rewrite (map_to_list_insert (delete k m) k) by apply lookup_delete_eq. cbn [map concat snd].
  destruct (m !! k) as [l|] eqn:E; cbn [default].
  - rewrite <- (insert_delete_id m k l E) at 2. rewrite (map_to_list_insert (delete k m) k) by apply lookup_delete_eq.
    cbn [map concat snd]. rewrite !map_app. cbn [map]. rewrite <- !(assoc_L (++)%list). cbn [app]. symmetry. apply Permutation_middle.
  - rewrite delete_id by done. done.
Qed.

Lemma exact_source m t ref : exactCheckpointReference m t ref = true ->
  exists c, c ∈ concat (map snd (map_to_list m)) /\ cp_ID c = cr_CheckpointID ref /\ cp_TenantID c = t.
Proof.
  unfold exactCheckpointReference. destruct (m !! _) as [values|] eqn:E; [|done].
  destruct (filter _ values) as [|c l] eqn:Ef; [by rewrite andb_false_r|]. cbn [forallb]. intros H. bool_prop.
  assert (c ∈ filter (fun c => cp_ID c = cr_CheckpointID ref) values) as Hc by (rewrite Ef; left).
  apply list_elem_of_filter in Hc as [Hid Hc]. exists c. split_and!; [|done|done].
  apply list_elem_of_In, in_concat. exists values. split; [|by apply list_elem_of_In].
  apply in_map_iff. eexists (_, values). split; [done|]. by apply list_elem_of_In, elem_of_map_to_list.
Qed.

Lemma exact_id m t ref : exactCheckpointReference m t ref = true -> cr_CheckpointID ref ∈ checkpoint_ids m.
Proof. intros (c & Hc & <- & _)%exact_source. apply list_elem_of_fmap. eauto. Qed.

Lemma exact_append m k c t ref : cp_ID c ∉ checkpoint_ids m ->
  exactCheckpointReference m t ref = true ->
  exactCheckpointReference (<[k := (map_get [] m k ++ [c])%list]> m) t ref = true.
Proof.
  intros Hf H. pose proof (exact_id _ _ _ H) as Hid. revert H. unfold exactCheckpointReference.
  destruct (decide (k = StreamKey t (cr_StreamID ref))) as [->|Hne]; [|by rewrite lookup_insert_ne].
  rewrite lookup_insert_eq. unfold map_get. destruct (m !! _) as [values|]; [|done]. cbn [default].
  rewrite filter_app, (filter_cons_False _ c []), app_nil_r; [done|]. intros E. apply Hf. by rewrite E.
Qed.

Lemma checkRefs_mono m m' t refs ordered roots ss cs :
  (forall ref, exactCheckpointReference m t ref = true -> exactCheckpointReference m' t ref = true) ->
  checkRefs m t refs ordered roots ss cs = None -> checkRefs m' t refs ordered roots ss cs = None.
Proof.
  intros Hm. revert ordered roots ss cs. induction refs as [|r refs IH]; intros [|o ordered] [|root roots] ss cs H; try done.
  cbn [checkRefs] in *. repeat (dtest_in H; [done|]).
  destruct (exactCheckpointReference m t r) eqn:E; [|done]. rewrite (Hm _ E). cbn [negb]. by apply IH.
Qed.

Lemma checkRefs_exact m t refs ordered roots ss cs ref :
  length ordered = length refs -> length roots = length refs ->
  checkRefs m t refs ordered roots ss cs = None -> ref ∈ refs -> exactCheckpointReference m t ref = true.
Proof.
  revert ordered roots ss cs. induction refs as [|r refs IH]; intros [|o ordered] [|root roots] ss cs Hl Hl' H Hin; try done; [inversion Hin|].
  cbn [checkRefs] in H. repeat (dtest_in H; [done|]). apply negb_false_iff in Heqb3.
  apply elem_of_cons in Hin as [->|Hin]; [done|]. cbn in Hl, Hl'. eapply (IH ordered roots); eauto.
Qed.

Section service.
Context {signer : Signer} {signer_ok : SignerOk signer} {crypto : FieldCrypto} {archive : ArchiveReader}.
Variable legacyDigest : Event -> result string.

Lemma aggregateProblem_mono t a m m' :
  (forall ref, exactCheckpointReference m t ref = true -> exactCheckpointReference m' t ref = true) ->
  aggregateProblem t a m = None -> aggregateProblem t a m' = None.
Proof using Type.
  intros Hm. unfold aggregateProblem. do 5 (case_match; [done|]).
  destruct (checkRefs m _ _ _ _ _ _) eqn:E; [done|]. by rewrite (checkRefs_mono _ _ _ _ _ _ _ _ Hm E).
Qed.

Lemma aggregateProblem_exact t a m ref :
  aggregateProblem t a m = None -> ref ∈ ag_CheckpointRefs a -> exactCheckpointReference m t ref = true.
Proof using Type.
  unfold aggregateProblem. do 4 (case_match; [done|]). case_match eqn:El; [done|].
  destruct (checkRefs m _ _ _ _ _ _) eqn:E; [done|]. intros _ Hin. apply orb_false_iff in El as [_ El]. apply negb_false_iff, Nat.eqb_eq in El.
  eapply checkRefs_exact; [|exact El|exact E|exact Hin]. apply Permutation_length, stable_sort_perm.
Qed.

(** Identifiers are unique, and every aggregate verifies. *)
Record aggregates_ok (m : gmap string (list Checkpoint)) (aggregates : list AggregateCheckpoint) : Prop := {
  ag_unique : NoDup (checkpoint_ids m);
  ag_verify : forall a, a ∈ aggregates -> aggregateProblem (ag_TenantID a) a m = None
}.

Lemma aggregates_append m aggregates k c : aggregates_ok m aggregates -> cp_ID c ∉ checkpoint_ids m ->
  aggregates_ok (<[k := (map_get [] m k ++ [c])%list]> m) aggregates.
Proof using Type.
  intros [Hu Hv] Hc. split.
  - rewrite checkpoint_ids_append. by constructor.
  - intros a Ha. eapply aggregateProblem_mono; [|by apply Hv]. intros ref. by apply exact_append.
Qed.

Lemma aggregates_verify data T : aggregates_ok (sn_Checkpoints data) (sn_AggregateCheckpoints data) -> aggregateProblems data T = [].
Proof using Type.
  intros [Hu Hv]. unfold aggregateProblems.
  assert (forall a, a ∈ tenantAggregates data T -> verifyAggregateCheckpoint T a (sn_Checkpoints data) = (true, "")) as H.
  { intros a Ha. unfold tenantAggregates in Ha. apply list_elem_of_In, filter_In in Ha as [Ha%list_elem_of_In Ht].
    pose proof (Hv _ Ha) as Hok. assert (ag_TenantID a = T) as <-; [|unfold verifyAggregateCheckpoint; by rewrite Hok].
    apply orb_true_iff in Ht as [Ht|Ht]; [by apply bool_decide_eq_true in Ht|].
    apply existsb_exists in Ht as (ref & Href%list_elem_of_In & Hex).
    destruct (exact_source _ _ _ Hex) as (c & Hc & Hid & <-).
    destruct (exact_source _ _ _ (aggregateProblem_exact _ _ _ _ Hok Href)) as (c' & Hc' & Hid' & <-).
    f_equal. apply list_elem_of_lookup in Hc as [i Hi], Hc' as [j Hj].
    assert (i = j) as ->; [|congruence]. eapply (proj1 (NoDup_alt _) Hu i j (cr_CheckpointID ref)); unfold checkpoint_ids.
    - change (map cp_ID) with (fmap (M := list) cp_ID). rewrite list_lookup_fmap, Hi. cbn. by rewrite Hid.
    - change (map cp_ID) with (fmap (M := list) cp_ID). rewrite list_lookup_fmap, Hj. cbn. by rewrite Hid'. }
  induction (tenantAggregates data T) as [|a l IH]; [done|]. cbn [flat_map]. rewrite H by left. cbn [app].
  apply IH. intros b Hb. apply H. by right.
Qed.

(** ** The invariant *)

Definition tenantOk (T : string) : Prop := T <> "" /\ no_char SepByte T.

Definition receipt_matches (r : EventReceipt) (e : Event) : Prop :=
  rc_EventID r = ev_EventID e /\ rc_TenantID r = ev_TenantID e /\ rc_StreamID r = ev_StreamID e /\
  rc_Sequence r = ev_Sequence e /\ rc_Hash r = ev_Hash e.

Record evidence_ok (data : Snapshot) : Prop := {
  eo_layout : sn_LayoutVersion data < 2;
  eo_events : forall k e, sn_Events data !! k = Some e ->
    tenantOk (ev_TenantID e) /\ k = EventKey (ev_TenantID e) (ev_EventID e) /\
    exists r, sn_Receipts data !! k = Some r /\ receipt_matches r e;
  eo_receipts : forall k r, sn_Receipts data !! k = Some r ->
    k = EventKey (rc_TenantID r) (rc_EventID r) /\
    (rc_Status r = StatusArchived -> sn_Events data !! k = None -> exists e, archivedEventContext r = Ok e);
  eo_keys : forall k s, sn_Streams data !! k = Some s ->
    tenantOk (ss_TenantID s) /\ k = StreamKey (ss_TenantID s) (ss_StreamID s);
  eo_streams : forall T sid, tenantOk T -> exists es n, stream_ok legacyDigest data T sid es n;
  eo_aggregates : aggregates_ok (sn_Checkpoints data) (sn_AggregateCheckpoints data)
}.

(** What resolving an archived receipt establishes. *)
Lemma archived_identity r e : archivedEventContext r = Ok e ->
  ev_EventID e = rc_EventID r /\ ev_TenantID e = rc_TenantID r /\ ev_StreamID e = rc_StreamID r /\
  ev_Sequence e = rc_Sequence r /\ eventHash e = Ok (rc_Hash r).
Proof using Type.
  unfold archivedEventContext. destruct (archiveGet _) as [x|]; [|done]. case_match eqn:E; [done|].
  destruct (eventHash x) as [h|] eqn:Eh; [|done]. case_match eqn:E2; [done|]. intros [= ->].
  bool_prop. subst. done.
Qed.

(** Receipts that differ in nothing the evidence depends on. *)
Definition same_evidence (r r' : EventReceipt) : Prop :=
  rc_EventID r' = rc_EventID r /\ rc_TenantID r' = rc_TenantID r /\ rc_StreamID r' = rc_StreamID r /\
  rc_Sequence r' = rc_Sequence r /\ rc_Hash r' = rc_Hash r.

Lemma same_evidence_archived r r' : same_evidence r r' -> archivedEventContext r' = archivedEventContext r.
Proof using Type.
  unfold same_evidence, archivedEventContext, archiveError. intros (E1 & E2 & E3 & E4 & E5). by rewrite E1, E2, E3, E4, E5.
Qed.

Lemma evidence_tenant data T : evidence_ok data -> tenantOk T -> tenant_ok legacyDigest data T.
Proof using Type.
  intros [] HT. split; [split|]; [done|apply HT| | |auto].
  - intros k r (Hr & _ & Hs & He). by eapply eo_receipts0.
  - intros k e [[He <-]|(r & (Hr & <- & _) & Ha)].
    + by apply eo_events0 in He as (_ & -> & _).
    + apply eo_receipts0 in Hr as [-> _]. by apply archived_identity in Ha as (-> & _).
Qed.

(** ** Mutations that keep what is visible *)

Lemma verifyContentDigest_mono e schemas schemas' : schemas ⊆ schemas' ->
  verifyContentDigest legacyDigest e schemas = None -> verifyContentDigest legacyDigest e schemas' = None.
Proof using Type.
  intros Hs. unfold verifyContentDigest, reconstructEventForDigest. case_match; [done|].
  destruct (schemas !! _) as [sc|] eqn:E; [|done]. by rewrite (lookup_weaken _ _ _ _ E Hs).
Qed.

Lemma eventProblems_iff schemas sid head e :
  eventProblems legacyDigest schemas sid head e = [] <->
  ev_PrevHash e = head /\ eventHash e = Ok (ev_Hash e) /\ verifyContentDigest legacyDigest e schemas = None.
Proof using Type.
  split; [intros [(? & ? & _) ?]%eventProblems_nil; done|]. intros (Hp & Hh & Hc). unfold eventProblems.
  rewrite Hh, Hc. by rewrite !bool_decide_eq_true_2 by done.
Qed.

Lemma chainProblems_mono schemas schemas' sid head es : schemas ⊆ schemas' ->
  chainProblems legacyDigest schemas sid head es = [] -> chainProblems legacyDigest schemas' sid head es = [].
Proof using Type.
  intros Hs. revert head. induction es as [|e es IH]; intros head H; [done|]. cbn [chainProblems] in *.
  apply app_nil in H as [H1 H2]. rewrite (IH _ H2), app_nil_r. rewrite eventProblems_iff in *.
  destruct H1 as (? & ? & ?). eauto using verifyContentDigest_mono.
Qed.

Lemma stream_ok_frame data data' T sid es n :
  stream_ok legacyDigest data T sid es n ->
  (forall e, ev_StreamID e = sid -> (exists k, visible data' T k e) <-> (exists k, visible data T k e)) ->
  sn_Schemas data ⊆ sn_Schemas data' ->
  sn_Streams data' !! StreamKey T sid = sn_Streams data !! StreamKey T sid ->
  sn_Segments data' !! StreamKey T sid = sn_Segments data !! StreamKey T sid ->
  stream_ok legacyDigest data' T sid es n.
Proof using Type.
  intros [] Hv Hs Hst Hsg. split.
  - intros e. rewrite st_members0. split; intros [He Hk]; (split; [done|]); by apply Hv.
  - done.
  - by eapply chainProblems_mono.
  - unfold map_get. by rewrite Hsg.
  - by rewrite Hst.
Qed.

(** Same streams and segments, same visible events. *)
Lemma evidence_frame data data' :
  evidence_ok data -> sn_LayoutVersion data' < 2 ->
  (forall k e, sn_Events data' !! k = Some e -> sn_Events data !! k = Some e /\
    forall r, sn_Receipts data !! k = Some r -> exists r', sn_Receipts data' !! k = Some r' /\ same_evidence r r') ->
  (forall k r', sn_Receipts data' !! k = Some r' -> exists r, sn_Receipts data !! k = Some r /\ same_evidence r r' /\
    (rc_Status r' = StatusArchived -> sn_Events data' !! k = None ->
     (rc_Status r = StatusArchived /\ sn_Events data !! k = None) \/ exists e, archivedEventContext r' = Ok e)) ->
  (forall T k e, visible data' T k e <-> visible data T k e) ->
  sn_Schemas data ⊆ sn_Schemas data' -> sn_Streams data' = sn_Streams data -> sn_Segments data' = sn_Segments data ->
  aggregates_ok (sn_Checkpoints data') (sn_AggregateCheckpoints data') -> evidence_ok data'.
Proof using Type.
  intros [] Hl He Hr Hv Hs Hst Hsg Ha. split; [done| | | | |done].
  - intros k e Hk. destruct (He _ _ Hk) as [Hk0 Hrec]. destruct (eo_events0 _ _ Hk0) as (HT & -> & r & Hr0 & Hm).
    split_and!; [done|done|]. destruct (Hrec _ Hr0) as (r' & Hr' & E). exists r'. split; [done|].
    destruct E as (E1 & E2 & E3 & E4 & E5). unfold receipt_matches. by rewrite E1, E2, E3, E4, E5.
  - intros k r' Hk. destruct (Hr _ _ Hk) as (r & Hr0 & E & Hres). destruct (eo_receipts0 _ _ Hr0) as [-> Harc].
    pose proof E as (E1 & E2 & _). split; [by rewrite E1, E2|]. intros Hs' He'.
    destruct (Hres Hs' He') as [[Hs0 He0]|?]; [|done]. rewrite (same_evidence_archived _ _ E). auto.
  - rewrite Hst. done.
  - intros T sid HT. destruct (eo_streams0 T sid HT) as (es & n & Hok). exists es, n.
    eapply stream_ok_frame; [done| |done|by rewrite Hst|by rewrite Hsg].
    intros e _. split; intros [k Hk]; exists k; by apply Hv.
Qed.

(** [data'] is in the invariant and shows the same events. *)
Record keeps (data data' : Snapshot) : Prop := {
  kp_ok : evidence_ok data';
  kp_visible : forall T k e, visible data' T k e <-> visible data T k e;
  kp_schemas : sn_Schemas data' = sn_Schemas data
}.

Lemma keeps_trans a b c : keeps a b -> keeps b c -> keeps a c.
Proof using Type. intros [_ H1 E1] [H2 H3 E2]. split; [done| |congruence]. intros T k e. by rewrite H3. Qed.

Lemma update_receipt data K r r' :
  evidence_ok data -> sn_Receipts data !! K = Some r -> same_evidence r r' ->
  (is_Some (sn_Events data !! K) \/ rc_Status r' = rc_Status r) ->
  keeps data (set_sn_Receipts data (<[K := r']> (sn_Receipts data))).
Proof using Type.
  intros Hok Hr Hsame Hcase. set (data' := set_sn_Receipts data _).
  assert (forall T k e, visible data' T k e <-> visible data T k e) as Hv.
  { intros T k e. unfold visible, cold, data'. cbn. f_equiv. destruct (decide (k = K)) as [->|Hne].
    - rewrite lookup_insert_eq. split.
      + intros (x & ([= <-] & HT & Hs & He) & Ha). destruct Hcase as [[? ?]|Hst]; [congruence|].
        exists r. rewrite <- (same_evidence_archived _ _ Hsame). rewrite <- Hst. destruct Hsame as (_ & E & _). rewrite <- E. done.
      + intros (x & (Hx & HT & Hs & He) & Ha). destruct Hcase as [[? ?]|Hst]; [congruence|].
        replace x with r in * by congruence. exists r'. rewrite (same_evidence_archived _ _ Hsame), Hst.
        destruct Hsame as (_ & E & _). rewrite E. done.
    - by rewrite lookup_insert_ne. }
  split; [|done|done]. eapply evidence_frame; try done; [by apply Hok| | |by apply Hok].
  - unfold data'. cbn. intros k e He. split; [done|]. intros x Hx. destruct (decide (k = K)) as [->|Hne].
    + exists r'. rewrite lookup_insert_eq. replace x with r by congruence. done.
    + exists x. by rewrite lookup_insert_ne.
  - unfold data'. cbn. intros k x Hx. destruct (decide (k = K)) as [->|Hne].
    + rewrite lookup_insert_eq in Hx. injection Hx as <-. exists r. split_and!; [done|done|]. intros Hs He.
      destruct Hcase as [[? ?]|Hst]; [congruence|]. left. by rewrite <- Hst.
    + rewrite lookup_insert_ne in Hx by done. exists x. split_and!; [done|done|auto].
Qed.

(** The archive returns the committed body. *)
Definition stored (e : Event) : Prop :=
  archiveGet (eventArchiveKey (ev_TenantID e) (ev_StreamID e) (ev_Sequence e) (ev_EventID e)) = Ok e.

Lemma verified_member head es e : verified_chain head es -> e ∈ es -> eventHash e = Ok (ev_Hash e).
Proof using Type.
  revert head. induction es as [|x es IH]; intros head Hv Hin; [inversion Hin|]. cbn in Hv. destruct Hv as [(_ & Hx & _) Hv].
  apply elem_of_cons in Hin as [->|Hin]; [done|]. by eapply IH.
Qed.

Lemma visible_hash data T k e : evidence_ok data -> tenantOk T -> visible data T k e -> eventHash e = Ok (ev_Hash e).
Proof using Type.
  intros Hok HT Hv. destruct (eo_streams _ Hok T (ev_StreamID e) HT) as (es & n & []).
  eapply verified_member; [by eapply chainProblems_nil|]. apply st_members0. eauto.
Qed.

Lemma eventHash_nonempty e h : eventHash e = Ok h -> h <> "".
Proof using Type.
  intros H ->. apply eventHash_text in H. pose proof (HashBytes_length (hashText e)) as Hl. rewrite <- H in Hl. done.
Qed.

Lemma stored_resolves data k e r : evidence_ok data -> sn_Events data !! k = Some e -> stored e ->
  receipt_matches r e -> archivedEventContext r = Ok e.
Proof using Type.
  intros Hok He Hst (E1 & E2 & E3 & E4 & E5). unfold archivedEventContext. rewrite E1, E2, E3, E4, Hst.
  rewrite !bool_decide_eq_true_2, Z.eqb_refl by done. cbn [negb orb].
  destruct (eo_events _ Hok _ _ He) as (HT & _). assert (eventHash e = Ok (ev_Hash e)) as Hh
    by (eapply visible_hash; [done|done|by left]). rewrite Hh, E5.
  rewrite bool_decide_eq_false_2 by (by eapply eventHash_nonempty). by rewrite bool_decide_eq_true_2.
Qed.

Lemma evict_body data K r :
  evidence_ok data -> sn_Receipts data !! K = Some r -> rc_Status r = StatusArchived ->
  (forall T e, visible data T K e -> stored e) -> keeps data (set_sn_Events data (delete K (sn_Events data))).
Proof using Type.
  intros Hok Hr Hst Hstored. set (data' := set_sn_Events data _).
  assert (forall e, sn_Events data !! K = Some e -> archivedEventContext r = Ok e /\ rc_TenantID r = ev_TenantID e) as Hres.
  { intros e He. destruct (eo_events _ Hok _ _ He) as (_ & _ & x & Hx & Hm). replace x with r in * by congruence.
    split; [|apply Hm]. eapply stored_resolves; eauto. apply (Hstored (ev_TenantID e)). by left. }
  assert (forall T k e, visible data' T k e <-> visible data T k e) as Hv.
  { intros T k e. unfold visible, cold, data'. cbn. destruct (decide (k = K)) as [->|Hne].
    - rewrite lookup_delete_eq. split.
      + intros [[? _]|(x & (Hx & HT & Hs & _) & Ha)]; [done|]. replace x with r in * by congruence.
        destruct (sn_Events data !! K) as [e0|] eqn:Ee; [|right; exists r; done].
        destruct (Hres _ eq_refl) as [Ha' Ht]. left. split; congruence.
      + intros [[He HT]|(x & (Hx & HT & Hs & He) & Ha)]; right; [|exists x; done].
        destruct (Hres _ He) as [Ha Ht]. exists r. split_and!; congruence || done.
    - by rewrite lookup_delete_ne. }
  split; [|done|done]. eapply evidence_frame; try done; [by apply Hok| | |by apply Hok].
  - unfold data'. cbn. intros k e He. apply lookup_delete_Some in He as [_ He]. split; [done|]. intros x Hx. by exists x.
  - unfold data'. cbn. intros k x Hx. exists x. split_and!; [done|done|]. intros Hs He.
    destruct (decide (k = K)) as [->|Hne]; [|rewrite lookup_delete_ne in He by done; auto].
    replace x with r in * by congruence. destruct (sn_Events data !! K) as [e0|] eqn:Ee; [|auto].
    right. destruct (Hres _ eq_refl). eauto.
Qed.

(** ** Closing a segment *)

Lemma StreamKey_inj T sid T' sid' : tenantOk T -> tenantOk T' -> StreamKey T sid = StreamKey T' sid' -> T = T' /\ sid = sid'.
Proof using Type. intros [_ H] [_ H']. by apply EventKey_inj. Qed.

Lemma sealed_describes T sid es n s now id sg cp :
  stream_state T sid es n s -> (n <= length es)%nat -> ss_PendingHashes s <> [] -> sealSegment s now id = Ok (sg, cp) ->
  describes T sid es n (length es - n) sg /\ cp_ID cp = id.
Proof using Type.
  intros (ET & Es & _ & En & Eh & Ep & Epp) Hle Hne H. unfold sealSegment in H.
  assert (drop n es <> []) as Hd by (intros E; rewrite Ep, E in Hne; done).
  assert (length (drop n es) = length es - n)%nat as Hl by apply length_drop.
  assert (0 < length (drop n es))%nat as Hpos by (destruct (drop n es); [done|cbn; lia]).
  destruct (Sign _) as [sig|] eqn:Esig; [|done]. injection H as <- <-. split; [|done].
  rewrite Ep, length_map, Hl in *. split; cbn; try done; try lia.
  - by rewrite <- Epp.
  - rewrite Eh. by rewrite take_ge by lia.
  - by rewrite take_ge by lia.
  - rewrite ET in *. done.
Qed.

Lemma close_segment data K s now id sg cp :
  evidence_ok data -> sn_Streams data !! K = Some s -> ss_PendingHashes s <> [] -> sealSegment s now id = Ok (sg, cp) ->
  id ∉ checkpoint_ids (sn_Checkpoints data) -> evidence_ok (closeSegment data K s sg cp).
Proof using Type.
  intros Hok HK Hne Hseal Hfresh. destruct (eo_keys _ Hok _ _ HK) as [HT ->].
  set (T := ss_TenantID s) in *. set (sid := ss_StreamID s) in *. set (data' := closeSegment _ _ _ _ _).
  destruct (eo_streams _ Hok T sid HT) as (es & n & Hst). pose proof Hst as [Hm Hn Hc Hcov Hstate]. rewrite HK in Hstate.
  pose proof (covers_fit _ _ _ _ _ Hcov) as Hle. destruct (sealed_describes _ _ _ _ _ _ _ _ _ Hstate Hle Hne Hseal) as [Hd Hid].
  pose proof Hok as []. split; [done|done|done| | |].
  - unfold data'. cbn. intros k x Hx. apply lookup_insert_Some in Hx as [[<- <-]|[_ Hx]]; [done|by apply eo_keys0].
  - intros T' sid' HT'. destruct (decide (StreamKey T' sid' = StreamKey T sid)) as [E|Hdiff].
    + apply StreamKey_inj in E as [-> ->]; [|done..]. exists es, (length es). split; [done|done|done| |].
      * unfold data'. cbn. unfold map_get. rewrite lookup_insert_eq. cbn [default].
        replace (length es) with (n + (length es - n))%nat by lia. by constructor.
      * unfold data'. cbn. rewrite lookup_insert_eq. destruct Hstate as (? & ? & ? & ? & ? & _).
        unfold stream_state, clearPendingHashes. cbn. rewrite drop_ge by lia. done.
    + destruct (eo_streams0 T' sid' HT') as (es' & n' & Hst'). exists es', n'.
      eapply stream_ok_frame; [done|done|done| |]; unfold data'; cbn; by rewrite lookup_insert_ne.
  - unfold data'. cbn. apply aggregates_append; [done|]. by rewrite Hid.
Qed.

(** ** Committing an event *)

(** The event ingest hands to the commit: its content digest is the one
    rederived from the protected payload. *)
Record admissible (schemas : gmap string EventSchema) (T : string) (e : Event) : Prop := {
  ad_tenant : ev_TenantID e = T;
  ad_tenantOk : tenantOk T;
  ad_stream : Stream e <> "";
  ad_digest : ev_SourceDigest e <> "";
  ad_content : reconstructAndDerive e schemas = Ok (ev_SourceDigest e)
}.

Lemma reconstruct_coordinates e schemas sid seq prev hash :
  reconstructAndDerive (coordinates e sid seq prev hash) schemas = reconstructAndDerive e schemas.
Proof using Type.
  unfold reconstructAndDerive, reconstructEventForDigest. cbn. destruct (schemas !! _) as [sc|]; [|done].
  destruct (ev_Payload e) as [p|].
  - destruct (decryptFields _ _ _ _) as [p'|]; [|done]. cbn [result_bind].
    exact (content_coordinates (set_ev_Payload e (Some p')) sid seq prev hash).
  - cbn [result_bind]. apply content_coordinates.
Qed.

Lemma derived_verifies e schemas : ev_SourceDigest e <> "" ->
  reconstructAndDerive e schemas = Ok (ev_SourceDigest e) -> verifyContentDigest legacyDigest e schemas = None.
Proof using Type.
  intros Hd H. unfold verifyContentDigest. rewrite bool_decide_eq_false_2 by done. unfold reconstructAndDerive in H.
  apply result_bind_Ok in H as (x & -> & H). unfold MatchEventContentDigest. rewrite H. cbn [result_bind].
  by rewrite bool_decide_eq_true_2.
Qed.

Lemma chainProblems_snoc schemas sid head es e :
  chainProblems legacyDigest schemas sid head es = [] -> eventProblems legacyDigest schemas sid (lastHash head es) e = [] ->
  chainProblems legacyDigest schemas sid head (es ++ [e]) = [].
Proof using Type.
  revert head. induction es as [|x es IH]; intros head H He; cbn [app chainProblems] in *.
  - unfold lastHash in He. cbn in He. by rewrite He.
  - apply app_nil in H as [H1 H2]. rewrite H1. by apply IH.
Qed.

Lemma openStream_state data T sid es n : stream_ok legacyDigest data T sid es n -> sid <> "" ->
  stream_state T sid es n (openStream (sn_Streams data) T sid).
Proof using Type.
  intros [_ _ _ _ Hst] Hne. unfold openStream, map_get. destruct (sn_Streams data !! _) as [s|]; cbn.
  - rewrite bool_decide_eq_false_2; [done|]. destruct Hst as (_ & -> & _). done.
  - subst es. unfold stream_state. cbn. rewrite drop_nil. done.
Qed.

(** The chained event extends its stream by one verified event. *)
Lemma chain_extends data T e0 es n key e s :
  stream_ok legacyDigest data T (Stream e0) es n -> admissible (sn_Schemas data) T e0 ->
  chainEvent e0 (Stream e0) key (openStream (sn_Streams data) T (Stream e0)) = Ok (e, s) ->
  e = coordinates e0 (Stream e0) (Z.of_nat (length es) + 1) (lastHash "" es) (ev_Hash e) /\
  eventProblems legacyDigest (sn_Schemas data) (Stream e0) (lastHash "" es) e = [] /\
  stream_state T (Stream e0) (es ++ [e]) n s.
Proof using Type.
  intros Hst Had H. pose proof (covers_fit _ _ _ _ _ (st_covers _ _ _ _ _ _ Hst)) as Hle.
  pose proof (openStream_state _ _ _ _ _ Hst (ad_stream _ _ _ Had)) as (ET & Es & Hne & En & Eh & Ep & Epp).
  set (s0 := openStream _ _ _) in *. unfold chainEvent in H. apply result_bind_Ok in H as (h & Hh & H).
  rewrite En, Eh in *. set (e1 := set_ev_PrevHash _ _) in *. injection H as <- <-.
  assert (set_ev_Hash e1 h = coordinates e0 (Stream e0) (Z.of_nat (length es) + 1) (lastHash "" es) h) as Ee by done.
  split_and!; [exact Ee| |].
  - rewrite eventProblems_iff. split_and!; [done|by rewrite eventHash_set_Hash|]. rewrite Ee. apply derived_verifies; [apply Had|].
    rewrite reconstruct_coordinates. apply Had.
  - assert (drop n (es ++ [set_ev_Hash e1 h]) = drop n es ++ [set_ev_Hash e1 h])%list as Ed by (by rewrite drop_app_le by lia).
    unfold stream_state. rewrite Ed, lastHash_snoc, length_app, map_app, Ep, length_app, length_map, take_app_le by lia.
    cbn [map length ss_TenantID ss_StreamID ss_NextSequence ss_HeadHash ss_PendingHashes ss_PendingPrevHash].
    split_and!; try done; [lia|]. intros _. case_match eqn:E; [|apply Epp; intros E0; rewrite E0 in E; done].
    apply Nat.eqb_eq in E. rewrite length_drop in E. cbn. by rewrite take_ge by lia.
Qed.

Lemma visible_insert data data' K e r T k x :
  sn_Events data' = <[K := e]> (sn_Events data) -> sn_Receipts data' = <[K := r]> (sn_Receipts data) ->
  sn_Events data !! K = None -> (forall r0, sn_Receipts data !! K = Some r0 -> rc_Status r0 <> StatusArchived) ->
  visible data' T k x <-> visible data T k x \/ (k = K /\ x = e /\ ev_TenantID e = T).
Proof using Type.
  intros Ee Er HK Hr. unfold visible, cold. rewrite Ee, Er. destruct (decide (k = K)) as [->|Hne].
  - rewrite !lookup_insert_eq. split.
    + intros [[[= <-] HT]|(r0 & (_ & _ & _ & ?) & _)]; [by right|done].
    + intros [[[? _]|(r0 & (Hr0 & _ & Hs & _) & _)]|(_ & -> & HT)]; [congruence|by apply Hr in Hr0|by left].
  - rewrite !lookup_insert_ne by done. split; [by left|]. intros [?|(? & _)]; done.
Qed.

Lemma commit_extends data data' T e0 K e s r :
  evidence_ok data -> admissible (sn_Schemas data) T e0 -> K = EventKey T (ev_EventID e0) ->
  sn_Events data !! K = None -> (forall r0, sn_Receipts data !! K = Some r0 -> rc_Status r0 <> StatusArchived) ->
  chainEvent e0 (Stream e0) K (openStream (sn_Streams data) T (Stream e0)) = Ok (e, s) ->
  receipt_matches r e -> rc_Status r <> StatusArchived ->
  sn_LayoutVersion data' = sn_LayoutVersion data -> sn_Schemas data' = sn_Schemas data ->
  sn_Events data' = <[K := e]> (sn_Events data) -> sn_Receipts data' = <[K := r]> (sn_Receipts data) ->
  sn_Streams data' = <[StreamKey T (Stream e0) := s]> (sn_Streams data) -> sn_Segments data' = sn_Segments data ->
  sn_Checkpoints data' = sn_Checkpoints data -> sn_AggregateCheckpoints data' = sn_AggregateCheckpoints data ->
  evidence_ok data'.
Proof using Type.
  intros Hok Had HK HnE HnR Hch Hrm Hrs El Esc Ee Er Est Esg Ecp Eag. pose proof (ad_tenantOk _ _ _ Had) as HT.
  destruct (eo_streams _ Hok T (Stream e0) HT) as (es & n & Hst).
  destruct (chain_extends _ _ _ _ _ _ _ _ Hst Had Hch) as (Ecoord & Hprob & Hstate).
  assert (ev_TenantID e = T /\ ev_EventID e = ev_EventID e0 /\ ev_StreamID e = Stream e0 /\
    ev_Sequence e = Z.of_nat (length es) + 1) as (EeT & EeID & EeS & EeQ)
    by (rewrite Ecoord; split_and!; [apply Had|done|done|done]).
  assert (forall T' k x, visible data' T' k x <-> visible data T' k x \/ (k = K /\ x = e /\ ev_TenantID e = T')) as Hv
    by (intros; by eapply visible_insert).
  pose proof Hok as []. split; [lia| | | | |by rewrite Ecp, Eag].
  - intros k x Hx. rewrite Ee in Hx. rewrite Er. destruct (decide (k = K)) as [->|Hne].
    + rewrite lookup_insert_eq in Hx. injection Hx as <-. rewrite EeT, EeID. split_and!; [done|done|].
      exists r. by rewrite lookup_insert_eq.
    + rewrite lookup_insert_ne in Hx by done. destruct (eo_events0 _ _ Hx) as (? & ? & r0 & ? & ?). split_and!; [done|done|].
      exists r0. by rewrite lookup_insert_ne.
  - intros k x Hx. rewrite Er in Hx. rewrite Ee. destruct (decide (k = K)) as [->|Hne].
    + rewrite lookup_insert_eq in Hx. injection Hx as <-. destruct Hrm as (E1 & E2 & _). by rewrite E1, E2, EeT, EeID.
    + rewrite lookup_insert_ne in Hx by done. rewrite lookup_insert_ne by done. by apply eo_receipts0.
  - intros k x Hx. rewrite Est in Hx. apply lookup_insert_Some in Hx as [[<- <-]|[_ Hx]]; [|by apply eo_keys0].
    destruct Hstate as (-> & -> & _). done.
  - intros T' sid' HT'. destruct (decide (StreamKey T' sid' = StreamKey T (Stream e0))) as [E|Hdiff].
    + apply StreamKey_inj in E as [-> ->]; [|done..]. exists (es ++ [e])%list, n. destruct Hst as [Hm Hn Hc Hcov _]. split.
      * intros x. rewrite elem_of_app, list_elem_of_singleton, Hm. split.
        -- intros [[? [k Hk]]| ->]; (split; [done|]); [exists k|exists K]; apply Hv; auto.
        -- intros [Hs [k [Hk|(_ & ? & _)]%Hv]]; eauto.
      * by apply numbered_snoc.
      * rewrite Esc. by apply chainProblems_snoc.
      * rewrite Esg. by apply covers_more.
      * rewrite Est, lookup_insert_eq. done.
    + destruct (eo_streams0 T' sid' HT') as (es' & n' & Hst'). exists es', n'.
      eapply stream_ok_frame; [done| |by rewrite Esc|by rewrite Est, lookup_insert_ne|by rewrite Esg].
      intros x Hx. split; intros [k Hk]; exists k; [|by apply Hv; left].
      apply Hv in Hk as [?|(-> & -> & HeT)]; [done|]. exfalso. apply Hdiff. congruence.
Qed.

End service.

End EvidenceInv.
