(* ===== verification/EvidenceSteps.v ===== *)
(** * Runs of the evidence store

    Every mutation of the snapshot layout as a step; whatever sequence of
    steps a deployment takes, VerifyIntegrity finds nothing wrong.  One
    interleaving is excluded by the steps' conditions, and the last theorem
    shows why: a receipt transition that arrives after the archive worker has
    evicted the body hides the committed event. *)

From Stdlib Require Import Ascii String Sorted.
From S2P Require Import Prelude GoStr Sha256 Merkle Signer Domain Canonical Keys Store Aggregate AggregateProps Evidence Integrity ChainProps EvidenceProps EvidenceInv.
Open Scope string_scope.
Open Scope Z_scope.
Import Domain Canonical Keys Store Sha256 Merkle Signer Aggregate AggregateProps Evidence Integrity ChainProps EvidenceProps EvidenceInv.

Module EvidenceSteps.

Local Opaque HashBytes hashText hashValue merkleRoot EventContentDigest.

(** Folds over a result: an error stays. *)
Lemma fold_left_Err {A B} (f : result A -> B -> result A) l e :
  (forall b e, f (Err e) b = Err e) -> fold_left f l (Err e) = Err e.
Proof. intros Hf. induction l as [|b l IH]; [done|]. cbn. by rewrite Hf. Qed.

Section service.
Context {signer : Signer} {signer_ok : SignerOk signer} {crypto : FieldCrypto} {archive : ArchiveReader}.
Variable legacyDigest : Event -> result string.

Abbreviation evidence := (evidence_ok legacyDigest).

(** ** Ingest *)

Lemma checkExisting_None data T id d : checkExistingIngest data T id d = None ->
  sn_Events data !! EventKey T id = None /\
  forall r, sn_Receipts data !! EventKey T id = Some r -> rc_Status r <> StatusArchived.
Proof using Type.
  unfold checkExistingIngest. intros H. destruct (sn_Events data !! _) as [e|].
  - destruct (reconstructAndDerive e _); [|done]. by case_match.
  - split; [done|]. intros r Hr. rewrite Hr in H. case_bool_decide; [|done].
    destruct (archivedEventContext r) as [e|]; [|done]. destruct (reconstructAndDerive e _); [|done]. by case_match.
Qed.

Lemma checkExisting_data data T id d receipt data' :
  checkExistingIngest data T id d = Some (receipt, Ok data') -> data' = data.
Proof using Type.
  unfold checkExistingIngest. intros H. destruct (match sn_Events data !! _ with Some _ => _ | None => _ end) as [[e|]|]; [|done|done].
  destruct (reconstructAndDerive e _); [|done]. case_match; congruence.
Qed.

Lemma ledgered_matches T e : ev_TenantID e = T -> receipt_matches (ledgeredReceipt T e) e.
Proof using Type. intros <-. done. Qed.

Lemma commit_ok size publish T cid e data data' :
  evidence data -> admissible (sn_Schemas data) T e -> cid ∉ checkpoint_ids (sn_Checkpoints data) ->
  sn_Events data !! EventKey T (ev_EventID e) = None ->
  (forall r, sn_Receipts data !! EventKey T (ev_EventID e) = Some r -> rc_Status r <> StatusArchived) ->
  io_data (commitEvent size publish T cid e data) = Ok data' -> evidence data'.
Proof using Type.
  intros Hok Had Hfresh HnE HnR H. unfold commitEvent in H.
  destruct (chainEvent _ _ _ _) as [[e' s]|] eqn:Ech; [|done]. cbv zeta in H.
  set (K := EventKey T (ev_EventID e)) in *. set (skey := StreamKey T (Stream e)) in *.
  set (d1 := set_sn_Receipts _ _) in H. assert (evidence d1) as Hd1.
  { destruct (eo_streams _ _ Hok T (Stream e) (ad_tenantOk _ _ _ Had)) as (es & n & Hst).
    destruct (chain_extends _ _ _ _ _ _ _ _ _ Hst Had Ech) as (Ee & _).
    eapply (commit_extends legacyDigest data d1 T e K e' s (ledgeredReceipt T e')); try done; try (by subst d1; destruct publish).
    apply ledgered_matches. rewrite Ee. apply Had. }
  assert (sn_Streams d1 !! skey = Some s) as Hs by (subst d1; destruct publish; apply lookup_insert_eq).
  assert (sn_Checkpoints d1 = sn_Checkpoints data) as Hc by (subst d1; by destruct publish).
  clearbody d1. case_match eqn:Esz; [cbn in H; congruence|].
  destruct (sealSegment s _ _) as [[sg cp]|] eqn:Eseal; [|done]. cbn in H. injection H as <-.
  eapply close_segment; eauto; [|by rewrite Hc].
  unfold chainEvent in Ech. apply result_bind_Ok in Ech as (h & _ & Ech). injection Ech as <- <-.
  cbn [ss_PendingHashes]. intros E%(f_equal length). rewrite length_app in E. cbn in E. lia.
Qed.

Lemma ingest_ok size publish hint client T cid e digest data data' :
  evidence data -> admissible (sn_Schemas data) T e -> cid ∉ checkpoint_ids (sn_Checkpoints data) ->
  io_data (ingestClosure size publish hint client T cid e digest data) = Ok data' -> evidence data'.
Proof using Type.
  intros Hok Had Hfresh H. unfold ingestClosure in H. destruct (resolveIngestTenantFromData _ _ _ _); [|done].
  case_match; [done|]. destruct (checkExistingIngest _ _ _ _) as [[receipt r]|] eqn:E.
  - cbn in H. subst r. apply checkExisting_data in E. by subst.
  - case_match; [done|]. apply checkExisting_None in E as [HnE HnR]. by eapply commit_ok.
Qed.

(** ** Transitions and the archive pass *)

(** The event is visible and the archive returns its body. *)
Definition archived_visible (data : Snapshot) (T id : string) : Prop :=
  exists e, visible data T (EventKey T id) e /\ stored e.

Lemma visible_functional data T T' k e e' : evidence data -> tenantOk T -> visible data T k e -> visible data T' k e' -> e = e'.
Proof using Type.
  intros Hok HT [[He HeT]|(r & (Hr & HrT & _ & Hn) & Ha)] [[He' _]|(r' & (Hr' & _ & _ & Hn') & Ha')]; congruence.
Qed.

Lemma visible_receipt data T k e : evidence data -> visible data T k e -> exists r, sn_Receipts data !! k = Some r /\
  (is_Some (sn_Events data !! k) \/ rc_Status r = StatusArchived).
Proof using Type.
  intros Hok [[He _]|(r & (Hr & _ & Hs & _) & _)]; [|by exists r; auto].
  destruct (eo_events _ _ Hok _ _ He) as (_ & _ & r & Hr & _). exists r. eauto.
Qed.

(** Rewrite a receipt as archived and drop the body. *)
Lemma mark_ok data T id r r' :
  evidence data -> tenantOk T -> archived_visible data T id -> sn_Receipts data !! EventKey T id = Some r ->
  same_evidence r r' -> rc_Status r' = StatusArchived ->
  keeps legacyDigest data (set_sn_Events (set_sn_Receipts data (<[EventKey T id := r']> (sn_Receipts data)))
                             (delete (EventKey T id) (sn_Events data))).
Proof using Type.
  intros Hok HT (e & Hv & Hst) Hr Hsame Hs. destruct (visible_receipt _ _ _ _ Hok Hv) as (x & Hx & Hcase).
  replace x with r in * by congruence. eapply keeps_trans.
  - eapply (update_receipt legacyDigest data _ r r'); eauto. destruct Hcase as [?|E]; [by left|right; congruence].
  - destruct (update_receipt legacyDigest data (EventKey T id) r r') as [Hok' Hv' _]; [done|done|done| |].
    { destruct Hcase as [?|E]; [by left|right; congruence]. }
    apply (evict_body legacyDigest (set_sn_Receipts data (<[EventKey T id := r']> (sn_Receipts data))) (EventKey T id) r');
      [done|apply lookup_insert_eq|done|].
    intros T' e' H'%Hv'. by rewrite <- (visible_functional _ _ _ _ _ _ Hok HT Hv H').
Qed.

Lemma transition_ok T id status (evict : bool) now data r data' :
  evidence data -> tenantOk T ->
  (if evict then status = StatusArchived /\ archived_visible data T id else is_Some (sn_Events data !! EventKey T id)) ->
  transitionClosure T id status evict now data = Ok (r, data') -> keeps legacyDigest data data'.
Proof using Type.
  intros Hok HT Hc H. unfold transitionClosure in H. destruct (sn_Receipts data !! _) as [r0|] eqn:Er; [|done].
  injection H as <- <-. destruct evict.
  - destruct Hc as [-> Hc]. by eapply (mark_ok data T id r0).
  - by eapply (update_receipt legacyDigest data _ r0); [..|left].
Qed.

Lemma evict_fold keys data :
  evidence data -> (forall k T e, k ∈ keys -> visible data T k e -> stored e) ->
  keeps legacyDigest data (fold_left evictArchived keys data).
Proof using Type.
  revert data. induction keys as [|k keys IH]; intros data Hok Hst; [by split|]. cbn [fold_left].
  assert (keeps legacyDigest data (evictArchived data k)) as Hk.
  { unfold evictArchived. destruct (sn_Receipts data !! k) as [r|] eqn:Er; [|by split]. case_bool_decide; [|by split].
    eapply evict_body; eauto. intros T e. apply Hst. left. }
  eapply keeps_trans; [exact Hk|]. apply IH; [apply (kp_ok _ _ _ Hk)|]. intros k' T e Hin Hv%(kp_visible _ _ _ Hk). apply (Hst k' T); [by right|done].
Qed.

Lemma mark_fold T now events data data' :
  evidence data -> tenantOk T -> (forall e, e ∈ events -> archived_visible data T (ev_EventID e)) ->
  fold_left (markArchived T now) events (Ok data) = Ok data' -> keeps legacyDigest data data'.
Proof using Type.
  revert data. induction events as [|e events IH]; intros data Hok HT Hst H; [injection H as <-; by split|]. cbn [fold_left] in H.
  destruct (markArchived T now (Ok data) e) as [d|] eqn:E; [|by rewrite fold_left_Err in H].
  assert (keeps legacyDigest data d) as Hk.
  { unfold markArchived in E. cbn [result_bind] in E. destruct (sn_Receipts data !! _) as [r|] eqn:Er; [|done]. injection E as <-.
    by apply (mark_ok data T (ev_EventID e) r); [| |apply Hst; left|..]. }
  eapply keeps_trans; [exact Hk|]. apply IH; [apply (kp_ok _ _ _ Hk)|done| |done].
  intros x Hx. destruct (Hst x) as (y & Hv & Hy); [by right|]. exists y. split; [by apply (kp_visible _ _ _ Hk)|done].
Qed.

Lemma dead_fold dead data data' :
  evidence data -> fold_left markDeadLetter dead (Ok data) = Ok data' -> keeps legacyDigest data data'.
Proof using Type.
  revert data. induction dead as [|[k dl] dead IH]; intros data Hok H; [injection H as <-; by split|]. cbn [fold_left] in H.
  destruct (markDeadLetter (Ok data) (k, dl)) as [d|] eqn:E; [|by rewrite fold_left_Err in H].
  assert (keeps legacyDigest data d) as Hk.
  { unfold markDeadLetter in E. cbn [result_bind] in E. set (d0 := set_sn_DeadLetters _ _) in E.
    assert (keeps legacyDigest data d0) as Hk0.
    { split; [|done|done]. destruct Hok. split; try done. intros T sid HT. destruct (eo_streams0 T sid HT) as (es & n & Hs).
      exists es, n. by eapply stream_ok_frame. }
    clearbody d0. destruct (sn_Receipts d0 !! k) as [r|] eqn:Er; [|case_match; by inversion E; subst]. injection E as <-.
    eapply keeps_trans; [exact Hk0|]. eapply (update_receipt legacyDigest d0 k r); [apply (kp_ok _ _ _ Hk0)|done|done|by right]. }
  eapply keeps_trans; [exact Hk|]. apply IH; [apply (kp_ok _ _ _ Hk)|done].
Qed.

(** Fields outside the evidence may change freely; schemas may be added. *)
Record evidence_same (data data' : Snapshot) : Prop := {
  es_layout : sn_LayoutVersion data' = sn_LayoutVersion data;
  es_schemas : sn_Schemas data ⊆ sn_Schemas data';
  es_events : sn_Events data' = sn_Events data;
  es_receipts : sn_Receipts data' = sn_Receipts data;
  es_streams : sn_Streams data' = sn_Streams data;
  es_segments : sn_Segments data' = sn_Segments data
}.

Lemma same_ok data data' : evidence data -> evidence_same data data' ->
  aggregates_ok (sn_Checkpoints data') (sn_AggregateCheckpoints data') -> evidence data'.
Proof using Type.
  intros Hok [] Ha. assert (forall T k e, visible data' T k e <-> visible data T k e) as Hv
    by (intros; unfold visible, cold; by rewrite es_events0, es_receipts0).
  eapply evidence_frame; try done.
  - rewrite es_layout0. apply Hok.
  - intros k e. rewrite es_events0, es_receipts0. intros He. split; [done|]. intros r Hr. by exists r.
  - intros k r. rewrite es_events0, es_receipts0. intros Hr. exists r. split_and!; [done|done|auto].
Qed.

Lemma archive_keeps T now keys events dead data data' :
  evidence data -> tenantOk T -> (forall k T' e, k ∈ keys -> visible data T' k e -> stored e) ->
  (forall e, e ∈ events -> archived_visible data T (ev_EventID e)) ->
  archiveClosure T now keys events dead data = Ok data' -> keeps legacyDigest data data'.
Proof using Type.
  intros Hok HT Hk He H. unfold archiveClosure in H. pose proof (evict_fold keys data Hok Hk) as K1.
  apply result_bind_Ok in H as (d2 & H2 & H). apply result_bind_Ok in H as (d3 & H3 & H). injection H as <-.
  assert (keeps legacyDigest (fold_left evictArchived keys data) d2) as K2.
  { eapply mark_fold; [apply (kp_ok _ _ _ K1)|exact HT| |exact H2]. intros e Hin. destruct (He e Hin) as (x & Hv & Hx).
    exists x. split; [by apply (kp_visible _ _ _ K1)|done]. }
  pose proof (dead_fold _ _ _ (kp_ok _ _ _ K2) H3) as K3. eapply keeps_trans; [exact K1|]. eapply keeps_trans; [exact K2|].
  eapply keeps_trans; [exact K3|]. pose proof (kp_ok _ _ _ K3) as Hok3. split; [|done|done]. eapply same_ok; [exact Hok3|by split|apply Hok3].
Qed.

(** ** Sealing and aggregates *)

Lemma seal_fold T now newID entries d b data' b' :
  (forall k k', newID k = newID k' -> k = k') ->
  evidence d -> NoDup entries.*1 ->
  (forall k s, (k, s) ∈ entries -> sn_Streams d !! k = Some s /\ newID k ∉ checkpoint_ids (sn_Checkpoints d)) ->
  fold_left (sealStream T now newID) entries (Ok (d, b)) = Ok (data', b') -> evidence data'.
Proof using Type.
  intros Hinj. revert d b. induction entries as [|[k s] entries IH]; intros d b Hok Hnd Hin H; [cbn in H; congruence|].
  cbn [fmap list_fmap] in Hnd. apply NoDup_cons in Hnd as [Hk Hnd]. cbn [fold_left] in H.
  destruct (sealStream T now newID (Ok (d, b)) (k, s)) as [[d1 b1]|] eqn:E; [|by rewrite fold_left_Err in H].
  destruct (Hin k s ltac:(left)) as [Hs Hf]. unfold sealStream in E. cbn [result_bind] in E. case_match eqn:Etest.
  - injection E as <- <-. eapply IH; eauto. intros k' s' H'. apply Hin. by right.
  - apply result_bind_Ok in E as ([sg cp] & Eseal & E). injection E as <- <-. bool_prop. cbn [fst snd] in H.
    eapply IH; [|exact Hnd| |exact H]; [by eapply close_segment|]. intros k' s' H'. destruct (Hin k' s') as [Hs' Hf']; [by right|].
    assert (k' <> k) as Hne by (intros ->; apply Hk, list_elem_of_fmap; by exists (k, s')).
    cbn. rewrite lookup_insert_ne by done. split; [done|].
    assert (cp_ID cp = newID k) as Hcp by (unfold sealSegment in Eseal; destruct (Sign _); [by injection Eseal as <- <-|done]).
    rewrite checkpoint_ids_append, not_elem_of_cons, Hcp. split; [|done]. intros Eid. by apply Hne, Hinj.
Qed.

Lemma trim_subset items T n a : a ∈ (trimAggregateCheckpoints items T n).1 -> a ∈ items.
Proof using Type.
  unfold trimAggregateCheckpoints. case_match; [done|]. cbn [fst]. rewrite elem_of_reverse. intros Hin. apply elem_of_reverse.
  revert Hin. generalize (reverse items) as l. generalize (Z.to_nat n) as k. intros k l. revert k.
  induction l as [|x l IH]; intros k; cbn [keepNewest]; [done|]. rewrite elem_of_cons. case_match; [destruct k|].
  - eauto.
  - rewrite elem_of_cons. intros [->|?]; eauto.
  - rewrite elem_of_cons. intros [->|?]; eauto.
Qed.

Lemma create_ok T id now cap data data' saved :
  evidence data -> createAggregate T id now cap data = Ok (data', saved) -> evidence data'.
Proof using signer_ok.
  intros Hok H. unfold createAggregate in H. apply result_bind_Ok in H as (refs & Hrefs & H).
  destruct (eo_aggregates _ _ Hok) as [Hu Hv]. destruct refs as [|r refs]; [by injection H as <- <-|].
  apply result_bind_Ok in H as (p & Hp & H). apply result_bind_Ok in H as (sig & Hsig & H).
  destruct (Sign p) as [sg|] eqn:Es; [injection Hsig as ->|done].
  assert (forall l, (forall a, a ∈ l -> aggregateProblem (ag_TenantID a) a (sn_Checkpoints data) = None) ->
    evidence (set_sn_AggregateCheckpoints data (trimAggregateCheckpoints l T (retentionCap cap)).1)) as Hdone.
  { intros l Hl. eapply same_ok; [exact Hok|by split|]. split; [done|]. cbn. intros a Ha%trim_subset. by apply Hl. }
  pose proof (signed_verifies T (sn_Checkpoints data) (r :: refs) id now sig p Hu Hrefs ltac:(done) Hp Es) as Hsv.
  set (signed := mkAggregateCheckpoint id T _ _ sig _ _ _ _ _) in *.
  destruct (match lastAggregateCheckpoint _ _ with Some _ => _ | None => _ end).
  - pose proof (Hdone _ Hv) as Hd. destruct (trimAggregateCheckpoints _ _ _) as [out ch]. injection H as <- <-. exact Hd.
  - pose proof (Hdone (sn_AggregateCheckpoints data ++ [signed])%list) as Hd.
    destruct (trimAggregateCheckpoints _ _ _) as [out ch]. injection H as <- <-. apply Hd.
    intros a [Ha| ->%list_elem_of_singleton]%elem_of_app; [by apply Hv|exact Hsv].
Qed.

(** ** Runs *)

(** One committed mutation.  [newID] never repeats an identifier; an event is
    marked archived only when the archive returns its body; a transition that
    does not evict finds the body still there. *)
Inductive step (data : Snapshot) : Snapshot -> Prop :=
  | step_ingest size publish hint client T cid e digest data' :
      admissible (sn_Schemas data) T e -> cid ∉ checkpoint_ids (sn_Checkpoints data) ->
      io_data (ingestClosure size publish hint client T cid e digest data) = Ok data' -> step data data'
  | step_transition T id status (evict : bool) now r data' :
      tenantOk T ->
      (if evict then status = StatusArchived /\ archived_visible data T id else is_Some (sn_Events data !! EventKey T id)) ->
      transitionClosure T id status evict now data = Ok (r, data') -> step data data'
  | step_archive T now keys events dead data' :
      tenantOk T -> (forall k T' e, k ∈ keys -> visible data T' k e -> stored e) ->
      (forall e, e ∈ events -> archived_visible data T (ev_EventID e)) ->
      archiveClosure T now keys events dead data = Ok data' -> step data data'
  | step_seal T now newID data' saved :
      (forall k k', newID k = newID k' -> k = k') ->
      (forall k, newID k ∉ checkpoint_ids (sn_Checkpoints data)) ->
      sealPendingSegments T now newID data = Ok (data', saved) -> step data data'
  | step_aggregate T id now cap data' saved :
      createAggregate T id now cap data = Ok (data', saved) -> step data data'
  | step_other data' :
      evidence_same data data' -> sn_Checkpoints data' = sn_Checkpoints data ->
      sn_AggregateCheckpoints data' = sn_AggregateCheckpoints data -> step data data'.

(** Committed events stay visible, and schemas stay. *)
Record extends (data data' : Snapshot) : Prop := {
  ex_visible : forall T k e, visible data T k e -> visible data' T k e;
  ex_schemas : sn_Schemas data ⊆ sn_Schemas data'
}.

Lemma extends_refl data : extends data data.
Proof using Type. by split. Qed.

Lemma keeps_extends data data' : keeps legacyDigest data data' -> extends data data'.
Proof using Type. intros [_ Hv Hs]. split; [intros T k e; apply Hv|by rewrite Hs]. Qed.

Lemma same_extends data data' : evidence_same data data' -> extends data data'.
Proof using Type. intros []. split; [|done]. intros T k e. unfold visible, cold. by rewrite es_events0, es_receipts0. Qed.

Lemma commit_extends_visible size publish T cid e data data' :
  sn_Events data !! EventKey T (ev_EventID e) = None ->
  (forall r, sn_Receipts data !! EventKey T (ev_EventID e) = Some r -> rc_Status r <> StatusArchived) ->
  io_data (commitEvent size publish T cid e data) = Ok data' -> extends data data'.
Proof using Type.
  intros HnE HnR H. unfold commitEvent in H. destruct (chainEvent _ _ _ _) as [[e' s]|]; [|done]. cbv zeta in H.
  set (d1 := set_sn_Receipts _ _) in H. assert (extends data d1) as [Hv Hs].
  { split; [|subst d1; by destruct publish]. intros T' k x Hx.
    eapply (visible_insert data d1 (EventKey T (ev_EventID e)) e'); [by subst d1; destruct publish..|done|done|by left]. }
  clearbody d1. case_match; [by injection H as <-|].
  destruct (sealSegment s _ _) as [[sg cp]|]; [|done]. injection H as <-. by split.
Qed.

Lemma ingest_extends size publish hint client T cid e digest data data' :
  io_data (ingestClosure size publish hint client T cid e digest data) = Ok data' -> extends data data'.
Proof using Type.
  intros H. unfold ingestClosure in H. destruct (resolveIngestTenantFromData _ _ _ _); [|done].
  case_match; [done|]. destruct (checkExistingIngest _ _ _ _) as [[receipt r]|] eqn:E.
  - cbn in H. subst r. apply checkExisting_data in E as ->. apply extends_refl.
  - case_match; [done|]. apply checkExisting_None in E as [HnE HnR]. by eapply commit_extends_visible.
Qed.

Lemma seal_extends T now newID entries d b data' b' :
  fold_left (sealStream T now newID) entries (Ok (d, b)) = Ok (data', b') -> extends d data'.
Proof using Type.
  revert d b. induction entries as [|[k s] entries IH]; intros d b H; [injection H as <- <-; apply extends_refl|]. cbn [fold_left] in H.
  destruct (sealStream T now newID (Ok (d, b)) (k, s)) as [[d1 b1]|] eqn:E; [|by rewrite fold_left_Err in H].
  destruct (IH _ _ H) as [Hv Hs]. unfold sealStream in E. cbn [result_bind] in E. case_match.
  - injection E as <- <-. by split.
  - apply result_bind_Ok in E as ([sg cp] & _ & E). injection E as <- <-. by split.
Qed.

Lemma create_extends T id now cap data data' saved :
  createAggregate T id now cap data = Ok (data', saved) -> extends data data'.
Proof using Type.
  unfold createAggregate. intros H. apply result_bind_Ok in H as ([|r refs] & _ & H); [injection H as <- <-; apply extends_refl|].
  apply result_bind_Ok in H as (p & _ & H). apply result_bind_Ok in H as (sig & _ & H).
  case_match; destruct (trimAggregateCheckpoints _ _ _) as [out ch]; injection H as <- <-; by split.
Qed.

Lemma step_ok data data' : evidence data -> step data data' -> evidence data' /\ extends data data'.
Proof using signer_ok.
  intros Hok [size publish hint client T cid e digest d Ha Hf H|T id status evict now r d HT Hc H|T now keys events dead d HT Hk He H
    |T now newID d saved Hi Hf H|T id now cap d saved H|d Hs Hc Ha].
  - split; [by eapply ingest_ok|by eapply ingest_extends].
  - pose proof (transition_ok _ _ _ _ _ _ _ _ Hok HT Hc H) as Hkp. split; [by eapply kp_ok|by apply keeps_extends].
  - pose proof (archive_keeps _ _ _ _ _ _ _ Hok HT Hk He H) as Hkp. split; [by eapply kp_ok|by apply keeps_extends].
  - unfold sealPendingSegments in H. split; [|by eapply seal_extends].
    eapply seal_fold; [exact Hi|exact Hok|apply NoDup_fst_map_to_list| |exact H]. intros k s Hin%elem_of_map_to_list. auto.
  - split; [by eapply create_ok|by eapply create_extends].
  - split; [|by apply same_extends]. eapply same_ok; [exact Hok|exact Hs|]. rewrite Hc, Ha. apply Hok.
Qed.

Lemma run_from data data' : evidence data -> rtc step data data' -> evidence data' /\ extends data data'.
Proof using signer_ok.
  intros Hok Hrun. induction Hrun as [|a b c Hab _ IH]; [by split|]. destruct (step_ok _ _ Hok Hab) as [Hb [Hv1 Hs1]].
  destruct (IH Hb) as [Hc [Hv2 Hs2]]. split; [done|]. split; [auto|by etrans].
Qed.

(** No evidence yet. *)
Record no_evidence (data : Snapshot) : Prop := {
  ne_layout : sn_LayoutVersion data < 2;
  ne_events : sn_Events data = ∅;
  ne_receipts : sn_Receipts data = ∅;
  ne_streams : sn_Streams data = ∅;
  ne_segments : sn_Segments data = ∅;
  ne_checkpoints : sn_Checkpoints data = ∅;
  ne_aggregates : sn_AggregateCheckpoints data = []
}.

Lemma no_evidence_ok data : no_evidence data -> evidence data.
Proof using Type.
  intros [Hl He Hr Hs Hg Hc Ha]. split; [done|by rewrite He|by rewrite Hr|by rewrite Hs| |].
  - intros T sid _. exists [], 0%nat. split; [|done|done| |].
    + intros e. split; [by intros ?%elem_of_nil|]. intros [_ [k [[H _]|(r & (H & _) & _)]]]; [by rewrite He in H|by rewrite Hr in H].
    + rewrite Hg. constructor.
    + by rewrite Hs.
  - rewrite Hc, Ha. split; [constructor|]. by intros a ?%elem_of_nil.
Qed.

Lemma run_ok data data' : no_evidence data -> rtc step data data' -> evidence data'.
Proof using signer_ok. intros Hne%no_evidence_ok Hrun. by apply (run_from data data'). Qed.

Lemma scope_ok T : requireTenantScope T = Ok tt -> tenantOk T.
Proof using Type.
  unfold requireTenantScope. case_bool_decide; [done|]. intros [Hsep _]%ValidTenantID_spec. by split.
Qed.


(** ** Idempotent retries *)

Lemma reconstruct_mono e schemas schemas' digest : schemas ⊆ schemas' ->
  reconstructAndDerive e schemas = Ok digest -> reconstructAndDerive e schemas' = Ok digest.
Proof using Type.
  intros Hs. unfold reconstructAndDerive, reconstructEventForDigest. destruct (schemas !! _) as [sc|] eqn:E; [|done].
  by rewrite (lookup_weaken _ _ _ _ E Hs).
Qed.

(** A visible event is found, with the receipt that carries its coordinates. *)
Lemma visible_found data T id e digest : evidence data -> tenantOk T -> visible data T (EventKey T id) e ->
  reconstructAndDerive e (sn_Schemas data) = Ok digest ->
  exists r, receipt_matches r e /\
    checkExistingIngest data T id digest = Some (set_rc_Duplicate r true, Ok data).
Proof using Type.
  intros Hok HT Hv Hd. unfold checkExistingIngest, map_get. destruct Hv as [[He HeT]|(r & (Hr & HrT & Hs & Hn) & Ha)].
  - rewrite He. destruct (eo_events _ _ Hok _ _ He) as (_ & _ & r & Hr & Hm). exists r. split; [done|].
    rewrite Hd, Hr. by rewrite bool_decide_eq_true_2.
  - rewrite Hn, Hr, (bool_decide_eq_true_2 _ Hs), Ha, Hd. exists r. split; [|by rewrite bool_decide_eq_true_2].
    assert (eventHash e = Ok (ev_Hash e)) as Hh by (eapply visible_hash; [done|exact HT|right; by exists r]).
    apply archived_identity in Ha as (E1 & E2 & E3 & E4 & E5). unfold receipt_matches. rewrite E1, E2, E3, E4.
    split_and!; try done. congruence.
Qed.

(** What a fresh commit leaves behind. *)
Lemma commit_result size publish T cid e data data' :
  evidence data -> admissible (sn_Schemas data) T e ->
  io_data (commitEvent size publish T cid e data) = Ok data' ->
  exists e', sn_Events data' !! EventKey T (ev_EventID e) = Some e' /\ sn_Schemas data' = sn_Schemas data /\
    io_receipt (commitEvent size publish T cid e data) = ledgeredReceipt T e' /\ ev_TenantID e' = T /\
    reconstructAndDerive e' (sn_Schemas data) = Ok (ev_SourceDigest e).
Proof using Type.
  intros Hok Had H. destruct (eo_streams _ _ Hok T (Stream e) (ad_tenantOk _ _ _ Had)) as (es & n & Hst).
  unfold commitEvent in *. destruct (chainEvent _ _ _ _) as [[e' s]|] eqn:Ech; [|done]. cbv zeta in *.
  destruct (chain_extends _ _ _ _ _ _ _ _ _ Hst Had Ech) as (Ee & _). set (d1 := set_sn_Receipts _ _) in *.
  assert (sn_Events d1 !! EventKey T (ev_EventID e) = Some e' /\ sn_Schemas d1 = sn_Schemas data) as [H1 H2]
    by (subst d1; destruct publish; (split; [apply lookup_insert_eq|done])).
  clearbody d1. exists e'. assert (ev_TenantID e' = T /\ reconstructAndDerive e' (sn_Schemas data) = Ok (ev_SourceDigest e)) as [H3 H4]
    by (rewrite Ee; split; [apply Had|rewrite reconstruct_coordinates; apply Had]).
  case_match; [injection H as <-; done|]. destruct (sealSegment s _ _) as [[sg cp]|]; [|done]. injection H as <-. done.
Qed.

Lemma retry_found d0 d d1 d2 size publish hint client T cid cid' e :
  no_evidence d0 -> rtc step d0 d -> admissible (sn_Schemas d) T e -> cid ∉ checkpoint_ids (sn_Checkpoints d) ->
  let first := ingestClosure size publish hint client T cid e (ev_SourceDigest e) d in
  let retry := ingestClosure size publish hint client T cid' e (ev_SourceDigest e) d2 in
  io_data first = Ok d1 -> rc_Duplicate (io_receipt first) = false -> rtc step d1 d2 ->
  resolveIngestTenantFromData d2 hint client (ev_SourceSystem e) = Ok T ->
  io_data retry = Ok d2 /\ io_sealed retry = [] /\ rc_Duplicate (io_receipt retry) = true /\
  rc_StreamID (io_receipt retry) = rc_StreamID (io_receipt first) /\
  rc_Sequence (io_receipt retry) = rc_Sequence (io_receipt first) /\
  rc_Hash (io_receipt retry) = rc_Hash (io_receipt first).
Proof using signer_ok legacyDigest.
  intros Hne Hrun Had Hfresh first retry Hfirst Hdup Hrun2 Hacc. pose proof (run_ok _ _ Hne Hrun) as Hok.
  pose proof (ad_tenantOk _ _ _ Had) as HT.
  assert (evidence d1) as Hok1 by (by eapply ingest_ok). destruct (run_from _ _ Hok1 Hrun2) as [Hok2 [Hv Hs]].
  assert (exists e', visible d1 T (EventKey T (ev_EventID e)) e' /\ io_receipt first = ledgeredReceipt T e' /\
    reconstructAndDerive e' (sn_Schemas d1) = Ok (ev_SourceDigest e)) as (e' & Hvis & Hrec & Hder).
  { unfold first, ingestClosure in *. destruct (resolveIngestTenantFromData d _ _ _); [|done]. case_match; [done|].
    destruct (checkExistingIngest _ _ _ _) as [[receipt r]|] eqn:E.
    - exfalso. cbn in Hfirst, Hdup. subst r. unfold checkExistingIngest in E.
      destruct (match sn_Events d !! _ with Some _ => _ | None => _ end) as [[x|]|]; [|done|done].
      destruct (reconstructAndDerive x _); [|done]. case_match; [|done]. by injection E as <- <-.
    - case_match; [done|]. destruct (commit_result _ _ _ _ _ _ _ Hok Had Hfirst) as (e' & He' & Hsc & Hre & HT' & Hd').
      exists e'. rewrite Hsc. split_and!; [by left|done|done]. }
  destruct (visible_found d2 T (ev_EventID e) e' (ev_SourceDigest e) Hok2 HT (Hv _ _ _ Hvis)) as (r & Hm & Hc);
    [by eapply reconstruct_mono|].
  assert (retry = mkIngestOutcome (set_rc_Duplicate r true) e [] (Ok d2)) as ->.
  { unfold retry, ingestClosure. rewrite Hacc. rewrite bool_decide_eq_true_2 by done. cbn [negb]. by rewrite Hc. }
  rewrite Hrec. destruct Hm as (_ & _ & H3 & H4 & H5). cbn. rewrite H3, H4, H5. done.
Qed.

(** An unguarded receipt transition can hide a committed event.  Ingest
    commits an event; before its own transition to indexed, the archive worker
    archives the event and evicts its body.  The late transition rewrites the
    archived receipt as indexed: the event is then neither retained nor
    resolvable from the archive, so verification no longer collects it, and a
    retry of the same event is not recognised as a duplicate but committed as a
    second ledger entry. *)
Theorem late_transition_hides_event data T e now now' d1 r d2 :
  archiveClosure T now [] [e] ∅ data = Ok d1 ->
  transitionClosure T (ev_EventID e) StatusIndexed false now' d1 = Ok (r, d2) ->
  (forall T' x, ~ visible d2 T' (EventKey T (ev_EventID e)) x) /\
  forall size publish hint client cid digest,
    resolveIngestTenantFromData d2 hint client (ev_SourceSystem e) = Ok T ->
    idempotencyKeyReused d2 T (EventKey T (ev_EventID e)) (ev_IdempotencyKey e) = false ->
    ingestClosure size publish hint client T cid e digest d2 = commitEvent size publish T cid e d2.
Proof using Type.
  intros Ha Ht. unfold archiveClosure in Ha. cbn [fold_left] in Ha.
  apply result_bind_Ok in Ha as (x & Hx & Ha). apply result_bind_Ok in Ha as (y & Hy & Ha). rewrite map_to_list_empty in Hy.
  cbn [fold_left] in Hy. injection Hy as <-. injection Ha as <-. unfold markArchived in Hx. cbn [result_bind] in Hx.
  destruct (sn_Receipts data !! _) as [r0|]; [|done]. injection Hx as <-.
  unfold transitionClosure in Ht. cbn in Ht. rewrite lookup_insert_eq in Ht. injection Ht as <- <-. split.
  - intros T' z [[Hz _]|(r1 & (Hr1 & _ & Hs & _) & _)]; cbn in *; [by rewrite lookup_delete_eq in Hz|].
    rewrite lookup_insert_eq in Hr1. injection Hr1 as <-. done.
  - intros size publish hint client cid digest Hacc Hidem. unfold ingestClosure. rewrite Hacc, bool_decide_eq_true_2 by done.
    cbn [negb]. rewrite Hidem. unfold checkExistingIngest. cbn.
    rewrite lookup_delete_eq, lookup_insert_eq. by rewrite bool_decide_eq_false_2.
Qed.

End service.


(** ** A concrete run *)

Local Transparent HashBytes hashText hashValue merkleRoot EventContentDigest.

Definition runSigner : Signer := hmacSigner "k".
Definition runArchive : ArchiveReader := fun _ => Err (Sentinel ErrNotFound).
Definition runEvent : Event := plainEvent "e1" "k1".
Definition runStart : Snapshot :=
  set_sn_Schemas (set_sn_Sources NewSnapshot {[SourceKey "t1" "billing" := mkSourceSystem "billing" "t1" "Billing" ["c1"] true 0]})
    plainSchemas.
Definition runIngest (data : Snapshot) : ingestOutcome :=
  ingestClosure (signer := runSigner) (crypto := plainCrypto) (archive := runArchive)
    1 true "t1" "c1" "t1" "cp1" runEvent (ev_SourceDigest runEvent) data.
Definition okOr {A} (r : result A) (a : A) : A := match r with Ok x => x | Err _ => a end.
Definition runCommitted : Snapshot := okOr (io_data (runIngest runStart)) runStart.
Definition runArchived : Snapshot := okOr (archiveClosure "t1" 7 [] [runEvent] ∅ runCommitted) runStart.
Definition runLate : EventReceipt * Snapshot :=
  okOr (transitionClosure "t1" "e1" StatusIndexed false 8 runArchived) (zero_EventReceipt, runStart).

Lemma run_start : no_evidence runStart.
Proof. split; done. Qed.
Lemma run_admissible : admissible (crypto := plainCrypto) (sn_Schemas runStart) "t1" runEvent.
Proof.
  split; [reflexivity| |vm_compute; discriminate|vm_compute; discriminate|vm_compute; reflexivity].
  split; [done|]. apply contains_char_false. reflexivity.
Qed.
Lemma run_fresh : "cp1" ∉ checkpoint_ids (sn_Checkpoints runStart).
Proof. apply (bool_decide_unpack _). vm_compute. exact I. Qed.
Lemma run_commit : io_data (runIngest runStart) = Ok runCommitted.
Proof. vm_compute. reflexivity. Qed.
Lemma run_first : rc_Duplicate (io_receipt (runIngest runStart)) = false.
Proof. vm_compute. reflexivity. Qed.
Lemma run_access : resolveIngestTenantFromData runCommitted "t1" "c1" (ev_SourceSystem runEvent) = Ok "t1".
Proof. vm_compute. reflexivity. Qed.
Lemma run_steps : rtc (step (signer := runSigner) (crypto := plainCrypto) (archive := runArchive)) runStart runCommitted.
Proof.
  apply rtc_once. apply (step_ingest runStart 1 true "t1" "c1" "t1" "cp1" runEvent (ev_SourceDigest runEvent));
    [apply run_admissible|apply run_fresh|apply run_commit].
Qed.
Lemma run_archives : archiveClosure "t1" 7 [] [runEvent] ∅ runCommitted = Ok runArchived.
Proof. vm_compute. reflexivity. Qed.
Lemma run_transitions : transitionClosure "t1" (ev_EventID runEvent) StatusIndexed false 8 runArchived = Ok (runLate.1, runLate.2).
Proof. vm_compute. reflexivity. Qed.
Lemma run_scope : requireTenantScope "t1" = Ok tt.
Proof. vm_compute. reflexivity. Qed.



Lemma late_transition_hides_event_witness :
  ~ visible (archive := runArchive) runLate.2 "t1" (EventKey "t1" (ev_EventID runEvent)) runEvent.
Proof.
  apply (late_transition_hides_event (signer := runSigner) (crypto := plainCrypto) (archive := runArchive) runCommitted "t1" runEvent
    7 8 runArchived runLate.1 runLate.2 run_archives run_transitions).
Defined.

End EvidenceSteps.
