(* ===== verification/Ingest.v ===== *)
(** * Ingest up to the commit

    (internal/service: service.go: Ingest and checkTenantAndQuota,
    ingest_validation.go: validateEvent and protectSensitiveFields,
    reserved_namespace.go, query_match.go: hasField and rejectSensitive)

    Everything [Ingest] does before the commit closure, as functions of the
    control documents its reads return.  [FieldCrypto] is the interface to the
    field encryption. *)

From Stdlib Require Import Ascii String.
From S2P Require Import Prelude GoStr Sha256 Domain Canonical Keys Store Evidence Integrity.
Open Scope string_scope.
Open Scope Z_scope.
Import Domain Canonical Keys Store Evidence Integrity.

Module Ingest.

(** ** Sensitive and reserved names *)

(** [unicode.ToLower] as far as an ASCII word can tell: the ASCII letters and
    the two other runes whose lower case is ASCII (U+0130 and U+212A). *)
Definition lowerRune (r : Z) : Z :=
  if (65 <=? r) && (r <=? 90) then r + 32 else if r =? 304 then 105 else if r =? 8490 then 107 else r.

(** [strings.ToLower(strings.ReplaceAll(key, "-", "_"))]. *)
Definition lowerKey (key : string) : list Z := map (fun r => lowerRune (if r =? 45 then 95 else r)) (runes key).

(** [strings.Contains] on runes. *)
Fixpoint hasPrefixRunes (word l : list Z) : bool :=
  match word, l with
  | [], _ => true
  | w :: word, r :: l => (w =? r) && hasPrefixRunes word l
  | _, [] => false
  end.
Fixpoint containsRunes (word l : list Z) : bool :=
  hasPrefixRunes word l || match l with [] => false | _ :: l => containsRunes word l end.

Definition forbiddenWords : list string :=
  ["password"; "token"; "private_key"; "device_credential"; "card_number"; "secret"].
Definition forbiddenKey (key : string) : bool :=
  existsb (fun word => containsRunes (map byteZ (chars word)) (lowerKey key)) forbiddenWords.

Definition sensitiveError (path : string) : error :=
  Wrapf (Sentinel ErrInvalid) ("sensitive field " ++ path ++ " is forbidden").

(** [scan]: maps and slices are searched, every other value passes.  Go ranges
    over the map in any order; only the path in the message depends on it. *)
Fixpoint scanSensitive (path : string) (v : value) : result unit :=
  match v with
  | VMap (Some m) =>
      map_fold (fun key child acc =>
        acc ;?
        guard_err (negb (forbiddenKey key)) (sensitiveError (path ++ key)) ;?
        scanSensitive (path ++ key ++ ".") child) (Ok tt) m
  | VSlice (Some l) =>
      (fix loop (i : Z) (l : list value) : result unit :=
         match l with
         | [] => Ok tt
         | child :: l => scanSensitive (path ++ Itoa i ++ ".") child ;? loop (i + 1) l
         end) 0 l
  | _ => Ok tt
  end.
Definition rejectSensitive (v : value) : result unit := scanSensitive "" v.

Definition rejectReservedSearchDigestNamespace (payload : option (gmap string value)) : result unit :=
  match firstReservedSearchDigestKey payload with
  | None => Ok tt
  | Some key => Err (Wrapf (Sentinel ErrInvalid) ("payload key " ++ key ++ " collides with the reserved search_digest namespace"))
  end.

(** The generic form of the changed fields: marshalling them and decoding the
    result gives one object per field, without its nil sides. *)
Definition changeSides (c : FieldChange) : gmap string value :=
  let before := match fc_Before c with VNil => ∅ | v => {["before" := v]} end in
  match fc_After c with VNil => before | v => <["after" := v]> before end.
Definition decodedChanges (changes : gmap string FieldChange) : value :=
  VMap (Some ((fun c => VMap (Some (changeSides c))) <$> changes)).

(** ** validateEvent *)

Definition hasField (e : Event) (field : string) : bool :=
  if bool_decide (field = "event_id") then negb (bool_decide (ev_EventID e = ""))
  else if bool_decide (field = "source_system") then negb (bool_decide (ev_SourceSystem e = ""))
  else if bool_decide (field = "event_type") then negb (bool_decide (ev_EventType e = ""))
  else if bool_decide (field = "operation_id") then negb (bool_decide (ev_OperationID e = ""))
  else if bool_decide (field = "aggregate_id") then negb (bool_decide (ev_AggregateID e = ""))
  else if bool_decide (field = "actor.id") then negb (bool_decide (ac_ID (ev_Actor e) = ""))
  else bool_decide (is_Some (default ∅ (ev_Payload e) !! field)).

Definition requireFields (e : Event) (fields : list string) : result unit :=
  match find_first (fun field => negb (hasField e field)) fields with
  | None => Ok tt
  | Some field => Err (Wrapf (Sentinel ErrInvalid) ("schema field " ++ field ++ " is required"))
  end.

Definition allowFields (payload : gmap string value) (allowed : list string) : result unit :=
  if bool_decide (allowed = []) then Ok tt
  else
    match find_first (fun field => negb (bool_decide (field ∈ allowed))) (map_to_list payload).*1 with
    | None => Ok tt
    | Some field => Err (Wrapf (Sentinel ErrInvalid) ("payload field " ++ field ++ " is not in schema"))
    end.

(** [marshals] is whether json.Marshal accepts the changed fields: when it does
    not, the source skips the scan. *)
Definition validateEvent (data : Snapshot) (maxEventBytes : Z) (marshals : bool) (tenantID clientID : string) (e : Event)
    : result EventSchema :=
  guard_err (sourceAccessAllowed data tenantID (ev_SourceSystem e) clientID) sourceAccessError ;?
  match sn_Schemas data !! SchemaKey tenantID (ev_SchemaID e) (ev_SchemaVersion e) with
  | None => Err (Sentinel ErrSchemaNotFound)
  | Some schema =>
      guard_err (sc_Active schema) (Sentinel ErrSchemaNotFound) ;?
      guard_err (bool_decide (sc_EventType schema = ev_EventType e)) (invalid "event_type does not match schema") ;?
      guard_err (bool_decide (sc_Classification schema = "") || bool_decide (ev_DataClassification e = sc_Classification schema))
        (invalid "data_classification does not match schema") ;?
      rejectSensitive (VMap (ev_Payload e)) ;?
      rejectReservedSearchDigestNamespace (ev_Payload e) ;?
      (if marshals then rejectSensitive (decodedChanges (ev_ChangedFields e)) else Ok tt) ;?
      let? encoded := CanonicalJSON (VMap (ev_Payload e)) in
      guard_err (Zlen encoded <=? maxEventBytes) (invalid "payload exceeds the size limit") ;?
      requireFields e (sc_RequiredFields schema) ;?
      allowFields (default ∅ (ev_Payload e)) (sc_AllowedFields schema) ;?
      Ok schema
  end.

(** ** protectSensitiveFields *)

Section crypto.
Context {crypto : FieldCrypto}.

Definition collectOriginals (payload : gmap string value) (fields : list string) (originals : gmap string value)
    : gmap string value :=
  foldl (fun o field => match payload !! field with Some v => <[field := v]> o | None => o end) originals fields.

Fixpoint encryptFields (tenantID eventID : string) (fields : list string) (originals payload : gmap string value)
    : result (gmap string value) :=
  match fields with
  | [] => Ok payload
  | field :: fields =>
      match originals !! field with
      | None => encryptFields tenantID eventID fields originals payload
      | Some v =>
          let? encoded := EncryptJSON v (tenantID ++ "/" ++ field ++ "/" ++ eventID) in
          encryptFields tenantID eventID fields originals (<[field := VString encoded]> payload)
      end
  end.

Fixpoint digestFields (tenantID : string) (fields : list string) (originals payload : gmap string value)
    : result (gmap string value) :=
  match fields with
  | [] => Ok payload
  | field :: fields =>
      match originals !! field with
      | None => digestFields tenantID fields originals payload
      | Some v =>
          let? digest := SearchDigestBound v tenantID field in
          digestFields tenantID fields originals (<[field ++ SearchDigestSuffix := VString digest]> payload)
      end
  end.

Definition protectSensitiveFields (e : Event) (schema : EventSchema) : result Event :=
  if bool_decide (sc_EncryptedFields schema = []) && bool_decide (sc_SearchableFields schema = []) then Ok e
  else
    match ev_Payload e with
    | None => Ok e
    | Some payload =>
        let originals := collectOriginals payload (sc_SearchableFields schema)
                           (collectOriginals payload (sc_EncryptedFields schema) ∅) in
        let? encrypted := encryptFields (ev_TenantID e) (ev_EventID e) (sc_EncryptedFields schema) originals payload in
        let? protected := digestFields (ev_TenantID e) (sc_SearchableFields schema) originals encrypted in
        Ok (set_ev_Payload e (Some protected))
    end.

(** ** Quotas *)

Record quotaWindow : Type := mkQuotaWindow { qw_Started : time; qw_Count : Z }.
Definition zeroWindow : quotaWindow := mkQuotaWindow 0 0.

Definition checkTenantAndQuota (data : Snapshot) (now : time) (quotas : gmap string quotaWindow) (tenantID : string)
    : result unit * gmap string quotaWindow :=
  match sn_Tenants data !! tenantID with
  | None => (Err (Sentinel ErrNotFound), quotas)
  | Some tenant =>
      if negb (tn_Active tenant) then (Err (Sentinel ErrNotFound), quotas)
      else if tn_EventsPerSecond tenant <=? 0 then (Ok tt, quotas)
      else
        let window := map_get zeroWindow quotas tenantID in
        let window := if time_IsZero (qw_Started window) || (Second <=? now - qw_Started window)
                      then mkQuotaWindow now 0 else window in
        let limit := tn_EventsPerSecond tenant + tn_Burst tenant in
        let limit := if limit <=? 0 then tn_EventsPerSecond tenant else limit in
        if limit <=? qw_Count window then (Err (Sentinel ErrQuotaExceeded), <[tenantID := window]> quotas)
        else (Ok tt, <[tenantID := mkQuotaWindow (qw_Started window) (qw_Count window + 1)]> quotas)
  end.

(** ** Ingest before the commit *)

Definition waitForOk (waitFor : string) : bool :=
  bool_decide (waitFor ∈ [""; StatusAccepted; StatusLedgered; StatusIndexed; StatusArchived]).

Record ingestConfig : Type := mkIngestConfig { ic_ServerVersion : string; ic_MaxEventBytes : Z }.

(** The event that is stamped and digested before validation. *)
Definition stampEvent (cfg : ingestConfig) (tenantID : string) (now : time) (e : Event) : Event :=
  set_ev_SourceDigest
    (set_ev_ServerVersion (set_ev_ReceivedAt (set_ev_TenantID (set_ev_StreamID e "") tenantID) now) (ic_ServerVersion cfg)) "".

(** [resolved], [quotaData] and [control] are the control documents of the
    three reads.  The result is the tenant and the event the commit closure
    receives; its digest is the input digest. *)
Definition prepareIngest (cfg : ingestConfig) (resolved quotaData control : Snapshot) (marshals : bool) (quotaNow now : time)
    (quotas : gmap string quotaWindow) (tenantHint clientID waitFor : string) (event : Event)
    : result (string * Event) * gmap string quotaWindow :=
  match (guard_err (waitForOk waitFor) (invalid "unsupported wait_for value") ;?
         ValidateBasic event ;?
         (if bool_decide (tenantHint = "") then Ok tt else requireTenantScope tenantHint) ;?
         let? tenantID := resolveIngestTenantFromData resolved tenantHint clientID (ev_SourceSystem event) in
         requireTenantScope tenantID ;?
         guard_err (bool_decide (ev_TenantID event = "") || bool_decide (ev_TenantID event = tenantID))
           (Wrapf (Sentinel ErrTenantMismatch) "envelope tenant_id does not match the resolved tenant") ;?
         Ok tenantID) with
  | Err e => (Err e, quotas)
  | Ok tenantID =>
      let '(admitted, quotas) := checkTenantAndQuota quotaData quotaNow quotas tenantID in
      (admitted ;?
       let stamped := stampEvent cfg tenantID now event in
       let? digest := EventContentDigest stamped in
       let event := set_ev_SourceDigest stamped digest in
       let? schema := validateEvent control (ic_MaxEventBytes cfg) marshals tenantID clientID event in
       let? event := protectSensitiveFields event schema in
       Ok (tenantID, event), quotas)
  end.

(** ** The answer (after commit and transitions) *)

Definition ingestResponse (waitFor : string) (receipt : EventReceipt) : EventReceipt :=
  if bool_decide (waitFor = StatusAccepted) || bool_decide (waitFor = "")
  then set_rc_ArchivedAt (set_rc_IndexedAt (set_rc_LedgeredAt (set_rc_Status receipt StatusAccepted) 0) 0) 0
  else receipt.

End crypto.

End Ingest.
