(* ===== verification/IngestProps.v ===== *)
(** * What ingest hands to the commit

    Verification undoes field protection exactly, so the digest taken before
    protection is the digest rederived from what is stored; hence every event
    ingest prepares is admissible in the sense of the evidence invariant. *)

From Stdlib Require Import Ascii String Sorted.
From stdpp Require Import sorting.
From S2P Require Import Prelude GoStr Sha256 Domain Canonical CanonicalProps Keys Store Evidence Integrity ChainProps EvidenceInv Ingest.
Open Scope string_scope.
Open Scope Z_scope.
Import Domain Canonical CanonicalProps Keys Store Evidence Integrity ChainProps EvidenceInv Ingest.

Module IngestProps.

(** ** Canonical text of maps and structs *)

Lemma key_leb_total {A} (x y : string * A) : key_leb x y = true \/ key_leb y x = true.
Proof. apply str_leb_total. Qed.
Lemma key_leb_trans {A} (x y z : string * A) : key_leb x y = true -> key_leb y z = true -> key_leb x z = true.
Proof. apply str_leb_trans. Qed.

Lemma sort_members {A} (l l' : list (string * A)) : l ≡ₚ l' -> NoDup l.*1 -> stable_sort key_leb l = stable_sort key_leb l'.
Proof.
  intros Hp Hnd. apply (StronglySorted_unique_strong (fun x y => key_leb x y = true)).
  - intros [k x] [k' y] Hx Hy H1 H2. rewrite stable_sort_perm in Hx, Hy. rewrite <- Hp in Hy.
    assert (k = k') as <- by (by apply str_leb_antisym). apply list_elem_of_lookup in Hx as [i Hi], Hy as [j Hj].
    assert (i = j) as ->; [|congruence]. eapply NoDup_lookup; [exact Hnd| |]; rewrite list_lookup_fmap; [by rewrite Hi|by rewrite Hj].
  - apply stable_sort_sorted; [apply key_leb_total|apply key_leb_trans].
  - apply stable_sort_sorted; [apply key_leb_total|apply key_leb_trans].
  - by rewrite !stable_sort_perm.
Qed.

(** The text of a map depends on the texts of its values only. *)
Lemma write_map_cong (m m' : gmap string value) :
  writeCanonical <$> m = writeCanonical <$> m' -> writeCanonical (VMap (Some m)) = writeCanonical (VMap (Some m')).
Proof.
  intros H. assert (forall x : gmap string value, map (on_value writeCanonical) (map_to_list x) ≡ₚ map_to_list (writeCanonical <$> x)) as Hx.
  { intros x. rewrite map_to_list_fmap. apply Permutation_refl'. apply map_ext. by intros []. }
  cbn [writeCanonical]. unfold writeMembers. rewrite !map_fold_on_value.
  rewrite (sort_members _ (map (on_value writeCanonical) (map_to_list m'))); [done|by rewrite !Hx, H|].
  rewrite Hx. apply NoDup_fst_map_to_list.
Qed.

(** Fields with one name, one text and one emptiness are interchangeable. *)
Definition same_field (f f' : string * string * value) : Prop :=
  f.1 = f'.1 /\ writeCanonical f.2 = writeCanonical f'.2 /\ jsonIsEmptyValue f.2 = jsonIsEmptyValue f'.2.

Lemma write_struct_cong fields fields' :
  Forall2 same_field fields fields' -> writeCanonical (VStruct fields) = writeCanonical (VStruct fields').
Proof.
  intros H. cbn [writeCanonical]. f_equal. induction H as [|f f' l l' (E1 & E2 & E3) _ IH]; [done|]. cbn [flat_map]. rewrite IH, E2.
  f_equal. destruct f as [[a t] v], f' as [[a' t'] v']. cbn in E1, E3. injection E1 as <- <-. unfold keptField.
  destruct (jsonFieldName a t) as [n o]. by rewrite E3.
Qed.

Lemma same_field_refl f : same_field f f.
Proof. done. Qed.

Lemma payload_digest e p p' :
  writeCanonical <$> p = writeCanonical <$> p' ->
  EventContentDigest (set_ev_Payload e (Some p)) = EventContentDigest (set_ev_Payload e (Some p')).
Proof.
  intros H. assert (same_field ("Payload", "payload,omitempty", VMap (Some p)) ("Payload", "payload,omitempty", VMap (Some p'))) as Hf.
  { split_and!; [done|by apply write_map_cong|]. cbn. assert (size p = size p') as Hs
      by (rewrite <- (map_size_fmap writeCanonical p), H; apply map_size_fmap).
    apply bool_decide_ext. rewrite <- !map_size_empty_iff. by rewrite Hs. }
  unfold EventContentDigest, CanonicalJSON. f_equal. unfold EventValue. apply write_struct_cong.
  repeat (apply List.Forall2_cons; [first [exact Hf|apply same_field_refl]|]). apply List.Forall2_nil.
Qed.

(** ** Protecting and reconstructing *)

(** What the field encryption promises: a ciphertext opens under the same
    associated data to a value with the same canonical text (json.Marshal and
    the UseNumber decoder keep it). *)
Class FieldCryptoOk (crypto : FieldCrypto) : Prop :=
  decrypt_encrypt : forall v aad s, EncryptJSON v aad = Ok s ->
    exists v', DecryptJSON s aad = Ok v' /\ writeCanonical v' = writeCanonical v.

Section crypto.
Context {crypto : FieldCrypto} {crypto_ok : FieldCryptoOk crypto}.

Lemma collectOriginals_spec P fields O :
  (forall k v, O !! k = Some v -> P !! k = Some v) ->
  (forall k v, collectOriginals P fields O !! k = Some v -> P !! k = Some v) /\
  (forall k, k ∈ fields \/ O !! k = P !! k -> collectOriginals P fields O !! k = P !! k).
Proof using Type.
  unfold collectOriginals. revert O. induction fields as [|f fields IH]; intros O HO; cbn [foldl] in *.
  - split; [done|]. intros k [H|H]; [inversion H|done].
  - set (O' := match P !! f with Some v => <[f := v]> O | None => O end) in *.
    assert (O' !! f = P !! f) as Hf.
    { unfold O'. destruct (P !! f) as [v|] eqn:E; [by rewrite lookup_insert_eq|].
      destruct (O !! f) as [v|] eqn:E2; [|done]. apply HO in E2. congruence. }
    assert (forall k, k <> f -> O' !! k = O !! k) as Hne by (intros k Hk; unfold O'; destruct (P !! f); by rewrite ?lookup_insert_ne).
    assert (forall k v, O' !! k = Some v -> P !! k = Some v) as HO'.
    { intros k v. destruct (decide (k = f)) as [->|Hk]; [by rewrite Hf|]. rewrite Hne by done. apply HO. }
    destruct (IH O' HO') as [H1 H2]. split; [exact H1|]. intros k Hk. apply H2.
    destruct (decide (k = f)) as [->|Hkf]; [by right|]. rewrite Hne by done.
    destruct Hk as [[?|?]%elem_of_cons|?]; [done|by left|by right].
Qed.

Lemma originals_lookup P enc search f : f ∈ enc \/ f ∈ search ->
  collectOriginals P search (collectOriginals P enc ∅) !! f = P !! f.
Proof using Type.
  intros Hf. destruct (collectOriginals_spec P enc ∅) as [H1 H2]; [by intros ? ? ?|].
  destruct (collectOriginals_spec P search (collectOriginals P enc ∅)) as [H3 H4]; [exact H1|].
  apply H4. destruct Hf as [Hf|Hf]; [right|by left]. apply H2. by left.
Qed.

Definition fieldAAD (T id field : string) : string := T ++ "/" ++ field ++ "/" ++ id.

Lemma encryptFields_spec T id fields O P E : encryptFields T id fields O P = Ok E ->
  (forall k, k ∉ fields \/ O !! k = None -> E !! k = P !! k) /\
  (forall k v, k ∈ fields -> O !! k = Some v -> exists s, EncryptJSON v (fieldAAD T id k) = Ok s /\ E !! k = Some (VString s)).
Proof using Type.
  revert P. induction fields as [|f fields IH]; intros P H; cbn [encryptFields] in H.
  - injection H as <-. split; [done|]. intros k v Hk. inversion Hk.
  - destruct (O !! f) as [v|] eqn:EO.
    + apply result_bind_Ok in H as (s & Hs & H). destruct (IH _ H) as [H1 H2]. split.
      * intros k Hk. assert (k <> f) as Hne by (intros ->; destruct Hk as [Hk|Hk]; [apply Hk; left|congruence]).
        rewrite H1, lookup_insert_ne; [done|done|]. destruct Hk as [Hk|Hk]; [left|by right]. intros ?. apply Hk. by right.
      * intros k w Hk Hw. destruct (decide (k ∈ fields)) as [Hin|Hin]; [by apply H2|].
        apply elem_of_cons in Hk as [->|?]; [|done]. exists s. replace w with v by congruence. split; [done|].
        rewrite H1 by (by left). apply lookup_insert_eq.
    + destruct (IH _ H) as [H1 H2]. split.
      * intros k Hk. apply H1. destruct Hk as [Hk|Hk]; [left|by right]. intros ?. apply Hk. by right.
      * intros k w Hk Hw. apply elem_of_cons in Hk as [->|?]; [congruence|by apply H2].
Qed.

Definition digestKeys (fields : list string) : list string := map (fun f => f ++ SearchDigestSuffix) fields.

Lemma digestFields_spec T fields O P D : digestFields T fields O P = Ok D ->
  forall k, k ∉ digestKeys fields -> D !! k = P !! k.
Proof using Type.
  revert P. induction fields as [|f fields IH]; intros P H k Hk; cbn [digestFields] in H; [by injection H as <-|].
  cbn [digestKeys map] in Hk. apply not_elem_of_cons in Hk as [Hne Hk].
  destruct (O !! f) as [v|]; [|by apply IH]. apply result_bind_Ok in H as (d & _ & H).
  rewrite (IH _ H k Hk). by apply lookup_insert_ne.
Qed.

Lemma dropDigests_spec fields P k :
  dropDigests fields P !! k = if decide (k ∈ digestKeys fields) then None else P !! k.
Proof using Type.
  unfold dropDigests. revert P. induction fields as [|f fields IH]; intros P; cbn [foldl].
  - rewrite decide_False; [done|]. apply not_elem_of_nil.
  - rewrite IH. cbn [digestKeys map]. fold (digestKeys fields).
    destruct (decide (k ∈ digestKeys fields)) as [Hin|Hin]; [by rewrite decide_True by (by right)|].
    destruct (decide (k = f ++ SearchDigestSuffix)) as [->|Hne].
    + rewrite decide_True by left. apply lookup_delete_eq.
    + rewrite decide_False by (by rewrite not_elem_of_cons). by apply lookup_delete_ne.
Qed.

(** A key that ends in the suffix is reserved. *)
Lemma suffix_reserved f : hasSuffix (f ++ SearchDigestSuffix) SearchDigestSuffix = true.
Proof using Type.
  unfold hasSuffix. rewrite length_append. replace (_ + _ - _)%nat with (String.length f) by lia.
  apply andb_true_intro. split; [|apply Nat.leb_le; lia]. apply bool_decide_eq_true.
  induction f as [|c f IH]; [reflexivity|]. change (String c f ++ SearchDigestSuffix) with (String c (f ++ SearchDigestSuffix)).
  cbn [String.length substring]. exact IH.
Qed.

Lemma reserved_absent P k : rejectReservedSearchDigestNamespace (Some P) = Ok tt -> hasSuffix k SearchDigestSuffix = true -> P !! k = None.
Proof using Type.
  unfold rejectReservedSearchDigestNamespace, firstReservedSearchDigestKey. intros H Hk.
  destruct (P !! k) as [v|] eqn:E; [|done]. exfalso. cbn [default] in H.
  assert (k ∈ sort_strings (List.filter (fun key => hasSuffix key SearchDigestSuffix) (map_to_list P).*1)) as Hin.
  { rewrite sort_strings_perm, list_elem_of_In, filter_In, <- list_elem_of_In. split; [|done].
    apply list_elem_of_fmap. exists (k, v). split; [done|]. by apply elem_of_map_to_list. }
  destruct (sort_strings _) as [|x l]; [inversion Hin|done].
Qed.

Lemma decryptFields_spec T id fields P : NoDup fields ->
  (forall k, k ∈ fields -> P !! k = None \/ exists s v, P !! k = Some (VString s) /\ DecryptJSON s (fieldAAD T id k) = Ok v) ->
  exists R, decryptFields T id fields P = Ok R /\
    (forall k, k ∉ fields \/ P !! k = None -> R !! k = P !! k) /\
    (forall k s v, k ∈ fields -> P !! k = Some (VString s) -> DecryptJSON s (fieldAAD T id k) = Ok v -> R !! k = Some v).
Proof using Type.
  revert P. induction fields as [|f fields IH]; intros P Hnd H.
  - exists P. split_and!; [done|done|]. intros k s v Hk. inversion Hk.
  - apply NoDup_cons in Hnd as [Hf Hnd]. cbn [decryptFields]. destruct (H f) as [Hn|(s & v & Hs & Hv)]; [left| |].
    + rewrite Hn. destruct (IH P Hnd) as (R & HR & H1 & H2); [intros k Hk; apply H; by right|]. exists R. split_and!; [done| |].
      * intros k Hk. apply H1. destruct Hk as [Hk|Hk]; [left|by right]. intros ?. apply Hk. by right.
      * intros k s v [->|Hk]%elem_of_cons Hs; [congruence|by apply H2].
    + rewrite Hs. unfold fieldAAD in Hv. rewrite Hv. destruct (IH (<[f := v]> P) Hnd) as (R & HR & H1 & H2).
      { intros k Hk. rewrite lookup_insert_ne by (intros ->; done). apply H. by right. }
      exists R. split_and!; [done| |].
      * intros k Hk. assert (k <> f) as Hne by (intros ->; destruct Hk as [Hk|Hk]; [apply Hk; left|congruence]).
        rewrite H1; [by apply lookup_insert_ne|].
        destruct Hk as [Hk|Hk]; [left; intros ?; apply Hk; by right|right; by rewrite lookup_insert_ne].
      * intros k s' v' [->|Hk]%elem_of_cons Hs' Hv'.
        -- rewrite H1 by (by left). rewrite lookup_insert_eq. unfold fieldAAD in Hv'. congruence.
        -- eapply H2; [done| |exact Hv']. by rewrite lookup_insert_ne by (intros ->; done).
Qed.

Lemma set_payload_id e p : ev_Payload e = Some p -> set_ev_Payload e (Some p) = e.
Proof using Type. destruct e; cbn. by intros ->. Qed.

Lemma reconstruct_payload e schema schemas P R :
  schemas !! SchemaKey (ev_TenantID e) (ev_SchemaID e) (ev_SchemaVersion e) = Some schema ->
  decryptFields (ev_TenantID e) (ev_EventID e) (sc_EncryptedFields schema) (dropDigests (sc_SearchableFields schema) P) = R ->
  reconstructAndDerive (set_ev_Payload e (Some P)) schemas =
  let? p := R in EventContentDigest (set_ev_Payload e (Some p)).
Proof using Type.
  intros Hs HR. unfold reconstructAndDerive, reconstructEventForDigest. cbn. rewrite Hs. rewrite HR. by destruct R.
Qed.


(** ** What is prepared is admissible *)

Lemma content_digest_nonempty e d : EventContentDigest e = Ok d -> d <> "".
Proof using Type.
  unfold EventContentDigest. intros H. apply result_bind_Ok in H as (x & _ & H). injection H as <-.
  intros E. pose proof (Sha256.HashBytes_length x) as Hl. rewrite E in Hl. done.
Qed.

Lemma validateEvent_schema control n marshals T client e schema :
  validateEvent control n marshals T client e = Ok schema ->
  sn_Schemas control !! SchemaKey T (ev_SchemaID e) (ev_SchemaVersion e) = Some schema /\ sc_Active schema = true /\
  sourceAccessAllowed control T (ev_SourceSystem e) client = true /\
  rejectReservedSearchDigestNamespace (ev_Payload e) = Ok tt /\ rejectSensitive (VMap (ev_Payload e)) = Ok tt.
Proof using Type.
  unfold validateEvent. intros H. apply guard_err_bind_Ok in H as [Hacc H].
  destruct (sn_Schemas control !! _) as [sc|]; [|done]. apply guard_err_bind_Ok in H as [Hact H].
  apply guard_err_bind_Ok in H as [_ H]. apply guard_err_bind_Ok in H as [_ H].
  apply result_bind_Ok in H as ([] & Hsens & H). apply result_bind_Ok in H as ([] & Hres & H).
  apply result_bind_Ok in H as (? & _ & H). apply result_bind_Ok in H as (? & _ & H).
  apply guard_err_bind_Ok in H as [_ H]. apply result_bind_Ok in H as (? & _ & H). apply result_bind_Ok in H as (? & _ & H).
  injection H as ->. done.
Qed.

Lemma protect_fields e schema e' : protectSensitiveFields e schema = Ok e' -> exists p, e' = set_ev_Payload e p.
Proof using Type.
  unfold protectSensitiveFields. case_match; [intros [= <-]; exists (ev_Payload e); by destruct e|].
  destruct (ev_Payload e) as [P|] eqn:EP; [|intros [= <-]; exists None; destruct e; cbn in *; by subst].
  intros H'. apply result_bind_Ok in H' as (? & _ & H'). apply result_bind_Ok in H' as (D & _ & H'). injection H' as <-. eauto.
Qed.


(** A schema that lists an encrypted field twice cannot be verified.  Its
    events are accepted and protected, but reconstruction decrypts the field a
    second time, now on the plaintext, and fails: every verification and every
    idempotent retry of such an event ends in an error. *)
Theorem repeated_encrypted_field_fails e schema schemas field text sealed err P :
  schemas !! SchemaKey (ev_TenantID e) (ev_SchemaID e) (ev_SchemaVersion e) = Some schema ->
  sc_EncryptedFields schema = [field; field] -> sc_SearchableFields schema = [] ->
  ev_Payload e = Some P -> P !! field = Some (VString text) ->
  EncryptJSON (VString text) (fieldAAD (ev_TenantID e) (ev_EventID e) field) = Ok sealed ->
  DecryptJSON sealed (fieldAAD (ev_TenantID e) (ev_EventID e) field) = Ok (VString text) ->
  DecryptJSON text (fieldAAD (ev_TenantID e) (ev_EventID e) field) = Err err ->
  exists e', protectSensitiveFields e schema = Ok e' /\
    reconstructAndDerive e' schemas = Err (Wrapf err ("cannot decrypt field " ++ field)).
Proof using Type.
  intros Hs He Hse HP Hf Henc Hdec Herr. unfold protectSensitiveFields. rewrite He, Hse, HP. cbn [bool_decide].
  replace (bool_decide ([field; field] = []) && bool_decide (([] : list string) = [])) with false by done.
  cbn [collectOriginals foldl encryptFields digestFields]. rewrite Hf, lookup_insert_eq. unfold fieldAAD in *. rewrite Henc.
  cbn [result_bind]. eexists. split; [reflexivity|].
  erewrite (reconstruct_payload e schema schemas); [|exact Hs|reflexivity]. rewrite He, Hse. cbn [dropDigests foldl decryptFields].
  rewrite lookup_insert_eq, Hdec, lookup_insert_eq, Herr. done.
Qed.

End crypto.

(** ** Quotas *)

(** The limit a tenant's window enforces. *)
Definition quotaLimit (t : Tenant) : Z :=
  if tn_EventsPerSecond t + tn_Burst t <=? 0 then tn_EventsPerSecond t else tn_EventsPerSecond t + tn_Burst t.

(** A run of quota checks against one control document. *)
Fixpoint quotaRun (data : Snapshot) (T : string) (times : list time) (quotas : gmap string quotaWindow)
    : list bool * gmap string quotaWindow :=
  match times with
  | [] => ([], quotas)
  | now :: times =>
      let '(r, quotas) := checkTenantAndQuota data now quotas T in
      let '(rest, quotas) := quotaRun data T times quotas in
      (is_ok r :: rest, quotas)
  end.
Definition admitted (verdicts : list bool) : Z := Z.of_nat (length (List.filter id verdicts)).

Lemma quota_step data T tenant now quotas :
  sn_Tenants data !! T = Some tenant -> tn_Active tenant = true -> 0 < tn_EventsPerSecond tenant ->
  let w := map_get zeroWindow quotas T in
  qw_Started w <> 0 -> now - qw_Started w < Second -> qw_Count w <= quotaLimit tenant ->
  exists w', map_get zeroWindow (checkTenantAndQuota data now quotas T).2 T = w' /\
    qw_Started w' = qw_Started w /\ qw_Count w' <= quotaLimit tenant /\
    qw_Count w' = qw_Count w + if is_ok (checkTenantAndQuota data now quotas T).1 then 1 else 0.
Proof.
  intros Ht Ha Hp w Hs Hn Hc. unfold checkTenantAndQuota. rewrite Ht, Ha. cbn [negb].
  rewrite (proj2 (Z.leb_gt _ _) Hp). fold w. unfold time_IsZero.
  rewrite (proj2 (Z.eqb_neq _ _) Hs), (proj2 (Z.leb_gt _ _) Hn). cbn [orb]. fold (quotaLimit tenant).
  change (if tn_EventsPerSecond tenant + tn_Burst tenant <=? 0 then tn_EventsPerSecond tenant
          else tn_EventsPerSecond tenant + tn_Burst tenant) with (quotaLimit tenant).
  destruct (quotaLimit tenant <=? qw_Count w) eqn:E; cbn [fst snd is_ok]; bool_prop; unfold map_get;
    rewrite lookup_insert_eq; eexists; (split; [reflexivity|]); cbn [from_option id qw_Started qw_Count]; lia.
Qed.

Lemma quota_window_run data T tenant times quotas :
  sn_Tenants data !! T = Some tenant -> tn_Active tenant = true -> 0 < tn_EventsPerSecond tenant ->
  let w := map_get zeroWindow quotas T in
  qw_Started w <> 0 -> (forall t, t ∈ times -> t - qw_Started w < Second) -> qw_Count w <= quotaLimit tenant ->
  qw_Count w + admitted (quotaRun data T times quotas).1 <= quotaLimit tenant.
Proof.
  intros Ht Ha Hp. revert quotas. induction times as [|now times IH]; intros quotas w Hs Hn Hc; [unfold admitted; cbn [quotaRun fst List.filter length]; lia|].
  destruct (quota_step data T tenant now quotas Ht Ha Hp Hs (Hn now ltac:(left)) Hc) as (w' & Ew & Es & Hc' & Eq).
  cbn [quotaRun]. destruct (checkTenantAndQuota data now quotas T) as [r q] eqn:E. cbn [fst snd] in *.
  assert (qw_Count w' + admitted (quotaRun data T times q).1 <= quotaLimit tenant) as Hrest.
  { rewrite <- Ew. apply IH; rewrite Ew; [by rewrite Es| |done]. intros t Hin. rewrite Es. apply Hn. by right. }
  destruct (quotaRun data T times q) as [rest q']. cbn [fst] in *. unfold admitted in *. cbn [List.filter id].
  subst w. destruct (is_ok r); cbv iota in *; cbn [length] in *; lia.
Qed.

(** The rate limit holds.  However many requests of a tenant arrive within
    one second of the start of its window, at most events_per_second + burst
    of them are admitted (events_per_second when the sum is not positive); the
    request that opens the window counts. *)
Theorem quota_bounds_window data T tenant first times quotas :
  sn_Tenants data !! T = Some tenant -> tn_Active tenant = true -> 0 < tn_EventsPerSecond tenant -> first <> 0 ->
  (qw_Started (map_get zeroWindow quotas T) = 0 \/ Second <= first - qw_Started (map_get zeroWindow quotas T)) ->
  (forall t, t ∈ times -> t - first < Second) ->
  0 <= admitted (quotaRun data T (first :: times) quotas).1 <= quotaLimit tenant.
Proof.
  intros Ht Ha Hp Hf Hopen Hn. split; [unfold admitted; lia|]. cbn [quotaRun].
  assert (1 <= quotaLimit tenant) as Hl by (unfold quotaLimit; case_match; bool_prop; lia).
  assert (checkTenantAndQuota data first quotas T = (Ok tt, <[T := mkQuotaWindow first 1]> quotas)) as ->.
  { unfold checkTenantAndQuota. rewrite Ht, Ha. cbn [negb]. rewrite (proj2 (Z.leb_gt _ _) Hp).
    assert (time_IsZero (qw_Started (map_get zeroWindow quotas T)) || (Second <=? first - qw_Started (map_get zeroWindow quotas T)) = true) as ->.
    { apply orb_true_iff. destruct Hopen as [->|?]; [by left|right; by apply Z.leb_le]. }
    fold (quotaLimit tenant). change (if tn_EventsPerSecond tenant + tn_Burst tenant <=? 0 then tn_EventsPerSecond tenant
          else tn_EventsPerSecond tenant + tn_Burst tenant) with (quotaLimit tenant).
    cbn [qw_Count qw_Started]. by rewrite (proj2 (Z.leb_gt _ _)) by lia. }
  pose proof (quota_window_run data T tenant times (<[T := mkQuotaWindow first 1]> quotas) Ht Ha Hp) as H.
  unfold map_get in H. rewrite lookup_insert_eq in H. cbn [from_option id qw_Started qw_Count] in H. specialize (H Hf Hn Hl).
  destruct (quotaRun data T times _) as [rest q]. cbn [fst] in *. unfold admitted in *. cbn [is_ok List.filter id length]. lia.
Qed.

(** ** Sensitive names *)

(** The keys of a value, at any depth of maps and slices. *)
Inductive mentions : string -> value -> Prop :=
  | mentions_key m key child : m !! key = Some child -> mentions key (VMap (Some m))
  | mentions_child m key child k : m !! key = Some child -> mentions k child -> mentions k (VMap (Some m))
  | mentions_elem l child k : child ∈ l -> mentions k child -> mentions k (VSlice (Some l)).

Definition clean (v : value) : Prop := forall key, mentions key v -> forbiddenKey key = false.

(** A verdict: accepted exactly when clean, and rejected as invalid. *)
Definition scan_verdict (r : result unit) (P : Prop) : Prop :=
  match r with Ok _ => P | Err e => ~ P /\ errors_Is e ErrInvalid = true end.

Lemma scan_map path m (IH : forall k child, m !! k = Some child -> forall p, scan_verdict (scanSensitive p child) (clean child)) :
  scan_verdict (scanSensitive path (VMap (Some m))) (clean (VMap (Some m))).
Proof.
  change (scanSensitive path (VMap (Some m))) with
    (map_fold (fun key child acc => acc ;? guard_err (negb (forbiddenKey key)) (sensitiveError (path ++ key)) ;?
      scanSensitive (path ++ key ++ ".") child) (Ok tt) m). rewrite map_fold_foldr.
  assert (forall l : list (string * value), (forall kv, kv ∈ l -> m !! kv.1 = Some kv.2) ->
    scan_verdict (foldr (fun '(key, child) acc => acc ;? guard_err (negb (forbiddenKey key)) (sensitiveError (path ++ key)) ;?
      scanSensitive (path ++ key ++ ".") child) (Ok tt) l)
      (forall kv, kv ∈ l -> forbiddenKey kv.1 = false /\ clean kv.2)) as Hl.
  { induction l as [|[k v] l IHl]; intros Hin; [by intros kv ?%elem_of_nil|]. cbn [foldr].
    specialize (IHl ltac:(intros; apply Hin; by right)). pose proof (Hin (k, v) ltac:(left)) as Hkv. cbn [fst snd] in Hkv.
    destruct (foldr _ _ l) as [[]|e]; cbn [result_bind scan_verdict] in *.
    - destruct (forbiddenKey k) eqn:Ek; cbn [negb guard_err result_bind scan_verdict].
      { split; [|done]. intros H. destruct (H (k, v) ltac:(left)) as [Hf _]. cbn [fst] in Hf. congruence. }
      specialize (IH k v Hkv (path ++ k ++ ".")). destruct (scanSensitive _ v) as [[]|e]; cbn [scan_verdict] in *.
      + intros kv [->|Hkv']%elem_of_cons; [done|by apply IHl].
      + destruct IH as [Hn He]. split; [|done]. intros H. by apply Hn, (H (k, v) ltac:(left)).
    - destruct IHl as [Hn He]. split; [|done]. intros H. apply Hn. intros kv Hkv'. apply H. by right. }
  assert ((forall kv, kv ∈ map_to_list m -> forbiddenKey kv.1 = false /\ clean kv.2) <-> clean (VMap (Some m))) as Hiff.
  { split.
    - intros H key Hm. inversion Hm as [m' k c Hk|m' k c k' Hk Hc|]; subst;
        apply elem_of_map_to_list in Hk; destruct (H _ Hk) as [H1 H2]; [exact H1|by apply H2].
    - intros H [k c] Hk%elem_of_map_to_list. cbn. split; [apply H; by econstructor|]. intros key Hkey. apply H. by eapply mentions_child. }
  specialize (Hl (map_to_list m) ltac:(by intros [k c] ?%elem_of_map_to_list)). unfold scan_verdict in *.
  destruct (foldr _ _ _) as [[]|e]; [by apply Hiff|]. by rewrite <- Hiff.
Qed.

Lemma scan_slice path l (IH : forall child, child ∈ l -> forall p, scan_verdict (scanSensitive p child) (clean child)) :
  scan_verdict (scanSensitive path (VSlice (Some l))) (clean (VSlice (Some l))).
Proof.
  set (loop := fix loop (i : Z) (l : list value) : result unit :=
    match l with [] => Ok tt | child :: l => scanSensitive (path ++ Itoa i ++ ".") child ;? loop (i + 1) l end).
  change (scanSensitive path (VSlice (Some l))) with (loop 0 l).
  assert (forall i, scan_verdict (loop i l) (forall c, c ∈ l -> clean c)) as Hl.
  { induction l as [|c l IHl]; intros i; [by intros c ?%elem_of_nil|].
    change (loop i (c :: l)) with (scanSensitive (path ++ Itoa i ++ ".") c ;? loop (i + 1) l).
    pose proof (IH c ltac:(left) (path ++ Itoa i ++ ".")) as Hc. destruct (scanSensitive _ c) as [[]|e]; cbn [result_bind scan_verdict] in *.
    - specialize (IHl ltac:(intros; apply IH; by right) (i + 1)). destruct (loop (i + 1) l) as [[]|e]; cbn [scan_verdict] in *.
      + intros x [->|Hx]%elem_of_cons; auto.
      + destruct IHl as [Hn He]. split; [|done]. intros H. apply Hn. intros x Hx. apply H. by right.
    - destruct Hc as [Hn He]. split; [|done]. intros H. apply Hn, H. left. }
  specialize (Hl 0). assert ((forall c, c ∈ l -> clean c) <-> clean (VSlice (Some l))) as Hiff.
  { split; [intros H key Hm; inversion Hm as [| |l' c k Hc Hk]; subst; by apply (H c)|]. intros H c Hc key Hkey. apply H. by econstructor. }
  unfold scan_verdict in *. destruct (loop 0 l) as [u|e]; [exact (proj1 Hiff Hl)|]. destruct Hl as [Hn He]. split; [|exact He].
  intros H. exact (Hn (proj2 Hiff H)).
Qed.

(** The sensitive-name filter is exact at every depth.  A payload is
    accepted exactly when no key at any nesting of maps and slices contains a
    forbidden word (case, dashes and the Unicode look-alikes of ASCII letters
    folded); a rejection is always an invalid-request error. *)
Theorem rejectSensitive_exact v : scan_verdict (rejectSensitive v) (clean v).
Proof.
  unfold rejectSensitive. generalize "" as path. remember (vdepth v) as n eqn:En. assert (vdepth v <= n)%nat as Hle by lia. clear En.
  revert v Hle. induction n as [|n IH]; intros v Hle path.
  { destruct v as [| | | | | | |[l|]|[m|]| |]; try (intros key Hm; inversion Hm); cbn in Hle; lia. }
  destruct v as [| | | | | | |[l|]|[m|]| |]; try (intros key Hm; by inversion Hm).
  - apply scan_slice. intros c Hc p. apply IH. apply (foldr_max_le vdepth) in Hc. cbn [vdepth] in Hle. lia.
  - apply scan_map. intros k c Hc p. apply IH. cbn [vdepth] in Hle. rewrite map_fold_foldr in Hle.
    apply elem_of_map_to_list in Hc. apply (foldr_max_le (fun p : string * value => vdepth p.2)) in Hc. cbn [snd] in Hc.
    assert (foldr (fun v acc => max (vdepth v.2) acc) 0%nat (map_to_list m) = foldr (fun '(_, v) acc => max (vdepth v) acc) 0%nat (map_to_list m)) as E.
    { clear. induction (map_to_list m) as [|[k v] l IH]; [done|]. cbn. by rewrite IH. }
    unfold uncurry in Hle. lia.
Qed.

(** ** Concrete runs *)

(** A field codec with the source's prefix and no secrecy. *)
Definition prefixCrypto : FieldCrypto :=
  {| EncryptJSON := fun v _ => match v with VString s => Ok ("enc:v1:" ++ s) | _ => Err (NewErr "unsupported") end;
     DecryptJSON := fun s _ => if String.prefix "enc:v1:" s then Ok (VString (String.substring 7 (String.length s - 7) s))
                               else Err (NewErr "invalid encrypted field");
     SearchDigestBound := fun v _ _ => match v with VString s => Ok ("sd2:" ++ s) | _ => Err (NewErr "unsupported") end |}.

#[export] Instance prefixCrypto_ok : FieldCryptoOk prefixCrypto.
Proof.
  intros v aad t. destruct v as [| | | | |s| | | | |]; cbn [EncryptJSON prefixCrypto]; try done. intros [= <-]. exists (VString s).
  split; [|done]. cbn [DecryptJSON prefixCrypto]. replace (String.prefix "enc:v1:" ("enc:v1:" ++ s)) with true by (by destruct s).
  do 2 f_equal. change (String.length ("enc:v1:" ++ s) - 7)%nat with (String.length s - 0)%nat. rewrite Nat.sub_0_r.
  change (String.substring 7 (String.length s) ("enc:v1:" ++ s)) with (String.substring 0 (String.length s) s).
  induction s as [|c s IH]; cbn; [done|by rewrite IH].
Qed.

Definition cardPayload : gmap string value := {["card" := VString "4000"; "note" := VString "ok"]}.
Definition cardEvent : Event := set_ev_Payload (plainEvent "e1" "k1") (Some cardPayload).
Definition cardSchema (encrypted : list string) (searchable : list string) : EventSchema :=
  mkEventSchema "t1" "sch" 1 "invoice.paid" [] [] encrypted searchable "internal" true 0.
Definition cardSchemas (s : EventSchema) : gmap string EventSchema := {[SchemaKey "t1" "sch" 1 := s]}.
Definition cardProtected : Event :=
  match protectSensitiveFields (crypto := prefixCrypto) cardEvent (cardSchema ["card"] ["card"]) with Ok e => e | Err _ => cardEvent end.

Lemma card_schema s : cardSchemas s !! SchemaKey (ev_TenantID cardEvent) (ev_SchemaID cardEvent) (ev_SchemaVersion cardEvent) = Some s.
Proof. apply lookup_singleton_eq. Qed.
Lemma card_protects : protectSensitiveFields (crypto := prefixCrypto) cardEvent (cardSchema ["card"] ["card"]) = Ok cardProtected.
Proof. vm_compute. reflexivity. Qed.
Lemma card_reserved : rejectReservedSearchDigestNamespace (ev_Payload cardEvent) = Ok tt.
Proof. vm_compute. reflexivity. Qed.


Lemma repeated_encrypted_field_fails_witness : exists e',
  protectSensitiveFields (crypto := prefixCrypto) cardEvent (cardSchema ["card"; "card"] []) = Ok e' /\
  reconstructAndDerive (crypto := prefixCrypto) e' (cardSchemas (cardSchema ["card"; "card"] [])) =
    Err (Wrapf (NewErr "invalid encrypted field") "cannot decrypt field card").
Proof.
  apply (repeated_encrypted_field_fails (crypto := prefixCrypto) cardEvent (cardSchema ["card"; "card"] [])
    (cardSchemas (cardSchema ["card"; "card"] [])) "card" "4000" "enc:v1:4000" (NewErr "invalid encrypted field") cardPayload
    (card_schema _)); reflexivity.
Defined.

Definition ingestControl : Snapshot :=
  set_sn_Tenants (set_sn_Schemas (set_sn_Sources NewSnapshot
    {[SourceKey "t1" "billing" := mkSourceSystem "billing" "t1" "Billing" ["c1"] true 0]})
    (cardSchemas (cardSchema [] [])))
    {["t1" := mkTenant "t1" "T" "eu" "eu" true 2 1 0]}.
Definition ingestInput : Event := set_ev_Payload (plainEvent "e1" "k1") (Some {["note" := VString "ok"]}).
Definition ingestRun : result (string * Event) * gmap string quotaWindow :=
  prepareIngest (crypto := prefixCrypto) (mkIngestConfig "v1" 1000) ingestControl ingestControl ingestControl true 5 6 ∅
    "t1" "c1" StatusLedgered ingestInput.
Definition ingestPrepared : Event := match ingestRun.1 with Ok (_, e) => e | Err _ => ingestInput end.

Lemma ingest_runs : ingestRun = (Ok ("t1", ingestPrepared), ingestRun.2).
Proof. vm_compute. reflexivity. Qed.
Lemma ingest_schema_unique schema :
  sn_Schemas ingestControl !! SchemaKey "t1" (ev_SchemaID ingestInput) (ev_SchemaVersion ingestInput) = Some schema ->
  NoDup (sc_EncryptedFields schema).
Proof.
  intros H. assert (schema = cardSchema [] []) as ->; [|constructor].
  assert (sn_Schemas ingestControl !! SchemaKey "t1" (ev_SchemaID ingestInput) (ev_SchemaVersion ingestInput) = Some (cardSchema [] [])) as E
    by (vm_compute; reflexivity). congruence.
Qed.


Lemma quota_bounds_window_witness :
  (quotaRun ingestControl "t1" [10; 11; 12; 13; 14] ∅).1 = [true; true; true; false; false] /\
  0 <= admitted (quotaRun ingestControl "t1" [10; 11; 12; 13; 14] ∅).1 <= 3.
Proof.
  split; [vm_compute; reflexivity|].
  apply (quota_bounds_window ingestControl "t1" (mkTenant "t1" "T" "eu" "eu" true 2 1 0) 10 [11; 12; 13; 14] ∅);
    [reflexivity|reflexivity|reflexivity|discriminate|left; reflexivity|].
  intros t Ht. rewrite !elem_of_cons in Ht. unfold Second. destruct Ht as [->|[->|[->|[->|Ht]]]]; try reflexivity. inversion Ht.
Defined.

End IngestProps.
