(* ===== verification/TenantIngest.v ===== *)
(** * Ingest over the split store (internal/service: tenant_ingest.go,
    ingest_stream_anchor.go, ledgered_intent.go, hot_commit_recovery.go,
    hot_commit_pending.go, hotcold_workers.go)

    The tenant closures run on a [TenantView]: the hot document, the tenant's
    ledger through its methods, and a private copy of the control document.  A
    closure returns the view with its captured variables; the store commits
    the view only when the closure has no error.  [confirmed] is the view's
    PublicationConfirmed callback, [newID] the source of checkpoint IDs. *)

From Stdlib Require Import Ascii String.
From S2P Require Import Prelude GoStr Sha256 Merkle Signer Domain Canonical Keys Ledger Store SplitStore Evidence.
Open Scope string_scope.
Open Scope Z_scope.
Import Domain Canonical Keys Ledger Store SplitStore Sha256 Merkle Signer Evidence.

Module TenantIngest.

(** ** The view *)

Definition set_tv_Ledger (v : TenantView) (l : TenantLedger) : TenantView := mkTenantView (tv_Hot v) l (tv_Global v).
Definition set_tv_Events (v : TenantView) (m : gmap string Event) : TenantView :=
  mkTenantView (mkhotDoc m (hd_Streams (tv_Hot v))) (tv_Ledger v) (tv_Global v).
Definition set_tv_Streams (v : TenantView) (m : gmap string StreamState) : TenantView :=
  mkTenantView (mkhotDoc (hd_Events (tv_Hot v)) m) (tv_Ledger v) (tv_Global v).
Definition set_tv_Global (v : TenantView) (g : Snapshot) : TenantView := mkTenantView (tv_Hot v) (tv_Ledger v) g.

(** Ledger methods, on the view's ledger. *)
Definition viewReceipt (v : TenantView) (key : string) : TenantView * option EventReceipt :=
  let '(l, r) := Receipt (tv_Ledger v) key in (set_tv_Ledger v l, r).
Definition viewFindReceipt (v : TenantView) (idem : string) : TenantView * option EventReceipt :=
  let '(l, r) := FindReceiptByIdempotencyKey (tv_Ledger v) idem in (set_tv_Ledger v l, r).
Definition viewSetReceipt (v : TenantView) (now : time) (r : EventReceipt) : TenantView * option error :=
  let '(l, e) := SetReceipt (tv_Ledger v) now r in (set_tv_Ledger v l, e).
Definition viewAppendSegment (v : TenantView) (now : time) (s : Segment) : TenantView * option error :=
  let '(l, e) := AppendSegment (tv_Ledger v) now s in (set_tv_Ledger v l, e).
Definition viewAppendCheckpoint (v : TenantView) (now : time) (c : Checkpoint) : TenantView * option error :=
  let '(l, e) := AppendCheckpoint (tv_Ledger v) now c in (set_tv_Ledger v l, e).

(** ** Idempotency keys *)

Fixpoint reusedByHot (v : TenantView) (tenantID eventKey idempotencyKey : string) (entries : list (string * Event))
    : TenantView * bool :=
  match entries with
  | [] => (v, false)
  | (key, e) :: entries =>
      if negb (bool_decide (key = eventKey)) && bool_decide (ev_TenantID e = tenantID)
         && bool_decide (ev_IdempotencyKey e = idempotencyKey)
      then
        match viewReceipt v key with
        | (v, Some _) => (v, true)
        | (v, None) => reusedByHot v tenantID eventKey idempotencyKey entries
        end
      else reusedByHot v tenantID eventKey idempotencyKey entries
  end.

Definition idempotencyKeyReusedTenant (v : TenantView) (tenantID eventKey idempotencyKey : string) : TenantView * bool :=
  match viewFindReceipt v idempotencyKey with
  | (v, Some receipt) =>
      if negb (bool_decide (EventKey tenantID (rc_EventID receipt) = eventKey)) then (v, true)
      else reusedByHot v tenantID eventKey idempotencyKey (map_to_list (hd_Events (tv_Hot v)))
  | (v, None) => reusedByHot v tenantID eventKey idempotencyKey (map_to_list (hd_Events (tv_Hot v)))
  end.

(** ** ingest_stream_anchor.go *)

Definition MaxInt64 : Z := 9223372036854775807.

Definition headMatches (s : StreamState) (e : Event) (r : EventReceipt) : bool :=
  bool_decide (rc_TenantID r = ss_TenantID s) && bool_decide (rc_EventID r = ev_EventID e)
  && bool_decide (rc_StreamID r = ss_StreamID s) && (rc_Sequence r =? ev_Sequence e)
  && bool_decide (rc_Hash r = ev_Hash e) && bool_decide (rc_Hash r = ss_HeadHash s).

Fixpoint checkHead (v : TenantView) (s : StreamState) (entries : list (string * Event)) : TenantView * option error :=
  match entries with
  | [] => (v, LedgerErr (tv_Ledger v))
  | (key, e) :: entries =>
      if negb (bool_decide (ev_StreamID e = ss_StreamID s)) || negb (ev_Sequence e =? ss_NextSequence s - 1)
      then checkHead v s entries
      else
        match viewReceipt v key with
        | (v, Some r) =>
            if headMatches s e r then checkHead v s entries
            else (v, Some (Wrapf (Sentinel ErrConflict) "ingest head has no matching committed receipt"))
        | (v, None) => (v, Some (Wrapf (Sentinel ErrConflict) "ingest head has no matching committed receipt"))
        end
  end.

Definition validateIngestHotHead (v : TenantView) (s : StreamState) : TenantView * option error :=
  if (ss_NextSequence s <=? 0) || (ss_NextSequence s =? MaxInt64)
  then (v, Some (Wrapf (Sentinel ErrConflict) "invalid ingest stream sequence"))
  else if ss_NextSequence s =? 1 then
    (v, if bool_decide (ss_HeadHash s = "") then None else Some (Sentinel ErrConflict))
  else checkHead v s (map_to_list (hd_Events (tv_Hot v))).

Section service.
Context {signer : Signer} {crypto : FieldCrypto} {archive : ArchiveReader}.
Variable legacyDigest : Event -> result string.

(** ** ledgered_intent.go *)

Definition ensureLedgeredIntent (publish : bool) (v : TenantView) (e : Event) (key : string) : TenantView :=
  if publish then set_tv_Global v (set_sn_LedgeredOutbox (tv_Global v) (<[key := e]> (sn_LedgeredOutbox (tv_Global v)))) else v.

Definition validatePublicationEvent (e : Event) (r : EventReceipt) (schemas : gmap string EventSchema) : result unit :=
  guard_err (negb (bool_decide (rc_TenantID r = "") || bool_decide (rc_EventID r = "") || bool_decide (rc_StreamID r = "")
                   || (rc_Sequence r <=? 0) || bool_decide (rc_Hash r = "")
                   || negb (bool_decide (ev_TenantID e = rc_TenantID r)) || negb (bool_decide (ev_EventID e = rc_EventID r))
                   || negb (bool_decide (ev_StreamID e = rc_StreamID r)) || negb (ev_Sequence e =? rc_Sequence r)
                   || negb (bool_decide (ev_Hash e = rc_Hash r))))
    (NewErr "publication evidence identity mismatch") ;?
  match verifyContentDigest legacyDigest e schemas with
  | Some _ => Err (NewErr "publication evidence content mismatch")
  | None =>
      match eventHash e with
      | Ok hash => guard_err (bool_decide (hash = rc_Hash r)) (NewErr "publication evidence hash mismatch")
      | Err _ => Err (NewErr "publication evidence hash mismatch")
      end
  end.

(** Whether a lost publication intent of a duplicate was re-created. *)
Definition repairLedgeredIntent (publish : bool) (confirmed : EventReceipt -> result bool) (v : TenantView)
    (r : EventReceipt) (key : string) : TenantView * result bool :=
  if negb publish || negb (rc_Duplicate r) then (v, Ok false)
  else
    match sn_LedgeredOutbox (tv_Global v) !! key with
    | Some _ => (v, Ok false)
    | None =>
        match confirmed r with
        | Err e => (v, Err e)
        | Ok true => (v, Ok false)
        | Ok false =>
            match hd_Events (tv_Hot v) !! key with
            | None => (v, Ok false)
            | Some stored =>
                match validatePublicationEvent stored r (sn_Schemas (tv_Global v)) with
                | Err e => (v, Err e)
                | Ok _ => (ensureLedgeredIntent publish v stored key, Ok true)
                end
            end
        end
    end.

(** ** Existing events *)

(** [None] is "not found"; otherwise the receipt to answer with and the error. *)
Definition checkExistingTenantIngest (v : TenantView) (now : time) (tenantID eventID inputDigest : string)
    : TenantView * option (EventReceipt * option error) :=
  let key := EventKey tenantID eventID in
  let '(v, stored) := viewReceipt v key in
  let existing :=
    match hd_Events (tv_Hot v) !! key, stored with
    | Some e, _ => Some (Ok e)
    | None, None => None
    | None, Some r =>
        if negb (bool_decide (rc_Status r = StatusArchived))
        then Some (Err (NewErr ("event " ++ eventID ++ " has receipt but no hot payload")))
        else Some (archivedEventContext r)
    end in
  match existing with
  | None => (v, None)
  | Some (Err e) => (v, Some (zero_EventReceipt, Some e))
  | Some (Ok e) =>
      match stored with
      | None => (v, Some (zero_EventReceipt, Some (Wrapf (Sentinel ErrConflict) "hot evidence has no committed receipt")))
      | Some stored =>
          match reconstructAndDerive e (sn_Schemas (tv_Global v)) with
          | Err err => (v, Some (zero_EventReceipt, Some err))
          | Ok digest =>
              if bool_decide (digest = inputDigest) then (v, Some (set_rc_Duplicate stored true, None))
              else
                let stored := contentConflict stored in
                match viewSetReceipt v now stored with
                | (v, Some err) => (v, Some (stored, Some err))
                | (v, None) => (v, Some (stored, Some contentDiffers))
                end
          end
      end
  end.

(** ** The ingest closure *)

(** The variables the closure captures, and its error. *)
Record tenantOutcome : Type := mkTenantOutcome {
  to_receipt : EventReceipt;
  to_event : Event;
  to_sealed : list Segment;
  to_repaired : bool;
  to_err : option error
}.

Definition stopped (r : EventReceipt) (e : Event) (err : option error) : tenantOutcome := mkTenantOutcome r e [] false err.

(** The tail of the closure: seal a full stream. *)
Definition sealFull (segmentSize : Z) (now : time) (checkpointID streamKey : string) (s : StreamState)
    (receipt : EventReceipt) (e : Event) (v : TenantView) : TenantView * tenantOutcome :=
  if Z.of_nat (length (ss_PendingHashes s)) <? segmentSize then (v, stopped receipt e None)
  else
    match sealSegment s (ev_ReceivedAt e) checkpointID with
    | Err err => (v, stopped receipt e (Some err))
    | Ok (segment, checkpoint) =>
        let done err := mkTenantOutcome receipt e [segment] false err in
        match viewAppendSegment v now segment with
        | (v, Some err) => (v, done (Some err))
        | (v, None) =>
            match viewAppendCheckpoint v now checkpoint with
            | (v, Some err) => (v, done (Some err))
            | (v, None) => (set_tv_Streams v (<[streamKey := clearPendingHashes s]> (hd_Streams (tv_Hot v))), done None)
            end
        end
    end.

(** From the receipt on: allocate the coordinates, extend stream, events,
    outbox and ledger. [now] is the clock of the ledger's records. *)
Definition commitTenantEvent (segmentSize : Z) (publish : bool) (now : time) (tenantID checkpointID : string) (event : Event)
    (v : TenantView) : TenantView * tenantOutcome :=
  let key := EventKey tenantID (ev_EventID event) in
  let streamID := Stream event in
  let streamKey := StreamKey tenantID streamID in
  let receipt := ledgeredReceipt tenantID (set_ev_Hash (set_ev_Sequence (set_ev_StreamID event "") 0) "") in
  let stream := openStream (hd_Streams (tv_Hot v)) tenantID streamID in
  match validateIngestHotHead v stream with
  | (v, Some err) => (v, stopped receipt event (Some err))
  | (v, None) =>
      match chainEvent event streamID key stream with
      | Err err =>
          let event := set_ev_PrevHash (set_ev_Sequence (set_ev_StreamID event streamID) (ss_NextSequence stream)) (ss_HeadHash stream) in
          (v, stopped receipt (set_ev_Hash event "") (Some err))
      | Ok (event, stream) =>
          let v := set_tv_Streams v (<[streamKey := stream]> (hd_Streams (tv_Hot v))) in
          let v := set_tv_Events v (<[key := event]> (hd_Events (tv_Hot v))) in
          let v := ensureLedgeredIntent publish v event key in
          let receipt := ledgeredReceipt tenantID event in
          match viewSetReceipt v now receipt with
          | (v, Some err) => (v, stopped receipt event (Some err))
          | (v, None) => sealFull segmentSize now checkpointID streamKey stream receipt event v
          end
      end
  end.

Definition ingestTenantClosure (segmentSize : Z) (publish : bool) (confirmed : EventReceipt -> result bool) (now : time)
    (tenantHint clientID tenantID checkpointID : string) (event : Event) (inputDigest : string) (v : TenantView)
    : TenantView * tenantOutcome :=
  let key := EventKey tenantID (ev_EventID event) in
  match resolveIngestTenantFromData (tv_Global v) tenantHint clientID (ev_SourceSystem event) with
  | Err _ => (v, stopped zero_EventReceipt event (Some sourceAccessError))
  | Ok commitTenant =>
      if negb (bool_decide (commitTenant = tenantID)) then (v, stopped zero_EventReceipt event (Some sourceAccessError))
      else
        match checkExistingTenantIngest v now tenantID (ev_EventID event) inputDigest with
        | (v, Some (receipt, Some err)) => (v, stopped receipt event (Some err))
        | (v, Some (receipt, None)) =>
            match repairLedgeredIntent publish confirmed v receipt key with
            | (v, Err err) => (v, stopped receipt event (Some err))
            | (v, Ok repaired) => (v, mkTenantOutcome receipt event [] repaired None)
            end
        | (v, None) =>
            match idempotencyKeyReusedTenant v tenantID key (ev_IdempotencyKey event) with
            | (v, true) =>
                (v, stopped (conflictReceipt tenantID event) event
                      (Some (Wrapf (Sentinel ErrConflict) "idempotency_key is already associated with another event")))
            | (v, false) => commitTenantEvent segmentSize publish now tenantID checkpointID event v
            end
        end
  end.

(** ** ingestTenantOnce *)

(** The view a closure is run on, when updateTenant reaches it. *)
Definition closureView (f : faults) (s : splitStore) (tenantID : string) : option TenantView :=
  match ft_ctx_update f with
  | Some _ => None
  | None =>
      let st := tenantStateOf s tenantID in
      match unresolvedTenantCommit st, cloneControl (sp_control s) with
      | Ok false, Ok global => Some (mkTenantView (ts_hot st) (newTenantLedgerView (ts_ledger st)) global)
      | _, _ => None
      end
  end.

Definition as_update (closure : TenantView -> TenantView * tenantOutcome) (v : TenantView) : TenantView * option error :=
  let '(v, o) := closure v in (v, to_err o).

(** The answer after a failed commit: the receipt the ledger holds, if any. *)
Definition committedReceipt (s : splitStore) (ctxErr : option error) (tenantID key : string) : EventReceipt :=
  match ctxErr with
  | Some _ => zero_EventReceipt
  | None =>
      match cloneControl (sp_control s) with
      | Err _ => zero_EventReceipt
      | Ok _ =>
          let '(l, r) := Receipt (newTenantLedgerView (ts_ledger (tenantStateOf s tenantID))) key in
          match LedgerErr l with
          | Some _ => zero_EventReceipt
          | None => default zero_EventReceipt r
          end
      end
  end.

(** [readErr]: the context error of the read that follows a failure. *)
Definition ingestTenantOnce (f : faults) (readErr : option error) (segmentSize : Z) (publish : bool)
    (confirmed : EventReceipt -> result bool) (now : time) (tenantHint clientID tenantID checkpointID : string)
    (event : Event) (inputDigest : string) (s : splitStore) : splitStore * tenantOutcome :=
  let closure := ingestTenantClosure segmentSize publish confirmed now tenantHint clientID tenantID checkpointID event inputDigest in
  let captured :=
    match closureView f s tenantID with
    | Some v => snd (closure v)
    | None => stopped zero_EventReceipt event None
    end in
  match updateTenant f s tenantID HotFirst (as_update closure) with
  | (s, None) => (s, captured)
  | (s, Some err) =>
      let receipt :=
        if negb (bool_decide (rc_EventID (to_receipt captured) = "")) && negb (rc_Conflict (to_receipt captured))
        then committedReceipt s readErr tenantID (EventKey tenantID (ev_EventID event))
        else to_receipt captured in
      (s, mkTenantOutcome receipt (to_event captured) (to_sealed captured) (to_repaired captured) (Some err))
  end.

(** ** Receipt transitions (transitionTenantReceipt) *)

Definition transitionOrder (evict : bool) : CommitOrder := if evict then ColdFirst else HotFirst.

Definition transitionTenantClosure (tenantID eventID status : string) (evict : bool) (now : time) (v : TenantView)
    : TenantView * result EventReceipt :=
  let key := EventKey tenantID eventID in
  let '(v, stored) := viewReceipt v key in
  match (match stored with Some r => Some r | None => receiptFromEvent <$> hd_Events (tv_Hot v) !! key end) with
  | None => (v, Err (Sentinel ErrNotFound))
  | Some r =>
      let r := set_rc_IndexedAt (set_rc_Status r status) now in
      let r := if evict then set_rc_ArchivedAt r now else r in
      let v := if evict then set_tv_Events v (delete key (hd_Events (tv_Hot v))) else v in
      match viewSetReceipt v now r with
      | (v, Some e) => (v, Err e)
      | (v, None) => (v, Ok r)
      end
  end.

(** ** hotcold_workers.go: sealing *)

Fixpoint sealStreams (now : time) (newID : string -> string) (keys : list string) (v : TenantView) : TenantView * option error :=
  match keys with
  | [] => (v, None)
  | key :: keys =>
      match hd_Streams (tv_Hot v) !! key with
      | None => sealStreams now newID keys v
      | Some s =>
          match sealSegment s now (newID key) with
          | Err e => (v, Some e)
          | Ok (segment, checkpoint) =>
              match viewAppendSegment v now segment with
              | (v, Some e) => (v, Some e)
              | (v, None) =>
                  match viewAppendCheckpoint v now checkpoint with
                  | (v, Some e) => (v, Some e)
                  | (v, None) =>
                      sealStreams now newID keys (set_tv_Streams v (<[key := clearPendingHashes s]> (hd_Streams (tv_Hot v))))
                  end
              end
          end
      end
  end.

Definition sealableKeys (tenantID : string) (streams : gmap string StreamState) : list string :=
  sort_strings (List.filter (fun key =>
    match streams !! key with
    | Some s => bool_decide (ss_TenantID s = tenantID) && negb (bool_decide (ss_PendingHashes s = []))
    | None => false
    end) (map_to_list streams).*1).

Definition sealPendingTenantClosure (tenantID : string) (now : time) (newID : string -> string) (v : TenantView)
    : TenantView * option error :=
  sealStreams now newID (sealableKeys tenantID (hd_Streams (tv_Hot v))) v.

(** ** hotcold_workers.go: archiving *)

Record archiveTenantBatch : Type := mkarchiveTenantBatch {
  ab_events : list Event;
  ab_evictedKeys : list string;
  ab_segments : list Segment
}.

(** The dead-letter identity of a segment (sealing.go). *)
Definition segmentDeadLetterKey (sg : Segment) : string * string :=
  let eventID := segmentIDPrefix ++ sg_StreamID sg ++ ":" ++ Itoa (sg_FirstSequence sg) ++ "-" ++ Itoa (sg_LastSequence sg) in
  (EventKey (sg_TenantID sg) eventID, eventID).

Fixpoint collectHot (v : TenantView) (tenantID : string) (entries : list (string * Event)) (batch : list Event * list string)
    : TenantView * result (list Event * list string) :=
  match entries with
  | [] => (v, Ok batch)
  | (key, e) :: entries =>
      if negb (bool_decide (ev_TenantID e = tenantID)) then collectHot v tenantID entries batch
      else
        match sn_DeadLetters (tv_Global v) !! key with
        | Some _ => collectHot v tenantID entries batch
        | None =>
            match viewReceipt v key with
            | (v, None) => (v, Err (Wrapf (Sentinel ErrConflict) "uncommitted hot evidence cannot be archived"))
            | (v, Some r) =>
                if bool_decide (rc_Status r = StatusArchived)
                then collectHot v tenantID entries (batch.1, (batch.2 ++ [key])%list)
                else collectHot v tenantID entries ((batch.1 ++ [e])%list, batch.2)
            end
        end
  end.

Definition collectSegments (global : Snapshot) (records : list LedgerRecord) : list Segment :=
  omap (fun r =>
    if negb (bool_decide (lr_RecordType r = LedgerSegment)) then None
    else
      match lr_Segment r with
      | Some sg => match sn_DeadLetters global !! (segmentDeadLetterKey sg).1 with Some _ => None | None => Some sg end
      | None => None
      end) records.

Definition collectArchiveClosure (tenantID : string) (v : TenantView) : TenantView * result archiveTenantBatch :=
  match collectHot v tenantID (map_to_list (hd_Events (tv_Hot v))) ([], []) with
  | (v, Err e) => (v, Err e)
  | (v, Ok (events, evicted)) =>
      let '(l, records) := Records (tv_Ledger v) in
      (set_tv_Ledger v l,
       Ok (mkarchiveTenantBatch
             (stable_sort (fun a b => str_leb (ev_EventID a) (ev_EventID b)) events)
             (sort_strings evicted)
             (stable_sort (lexb sg_StreamID str_leb (fun a b => sg_FirstSequence a <=? sg_FirstSequence b))
                (collectSegments (tv_Global v) records))))
  end.

Definition evictTenantKey (v : TenantView) (key : string) : TenantView :=
  match viewReceipt v key with
  | (v, Some r) =>
      if bool_decide (rc_Status r = StatusArchived) then set_tv_Events v (delete key (hd_Events (tv_Hot v))) else v
  | (v, None) => v
  end.

Fixpoint markTenantArchived (tenantID : string) (now : time) (events : list Event) (v : TenantView) : TenantView * option error :=
  match events with
  | [] => (v, None)
  | e :: events =>
      let key := EventKey tenantID (ev_EventID e) in
      match viewReceipt v key with
      | (v, None) => (v, Some (Sentinel ErrNotFound))
      | (v, Some r) =>
          let r := set_rc_ArchivedAt (set_rc_IndexedAt (set_rc_Status r StatusArchived) now) now in
          match viewSetReceipt v now r with
          | (v, Some err) => (v, Some err)
          | (v, None) => markTenantArchived tenantID now events (set_tv_Events v (delete key (hd_Events (tv_Hot v))))
          end
      end
  end.

Fixpoint markTenantDead (now : time) (deadLetters : list (string * DeadLetter)) (v : TenantView) : TenantView * option error :=
  match deadLetters with
  | [] => (v, None)
  | (key, dead) :: deadLetters =>
      let v := set_tv_Global v (set_sn_DeadLetters (tv_Global v) (<[key := dead]> (sn_DeadLetters (tv_Global v)))) in
      match viewReceipt v key with
      | (v, None) => markTenantDead now deadLetters v
      | (v, Some r) =>
          let r := set_rc_ErrorMessage (set_rc_ErrorCode r "archive_dead_letter") (dl_ErrorMessage dead) in
          match viewSetReceipt v now r with
          | (v, Some err) => (v, Some err)
          | (v, None) => markTenantDead now deadLetters v
          end
      end
  end.

Definition archiveTenantClosure (tenantID : string) (now : time) (evictedKeys : list string) (archivedEvents : list Event)
    (deadLetters : gmap string DeadLetter) (v : TenantView) : TenantView * option error :=
  let v := foldl evictTenantKey v evictedKeys in
  match markTenantArchived tenantID now archivedEvents v with
  | (v, Some e) => (v, Some e)
  | (v, None) =>
      match markTenantDead now (map_to_list deadLetters) v with
      | (v, Some e) => (v, Some e)
      | (v, None) =>
          (set_tv_Global v (set_sn_ArchiveConflictFailures (tv_Global v)
             (<[tenantID := 0]> (sn_ArchiveConflictFailures (tv_Global v)))), None)
      end
  end.

(** ** hot_commit_recovery.go *)

Record hotRecoveryRecords : Type := mkhotRecoveryRecords {
  hr_receipt : option EventReceipt;
  hr_segment : option Segment;
  hr_checkpoint : option Checkpoint
}.

Definition recoveryRecord (acc : result hotRecoveryRecords) (r : LedgerRecord) : result hotRecoveryRecords :=
  let? p := acc in
  if decide (lr_RecordType r = LedgerReceipt) then
    match hr_receipt p with
    | Some _ => Err (Sentinel ErrConflict)
    | None => Ok (mkhotRecoveryRecords (lr_Receipt r) (hr_segment p) (hr_checkpoint p))
    end
  else if decide (lr_RecordType r = LedgerSegment) then
    match hr_segment p with
    | Some _ => Err (Sentinel ErrConflict)
    | None => Ok (mkhotRecoveryRecords (hr_receipt p) (lr_Segment r) (hr_checkpoint p))
    end
  else if decide (lr_RecordType r = LedgerCheckpoint) then
    match hr_checkpoint p with
    | Some _ => Err (Sentinel ErrConflict)
    | None => Ok (mkhotRecoveryRecords (hr_receipt p) (hr_segment p) (lr_Checkpoint r))
    end
  else Err (Sentinel ErrConflict).

(** A receipt an interrupted ingest journaled: ledgered, with no verdict yet. *)
Definition recoverableReceipt (r : EventReceipt) : bool :=
  bool_decide (rc_Status r = StatusLedgered) && negb (rc_Duplicate r) && negb (rc_Conflict r)
  && bool_decide (rc_ErrorCode r = "") && negb (rc_LedgeredAt r =? 0) && (0 <? rc_Sequence r)
  && negb (rc_Sequence r =? MaxInt64).

Definition recoveryRecords (c : TenantCommitCandidate) : result (EventReceipt * hotRecoveryRecords) :=
  guard_err (length (tc_Records c) <=? 3)%nat (Wrapf (Sentinel ErrConflict) "unsupported hot commit recovery") ;?
  let? p := foldl recoveryRecord (Ok (mkhotRecoveryRecords None None None)) (tc_Records c) in
  match hr_receipt p with
  | Some r => if recoverableReceipt r then Ok (r, p) else Err (Wrapf (Sentinel ErrConflict) "invalid recovery receipt")
  | None => Err (Wrapf (Sentinel ErrConflict) "invalid recovery receipt")
  end.

Definition anchorMatches (c : TenantCommitCandidate) (streamID : string) (sequence : Z) (hash : string) : bool :=
  match tc_Anchors c !! ((streamID, sequence) : LedgerCoordinate) with
  | Some a => bool_decide (rc_TenantID a = tc_TenantID c) && bool_decide (rc_StreamID a = streamID)
              && (rc_Sequence a =? sequence) && negb (bool_decide (rc_Hash a = "")) && bool_decide (rc_Hash a = hash)
  | None => false
  end.

Definition recoveryPrefixMatches (c : TenantCommitCandidate) (streamID : string) (firstSequence : Z) (prevHash : string) : bool :=
  if firstSequence =? 1 then bool_decide (prevHash = "")
  else if firstSequence <? 1 then false
  else anchorMatches c streamID (firstSequence - 1) prevHash.

Definition validateRecoveryHead (c : TenantCommitCandidate) (r : EventReceipt) : result StreamState :=
  match hd_Events (tc_Hot c) !! EventKey (tc_TenantID c) (rc_EventID r) with
  | None => Err (Sentinel ErrConflict)
  | Some e =>
      match validatePublicationEvent e r (tc_Schemas c) with
      | Err _ => Err (Wrapf (Sentinel ErrConflict) "invalid hot recovery evidence")
      | Ok _ =>
          match hd_Streams (tc_Hot c) !! StreamKey (tc_TenantID c) (rc_StreamID r) with
          | None => Err (Wrapf (Sentinel ErrConflict) "hot recovery stream mismatch")
          | Some s =>
              guard_err (bool_decide (ss_TenantID s = tc_TenantID c) && bool_decide (ss_StreamID s = rc_StreamID r)
                         && (ss_NextSequence s =? rc_Sequence r + 1) && bool_decide (ss_HeadHash s = rc_Hash r))
                (Wrapf (Sentinel ErrConflict) "hot recovery stream mismatch") ;?
              (if rc_Sequence r =? 1 then guard_err (bool_decide (ev_PrevHash e = "")) (Sentinel ErrConflict)
               else guard_err (anchorMatches c (rc_StreamID r) (rc_Sequence r - 1) (ev_PrevHash e))
                      (Wrapf (Sentinel ErrConflict) "recovery predecessor unavailable")) ;?
              Ok s
          end
      end
  end.

(** hot_commit_pending.go: the stream still collects hashes. *)
Definition pendingReceiptMatches (c : TenantCommitCandidate) (s : StreamState) (first : Z) (receipt : EventReceipt)
    (n i : nat) (key hash : string) : bool :=
  match (if (i =? n - 1)%nat then Some receipt else tc_PendingReceipts c !! key) with
  | Some value =>
      bool_decide (rc_TenantID value = tc_TenantID c) && bool_decide (rc_StreamID value = ss_StreamID s)
      && (rc_Sequence value =? first + Z.of_nat i) && negb (bool_decide (rc_Hash value = ""))
      && bool_decide (rc_Hash value = hash) && bool_decide (key = EventKey (tc_TenantID c) (rc_EventID value))
  | None => false
  end.

Definition validateRecoveryPending (c : TenantCommitCandidate) (s : StreamState) (receipt : EventReceipt) : result unit :=
  let n := length (ss_PendingHashes s) in
  guard_err (negb (n =? 0)%nat && (length (ss_PendingEvents s) =? n)%nat
             && bool_decide (last (ss_PendingHashes s) = Some (rc_Hash receipt))
             && bool_decide (last (ss_PendingEvents s) = Some (EventKey (tc_TenantID c) (rc_EventID receipt))))
    (Sentinel ErrConflict) ;?
  let first := ss_NextSequence s - Z.of_nat n in
  guard_err (recoveryPrefixMatches c (ss_StreamID s) first (ss_PendingPrevHash s)) (Sentinel ErrConflict) ;?
  guard_err (forallb (fun '(i, (key, hash)) => pendingReceiptMatches c s first receipt n i key hash)
               (combine (seq 0 n) (combine (ss_PendingEvents s) (ss_PendingHashes s)))) (Sentinel ErrConflict).

Definition segmentRecovers (c : TenantCommitCandidate) (r : EventReceipt) (sg : Segment) : bool :=
  bool_decide (sg_TenantID sg = tc_TenantID c) && bool_decide (sg_StreamID sg = rc_StreamID r)
  && (sg_LastSequence sg =? rc_Sequence r) && bool_decide (sg_LastHash sg = rc_Hash r)
  && (0 <? sg_FirstSequence sg) && (sg_FirstSequence sg <=? sg_LastSequence sg)
  && (sg_EventCount sg =? sg_LastSequence sg - sg_FirstSequence sg + 1).

Definition checkpointRecovers (c : TenantCommitCandidate) (r : EventReceipt) (sg : Segment) (cp : Checkpoint) : bool :=
  bool_decide (cp_TenantID cp = tc_TenantID c) && bool_decide (cp_StreamID cp = rc_StreamID r)
  && (cp_Sequence cp =? rc_Sequence r) && bool_decide (cp_MerkleRoot cp = sg_MerkleRoot sg)
  && bool_decide (cp_Signature cp = sg_Signature sg) && bool_decide (cp_Algorithm cp = Algorithm).

Definition validateRecoverySeal (c : TenantCommitCandidate) (s : StreamState) (r : EventReceipt) (p : hotRecoveryRecords) : result unit :=
  match hr_segment p, hr_checkpoint p with
  | Some sg, Some cp =>
      guard_err ((length (ss_PendingHashes s) =? 0)%nat && (length (ss_PendingEvents s) =? 0)%nat) (Sentinel ErrConflict) ;?
      guard_err (segmentRecovers c r sg) (Sentinel ErrConflict) ;?
      guard_err (checkpointRecovers c r sg cp) (Sentinel ErrConflict) ;?
      guard_err (recoveryPrefixMatches c (sg_StreamID sg) (sg_FirstSequence sg) (sg_FirstPrevHash sg)) (Sentinel ErrConflict) ;?
      let digest := HashBytes (manifestText (sg_TenantID sg) (sg_FirstSequence sg) (sg_LastSequence sg) (sg_LastHash sg) (sg_MerkleRoot sg)) in
      guard_err (bool_decide (digest = sg_ManifestHash sg)) (Sentinel ErrConflict) ;?
      let? valid := Verify digest (sg_Signature sg) in
      guard_err valid (Wrapf (Sentinel ErrConflict) "hot recovery signature mismatch")
  | _, _ => Err (Sentinel ErrConflict)
  end.

Definition validateHotTenantCommit (c : TenantCommitCandidate) : result unit :=
  let? rp := recoveryRecords c in
  let '(r, p) := rp in
  let? s := validateRecoveryHead c r in
  match hr_segment p, hr_checkpoint p with
  | None, None => validateRecoveryPending c s r
  | _, _ => validateRecoverySeal c s r p
  end.

(** The context errors of the read are [readErr]; those of the commit are in
    the faults. *)
Definition RecoverHotTenantCommit (f : faults) (readErr : option error) (s : splitStore) (tenantID : string)
    : splitStore * result Z :=
  match (if bool_decide (tenantID = "") then Err (invalid "tenant_id is required") else ValidTenantID tenantID) with
  | Err e => (s, Err e)
  | Ok _ =>
      match ReadPendingTenantCommit s readErr tenantID with
      | Err e => (s, Err e)
      | Ok None => (s, Ok 0)
      | Ok (Some c) =>
          match validateHotTenantCommit c with
          | Err e => (s, Err e)
          | Ok _ => CommitPendingTenantCommit f s c
          end
      end
  end.

(** ingestTenant: one attempt, and a second one behind a recovery. *)
Definition ingestTenant (f1 f2 f3 : faults) (readErr : option error) (segmentSize : Z) (publish : bool)
    (confirmed : EventReceipt -> result bool) (now : time) (tenantHint clientID tenantID checkpointID : string)
    (event : Event) (inputDigest : string) (s : splitStore) : splitStore * tenantOutcome :=
  let attempt f s := ingestTenantOnce f readErr segmentSize publish confirmed now tenantHint clientID tenantID checkpointID
                       event inputDigest s in
  let '(s, o) := attempt f1 s in
  match to_err o with
  | Some err =>
      if errors_Is err ErrTenantCommitPending then
        match RecoverHotTenantCommit f2 readErr s tenantID with
        | (s, Err e) => (s, mkTenantOutcome (to_receipt o) (to_event o) (to_sealed o) (to_repaired o) (Some e))
        | (s, Ok _) => attempt f3 s
        end
      else (s, o)
  | None => (s, o)
  end.

End service.

End TenantIngest.
