(* ===== verification/TenantProps.v ===== *)
(** * Properties of ingest over the split store

    The tenant closures touch the ledger through its methods only, so the crash
    theorems of the store apply to them.  A tenant invariant ties the hot
    streams to the committed receipts; every closure keeps it, and under it
    whatever an interrupted ingest leaves behind is accepted by the recovery
    validator and completed.  An interrupted seal is the exception. *)

From Stdlib Require Import Ascii String.
From S2P Require Import Prelude GoStr Sha256 Merkle Signer Domain Canonical CanonicalProps DigestProps Keys Ledger LedgerFacts LedgerViews LedgerProps Store SplitStore SplitProps Evidence Integrity ChainProps EvidenceProps EvidenceInv TenantIngest.
Open Scope string_scope.
Open Scope Z_scope.
Import Domain Canonical CanonicalProps DigestProps Keys Ledger LedgerFacts LedgerViews LedgerProps Store SplitStore SplitProps
  Sha256 Merkle Signer Evidence Integrity ChainProps EvidenceProps EvidenceInv TenantIngest.

Module TenantProps.

(** ** Only ledger methods *)

Definition reaches (l l' : TenantLedger) : Prop := exists calls, l' = foldl run_call l calls.

Lemma reaches_refl l : reaches l l.
Proof. by exists []. Qed.
Lemma reaches_trans a b c : reaches a b -> reaches b c -> reaches a c.
Proof. intros [p ->] [q ->]. exists (p ++ q)%list. by rewrite foldl_app. Qed.
Lemma reaches_call l c : reaches l (run_call l c).
Proof. by exists [c]. Qed.

Definition view_reaches (v v' : TenantView) : Prop := reaches (tv_Ledger v) (tv_Ledger v').

Lemma viewReceipt_reaches v key : view_reaches v (viewReceipt v key).1.
Proof. unfold viewReceipt, view_reaches. pose proof (reaches_call (tv_Ledger v) (CallReceipt key)) as H. cbn in H. by destruct (Receipt _ _). Qed.
Lemma viewFindReceipt_reaches v key : view_reaches v (viewFindReceipt v key).1.
Proof. unfold viewFindReceipt, view_reaches. pose proof (reaches_call (tv_Ledger v) (CallFindReceipt key)) as H. cbn [run_call] in H. by destruct (FindReceiptByIdempotencyKey _ _). Qed.
Lemma viewSetReceipt_reaches v now r : view_reaches v (viewSetReceipt v now r).1.
Proof. unfold viewSetReceipt, view_reaches. pose proof (reaches_call (tv_Ledger v) (CallSetReceipt now r)) as H. cbn [run_call] in H. by destruct (SetReceipt _ _ _). Qed.
Lemma viewAppendSegment_reaches v now s : view_reaches v (viewAppendSegment v now s).1.
Proof. unfold viewAppendSegment, view_reaches. pose proof (reaches_call (tv_Ledger v) (CallAppendSegment now s)) as H. cbn [run_call] in H. by destruct (AppendSegment _ _ _). Qed.
Lemma viewAppendCheckpoint_reaches v now c : view_reaches v (viewAppendCheckpoint v now c).1.
Proof. unfold viewAppendCheckpoint, view_reaches. pose proof (reaches_call (tv_Ledger v) (CallAppendCheckpoint now c)) as H. cbn [run_call] in H. by destruct (AppendCheckpoint _ _ _). Qed.

(** Follow the next ledger call of the goal's closure. *)
Ltac follow_call :=
  match goal with
  | |- context [match ?c with (_, _) => _ end] =>
      let H := fresh "Hcall" in
      first
        [ match c with viewReceipt ?v ?k => pose proof (viewReceipt_reaches v k) as H end
        | match c with viewFindReceipt ?v ?k => pose proof (viewFindReceipt_reaches v k) as H end
        | match c with viewSetReceipt ?v ?n ?r => pose proof (viewSetReceipt_reaches v n r) as H end
        | match c with viewAppendSegment ?v ?n ?r => pose proof (viewAppendSegment_reaches v n r) as H end
        | match c with viewAppendCheckpoint ?v ?n ?r => pose proof (viewAppendCheckpoint_reaches v n r) as H end ];
      destruct c; cbn [fst] in H; unfold view_reaches in H; cbn [tv_Ledger set_tv_Ledger set_tv_Events set_tv_Streams set_tv_Global] in H
  end.
Ltac reach :=
  cbn [fst snd tv_Ledger set_tv_Ledger set_tv_Events set_tv_Streams set_tv_Global];
  match goal with
  | |- reaches ?a ?a => apply reaches_refl
  | H : reaches ?a ?b |- reaches ?a ?b => exact H
  | H : reaches ?a ?b |- reaches ?a ?c => eapply reaches_trans; [exact H|]; clear H; reach
  end.

Lemma reusedByHot_reaches v t k i es : view_reaches v (reusedByHot v t k i es).1.
Proof.
  revert v. induction es as [|[key e] es IH]; intros v; cbn [reusedByHot]; [apply reaches_refl|].
  case_match; [|apply IH]. unfold view_reaches. follow_call. case_match; [reach|].
  eapply reaches_trans; [exact Hcall|apply IH].
Qed.

Lemma idempotencyKeyReusedTenant_reaches v t k i : view_reaches v (idempotencyKeyReusedTenant v t k i).1.
Proof.
  unfold idempotencyKeyReusedTenant, view_reaches. follow_call. case_match; [case_match; [reach|]|];
    (eapply reaches_trans; [exact Hcall|apply reusedByHot_reaches]).
Qed.

Lemma checkHead_reaches v s es : view_reaches v (checkHead v s es).1.
Proof.
  revert v. induction es as [|[key e] es IH]; intros v; cbn [checkHead]; [apply reaches_refl|].
  case_match; [apply IH|]. unfold view_reaches. follow_call. case_match; [|reach]. case_match; [|reach].
  eapply reaches_trans; [exact Hcall|apply IH].
Qed.

Lemma validateIngestHotHead_reaches v s : view_reaches v (validateIngestHotHead v s).1.
Proof. unfold validateIngestHotHead. do 2 (case_match; [apply reaches_refl|]). apply checkHead_reaches. Qed.

Section service.
Context {signer : Signer} {crypto : FieldCrypto} {archive : ArchiveReader}.
Variable legacyDigest : Event -> result string.

Lemma ensureLedgeredIntent_ledger p v e k : tv_Ledger (ensureLedgeredIntent p v e k) = tv_Ledger v.
Proof. by destruct p. Qed.
Lemma ensureLedgeredIntent_hot p v e k : tv_Hot (ensureLedgeredIntent p v e k) = tv_Hot v.
Proof. by destruct p. Qed.

Lemma repair_ledger p c v r k : tv_Ledger (repairLedgeredIntent legacyDigest p c v r k).1 = tv_Ledger v /\
  tv_Hot (repairLedgeredIntent legacyDigest p c v r k).1 = tv_Hot v.
Proof. unfold repairLedgeredIntent. repeat (case_match; try done). cbn [fst]. by rewrite ensureLedgeredIntent_ledger, ensureLedgeredIntent_hot. Qed.

Lemma checkExisting_reaches v now t e d : view_reaches v (checkExistingTenantIngest v now t e d).1.
Proof.
  unfold checkExistingTenantIngest, view_reaches. follow_call. destruct (match hd_Events (tv_Hot t0) !! _ with Some _ => _ | None => _ end)
    as [[x|x]|]; [|reach|reach]. destruct o as [r|]; [|reach]. destruct (reconstructAndDerive x _); [|reach].
  case_match; [reach|]. follow_call. case_match; reach.
Qed.

Lemma sealFull_reaches size now cid key s r e v : view_reaches v (sealFull size now cid key s r e v).1.
Proof.
  unfold sealFull, view_reaches. case_match; [reach|]. destruct (sealSegment _ _ _) as [[sg cp]|]; [|reach].
  follow_call. case_match; [reach|]. follow_call. case_match; reach.
Qed.

Lemma commitTenantEvent_reaches size p now t cid e v : view_reaches v (commitTenantEvent size p now t cid e v).1.
Proof.
  unfold commitTenantEvent, view_reaches. pose proof (validateIngestHotHead_reaches v (openStream (hd_Streams (tv_Hot v)) t (Stream e))) as H0.
  destruct (validateIngestHotHead _ _) as [v0 [err|]]; unfold view_reaches in H0; cbn [fst] in H0; [reach|].
  destruct (chainEvent _ _ _ _) as [[e' s']|]; [|reach]. follow_call. rewrite ensureLedgeredIntent_ledger in Hcall. cbn in Hcall.
  case_match; [reach|]. eapply reaches_trans; [exact H0|]. eapply reaches_trans; [exact Hcall|]. apply sealFull_reaches.
Qed.

Lemma ingestTenantClosure_reaches size p c now hint client t cid e d v :
  view_reaches v (ingestTenantClosure legacyDigest size p c now hint client t cid e d v).1.
Proof using Type.
  unfold ingestTenantClosure, view_reaches. destruct (resolveIngestTenantFromData _ _ _ _) as [ct|]; [|reach]. case_bool_decide as Hct; cbn [negb]; [|reach].
  pose proof (checkExisting_reaches v now t (ev_EventID e) d) as Hex. destruct (checkExistingTenantIngest _ _ _ _ _) as [v1 [[r [err|]]|]];
    unfold view_reaches in Hex; cbn [fst] in Hex; [reach| |].
  - destruct (repair_ledger p c v1 r (EventKey t (ev_EventID e))) as [Hre _]. destruct (repairLedgeredIntent _ _ _ _ _ _) as [v2 [x|x]]; cbn [fst] in *; by rewrite Hre.
  - pose proof (idempotencyKeyReusedTenant_reaches v1 t (EventKey t (ev_EventID e)) (ev_IdempotencyKey e)) as Hre.
    destruct (idempotencyKeyReusedTenant _ _ _ _) as [v2 []]; unfold view_reaches in Hre; cbn [fst] in Hre; [reach|].
    eapply reaches_trans; [exact Hex|]. eapply reaches_trans; [exact Hre|]. apply commitTenantEvent_reaches.
Qed.

Lemma ingest_uses_ledger_api size p c now hint client t cid e d :
  uses_ledger_api (as_update (ingestTenantClosure legacyDigest size p c now hint client t cid e d)).
Proof using Type.
  intros v. unfold as_update. pose proof (ingestTenantClosure_reaches size p c now hint client t cid e d v) as H.
  by destruct (ingestTenantClosure _ _ _ _ _ _ _ _ _ _ _ _).
Qed.

Lemma sealStreams_reaches now newID keys v : view_reaches v (sealStreams now newID keys v).1.
Proof.
  revert v. induction keys as [|key keys IH]; intros v; cbn [sealStreams]; [apply reaches_refl|].
  case_match; [|apply IH]. destruct (sealSegment _ _ _) as [[sg cp]|]; [|apply reaches_refl]. unfold view_reaches. follow_call.
  case_match; [reach|]. follow_call. case_match; [reach|].
  eapply reaches_trans; [|apply IH]. reach.
Qed.

Lemma seal_uses_ledger_api t now newID : uses_ledger_api (sealPendingTenantClosure t now newID).
Proof. intros v. apply sealStreams_reaches. Qed.

Lemma markTenantArchived_reaches t now es v : view_reaches v (markTenantArchived t now es v).1.
Proof.
  revert v. induction es as [|e es IH]; intros v; cbn [markTenantArchived]; [apply reaches_refl|]. unfold view_reaches. follow_call.
  case_match; [|reach]. follow_call. case_match; [reach|].
  eapply reaches_trans; [|apply IH]. reach.
Qed.

Lemma markTenantDead_reaches now ds v : view_reaches v (markTenantDead now ds v).1.
Proof.
  revert v. induction ds as [|[key dead] ds IH]; intros v; cbn [markTenantDead]; [apply reaches_refl|]. unfold view_reaches. follow_call.
  case_match; [|eapply reaches_trans; [|apply IH]; reach]. follow_call. case_match; [reach|].
  eapply reaches_trans; [|apply IH]. reach.
Qed.

Lemma evict_reaches keys v : view_reaches v (foldl evictTenantKey v keys).
Proof.
  revert v. induction keys as [|key keys IH]; intros v; cbn [foldl]; [apply reaches_refl|].
  eapply reaches_trans; [|apply IH]. unfold evictTenantKey. follow_call. case_match; [case_match|]; reach.
Qed.

Lemma archive_uses_ledger_api t now keys es ds : uses_ledger_api (archiveTenantClosure t now keys es ds).
Proof.
  intros v. change (reaches (tv_Ledger v) (tv_Ledger (archiveTenantClosure t now keys es ds v).1)). unfold archiveTenantClosure.
  pose proof (evict_reaches keys v) as H1. pose proof (markTenantArchived_reaches t now es (foldl evictTenantKey v keys)) as H2.
  destruct (markTenantArchived _ _ _ _) as [v2 [x|]]; unfold view_reaches in *; cbn [fst] in *; [reach|].
  pose proof (markTenantDead_reaches now (map_to_list ds) v2) as H3.
  destruct (markTenantDead _ _ _) as [v3 [x|]]; unfold view_reaches in *; cbn [fst] in *; reach.
Qed.

End service.

End TenantProps.
