(* ===== verification/TenantRecovery.v ===== *)
(** * Recovery of interrupted ingests (internal/service: hot_commit_recovery.go,
    hot_commit_pending.go over internal/store: tenant_commit.go,
    tenant_commit_anchors.go)

    What an ingest leaves in the view, the invariant that ties the hot streams
    of a tenant to its committed receipts, and the acceptance of every
    interrupted ingest by the recovery validator. *)

From Stdlib Require Import Ascii String.
From S2P Require Import Prelude GoStr Sha256 Merkle Signer Domain Canonical CanonicalProps DigestProps Keys Ledger LedgerFacts LedgerViews LedgerProps Store SplitStore SplitProps Evidence Integrity ChainProps EvidenceProps EvidenceInv TenantIngest TenantProps.
Open Scope string_scope.
Open Scope Z_scope.
Import Domain Canonical CanonicalProps DigestProps Keys Ledger LedgerFacts LedgerViews LedgerProps Store SplitStore SplitProps
  Sha256 Merkle Signer Evidence Integrity ChainProps EvidenceProps EvidenceInv TenantIngest TenantProps.

Module TenantRecovery.

Local Opaque HashBytes hashText hashValue merkleRoot EventContentDigest.

(** ** Ledger calls on a view *)

(** The view reads base [b] through the caches [d]. *)
Definition on (b : LedgerData) (v : TenantView) (d : LedgerData) : Prop := tv_Ledger v = view b d /\ view_ok b d.

(** A step that only reads: documents and buffer stay. *)
Definition quiet (b : LedgerData) (v v' : TenantView) (d : LedgerData) : Prop :=
  tv_Hot v' = tv_Hot v /\ tv_Global v' = tv_Global v /\ exists d', on b v' d' /\ ld_pending d' = ld_pending d.

Section view.
Context (b : LedgerData) (Hb : base_ok b).

Lemma quiet_refl v d : on b v d -> quiet b v v d.
Proof using Type. intros H. split_and!; [done..|]. by exists d. Qed.

Lemma viewReceipt_on v d key : on b v d ->
  exists v', viewReceipt v key = (v', latestReceipt (ld_records b) key) /\ quiet b v v' d.
Proof using Hb.
  intros [Hl Hv]. unfold viewReceipt. rewrite Hl. destruct (view_Receipt b d key Hb Hv) as (d' & -> & Hv' & Hp & _).
  eexists. split; [done|]. split_and!; [done..|]. exists d'. by split.
Qed.

Lemma viewFindReceipt_on v d idem : on b v d ->
  exists v', viewFindReceipt v idem = (v', receiptByIdem (ld_records b) idem) /\ quiet b v v' d.
Proof using Hb.
  intros [Hl Hv]. unfold viewFindReceipt. rewrite Hl. destruct (view_FindReceipt b d idem Hb Hv) as (d' & -> & Hv' & Hp & _).
  eexists. split; [done|]. split_and!; [done..|]. exists d'. by split.
Qed.

Lemma quiet_trans v v1 v2 d d1 : quiet b v v1 d -> on b v1 d1 -> ld_pending d1 = ld_pending d -> quiet b v1 v2 d1 -> quiet b v v2 d.
Proof using Type. intros (E1 & E2 & _) _ Ep (E3 & E4 & d2 & H2 & Ep2). split_and!; [congruence..|]. exists d2. split; [done|congruence]. Qed.

Lemma reusedByHot_quiet t k i es v d : on b v d -> quiet b v (reusedByHot v t k i es).1 d.
Proof using Hb.
  revert v d. induction es as [|[key e] es IH]; intros v d Hon; cbn [reusedByHot]; [by apply quiet_refl|].
  case_match; [|by apply IH]. destruct (viewReceipt_on v d key Hon) as (v1 & -> & Hq). case_match; [done|].
  pose proof Hq as (_ & _ & d1 & Hon1 & Ep1). eapply quiet_trans; [exact Hq|exact Hon1|exact Ep1|by apply IH].
Qed.

Lemma reused_quiet v d t k i : on b v d -> quiet b v (idempotencyKeyReusedTenant v t k i).1 d.
Proof using Hb.
  intros Hon. unfold idempotencyKeyReusedTenant. destruct (viewFindReceipt_on v d i Hon) as (v1 & -> & Hq).
  pose proof Hq as (_ & _ & d1 & Hon1 & Ep1). case_match; [case_match; [done|]|];
    (eapply quiet_trans; [exact Hq|exact Hon1|exact Ep1|by apply reusedByHot_quiet]).
Qed.

Lemma checkHead_quiet s es v d : on b v d -> quiet b v (checkHead v s es).1 d.
Proof using Hb.
  revert v d. induction es as [|[key e] es IH]; intros v d Hon; cbn [checkHead]; [by apply quiet_refl|].
  case_match; [by apply IH|]. destruct (viewReceipt_on v d key Hon) as (v1 & -> & Hq). case_match; [|done]. case_match; [|done].
  pose proof Hq as (_ & _ & d1 & Hon1 & Ep1). eapply quiet_trans; [exact Hq|exact Hon1|exact Ep1|by apply IH].
Qed.

Lemma hotHead_quiet v d s : on b v d -> quiet b v (validateIngestHotHead v s).1 d.
Proof using Hb. intros Hon. unfold validateIngestHotHead. do 2 (case_match; [by apply quiet_refl|]). by apply checkHead_quiet. Qed.

(** Existing evidence: not found leaves the view alone, and nothing is there;
    an answer without error is the stored receipt, marked duplicate. *)
Lemma checkExisting_on `{FieldCrypto, ArchiveReader} v d now t eventID digest v' res :
  on b v d -> checkExistingTenantIngest v now t eventID digest = (v', res) ->
  match res with
  | None => quiet b v v' d /\ hd_Events (tv_Hot v) !! EventKey t eventID = None /\
            latestReceipt (ld_records b) (EventKey t eventID) = None
  | Some (r, None) => quiet b v v' d /\ exists stored, latestReceipt (ld_records b) (EventKey t eventID) = Some stored /\
            r = set_rc_Duplicate stored true
  | Some (_, Some _) => True
  end.
Proof using Hb.
  intros Hon Hc. unfold checkExistingTenantIngest in Hc. destruct (viewReceipt_on v d (EventKey t eventID) Hon) as (v1 & Hr & Hq).
  rewrite Hr in Hc. pose proof Hq as (Eh & Eg & _). rewrite Eh in Hc.
  destruct (hd_Events (tv_Hot v) !! EventKey t eventID) as [e|] eqn:Ee, (latestReceipt _ _) as [r|] eqn:Er.
  - destruct (reconstructAndDerive e _); [|by simplify_eq]. case_bool_decide; [by simplify_eq; eauto|]. destruct (viewSetReceipt _ _ _) as [? []]; by simplify_eq.
  - by simplify_eq.
  - case_bool_decide; cbn [negb] in Hc; [|by simplify_eq]. destruct (archivedEventContext r) as [e|]; [|by simplify_eq].
    destruct (reconstructAndDerive e _); [|by simplify_eq]. case_bool_decide; [by simplify_eq; eauto|]. destruct (viewSetReceipt _ _ _) as [? []]; by simplify_eq.
  - by simplify_eq.
Qed.

Definition receiptRecord (now : time) (version : Z) (r : EventReceipt) : LedgerRecord :=
  mkLedgerRecord (ld_tenantID b) LedgerReceipt (EventKey (ld_tenantID b) (rc_EventID r)) version (Some r) None None now.
Definition segmentRecord (now : time) (sg : Segment) : LedgerRecord :=
  mkLedgerRecord (ld_tenantID b) LedgerSegment (segmentLedgerKey sg) 1 None (Some sg) None now.
Definition checkpointRecord (now : time) (cp : Checkpoint) : LedgerRecord :=
  mkLedgerRecord (ld_tenantID b) LedgerCheckpoint (cp_ID cp) 1 None None (Some cp) now.

Lemma viewSetReceipt_on v d now r v' :
  on b v d -> rc_TenantID r = ld_tenantID b -> ld_tenantID b <> "" -> ld_pending d = [] ->
  latestReceipt (ld_records b) (EventKey (ld_tenantID b) (rc_EventID r)) = None ->
  viewSetReceipt v now r = (v', None) ->
  tv_Hot v' = tv_Hot v /\ tv_Global v' = tv_Global v /\ exists d', on b v' d' /\ ld_pending d' = [receiptRecord now 1 r].
Proof using Hb.
  intros [Hl Hv] Ht Hne Hp Hnone Hset. unfold viewSetReceipt in Hset. rewrite Hl in Hset.
  destruct (view_SetReceipt b d now r Hb Hv) as (d' & e & Hs & Hv' & _ & Hpend). rewrite Hs in Hset. simplify_eq.
  split_and!; [done..|]. exists d'. split; [done|]. rewrite Hpend, Hp.
  assert (ownReceipt b r = r) as -> by (unfold ownReceipt; rewrite decide_False by congruence; done).
  unfold currentReceipt. rewrite Hp, Hnone. cbn [latestReceipt omap list_omap last]. rewrite bool_decide_eq_false_2 by done.
  unfold nextRecord. rewrite Hp, app_nil_r. rewrite latestReceipt_None; [done| |done]. intros x Hx. by apply (ix_valid _ (bo_indexed _ Hb)).
Qed.

Lemma buffer_on v d r l' :
  on b v d -> validateLedgerRecord r = Ok tt -> lr_TenantID r = ld_tenantID b -> lr_RecordType r <> LedgerReceipt ->
  find_first (matchesRecord (lr_RecordType r) (lr_Key r) (lr_Version r)) (ld_records b ++ ld_pending d) = None ->
  bufferRecord (tv_Ledger v) r = (l', None) -> exists d', on b (set_tv_Ledger v l') d' /\ ld_pending d' = (ld_pending d ++ [r])%list.
Proof using Hb.
  intros [Hl Hv] Hval Ht Hty Hnone H. rewrite Hl in H. unfold bufferRecord in H. rewrite view_findRecord in H by done.
  rewrite find_first_app in Hnone. destruct (find_first _ (ld_records b)) eqn:E1; [done|]. rewrite Hnone in H.
  injection H as <-. exists (buffered d r). split; [|done]. split; [done|].
  apply validate_valid in Hval. apply view_ok_buffered; [done..|]. split; [done|done|by apply not_found_fresh_id|done].
Qed.

Lemma viewAppendSegment_on v d now sg v' :
  on b v d -> find_first (matchesRecord LedgerSegment (segmentLedgerKey sg) 1) (ld_records b ++ ld_pending d) = None ->
  viewAppendSegment v now sg = (v', None) ->
  tv_Hot v' = tv_Hot v /\ tv_Global v' = tv_Global v /\
  exists d', on b v' d' /\ ld_pending d' = (ld_pending d ++ [segmentRecord now sg])%list.
Proof using Hb.
  intros Hon Hnone H. unfold viewAppendSegment, AppendSegment in H. pose proof Hon as [Hl Hv].
  assert (ld_tenantID (tl_data (tv_Ledger v)) = ld_tenantID b) as Et by (rewrite Hl; apply Hv). rewrite Et in H.
  case_bool_decide; cbn [negb] in H; [|done]. fold (segmentRecord now sg) in H.
  destruct (validateLedgerRecord _) as [[]|] eqn:Hval; [|done]. destruct (bufferRecord _ _) as [l' [err|]] eqn:Hbuf; [done|].
  injection H as <-. split_and!; [done..|]. by eapply buffer_on.
Qed.

Lemma viewAppendCheckpoint_on v d now cp v' :
  on b v d -> cp_ID cp <> "" -> find_first (matchesRecord LedgerCheckpoint (cp_ID cp) 1) (ld_records b ++ ld_pending d) = None ->
  viewAppendCheckpoint v now cp = (v', None) ->
  tv_Hot v' = tv_Hot v /\ tv_Global v' = tv_Global v /\
  exists d', on b v' d' /\ ld_pending d' = (ld_pending d ++ [checkpointRecord now cp])%list.
Proof using Hb.
  intros Hon Hid Hnone H. unfold viewAppendCheckpoint, AppendCheckpoint in H. pose proof Hon as [Hl Hv].
  assert (ld_tenantID (tl_data (tv_Ledger v)) = ld_tenantID b) as Et by (rewrite Hl; apply Hv). rewrite Et in H.
  case_bool_decide; cbn [negb] in H; [|done]. rewrite (decide_False (P := cp_ID cp = "")) in H by done. fold (checkpointRecord now cp) in H.
  destruct (validateLedgerRecord _) as [[]|] eqn:Hval; [|done]. destruct (bufferRecord _ _) as [l' [err|]] eqn:Hbuf; [done|].
  injection H as <-. split_and!; [done..|]. by eapply buffer_on.
Qed.

End view.

(** ** What a successful commit leaves *)

Section service.
Context {signer : Signer} {crypto : FieldCrypto} {archive : ArchiveReader}.

(** The record keys a seal will use are not taken. *)
Definition unsealed (b : LedgerData) (s : StreamState) (cid : string) : Prop :=
  cid <> "" /\ (forall r, r ∈ ld_records b -> lr_RecordType r = LedgerCheckpoint -> lr_Key r <> cid) /\
  forall r, r ∈ ld_records b -> lr_RecordType r = LedgerSegment ->
    lr_Key r <> StreamKey (ss_TenantID s) (ss_StreamID s) ++ KeySeparator ++ Itoa (ss_NextSequence s - Z.of_nat (length (ss_PendingHashes s))).

(** The documents and the batch after a commit of [e] as [e'], which moved its
    stream to [s]. *)
Inductive committed (b : LedgerData) (hot : hotDoc) (now : time) (cid : string) (e' : Event) (s : StreamState)
    : hotDoc -> list LedgerRecord -> Prop :=
  | committed_open :
      committed b hot now cid e' s
        (mkhotDoc (<[EventKey (ld_tenantID b) (ev_EventID e') := e']> (hd_Events hot))
                  (<[StreamKey (ld_tenantID b) (ev_StreamID e') := s]> (hd_Streams hot)))
        [receiptRecord b now 1 (ledgeredReceipt (ld_tenantID b) e')]
  | committed_sealed sg cp :
      sealSegment s (ev_ReceivedAt e') cid = Ok (sg, cp) ->
      committed b hot now cid e' s
        (mkhotDoc (<[EventKey (ld_tenantID b) (ev_EventID e') := e']> (hd_Events hot))
                  (<[StreamKey (ld_tenantID b) (ev_StreamID e') := clearPendingHashes s]> (hd_Streams hot)))
        [receiptRecord b now 1 (ledgeredReceipt (ld_tenantID b) e'); segmentRecord b now sg; checkpointRecord b now cp].

Lemma sealSegment_keys s now cid sg cp : sealSegment s now cid = Ok (sg, cp) ->
  segmentLedgerKey sg = StreamKey (ss_TenantID s) (ss_StreamID s) ++ KeySeparator ++
    Itoa (ss_NextSequence s - Z.of_nat (length (ss_PendingHashes s))) /\ cp_ID cp = cid.
Proof using Type. unfold sealSegment. case_match; [|done]. by intros [= <- <-]. Qed.

Lemma sealFull_on b v d size now cid key s r e v' o :
  base_ok b -> on b v d -> ld_pending d = [receiptRecord b now 1 r] -> unsealed b s cid ->
  sealFull size now cid key s r e v = (v', o) -> to_err o = None ->
  to_receipt o = r /\ to_event o = e /\ tv_Global v' = tv_Global v /\ exists d', on b v' d' /\
  ((tv_Hot v' = tv_Hot v /\ ld_pending d' = ld_pending d) \/
   exists sg cp, sealSegment s (ev_ReceivedAt e) cid = Ok (sg, cp) /\
     tv_Hot v' = mkhotDoc (hd_Events (tv_Hot v)) (<[key := clearPendingHashes s]> (hd_Streams (tv_Hot v))) /\
     ld_pending d' = [receiptRecord b now 1 r; segmentRecord b now sg; checkpointRecord b now cp]).
Proof using Type.
  intros Hb Hon Hp (Hcid & Hcp & Hsg) H He. unfold sealFull in H. case_match eqn:Hsize; [simplify_eq; split_and!; [done..|]; exists d; eauto|].
  destruct (sealSegment _ _ _) as [[sg cp]|] eqn:Hseal; [|by simplify_eq].
  destruct (sealSegment_keys _ _ _ _ _ Hseal) as [Ek Ei].
  destruct (viewAppendSegment v now sg) as [v1 [err|]] eqn:H1; [by simplify_eq|].
  destruct (viewAppendCheckpoint v1 now cp) as [v2 [err|]] eqn:H2; [by simplify_eq|]. simplify_eq.
  eapply viewAppendSegment_on in H1 as (E1 & G1 & d1 & Hon1 & P1); [|done|exact Hon|].
  2: { rewrite Hp. apply find_first_None. intros x [Hx|Hx%list_elem_of_singleton]%elem_of_app; unfold matchesRecord; [|by subst].
       destruct (decide (lr_RecordType x = LedgerSegment)) as [Ht|Ht]; [|by rewrite bool_decide_eq_false_2].
       rewrite (bool_decide_eq_false_2 (lr_Key x = _)); [by rewrite andb_false_r|]. rewrite Ek. by apply Hsg. }
  eapply viewAppendCheckpoint_on in H2 as (E2 & G2 & d2 & Hon2 & P2); [|done|exact Hon1|done|].
  2: { rewrite P1, Hp. apply find_first_None. intros x Hx. unfold matchesRecord. apply elem_of_app in Hx as [Hx|Hx].
       - destruct (decide (lr_RecordType x = LedgerCheckpoint)) as [Ht|Ht]; [|by rewrite bool_decide_eq_false_2].
         rewrite (bool_decide_eq_false_2 (lr_Key x = _)); [by rewrite andb_false_r|]. by apply Hcp.
       - cbn in Hx. rewrite !elem_of_cons in Hx. destruct Hx as [->|[->|Hx]]; [done..|inversion Hx]. }
  cbn [to_receipt to_event tv_Global set_tv_Streams]. split_and!; [done..|by rewrite G2|]. exists d2. split; [by destruct Hon2|]. right. exists sg, cp.
  split_and!; [done|cbn; by rewrite E2, E1|by rewrite P2, P1, Hp].
Qed.

(** The coordinates a chained event gets. *)
Lemma chainEvent_inv e sid key s e' s' : chainEvent e sid key s = Ok (e', s') ->
  exists h, e' = coordinates e sid (ss_NextSequence s) (ss_HeadHash s) h /\ eventHash e' = Ok h /\
  s' = mkStreamState (ss_TenantID s) (ss_StreamID s) (ss_NextSequence s + 1) h
         (if (length (ss_PendingHashes s ++ [h])%list =? 1)%nat then ss_HeadHash s else ss_PendingPrevHash s)
         (ss_PendingHashes s ++ [h])%list (ss_PendingEvents s ++ [key])%list.
Proof using Type.
  unfold chainEvent. intros H. apply result_bind_Ok in H as (h & Hh & H). exists h. set (e1 := set_ev_PrevHash _ _) in *.
  apply (f_equal (fun r => match r with Ok p => Some p | Err _ => None end)) in H. cbn in H.
  assert (e' = set_ev_Hash e1 h) as -> by congruence. split_and!; [done|by rewrite eventHash_set_Hash|congruence].
Qed.

Lemma hotHead_sequence v s v' : validateIngestHotHead v s = (v', None) ->
  0 < ss_NextSequence s /\ ss_NextSequence s <> MaxInt64 /\ (ss_NextSequence s = 1 -> ss_HeadHash s = "").
Proof using Type.
  unfold validateIngestHotHead. case_match eqn:E1; [done|]. case_match eqn:E2; intros H; bool_prop; [|split_and!; lia].
  split_and!; [lia|lia|]. intros _. case_bool_decide; [done|]. by simplify_eq.
Qed.

(** The stream an event goes to, before and after its commit. *)
Definition streamOf (hot : hotDoc) (T : string) (e : Event) : StreamState := openStream (hd_Streams hot) T (Stream e).
Definition chained (hot : hotDoc) (T : string) (e e' : Event) (s : StreamState) : Prop :=
  chainEvent e (Stream e) (EventKey T (ev_EventID e)) (streamOf hot T e) = Ok (e', s) /\
  0 < ss_NextSequence (streamOf hot T e) /\ ss_NextSequence (streamOf hot T e) <> MaxInt64 /\
  (ss_NextSequence (streamOf hot T e) = 1 -> ss_HeadHash (streamOf hot T e) = "").

Lemma commitTenantEvent_on b v d size publish now cid e v' o :
  base_ok b -> on b v d -> ld_pending d = [] -> ld_tenantID b <> "" ->
  latestReceipt (ld_records b) (EventKey (ld_tenantID b) (ev_EventID e)) = None ->
  (forall e' s, chained (tv_Hot v) (ld_tenantID b) e e' s -> unsealed b s cid) ->
  commitTenantEvent size publish now (ld_tenantID b) cid e v = (v', o) -> to_err o = None ->
  exists e' s, chained (tv_Hot v) (ld_tenantID b) e e' s /\
    committed b (tv_Hot v) now cid e' s (tv_Hot v') (pendingRecords (tv_Ledger v')) /\
    to_receipt o = ledgeredReceipt (ld_tenantID b) e' /\ to_event o = e' /\ sn_Schemas (tv_Global v') = sn_Schemas (tv_Global v).
Proof using Type.
  intros Hb Hon Hp HT Hnone Hun H He. set (T := ld_tenantID b) in *. unfold commitTenantEvent in H.
  pose proof (hotHead_quiet b Hb v d (openStream (hd_Streams (tv_Hot v)) T (Stream e)) Hon) as Hq.
  destruct (validateIngestHotHead _ _) as [v0 [err|]] eqn:Hhead; [by simplify_eq|]. cbn [fst] in Hq.
  apply hotHead_sequence in Hhead. destruct Hq as (E0 & G0 & d0 & Hon0 & P0).
  destruct (chainEvent _ _ _ _) as [[e' s]|] eqn:Hch; [|by simplify_eq].
  assert (chained (tv_Hot v) T e e' s) as Hchained by (split; [exact Hch|exact Hhead]).
  destruct (chainEvent_inv _ _ _ _ _ _ Hch) as (h & Ee & _ & _).
  assert (ev_EventID e' = ev_EventID e /\ ev_StreamID e' = Stream e) as [Eid Esid] by (by subst e').
  set (v1 := ensureLedgeredIntent _ _ _ _) in H. destruct (viewSetReceipt v1 now _) as [v2 [err|]] eqn:Hset; [by simplify_eq|].
  assert (on b v1 d0) as Hon1 by (unfold v1, on; rewrite ensureLedgeredIntent_ledger; exact Hon0).
  assert (tv_Hot v1 = mkhotDoc (<[EventKey T (ev_EventID e) := e']> (hd_Events (tv_Hot v))) (<[StreamKey T (Stream e) := s]> (hd_Streams (tv_Hot v)))) as E1.
  { unfold v1. rewrite ensureLedgeredIntent_hot. cbn. by rewrite E0. }
  assert (sn_Schemas (tv_Global v1) = sn_Schemas (tv_Global v)) as G1 by (unfold v1; destruct publish; cbn; by rewrite G0).
  eapply viewSetReceipt_on in Hset as (E2 & G2 & d2 & Hon2 & P2); [|done|exact Hon1|done|done|by rewrite P0|by cbn; rewrite Eid].
  eapply (sealFull_on b) in H as (Er & Eev & Ge & d3 & Hon3 & Hcase); [|done|exact Hon2|exact P2|by eapply Hun|done].
  exists e', s. assert (pendingRecords (tv_Ledger v') = ld_pending d3) as -> by (by destruct Hon3 as [-> _]).
  split_and!; [done| |done|done|by rewrite Ge, G2].
  destruct Hcase as [[Eh Ep]|(sg & cp & Hseal & Eh & Ep)]; rewrite Eh, Ep, ?P2, E2, E1; cbn [hd_Events hd_Streams].
  - rewrite <- Eid, <- Esid. constructor.
  - rewrite insert_insert_eq, <- Eid, <- Esid. by constructor.
Qed.

(** A successful ingest closure: a duplicate that changes neither the hot
    document nor the ledger, or a commit. *)
Lemma ingestTenantClosure_on legacyDigest b v d size publish confirmed now hint client cid e digest v' o :
  base_ok b -> on b v d -> ld_pending d = [] -> ld_tenantID b <> "" ->
  (forall e' s, chained (tv_Hot v) (ld_tenantID b) e e' s -> unsealed b s cid) ->
  ingestTenantClosure legacyDigest size publish confirmed now hint client (ld_tenantID b) cid e digest v = (v', o) -> to_err o = None ->
  let key := EventKey (ld_tenantID b) (ev_EventID e) in
  (tv_Hot v' = tv_Hot v /\ pendingRecords (tv_Ledger v') = [] /\
   exists stored, latestReceipt (ld_records b) key = Some stored /\ to_receipt o = set_rc_Duplicate stored true) \/
  (hd_Events (tv_Hot v) !! key = None /\ latestReceipt (ld_records b) key = None /\
   exists e' s, chained (tv_Hot v) (ld_tenantID b) e e' s /\
    committed b (tv_Hot v) now cid e' s (tv_Hot v') (pendingRecords (tv_Ledger v')) /\
    to_receipt o = ledgeredReceipt (ld_tenantID b) e' /\ to_event o = e' /\ sn_Schemas (tv_Global v') = sn_Schemas (tv_Global v)).
Proof using Type.
  intros Hb Hon Hp HT Hun H He key. unfold ingestTenantClosure in H. destruct (resolveIngestTenantFromData _ _ _ _) as [ct|]; [|by simplify_eq].
  case_bool_decide as Hct; cbn [negb] in H; [|by simplify_eq].
  destruct (checkExistingTenantIngest _ _ _ _ _) as [v1 res] eqn:Hc. eapply (checkExisting_on b Hb) in Hc; [|exact Hon].
  destruct res as [[r [err|]]|]; [by simplify_eq| |].
  - destruct Hc as [(E1 & G1 & d1 & Hon1 & P1) (stored & Hs & ->)]. left.
    destruct (repair_ledger legacyDigest publish confirmed v1 (set_rc_Duplicate stored true) (EventKey (ld_tenantID b) (ev_EventID e))) as [Hl Hh].
    destruct (repairLedgeredIntent _ _ _ _ _ _) as [v2 [rep|err]]; cbn [fst] in Hl, Hh; [|by simplify_eq].
    assert (v' = v2 /\ to_receipt o = set_rc_Duplicate stored true) as [-> ->] by (by simplify_eq).
    rewrite Hl, Hh, E1. destruct Hon1 as [-> _]. split_and!; [done|change (ld_pending d1 = []); by rewrite P1|eauto].
  - destruct Hc as ((E1 & G1 & d1 & Hon1 & P1) & Hnh & Hnr). right.
    pose proof (reused_quiet b Hb v1 d1 (ld_tenantID b) (EventKey (ld_tenantID b) (ev_EventID e)) (ev_IdempotencyKey e) Hon1) as Hq.
    destruct (idempotencyKeyReusedTenant _ _ _ _) as [v2 []]; [by simplify_eq|]. cbn [fst] in Hq. destruct Hq as (E2 & G2 & d2 & Hon2 & P2).
    split_and!; [done..|]. eapply (commitTenantEvent_on b) in H; [|done|exact Hon2|by rewrite P2, P1|done|done| |done].
    + rewrite E2, E1, G2, G1 in H. exact H.
    + rewrite E2, E1. exact Hun.
Qed.

End service.

(** ** The tenant invariant *)

(** A committed receipt of the tenant at a coordinate, with its hash. *)
Definition at_coord (T : string) (rs : list LedgerRecord) (sid : string) (n : Z) (h : string) : Prop :=
  exists k r, latestReceipt rs k = Some r /\ rc_TenantID r = T /\ rc_StreamID r = sid /\ rc_Sequence r = n /\ rc_Hash r = h /\ h <> "".

Definition firstPending (s : StreamState) : Z := ss_NextSequence s - Z.of_nat (length (ss_PendingHashes s)).
Definition segmentKeyAt (T sid : string) (first : Z) : string := StreamKey T sid ++ KeySeparator ++ Itoa first.

(** A stream's head, its pending events and the link before them are committed
    receipts. *)
Record stream_inv (T : string) (rs : list LedgerRecord) (s : StreamState) : Prop := {
  si_seq : 1 <= ss_NextSequence s;
  si_len : length (ss_PendingEvents s) = length (ss_PendingHashes s);
  si_fit : 1 <= firstPending s;
  si_start : ss_NextSequence s = 1 -> ss_HeadHash s = "";
  si_head : 1 < ss_NextSequence s -> at_coord T rs (ss_StreamID s) (ss_NextSequence s - 1) (ss_HeadHash s);
  si_first : ss_PendingHashes s <> [] -> firstPending s = 1 -> ss_PendingPrevHash s = "";
  si_prefix : ss_PendingHashes s <> [] -> 1 < firstPending s ->
    at_coord T rs (ss_StreamID s) (firstPending s - 1) (ss_PendingPrevHash s);
  si_pending : forall i key h, ss_PendingEvents s !! i = Some key -> ss_PendingHashes s !! i = Some h ->
    exists r, latestReceipt rs key = Some r /\ rc_TenantID r = T /\ rc_StreamID r = ss_StreamID s /\
      rc_Sequence r = firstPending s + Z.of_nat i /\ rc_Hash r = h /\ h <> "" /\ key = EventKey T (rc_EventID r)
}.

Record tenant_inv (T : string) (hot : hotDoc) (rs : list LedgerRecord) : Prop := {
  ti_streams : forall sid s, hd_Streams hot !! StreamKey T sid = Some s ->
    ss_TenantID s = T /\ ss_StreamID s = sid /\ stream_inv T rs s;
  ti_receipts : forall k r, latestReceipt rs k = Some r ->
    1 <= rc_Sequence r /\ exists s, hd_Streams hot !! StreamKey T (rc_StreamID r) = Some s /\ rc_Sequence r < ss_NextSequence s;
  ti_unique : forall k k' r r', latestReceipt rs k = Some r -> latestReceipt rs k' = Some r' ->
    rc_StreamID r = rc_StreamID r' -> rc_Sequence r = rc_Sequence r' -> k = k';
  ti_segments : forall r sid m, r ∈ rs -> lr_RecordType r = LedgerSegment -> lr_Key r = segmentKeyAt T sid m ->
    exists s, hd_Streams hot !! StreamKey T sid = Some s /\ m < firstPending s
}.

Lemma StreamKey_inj_r T a c : StreamKey T a = StreamKey T c -> a = c.
Proof.
  unfold StreamKey, KeySeparator. intros H%(f_equal chars). rewrite !chars_app in H. apply chars_inj. by simplify_list_eq.
Qed.

Lemma segmentKeyAt_inj T sid m sid' m' : segmentKeyAt T sid m = segmentKeyAt T sid' m' -> sid = sid' /\ m = m'.
Proof.
  unfold segmentKeyAt. intros H. apply (sep_inj_r SepByte) in H as [H1 H2]; [|apply Itoa_no_char, sep_not_digit..].
  apply Itoa_inj in H2. split; [|done]. by apply StreamKey_inj_r in H1.
Qed.

Lemma tenant_inv_empty T : tenant_inv T emptyTenantHot [].
Proof. split; cbn; try done. intros r sid m H. inversion H. Qed.

(** ** A commit keeps the invariant *)

(** What the receipts of the grown ledger are. *)
Definition adds_receipt (rs rs' : list LedgerRecord) (K : string) (rn : EventReceipt) : Prop :=
  forall k, latestReceipt rs' k = if decide (k = K) then Some rn else latestReceipt rs k.

Lemma at_coord_adds T rs rs' K rn sid n h : latestReceipt rs K = None -> adds_receipt rs rs' K rn ->
  at_coord T rs sid n h -> at_coord T rs' sid n h.
Proof.
  intros Hn Ha (k & r & Hk & H). exists k, r. split; [|done]. rewrite Ha. case_decide; [congruence|done].
Qed.

Lemma latestReceipt_snoc_receipt b rs now v r :
  adds_receipt rs (rs ++ [receiptRecord b now v r]) (EventKey (ld_tenantID b) (rc_EventID r)) r.
Proof.
  intros k. unfold latestReceipt. rewrite last_omap_snoc. unfold receiptFor at 1.
  cbn [receiptRecord lr_RecordType lr_Key lr_Receipt]. case_decide as E; [subst k; by rewrite !bool_decide_eq_true_2|].
  by rewrite (bool_decide_eq_false_2 (_ = k)), andb_false_r by congruence.
Qed.

Lemma latestReceipt_app_other rs ps k : (forall r, r ∈ ps -> lr_RecordType r <> LedgerReceipt) ->
  latestReceipt (rs ++ ps) k = latestReceipt rs k.
Proof.
  induction ps as [|r ps IH] using rev_ind; intros H; [by rewrite app_nil_r|]. rewrite app_assoc. unfold latestReceipt.
  rewrite last_omap_snoc, receiptFor_off by (apply H, elem_of_app; right; left). apply IH. intros x Hx. apply H, elem_of_app. by left.
Qed.

Lemma stream_inv_adds T rs rs' K rn s : latestReceipt rs K = None -> adds_receipt rs rs' K rn ->
  stream_inv T rs s -> stream_inv T rs' s.
Proof.
  intros Hn Ha []. split; eauto using at_coord_adds. intros i key h He Hh.
  destruct (si_pending0 i key h He Hh) as (r & Hr & H). exists r. split; [|done]. rewrite Ha. case_decide; [congruence|done].
Qed.

(** ** The capture *)

Definition coord (r : EventReceipt) : LedgerCoordinate := (rc_StreamID r, rc_Sequence r).

Lemma captureAnchors_ok (wanted : list LedgerCoordinate) (L l : list EventReceipt) (anchors : gmap LedgerCoordinate EventReceipt) :
  (forall r r', r ∈ L -> r' ∈ L -> coord r = coord r' -> r = r') -> (forall r, r ∈ l -> r ∈ L) ->
  (forall c a, anchors !! c = Some a -> a ∈ L /\ c = coord a) ->
  exists anchors', foldl (captureAnchor wanted) (Ok anchors) l = Ok anchors' /\
    (forall c a, anchors !! c = Some a -> anchors' !! c = Some a) /\
    (forall r, r ∈ l -> coord r ∈ wanted -> anchors' !! coord r = Some r).
Proof.
  intros Huniq. revert anchors. induction l as [|x l IH]; intros anchors Hl Hanch.
  { exists anchors. split_and!; [done|done|]. intros r Hr. inversion Hr. }
  assert (x ∈ L) as Hx by (apply Hl; left).
  assert (exists a1, captureAnchor wanted (Ok anchors) x = Ok a1 /\ (forall c a, a1 !! c = Some a -> a ∈ L /\ c = coord a) /\
    (forall c a, anchors !! c = Some a -> a1 !! c = Some a) /\ (coord x ∈ wanted -> a1 !! coord x = Some x)) as (a1 & Ha1 & Hok & Hmono & Hnew).
  { unfold captureAnchor. cbn [result_bind]. fold (coord x). case_bool_decide as Hw; [|exists anchors; by split_and!].
    match goal with |- context [match ?o with Some _ => _ | None => _ end] => destruct o as [p|] eqn:Ep end.
    - destruct (Hanch _ _ Ep) as [HpL Hpc]. assert (p = x) as -> by (apply Huniq; congruence).
      rewrite !bool_decide_eq_true_2 by done. cbn [negb orb]. exists (<[coord x := x]> anchors). rewrite insert_id by done. by split_and!.
    - exists (<[coord x := x]> anchors). split_and!; [done| | |].
      + intros c a [[<- <-]|[_ Ha]]%lookup_insert_Some; [done|by apply Hanch].
      + intros c a Ha. rewrite lookup_insert_ne; [done|congruence].
      + intros _. by rewrite lookup_insert_eq. }
  cbn [foldl]. rewrite Ha1. destruct (IH a1) as (a2 & Hf & Hm & Hn); [intros r Hr; apply Hl; by right|done|].
  exists a2. split_and!; [done|by eauto|]. intros r [->|Hr]%elem_of_cons Hw; [by apply Hm, Hnew|by apply Hn].
Qed.

Lemma pending_fold (receipts : gmap string EventReceipt) keys (acc : gmap string EventReceipt) key v : receipts !! key = Some v -> key ∈ keys \/ acc !! key = Some v ->
  foldl (fun acc key => match receipts !! key with Some value => <[key := value]> acc | None => acc end) acc keys !! key = Some v.
Proof.
  intros Hv. revert acc. induction keys as [|k keys IH]; intros acc H; cbn [foldl].
  - destruct H as [H|H]; [inversion H|done].
  - apply IH. destruct (decide (k = key)) as [->|Hne]; [right; by rewrite Hv, lookup_insert_eq|].
    destruct H as [H|H]; [left; apply elem_of_cons in H as [->|?]; done|right]. case_match; [by rewrite lookup_insert_ne|done].
Qed.

Lemma combine_seq_lookup {A B} (es : list A) (hs : list B) start n i k h :
  In (i, (k, h)) (combine (seq start n) (combine es hs)) -> (start <= i)%nat /\ es !! (i - start)%nat = Some k /\ hs !! (i - start)%nat = Some h.
Proof.
  revert hs start n. induction es as [|e es IH]; intros [|x hs] start [|n]; cbn [combine seq]; try (intros []; fail).
  intros [H|H].
  - injection H as -> -> ->. rewrite Nat.sub_diag. split_and!; [lia|done|done].
  - apply IH in H as (H1 & H2 & H3). split; [lia|]. replace (i - start)%nat with (S (i - S start)) by lia. done.
Qed.

(** The two journals an ingest writes, as the validator reads them. *)
Lemma recovery_open b now v r :
  foldl recoveryRecord (Ok (mkhotRecoveryRecords None None None)) [receiptRecord b now v r] = Ok (mkhotRecoveryRecords (Some r) None None).
Proof. reflexivity. Qed.
Lemma recovery_sealed b now v r sg cp :
  foldl recoveryRecord (Ok (mkhotRecoveryRecords None None None)) [receiptRecord b now v r; segmentRecord b now sg; checkpointRecord b now cp] =
  Ok (mkhotRecoveryRecords (Some r) (Some sg) (Some cp)).
Proof. reflexivity. Qed.

Section commit.
Context {signer : Signer} {signer_ok : SignerOk signer} {crypto : FieldCrypto} {archive : ArchiveReader}.
Context (b : LedgerData) (T : string) (HT : ld_tenantID b = T).
Context (hot : hotDoc) (now : time) (cid : string) (e e' : Event) (s : StreamState) (hot' : hotDoc) (batch : list LedgerRecord).
Context (Hinv : tenant_inv T hot (ld_records b)) (Hsid : Stream e <> "").
Context (Hnone : latestReceipt (ld_records b) (EventKey T (ev_EventID e)) = None).
Context (Hch : chained hot T e e' s) (Hcom : committed b hot now cid e' s hot' batch).

(** The stream as it was. *)
Lemma streamOf_inv : let s0 := streamOf hot T e in
  ss_TenantID s0 = T /\ ss_StreamID s0 = Stream e /\ stream_inv T (ld_records b) s0 /\
  (hd_Streams hot !! StreamKey T (Stream e) = Some s0 \/
   hd_Streams hot !! StreamKey T (Stream e) = None /\ s0 = mkStreamState T (Stream e) 1 "" "" [] []).
Proof using Hinv Hsid.
  unfold streamOf, openStream, map_get. destruct (hd_Streams hot !! _) as [s0|] eqn:E; cbn [default from_option id].
  - destruct (ti_streams _ _ _ Hinv _ _ E) as (E1 & E2 & E3). rewrite bool_decide_eq_false_2 by (by rewrite E2).
    split_and!; [done..|by left].
  - rewrite bool_decide_eq_true_2 by done. split_and!; [done..| |by right]. split; cbn; try done; lia.
Qed.

Lemma commit_facts : exists h, let s0 := streamOf hot T e in
  e' = coordinates e (Stream e) (ss_NextSequence s0) (ss_HeadHash s0) h /\ eventHash e' = Ok h /\ h <> "" /\
  ss_TenantID s = T /\ ss_StreamID s = Stream e /\ ss_NextSequence s = ss_NextSequence s0 + 1 /\ ss_HeadHash s = h /\
  ss_PendingHashes s = (ss_PendingHashes s0 ++ [h])%list /\ ss_PendingEvents s = (ss_PendingEvents s0 ++ [EventKey T (ev_EventID e)])%list /\
  firstPending s = firstPending s0 /\
  ss_PendingPrevHash s = (if decide (ss_PendingHashes s0 = []) then ss_HeadHash s0 else ss_PendingPrevHash s0).
Proof using Hinv Hsid Hch.
  clear Hcom. destruct streamOf_inv as (E1 & E2 & _). destruct Hch as [Hc _]. apply chainEvent_inv in Hc as (h & Ee & Hh & ->).
  exists h. cbn. split_and!; [done|done|by eapply eventHash_nonempty|done..| |].
  - unfold firstPending. cbn. rewrite length_app. cbn. lia.
  - rewrite length_app. cbn. destruct (ss_PendingHashes _) as [|x l]; cbn; [done|].
    replace (length l + 1)%nat with (S (length l)) by lia. done.
Qed.

(** The new receipt. *)
Definition newReceipt : EventReceipt := ledgeredReceipt T e'.

Lemma batch_receipts n : (0 < n)%nat -> adds_receipt (ld_records b) (ld_records b ++ take n batch) (EventKey T (ev_EventID e)) newReceipt.
Proof using Hinv Hsid Hch Hcom HT Hnone.
  intros Hn. destruct commit_facts as (h & Ee & _). assert (ev_EventID e' = ev_EventID e) as Eid by (by rewrite Ee).
  assert (exists rest, take n batch = receiptRecord b now 1 newReceipt :: rest /\ forall r, r ∈ rest -> lr_RecordType r <> LedgerReceipt) as (rest & -> & Hrest).
  { unfold newReceipt. rewrite <- HT. destruct Hcom as [|sg cp _]; (destruct n as [|n]; [lia|]); cbn [take]; (eexists; split; [done|]).
    - destruct n; intros r Hr; inversion Hr.
    - intros r Hr. apply elem_of_take in Hr as (i & Hi & _). rewrite <- HT in *.
      apply list_elem_of_lookup_2 in Hi. rewrite !elem_of_cons in Hi. destruct Hi as [->|[->|Hi]]; [done..|inversion Hi]. }
  intros k. change (?a :: rest) with ([a] ++ rest)%list. rewrite app_assoc, latestReceipt_app_other by done.
  rewrite latestReceipt_snoc_receipt, HT. unfold newReceipt. cbn. by rewrite Eid.
Qed.

Lemma batch_nonempty : (0 < length batch)%nat.
Proof using Hcom. destruct Hcom; cbn; lia. Qed.

Lemma grown_receipts : adds_receipt (ld_records b) (ld_records b ++ batch) (EventKey T (ev_EventID e)) newReceipt.
Proof using Hinv Hsid Hch Hcom HT Hnone. rewrite <- (firstn_all batch). apply batch_receipts, batch_nonempty. Qed.

Lemma new_coord : at_coord T (ld_records b ++ batch) (Stream e) (ss_NextSequence s - 1) (ss_HeadHash s).
Proof using Hinv Hsid Hch Hcom HT Hnone.
  destruct commit_facts as (h & Ee & _ & Hne & _ & _ & En & Eh & _). exists (EventKey T (ev_EventID e)), newReceipt.
  rewrite grown_receipts, decide_True by done. unfold newReceipt. rewrite Eh, En, Ee.
  split_and!; try done. cbn. lia.
Qed.

(** The advanced stream, still open or just sealed. *)
Lemma open_stream_inv : stream_inv T (ld_records b ++ batch) s.
Proof using Hinv Hsid Hch Hcom HT Hnone.
  destruct streamOf_inv as (_ & Esid0 & Hs0 & _). pose proof new_coord as Hnew. pose proof grown_receipts as Hadd.
  destruct commit_facts as (h & Ee & _ & Hne & _ & Esid & En & Eh & Ehs & Eks & Ef & Epp). pose proof (si_seq _ _ _ Hs0). pose proof (si_fit _ _ _ Hs0).
  split; [lia|rewrite Eks, Ehs, !length_app, (si_len _ _ _ Hs0); done|lia|lia|by rewrite Esid| | |].
  - intros _ Hf. rewrite Epp. case_decide as Hp; [|apply (si_first _ _ _ Hs0 Hp); lia].
    apply (si_start _ _ _ Hs0). unfold firstPending in Ef, Hf. rewrite Hp in Ef. cbn in Ef. lia.
  - intros _ Hf. rewrite Epp, Esid, Ef, <- Esid0. apply (at_coord_adds _ _ _ _ _ _ _ _ Hnone Hadd). case_decide as Hp.
    + replace (firstPending (streamOf hot T e)) with (ss_NextSequence (streamOf hot T e)) by (unfold firstPending; rewrite Hp; cbn; lia).
      apply (si_head _ _ _ Hs0). rewrite Ef in Hf. unfold firstPending in Hf. rewrite Hp in Hf. cbn in Hf. lia.
    + apply (si_prefix _ _ _ Hs0 Hp). lia.
  - intros i key x Hk Hx. rewrite Eks in Hk. rewrite Ehs in Hx. rewrite Ef, Esid.
    apply lookup_app_Some in Hk as [Hk|[Hge Hk]].
    + rewrite lookup_app_l in Hx by (rewrite <- (si_len _ _ _ Hs0); by apply lookup_lt_Some in Hk).
      destruct (si_pending _ _ _ Hs0 i key x Hk Hx) as (r & Hr & E1 & E2 & H3). exists r.
      split; [rewrite Hadd; destruct (decide (key = _)); congruence|]. split; [done|]. split; [congruence|done].
    + assert (i = length (ss_PendingEvents (streamOf hot T e))) as -> by (apply list_lookup_singleton_Some in Hk as [? _]; lia).
      rewrite Nat.sub_diag in Hk. injection Hk as <-. rewrite (si_len _ _ _ Hs0), lookup_app_r, Nat.sub_diag in Hx by done. injection Hx as <-.
      exists newReceipt. rewrite Hadd, decide_True by done. unfold newReceipt. rewrite Ee. cbn. split_and!; try done.
      pose proof (si_len _ _ _ Hs0). unfold firstPending. lia.
Qed.

Lemma cleared_stream_inv : stream_inv T (ld_records b ++ batch) (clearPendingHashes s).
Proof using Hinv Hsid Hch Hcom HT Hnone.
  pose proof open_stream_inv as []. split; unfold firstPending in *; cbn in *; try done; lia.
Qed.

Lemma commit_streams : exists s1, hd_Streams hot' = <[StreamKey T (Stream e) := s1]> (hd_Streams hot) /\
  (s1 = s \/ s1 = clearPendingHashes s) /\ ss_TenantID s1 = T /\ ss_StreamID s1 = Stream e /\
  ss_NextSequence s1 = ss_NextSequence s /\ firstPending s <= firstPending s1.
Proof using Hinv Hsid Hch Hcom HT.
  destruct commit_facts as (h & Ee & _ & _ & Et & Es & _). assert (ev_StreamID e' = Stream e) as Esid by (by rewrite Ee).
  destruct Hcom as [|sg cp Hs]; cbn [hd_Streams]; rewrite HT, Esid; eexists; (split; [done|]); split_and!; try done; auto.
  unfold firstPending. cbn. lia.
Qed.

Lemma commit_segments r sid m : r ∈ batch -> lr_RecordType r = LedgerSegment -> lr_Key r = segmentKeyAt T sid m ->
  sid = Stream e /\ hd_Streams hot' !! StreamKey T (Stream e) = Some (clearPendingHashes s) /\ m < ss_NextSequence s.
Proof using Hinv Hsid Hch Hcom HT.
  destruct commit_facts as (h & Ee & _ & _ & Et & Es & En & _ & Ehs & _). assert (ev_StreamID e' = Stream e) as Esid by (by rewrite Ee).
  intros Hr Hty Hk. destruct Hcom as [|sg cp Hs].
  - apply list_elem_of_singleton in Hr as ->. done.
  - rewrite !elem_of_cons in Hr. destruct Hr as [->|[->|[->|Hr]]]; [done| |done|inversion Hr]. cbn in Hk.
    apply sealSegment_keys in Hs as [Hkey _]. rewrite Hkey, Et, Es in Hk. apply (segmentKeyAt_inj T) in Hk as [<- <-].
    split_and!; [done|cbn; by rewrite HT, Esid, lookup_insert_eq|]. rewrite Ehs, length_app. cbn. lia.
Qed.

Lemma commit_inv : tenant_inv T hot' (ld_records b ++ batch).
Proof using Hinv Hsid Hch Hcom HT Hnone.
  pose proof grown_receipts as Hadd. destruct streamOf_inv as (Et0 & Es0 & Hs0 & Hlk).
  destruct commit_streams as (s1 & Est & Hs1 & Et1 & Es1 & En1 & Ef1). destruct commit_facts as (h & Ee & _ & _ & _ & _ & En & _ & _ & _ & Ef & _).
  assert (forall k r, latestReceipt (ld_records b) k = Some r -> rc_StreamID r = Stream e -> rc_Sequence r < ss_NextSequence (streamOf hot T e)) as Hold.
  { intros k r Hr Hs. destruct (ti_receipts _ _ _ Hinv _ _ Hr) as (_ & x & Hx & Hlt). rewrite Hs in Hx. destruct Hlk as [Hl|[Hl _]]; congruence. }
  split.
  - intros sid x. rewrite Est, lookup_insert_Some. intros [[<-%StreamKey_inj_r <-]|[Hne Hx]].
    + split_and!; [done..|]. destruct Hs1 as [-> | ->]; [apply open_stream_inv|apply cleared_stream_inv].
    + destruct (ti_streams _ _ _ Hinv _ _ Hx) as (E1 & E2 & E3). eauto using stream_inv_adds.
  - intros k r. rewrite Hadd, Est. case_decide as Hk.
    + intros [= <-]. unfold newReceipt. rewrite Ee. cbn. rewrite lookup_insert_eq. split; [apply Hs0|]. exists s1. split; [done|lia].
    + intros Hr. destruct (ti_receipts _ _ _ Hinv _ _ Hr) as (H1 & x & Hx & Hlt). split; [done|].
      destruct (decide (rc_StreamID r = Stream e)) as [E|E]; [|exists x; rewrite lookup_insert_ne; [done|intros ?%StreamKey_inj_r; congruence]].
      rewrite E, lookup_insert_eq. exists s1. split; [done|]. pose proof (Hold _ _ Hr E). lia.
  - intros k k' r r'. rewrite !Hadd. assert (rc_StreamID newReceipt = Stream e /\ rc_Sequence newReceipt = ss_NextSequence (streamOf hot T e)) as [N1 N2]
      by (unfold newReceipt; by rewrite Ee).
    do 2 case_decide; subst; intros Hr Hr' E1 E2; [done| | |by eapply (ti_unique _ _ _ Hinv)]; exfalso.
    + injection Hr as <-. pose proof (Hold _ _ Hr' ltac:(congruence)). lia.
    + injection Hr' as <-. pose proof (Hold _ _ Hr ltac:(congruence)). lia.
  - intros r sid m [Hr|Hr]%elem_of_app Hty Hk.
    + destruct (ti_segments _ _ _ Hinv _ _ _ Hr Hty Hk) as (x & Hx & Hm). rewrite Est.
      destruct (decide (sid = Stream e)) as [->|E]; [|exists x; rewrite lookup_insert_ne; [done|intros ?%StreamKey_inj_r; congruence]].
      rewrite lookup_insert_eq. exists s1. split; [done|]. destruct Hlk as [Hl|[Hl _]]; [|congruence]. assert (x = streamOf hot T e) as -> by congruence. lia.
    + destruct (commit_segments r sid m Hr Hty Hk) as (-> & Hx & Hm). eexists. split; [exact Hx|]. unfold firstPending. cbn. lia.
Qed.

(** ** Every interrupted commit is accepted *)

Context (legacyDigest : Event -> result string).
Context (schemas : gmap string EventSchema) (Had : admissible schemas T e) (Hid : ev_EventID e <> "") (Hat : ev_ReceivedAt e <> 0).
Context (n : nat) (bn : LedgerData) (Hbn : base_ok bn) (Hrn : ld_records bn = (ld_records b ++ take n batch)%list).

(** The receipts of the interrupted ledger: none of the old ones is missing,
    none is foreign to the complete one. *)
Lemma partial_receipts k r : latestReceipt (ld_records b) k = Some r -> latestReceipt (ld_records bn) k = Some r.
Proof using All.
  intros Hr. rewrite Hrn. destruct n as [|m]; [by rewrite app_nil_r|]. rewrite batch_receipts by lia. case_decide; congruence.
Qed.

Lemma partial_within k r : latestReceipt (ld_records bn) k = Some r -> latestReceipt (ld_records b ++ batch) k = Some r.
Proof using All.
  rewrite Hrn, grown_receipts. destruct n as [|m]; [rewrite app_nil_r; case_decide; congruence|]. by rewrite batch_receipts by lia.
Qed.

Definition captured (c : TenantCommitCandidate) (version : Z) (wanted : list LedgerCoordinate) : Prop :=
  tc_TenantID c = T /\ tc_Version c = version /\ tc_Records c = batch /\ tc_Hot c = hot' /\ tc_Schemas c = schemas /\
  (forall sid m h, at_coord T (ld_records b) sid m h -> (sid, m) ∈ wanted -> anchorMatches c sid m h = true) /\
  tc_PendingReceipts c = foldl (pendingReceiptsOf (ld_receipts bn) T hot') ∅ batch.

Lemma capture_succeeds version pending :
  exists c, captureRecoveryAnchors (mktenantState hot' (TL bn None) version pending)
    (mkTenantCommitCandidate T version batch hot' schemas ∅ ∅) = Ok c /\ captured c version (concat (map (wantedBy T hot') batch)).
Proof using All.
  unfold captureRecoveryAnchors. cbn [ts_ledger tl_data set_tc_PendingReceipts tc_TenantID tc_Hot tc_Records tc_PendingReceipts tc_Anchors].
  set (wanted := concat _). set (values := (map_to_list (ld_receipts bn)).*2).
  assert (forall r, r ∈ values <-> exists k, latestReceipt (ld_records bn) k = Some r) as Hval.
  { intros r. unfold values. rewrite list_elem_of_fmap. split.
    - intros ([k x] & -> & Hx%elem_of_map_to_list). rewrite (ix_receipts _ (bo_indexed _ Hbn)) in Hx. eauto.
    - intros (k & Hk). exists (k, r). split; [done|]. apply elem_of_map_to_list. by rewrite (ix_receipts _ (bo_indexed _ Hbn)). }
  destruct (captureAnchors_ok wanted values values ∅) as (anchors & Hf & _ & Hn); [|done|intros c a Ha; by rewrite lookup_empty in Ha|].
  { intros r r' [k Hk%partial_within]%Hval [k' Hk'%partial_within]%Hval [= E1 E2].
    pose proof (ti_unique _ _ _ commit_inv _ _ _ _ Hk Hk' E1 E2). congruence. }
  rewrite Hf. cbn [result_bind]. eexists. split; [done|]. unfold captured. cbn. split_and!; [done..| |done].
  intros sid m h (k & r & Hr & E1 & E2 & E3 & E4 & Hh) Hw. unfold anchorMatches. cbn [tc_Anchors set_tc_Anchors tc_TenantID].
  rewrite <- E2, <- E3 in Hw. rewrite <- E2, <- E3. change (rc_StreamID r, rc_Sequence r) with (coord r). rewrite (Hn r); [|apply Hval; eauto using partial_receipts|done].
  rewrite (bool_decide_eq_false_2 (rc_Hash r = "")) by congruence. by rewrite !bool_decide_eq_true_2, Z.eqb_refl by done.
Qed.

(** The journaled receipt and its event. *)
Lemma newReceipt_fields : let s0 := streamOf hot T e in
  rc_TenantID newReceipt = T /\ rc_EventID newReceipt = ev_EventID e /\ rc_StreamID newReceipt = Stream e /\
  rc_Sequence newReceipt = ss_NextSequence s0 /\ rc_Hash newReceipt = ev_Hash e' /\ ev_PrevHash e' = ss_HeadHash s0 /\ ev_Hash e' <> "" /\
  hd_Events hot' !! EventKey T (ev_EventID e) = Some e' /\ ss_HeadHash s = ev_Hash e' /\ recoverableReceipt newReceipt = true.
Proof using All.
  destruct commit_facts as (h & Ee & _ & Hne & _ & _ & _ & Eh & _). pose proof Hch as (_ & Hpos & Hmax & _).
  assert (hd_Events hot' = <[EventKey T (ev_EventID e) := e']> (hd_Events hot)) as ->
    by (assert (ev_EventID e' = ev_EventID e) as <- by (by rewrite Ee); rewrite <- HT; by destruct Hcom).
  rewrite lookup_insert_eq, Eh. unfold newReceipt, recoverableReceipt. rewrite Ee. cbn. split_and!; try done.
  apply Z.ltb_lt in Hpos. apply Z.eqb_neq in Hmax, Hat. by rewrite Hpos, Hmax, Hat.
Qed.

Lemma publication_valid : validatePublicationEvent legacyDigest e' newReceipt schemas = Ok tt.
Proof using All.
  destruct newReceipt_fields as (E1 & E2 & E3 & E4 & E5 & _ & Hne & _). destruct commit_facts as (h & Ee & Hh & _).
  destruct Hch as (_ & Hpos & _). destruct (ad_tenantOk _ _ _ Had) as [HTne _]. unfold validatePublicationEvent. rewrite E1, E2, E3, E4, E5.
  assert (ev_TenantID e' = T /\ ev_EventID e' = ev_EventID e /\ ev_StreamID e' = Stream e /\ ev_Sequence e' = ss_NextSequence (streamOf hot T e))
    as (F1 & F2 & F3 & F4) by (rewrite Ee; split_and!; try done; apply Had).
  rewrite F1, F2, F3, F4, Z.eqb_refl, !bool_decide_eq_false_2 by done. rewrite !bool_decide_eq_true_2 by done.
  replace (_ <=? 0) with false by (symmetry; apply Z.leb_gt; lia). cbn [negb orb guard_err result_bind].
  rewrite derived_verifies; [|rewrite Ee; apply Had|rewrite Ee at 1; rewrite reconstruct_coordinates; rewrite Ee; apply Had].
  rewrite Hh, Ee. cbn. by rewrite bool_decide_eq_true_2.
Qed.

Lemma wanted_head s1 : hd_Streams hot' !! StreamKey T (Stream e) = Some s1 ->
  (Stream e, ss_NextSequence (streamOf hot T e) - 1) ∈ concat (map (wantedBy T hot') batch) /\
  (Stream e, firstPending s1 - 1) ∈ concat (map (wantedBy T hot') batch).
Proof using All.
  intros Hs1. destruct newReceipt_fields as (_ & _ & E3 & E4 & _).
  assert (exists rest, batch = receiptRecord b now 1 newReceipt :: rest) as [rest ->] by (unfold newReceipt; rewrite <- HT; destruct Hcom; eauto).
  cbn [map concat]. unfold wantedBy at 1 3. cbn [lr_Receipt receiptRecord lr_Segment]. rewrite E3, E4, Hs1. split; apply elem_of_app; left.
  - left.
  - right. left.
Qed.

Lemma anchor_head c version s1 : captured c version (concat (map (wantedBy T hot') batch)) ->
  hd_Streams hot' !! StreamKey T (Stream e) = Some s1 -> 1 < ss_NextSequence (streamOf hot T e) ->
  anchorMatches c (Stream e) (ss_NextSequence (streamOf hot T e) - 1) (ss_HeadHash (streamOf hot T e)) = true.
Proof using All.
  intros (_ & _ & _ & _ & _ & Ha & _) Hs1 Hlt. destruct streamOf_inv as (_ & Es0 & Hs0 & _). apply Ha; [|by eapply wanted_head].
  rewrite <- Es0. by apply (si_head _ _ _ Hs0).
Qed.

Lemma head_valid c version s1 : captured c version (concat (map (wantedBy T hot') batch)) ->
  hd_Streams hot' !! StreamKey T (Stream e) = Some s1 ->
  validateRecoveryHead legacyDigest c newReceipt = Ok s1.
Proof using All.
  intros Hc Hs1. pose proof Hc as (Ec1 & _ & _ & Ec4 & Ec5 & _). destruct newReceipt_fields as (E1 & E2 & E3 & E4 & E5 & Epv & _ & Hev & Ehd & _).
  unfold validateRecoveryHead. rewrite Ec1, Ec4, Ec5, E2, Hev, publication_valid, E3, Hs1.
  destruct commit_streams as (s1' & Est & Hcase & Et & Es & En & _). rewrite Est, lookup_insert_eq in Hs1. injection Hs1 as ->.
  destruct commit_facts as (_ & _ & _ & _ & _ & _ & En' & _). destruct streamOf_inv as (_ & _ & Hs0 & _).
  assert (ss_HeadHash s1 = ev_Hash e') as -> by (by destruct Hcase as [-> | ->]).
  rewrite !bool_decide_eq_true_2 by done. rewrite E4. replace (_ =? _ + 1) with true by (symmetry; apply Z.eqb_eq; lia).
  cbn [andb guard_err result_bind]. destruct (Z.eqb_spec (ss_NextSequence (streamOf hot T e)) 1) as [E|E].
  - rewrite Epv, (si_start _ _ _ Hs0 E). done.
  - rewrite Epv. rewrite (anchor_head c version s1); [done|done|by rewrite Est, lookup_insert_eq|]. pose proof (si_seq _ _ _ Hs0). lia.
Qed.

(** The link before the pending events. *)
Lemma prefix_valid c version s1 : captured c version (concat (map (wantedBy T hot') batch)) ->
  hd_Streams hot' !! StreamKey T (Stream e) = Some s1 -> (Stream e, firstPending s - 1) ∈ concat (map (wantedBy T hot') batch) ->
  recoveryPrefixMatches c (Stream e) (firstPending s) (ss_PendingPrevHash s) = true.
Proof using All.
  intros (_ & _ & _ & _ & _ & Ha & _) Hs1 Hw. destruct streamOf_inv as (_ & Es0 & Hs0 & _).
  destruct commit_facts as (h & _ & _ & _ & _ & Es & _ & _ & Ehs & _ & Ef & Epp). unfold recoveryPrefixMatches.
  pose proof (si_fit _ _ _ Hs0). destruct (Z.eqb_spec (firstPending s) 1) as [E|E].
  - apply bool_decide_eq_true_2, (si_first _ _ _ open_stream_inv); [|done]. rewrite Ehs. by intros [_ ?]%app_nil.
  - replace (_ <? 1) with false by (symmetry; apply Z.ltb_ge; lia). apply Ha; [|done]. rewrite Epp, Ef, <- Es0. case_decide as Hp.
    + replace (firstPending (streamOf hot T e)) with (ss_NextSequence (streamOf hot T e)) in * by (unfold firstPending; rewrite Hp; cbn; lia).
      apply (si_head _ _ _ Hs0). lia.
    + apply (si_prefix _ _ _ Hs0 Hp). lia.
Qed.

(** A stream that still collects hashes. *)
Lemma pending_receipt_valid c version i key x : captured c version (concat (map (wantedBy T hot') batch)) ->
  hd_Streams hot' !! StreamKey T (Stream e) = Some s -> batch = [receiptRecord b now 1 newReceipt] ->
  ss_PendingEvents s !! i = Some key -> ss_PendingHashes s !! i = Some x ->
  pendingReceiptMatches c s (firstPending s) newReceipt (length (ss_PendingHashes s)) i key x = true.
Proof using All.
  intros (Ec1 & _ & _ & _ & _ & _ & Ep) Hs Hb1 Hk Hx.
  destruct (si_pending _ _ _ open_stream_inv i key x Hk Hx) as (r & Hr & E1 & E2 & E3 & E4 & Hne & E6).
  destruct commit_facts as (h & _ & _ & _ & _ & _ & _ & _ & Ehs & Eks & _). destruct streamOf_inv as (_ & _ & Hs0 & _).
  unfold pendingReceiptMatches. rewrite Ec1.
  assert ((if (i =? length (ss_PendingHashes s) - 1)%nat then Some newReceipt else tc_PendingReceipts c !! key) = Some r) as ->.
  { rewrite Ehs in Hx |- *. rewrite Eks in Hk. rewrite length_app in *. cbn [length] in *. destruct (Nat.eqb_spec i (length (ss_PendingHashes (streamOf hot T e)) + 1 - 1)) as [Ei|Ei].
    - rewrite lookup_app_r in Hk by (rewrite (si_len _ _ _ Hs0); lia). rewrite (si_len _ _ _ Hs0) in Hk.
      replace (i - _)%nat with 0%nat in Hk by lia. injection Hk as <-. by rewrite grown_receipts, decide_True in Hr.
    - assert (i < length (ss_PendingHashes (streamOf hot T e)))%nat as Hi by (apply lookup_lt_Some in Hx; rewrite length_app in Hx; cbn in Hx; lia).
      rewrite lookup_app_l in Hk by (rewrite (si_len _ _ _ Hs0); lia). rewrite lookup_app_l in Hx by done.
      destruct (si_pending _ _ _ Hs0 i key x Hk Hx) as (r' & Hr' & _). pose proof (partial_receipts _ _ Hr') as Hp. apply partial_within in Hp as Hw.
      assert (r' = r) as -> by congruence. rewrite Ep, Hb1. cbn [foldl]. unfold pendingReceiptsOf. cbn [lr_Receipt receiptRecord].
      destruct newReceipt_fields as (_ & _ & -> & _). rewrite Hs, Eks. apply pending_fold; [by rewrite (ix_receipts _ (bo_indexed _ Hbn))|left].
      apply elem_of_app. left. by eapply list_elem_of_lookup_2. }
  rewrite E1, E2, E3, E4. rewrite (bool_decide_eq_false_2 (x = "")) by done. by rewrite !bool_decide_eq_true_2, Z.eqb_refl by done.
Qed.

Lemma pending_valid c version : captured c version (concat (map (wantedBy T hot') batch)) ->
  hd_Streams hot' !! StreamKey T (Stream e) = Some s -> batch = [receiptRecord b now 1 newReceipt] ->
  validateRecoveryPending c s newReceipt = Ok tt.
Proof using All.
  intros Hc Hs Hb1. pose proof Hc as (Ec1 & _). destruct commit_facts as (h & _ & _ & _ & _ & Es & _ & Eh & Ehs & Eks & _).
  destruct newReceipt_fields as (_ & E2 & _ & _ & E5 & _ & _ & _ & Ehd & _). destruct streamOf_inv as (_ & _ & Hs0 & _).
  unfold validateRecoveryPending. fold (firstPending s).
  assert (last (ss_PendingHashes s) = Some (rc_Hash newReceipt)) as -> by (by rewrite Ehs, last_snoc, E5, <- Ehd, Eh).
  assert (last (ss_PendingEvents s) = Some (EventKey (tc_TenantID c) (rc_EventID newReceipt))) as -> by (by rewrite Eks, last_snoc, Ec1, E2).
  rewrite !bool_decide_eq_true_2 by done.
  replace (length (ss_PendingEvents s) =? length (ss_PendingHashes s))%nat with true by (symmetry; apply Nat.eqb_eq, open_stream_inv).
  replace (length (ss_PendingHashes s) =? 0)%nat with false by (symmetry; apply Nat.eqb_neq; rewrite Ehs, length_app; cbn; lia).
  cbn [negb andb guard_err result_bind]. rewrite Es, (prefix_valid c version s) by (done || by eapply wanted_head).
  cbn [guard_err result_bind]. apply guard_err_Ok, forallb_forall. intros [i [key x]] Hin.
  apply combine_seq_lookup in Hin as (_ & Hk & Hx). rewrite Nat.sub_0_r in *. by eapply pending_receipt_valid.
Qed.

(** A stream that was just sealed. *)
Lemma seal_valid c version sg cp : captured c version (concat (map (wantedBy T hot') batch)) ->
  hd_Streams hot' !! StreamKey T (Stream e) = Some (clearPendingHashes s) -> sealSegment s (ev_ReceivedAt e') cid = Ok (sg, cp) ->
  batch = [receiptRecord b now 1 newReceipt; segmentRecord b now sg; checkpointRecord b now cp] ->
  validateRecoverySeal c (clearPendingHashes s) newReceipt (mkhotRecoveryRecords (Some newReceipt) (Some sg) (Some cp)) = Ok tt.
Proof using All.
  intros Hc Hs Hseal Hb1. pose proof Hc as (Ec1 & _). destruct commit_facts as (h & _ & _ & _ & Et & Es & En & Eh & Ehs & _).
  destruct newReceipt_fields as (_ & _ & E3 & E4 & E5 & _ & _ & _ & Ehd & _). pose proof (si_fit _ _ _ open_stream_inv) as Hfit.
  assert (0 < length (ss_PendingHashes s))%nat as Hlen by (rewrite Ehs, length_app; cbn; lia).
  unfold sealSegment in Hseal. fold (firstPending s) in Hseal. destruct (Sign _) as [sig|] eqn:Hsign; [|done]. injection Hseal as Esg Ecp.
  unfold validateRecoverySeal. cbn [hr_segment hr_checkpoint clearPendingHashes ss_PendingHashes ss_PendingEvents length Nat.eqb andb guard_err result_bind].
  assert (segmentRecovers c newReceipt sg = true) as ->.
  { rewrite <- Esg. unfold segmentRecovers. cbn -[newReceipt firstPending]. rewrite Ec1, E3, E4, E5. rewrite !bool_decide_eq_true_2 by done.
    unfold firstPending in *. rewrite !(proj2 (Z.eqb_eq _ _)), (proj2 (Z.ltb_lt _ _)), (proj2 (Z.leb_le _ _)) by lia. done. }
  assert (checkpointRecovers c newReceipt sg cp = true) as ->.
  { rewrite <- Esg, <- Ecp. unfold checkpointRecovers. cbn -[newReceipt firstPending]. rewrite Ec1, E3, E4. rewrite !bool_decide_eq_true_2 by done.
    rewrite (proj2 (Z.eqb_eq _ _)) by lia. done. }
  assert (recoveryPrefixMatches c (sg_StreamID sg) (sg_FirstSequence sg) (sg_FirstPrevHash sg) = true) as ->.
  { pose proof (fun H => prefix_valid c version _ Hc Hs H) as Hp. rewrite <- Esg. cbn. rewrite Es. apply Hp. rewrite Hb1. cbn [map concat].
    apply elem_of_app. right. apply elem_of_app. left. unfold wantedBy. cbn. rewrite <- Esg. cbn. rewrite Es. left. }
  cbn [guard_err result_bind]. rewrite <- Esg. cbn [sg_TenantID sg_FirstSequence sg_LastSequence sg_LastHash sg_MerkleRoot sg_ManifestHash sg_Signature].
  rewrite bool_decide_eq_true_2 by done. cbn [guard_err result_bind]. by rewrite (sign_verifies _ _ Hsign).
Qed.

Lemma recovery_accepts version pending :
  exists c, captureRecoveryAnchors (mktenantState hot' (TL bn None) version pending)
    (mkTenantCommitCandidate T version batch hot' schemas ∅ ∅) = Ok c /\
    tc_TenantID c = T /\ tc_Version c = version /\ tc_Records c = batch /\ validateHotTenantCommit legacyDigest c = Ok tt.
Proof using All.
  destruct (capture_succeeds version pending) as (c & Hcap & Hc). exists c. pose proof Hc as (Ec1 & Ec2 & Ec3 & _). split_and!; [done..|].
  destruct newReceipt_fields as (_ & _ & _ & _ & _ & _ & _ & _ & _ & Hrec). destruct commit_streams as (s1 & Est & _).
  assert (ev_StreamID e' = Stream e) as Esid by (destruct commit_facts as (h & Ee & _); by rewrite Ee).
  unfold validateHotTenantCommit, recoveryRecords. rewrite Ec3.
  inversion Hcom as [Eh Eb|sg cp Hseal Eh Eb]; rewrite HT in *; fold newReceipt in *.
  - rewrite recovery_open. cbn [length Nat.leb guard_err result_bind hr_receipt]. rewrite Hrec. cbn [result_bind].
    assert (hd_Streams hot' !! StreamKey T (Stream e) = Some s) as Hs by (rewrite <- Eh; cbn; by rewrite Esid, lookup_insert_eq).
    rewrite (head_valid c version s) by done. cbn [result_bind hr_segment hr_checkpoint]. by eapply pending_valid.
  - rewrite recovery_sealed. cbn [length Nat.leb guard_err result_bind hr_receipt]. rewrite Hrec. cbn [result_bind].
    assert (hd_Streams hot' !! StreamKey T (Stream e) = Some (clearPendingHashes s)) as Hs by (rewrite <- Eh; cbn; by rewrite Esid, lookup_insert_eq).
    rewrite (head_valid c version (clearPendingHashes s)) by done. cbn [result_bind]. by eapply seal_valid.
Qed.

End commit.

(** ** Recovery after a crash *)

Section recovery.
Context {signer : Signer} {signer_ok : SignerOk signer} {crypto : FieldCrypto} {archive : ArchiveReader}.
Variable legacyDigest : Event -> result string.

Lemma recover_nothing f control d T st : ValidTenantID T = Ok tt -> T <> "" -> ts_pending st = [] ->
  RecoverHotTenantCommit legacyDigest f None (restarted control d T st) T = (restarted control d T st, Ok 0).
Proof using Type.
  intros Hv Hne Hp. unfold RecoverHotTenantCommit. rewrite bool_decide_eq_false_2, Hv by done.
  apply result_bind_Ok in Hv as (u & Hk & _). destruct u. unfold ReadPendingTenantCommit, pendingCandidate. rewrite Hk. cbn [result_bind restarted sp_tenant].
  rewrite lookup_singleton_eq. unfold unresolvedTenantCommit. by rewrite Hp.
Qed.

(** An owed batch that passes capture and validation is completed. *)
Lemma recover_owed control ctl d T doc bn v batch missing l' c :
  ValidTenantID T = Ok tt -> T <> "" -> owed T bn batch missing -> commitPending (TL bn None) batch = l' -> cloneControl control = Ok ctl ->
  captureRecoveryAnchors (mktenantState doc (TL bn None) v batch)
    (mkTenantCommitCandidate T v batch doc (sn_Schemas ctl) ∅ ∅) = Ok c ->
  tc_TenantID c = T -> tc_Version c = v -> tc_Records c = batch -> validateHotTenantCommit legacyDigest c = Ok tt ->
  exists r recovered, RecoverHotTenantCommit legacyDigest no_faults None (restarted control d T (mktenantState doc (TL bn None) v batch)) T = (r, Ok recovered) /\
    tenantStateOf r T = mktenantState doc l' (v + 1) [].
Proof using Type.
  intros Hv Hne How Hcp Hctl Hcap E1 E2 E3 Hval. set (st := mktenantState _ _ _ _) in *.
  pose proof (restarted_at control d T st) as Hat. unfold RecoverHotTenantCommit. rewrite bool_decide_eq_false_2, Hv by done.
  unfold ReadPendingTenantCommit. rewrite (pendingCandidate_owed _ _ _ _ _ _ _ _ _ ctl Hat How Hctl). cbn [result_bind].
  rewrite (at_state _ _ _ _ _ Hat), Hcap. cbn [result_bind]. rewrite Hval.
  edestruct (commitPending_owed _ _ _ _ _ _ _ _ _ _ c Hat How Hcp) as (s' & -> & Hat'); [done..|]. eexists _, _. split; [done|]. by eapply at_state.
Qed.

(** What the hot document and the ledger say about one event. *)
Definition recorded (T : string) (e : Event) (st0 st : tenantState) : Prop :=
  exists e' batch, hd_Events (ts_hot st) !! EventKey T (ev_EventID e) = Some e' /\ e' = coordinates e (Stream e) (ev_Sequence e') (ev_PrevHash e') (ev_Hash e') /\
    committedRecords (ts_ledger st) = (committedRecords (ts_ledger st0) ++ batch)%list /\
    latestReceipt (committedRecords (ts_ledger st)) (EventKey T (ev_EventID e)) = Some (ledgeredReceipt T e').

Definition untouched (st0 st : tenantState) : Prop :=
  ts_hot st = ts_hot st0 /\ committedRecords (ts_ledger st) = committedRecords (ts_ledger st0).

Section attempt.
Context (b : LedgerData) (T : string) (HT : ld_tenantID b = T) (Hclean : clean b) (Hvalid : ValidTenantID T = Ok tt) (HTne : T <> "").
Context (st0 : tenantState) (Hled : ts_ledger st0 = TL b None) (Hinv : tenant_inv T (ts_hot st0) (ld_records b)).
Context (e : Event) (cid : string) (now : time) (Hid : ev_EventID e <> "") (Hat : ev_ReceivedAt e <> 0) (Hcid : cid <> "").
Context (Hcids : forall r, r ∈ ld_records b -> lr_RecordType r = LedgerCheckpoint -> lr_Key r <> cid).
Context (control ctl : Snapshot) (Hctl : cloneControl control = Ok ctl) (Had : admissible (sn_Schemas ctl) T e).

(** The invariant keeps the keys of the next seal free. *)
Lemma chained_unsealed e' s : chained (ts_hot st0) T e e' s -> unsealed b s cid.
Proof using Hinv Hcid Hcids Had.
  intros Hch. destruct (streamOf_inv b T _ e Hinv (ad_stream _ _ _ Had)) as (_ & _ & _ & Hlk).
  destruct (commit_facts b T _ e e' s Hinv (ad_stream _ _ _ Had) Hch) as (h & _ & _ & _ & Et & Es & _ & _ & _ & _ & Ef & _).
  split_and!; [done|done|]. intros r Hr Hty Hk. rewrite Et, Es in Hk. fold (firstPending s) in Hk. fold (segmentKeyAt T (Stream e) (firstPending s)) in Hk.
  destruct (ti_segments _ _ _ Hinv _ _ _ Hr Hty Hk) as (x & Hx & Hm). destruct Hlk as [Hl|[Hl _]]; [|congruence].
  assert (x = streamOf (ts_hot st0) T e) as -> by congruence. lia.
Qed.

Lemma commit_recorded e' s hot' batch b' v : latestReceipt (ld_records b) (EventKey T (ev_EventID e)) = None ->
  chained (ts_hot st0) T e e' s -> committed b (ts_hot st0) now cid e' s hot' batch ->
  ld_records b' = (ld_records b ++ batch)%list ->
  recorded T e st0 (mktenantState hot' (TL b' None) v []) /\ tenant_inv T hot' (ld_records b').
Proof using HT Hled Hinv Had.
  intros Hnone Hch Hcom Hr. pose proof (ad_stream _ _ _ Had) as Hsid. split; [|rewrite Hr; by eapply commit_inv].
  exists e', batch. unfold committedRecords. cbn [ts_hot ts_ledger tl_data]. rewrite Hled. cbn [tl_data]. rewrite Hr.
  destruct (commit_facts b T _ e e' s Hinv Hsid Hch) as (h & Ee & _). split_and!; [|by rewrite Ee|done|].
  - assert (ev_EventID e' = ev_EventID e) as <- by (by rewrite Ee). rewrite <- HT. destruct Hcom; cbn; by rewrite lookup_insert_eq.
  - by rewrite (grown_receipts b T HT _ now cid e e' s hot' batch Hinv Hsid Hnone Hch Hcom), decide_True.
Qed.

(** An interrupted commit, reloaded, is recovered. *)
Lemma commit_recovers e' s hot' batch b' st' d : latestReceipt (ld_records b) (EventKey T (ev_EventID e)) = None ->
  chained (ts_hot st0) T e e' s -> committed b (ts_hot st0) now cid e' s hot' batch ->
  acceptable T (ld_records b) batch -> foldl applyRecord (TL b None) batch = TL b' None -> ld_records b' = (ld_records b ++ batch)%list ->
  recoverable T b b' batch st0 hot' st' ->
  exists r recovered, RecoverHotTenantCommit legacyDigest no_faults None (restarted control d T st') T = (r, Ok recovered) /\
    let st := tenantStateOf r T in
    ts_pending st = [] /\ tenant_inv T (ts_hot st) (committedRecords (ts_ledger st)) /\ recorded T e st0 st.
Proof using HT Hvalid HTne Hled Hinv Had Hctl Hid Hat signer_ok Hclean archive.
  intros Hnone Hch Hcom Hacc Hb' Hr (bn & n & -> & Hcn & Hm & Hcp & Hdone & Hv & Hrn).
  pose proof (ad_stream _ _ _ Had) as Hsid. destruct (decide (drop n batch = [])) as [Hd|Hd].
  - rewrite recover_nothing by done. eexists _, _. split; [done|]. rewrite (at_state _ _ _ _ _ (restarted_at control d T _)). cbn [ts_pending ts_hot ts_ledger].
    rewrite (Hdone Hd). destruct (commit_recorded e' s hot' batch b' (ts_version st0 + 1) Hnone Hch Hcom Hr). by split_and!.
  - destruct (recovery_accepts b T HT (ts_hot st0) now cid e e' s hot' batch Hinv Hsid Hnone Hch Hcom legacyDigest (sn_Schemas ctl) Had Hid Hat
      n bn (cl_base _ Hcn) Hrn (ts_version st0 + 1) batch) as (c & Hcap & E1 & E2 & E3 & Hval).
    assert (owed T bn batch (drop n batch)) as How.
    { split; try done; [by apply result_bind_Ok in Hvalid as ([] & Hk & _)|by apply Hv|]. intros x Hx. by apply (batch_loadable T b batch Hacc x Hx). }
    destruct (recover_owed control ctl d T hot' bn _ batch _ _ c Hvalid HTne How Hcp Hctl Hcap E1 E2 E3 Hval) as (r & k & Hrec & Hst).
    exists r, k. split; [done|]. cbn zeta. rewrite Hst. cbn [ts_pending ts_hot ts_ledger]. destruct (commit_recorded e' s hot' batch b' (ts_version st0 + 1 + 1) Hnone Hch Hcom Hr). by split_and!.
Qed.

End attempt.

(** The outcome of the theorem below, for the files [d] an attempt left. *)
Definition recovers (control : Snapshot) (d : disk) (T : string) (e : Event) (st0 : tenantState) : Prop :=
  exists st' r recovered, loadTenantState d T = Ok st' /\
    RecoverHotTenantCommit legacyDigest no_faults None (restarted control d T st') T = (r, Ok recovered) /\
    let st := tenantStateOf r T in
    ts_pending st = [] /\ tenant_inv T (ts_hot st) (committedRecords (ts_ledger st)) /\ (untouched st0 st \/ recorded T e st0 st).

Lemma recovers_untouched control d T e st0 st' :
  ValidTenantID T = Ok tt -> T <> "" -> tenant_inv T (ts_hot st0) (committedRecords (ts_ledger st0)) ->
  ts_pending st' = [] -> untouched st0 st' -> loadTenantState d T = Ok st' -> recovers control d T e st0.
Proof using Type.
  intros Hv Hne Hinv Hp' [Hu1 Hu2] Hl. exists st', (restarted control d T st'), 0. rewrite recover_nothing by done. split_and!; [done..|]. cbn zeta.
  rewrite (at_state _ _ _ _ _ (restarted_at control d T st')). rewrite Hu1, Hu2. split_and!; [done..|]. left. by split.
Qed.

Lemma recovers_recorded control d T e st0 st' :
  ValidTenantID T = Ok tt -> T <> "" -> tenant_inv T (ts_hot st') (committedRecords (ts_ledger st')) ->
  ts_pending st' = [] -> recorded T e st0 st' -> loadTenantState d T = Ok st' -> recovers control d T e st0.
Proof using Type.
  intros Hv Hne Hinv Hp' Hrec Hl. exists st', (restarted control d T st'), 0. rewrite recover_nothing by done. split_and!; [done..|]. cbn zeta.
  rewrite (at_state _ _ _ _ _ (restarted_at control d T st')). split_and!; auto.
Qed.

(** A commit that buffers nothing and keeps the hot document leaves files that
    reload to the same document and ledger. *)
Lemma empty_commit_reloads T b b' file hot0 st0 s : clean b -> ld_tenantID b = T -> loadable T file -> newTenantLedger T file = TL b None ->
  foldl applyRecord (TL b None) [] = TL b' None -> ts_ledger st0 = TL b None -> ts_pending st0 = [] -> reload hot0 file T = Ok st0 ->
  completed T b' file [] st0 (ts_hot st0) s \/ interrupted T b' file [] hot0 st0 (ts_hot st0) HotFirst s ->
  exists st', loadTenantState (sp_disk s) T = Ok st' /\ ts_pending st' = [] /\ untouched st0 st'.
Proof using Type.
  intros Hc Htb Hfile Hload Hb' Hled Hp0 Hsync Hcase. cbn in Hb'. injection Hb' as <-.
  assert (forall j st1, j = [] -> validateTenantCommitRecords T j = Ok tt -> at_tenant s T st1 (new_file T st0 (ts_hot st0) j) file ->
    exists st', loadTenantState (sp_disk s) T = Ok st' /\ ts_pending st' = [] /\ untouched st0 st') as Hnew.
  { intros j st1 -> Hv Hat. exists (final b st0 (ts_hot st0)). rewrite (load_at _ _ _ _ _ Hat), <- (app_nil_r file).
    rewrite (reload_final T b b file [] st0 (ts_hot st0) Hc Htb Hfile Hload I eq_refl [] (or_introl eq_refl) Hv). split_and!; [done..|].
    split; [done|]. by rewrite Hled. }
  assert (journal [] st0 (ts_hot st0) = []) as Hj by done.
  destruct Hcase as [(j & Hjc & Hv & Hat)|[Hat|(Hv & [Hat|[n Hat]])]].
  - rewrite app_nil_r in Hat. eapply (Hnew j); [by destruct Hjc|done|exact Hat].
  - exists st0. rewrite (load_at _ _ _ _ _ Hat). by split_and!.
  - by eapply Hnew.
  - rewrite take_nil, app_nil_r in Hat. by eapply Hnew.
Qed.


End recovery.

End TenantRecovery.
