(* ===== verification/TenantSeal.v ===== *)
(** * Sealing and archiving over the split store

    Receipt transitions, archive passes and seals keep the tenant invariant; a
    seal that is interrupted between its ledger append and its hot save breaks
    it, and blocks its stream. *)

From Stdlib Require Import Ascii String.
From S2P Require Import Prelude GoStr Sha256 Merkle Signer Domain Canonical Keys Ledger LedgerFacts LedgerViews LedgerProps Store SplitStore SplitProps Evidence Integrity ChainProps EvidenceProps EvidenceInv EvidenceSteps TenantIngest TenantProps TenantRecovery.
Open Scope string_scope.
Open Scope Z_scope.
Import Domain Canonical Keys Ledger LedgerFacts LedgerViews LedgerProps Store SplitStore SplitProps
  Sha256 Merkle Signer Evidence Integrity ChainProps EvidenceProps EvidenceInv EvidenceSteps TenantIngest TenantProps TenantRecovery.

Module TenantSeal.

Local Opaque HashBytes hashText hashValue merkleRoot EventContentDigest.

Lemma reload_base t rs d : checkRecords t rs = Ok tt -> newTenantLedger t rs = TL d None -> base_ok d.
Proof.
  intros Hc%checkRecords_ok Hd. destruct (clean_load t rs Hc) as (b & Hb & Hcl & _). rewrite Hd in Hb. injection Hb as ->. apply Hcl.
Qed.

Lemma on_fresh b v : base_ok b -> tv_Ledger v = newTenantLedgerView (TL b None) -> on b v (emptyData (ld_tenantID b) None true).
Proof. intros Hb E. split; [by rewrite E, newTenantLedgerView_view|apply (view_start b Hb)]. Qed.

Lemma reaches_on b v d v' : base_ok b -> on b v d -> view_reaches v v' -> exists d', on b v' d'.
Proof.
  intros Hb [Hl Hv] [calls H]. rewrite Hl in H. destruct (run_calls_view b d calls Hb Hv) as (d' & E & Hv'). exists d'. split; congruence.
Qed.

(** What the append methods may add to the buffer. *)
Lemma append_buffered b v d r l' : base_ok b -> on b v d -> validateLedgerRecord r = Ok tt -> lr_TenantID r = ld_tenantID b ->
  lr_RecordType r <> LedgerReceipt -> bufferRecord (tv_Ledger v) r = (l', None) ->
  exists d', on b (set_tv_Ledger v l') d' /\ forall x, x ∈ ld_pending d' -> x ∈ ld_pending d \/ x = r.
Proof.
  intros Hb [Hl Hv] Hval Ht Hty H. rewrite Hl in H. apply validate_valid in Hval.
  destruct (view_bufferRecord b d r Hb Hv Hval Ht Hty) as (d' & e & E & Hv' & Hcase). rewrite E in H. injection H as <- ->.
  exists d'. split; [done|]. intros x. destruct Hcase as [->| ->]; [auto|]. rewrite elem_of_app, list_elem_of_singleton. tauto.
Qed.

Lemma segment_buffered b v d now sg v' : base_ok b -> on b v d -> viewAppendSegment v now sg = (v', None) ->
  tv_Hot v' = tv_Hot v /\ tv_Global v' = tv_Global v /\
  exists d', on b v' d' /\ forall x, x ∈ ld_pending d' -> x ∈ ld_pending d \/ x = segmentRecord b now sg.
Proof.
  intros Hb Hon H. unfold viewAppendSegment, AppendSegment in H. pose proof Hon as [Hl Hv].
  assert (ld_tenantID (tl_data (tv_Ledger v)) = ld_tenantID b) as Et by (rewrite Hl; apply Hv). rewrite Et in H.
  case_bool_decide; cbn [negb] in H; [|done]. fold (segmentRecord b now sg) in H.
  destruct (validateLedgerRecord _) as [[]|] eqn:Hval; [|done]. destruct (bufferRecord _ _) as [l' [err|]] eqn:Hbuf; [done|].
  injection H as <-. split_and!; [done..|]. by eapply append_buffered.
Qed.

Lemma checkpoint_buffered b v d now cp v' : base_ok b -> on b v d -> viewAppendCheckpoint v now cp = (v', None) ->
  tv_Hot v' = tv_Hot v /\ tv_Global v' = tv_Global v /\
  exists d', on b v' d' /\ forall x, x ∈ ld_pending d' -> x ∈ ld_pending d \/ lr_RecordType x = LedgerCheckpoint.
Proof.
  intros Hb Hon H. unfold viewAppendCheckpoint, AppendCheckpoint in H. pose proof Hon as [Hl Hv].
  assert (ld_tenantID (tl_data (tv_Ledger v)) = ld_tenantID b) as Et by (rewrite Hl; apply Hv). rewrite Et in H.
  case_bool_decide; cbn [negb] in H; [|done]. set (r := mkLedgerRecord _ _ _ _ _ _ _ _) in H.
  destruct (validateLedgerRecord _) as [[]|] eqn:Hval; [|done]. destruct (bufferRecord _ _) as [l' [err|]] eqn:Hbuf; [done|].
  injection H as <-. split_and!; [done..|]. destruct (append_buffered b v d r l') as (d' & Hd & Hx); try done.
  exists d'. split; [done|]. intros x [?| ->]%Hx; auto.
Qed.

(** ** A committed segment under the key of the next one *)

Section blocked.
Context (b : LedgerData) (Hb : base_ok b) (r0 : LedgerRecord) (sg0 : Segment).
Context (Hr0 : r0 ∈ ld_records b) (Hty : lr_RecordType r0 = LedgerSegment) (Hver : lr_Version r0 = 1) (Hsg0 : lr_Segment r0 = Some sg0).

Lemma taken_segment v d now sg : on b v d -> (forall x, x ∈ ld_pending d -> lr_RecordType x = LedgerSegment -> lr_Key x <> lr_Key r0) ->
  lr_Key r0 = segmentLedgerKey sg -> sg <> sg0 -> is_Some (viewAppendSegment v now sg).2.
Proof using All.
  intros [Hl Hv] Hp Hk Hne. unfold viewAppendSegment, AppendSegment. rewrite Hl. cbn [tl_data view].
  rewrite (vo_tenant _ _ Hv). case_bool_decide; cbn [negb]; [|by eexists]. set (r := mkLedgerRecord _ _ _ _ _ _ _ _).
  destruct (validateLedgerRecord r); [|by eexists]. unfold bufferRecord. rewrite view_findRecord by done. cbn [r lr_RecordType lr_Key lr_Version].
  assert (find_first (matchesRecord LedgerSegment (segmentLedgerKey sg) 1) (ld_pending d) = None) as ->
    by (apply find_first_None; intros x Hx; unfold matchesRecord; rewrite <- Hk; destruct (decide (lr_RecordType x = LedgerSegment));
        [rewrite (bool_decide_eq_false_2 (lr_Key x = _)) by auto; by rewrite andb_false_r|by rewrite bool_decide_eq_false_2]).
  assert (find_first (matchesRecord LedgerSegment (segmentLedgerKey sg) 1) (ld_records b) = Some r0) as ->.
  { destruct (find_first _ (ld_records b)) as [x|] eqn:Ex.
    - apply find_first_Some in Ex as [Hx Hm]. f_equal. apply matchesRecord_identity in Hm.
      eapply (ids_unique (ld_records b)); [apply (bo_indexed _ Hb)|done|done|]. rewrite Hm. unfold ledgerRecordIdentity, identityOf. by rewrite Hty, Hk, Hver.
    - rewrite find_first_None in Ex. specialize (Ex r0 Hr0). unfold matchesRecord in Ex. rewrite Hty, Hk, Hver in Ex. by rewrite !bool_decide_eq_true_2 in Ex. }
  cbn [snd]. replace (immutableLedgerRecordEqual r0 r) with false; [by eexists|]. symmetry. unfold immutableLedgerRecordEqual.
  case_match; [done|]. rewrite decide_False by (rewrite Hty; done). rewrite decide_True by done. rewrite Hsg0. apply bool_decide_eq_false_2. cbn. congruence.
Qed.

End blocked.

Section service.
Context {signer : Signer}.

Lemma sealSegment_fields s now cid sg cp : sealSegment s now cid = Ok (sg, cp) ->
  segmentLedgerKey sg = segmentKeyAt (ss_TenantID s) (ss_StreamID s) (firstPending s) /\ sg_CreatedAt sg = now /\
  sg_LastSequence sg = ss_NextSequence s - 1 /\ sg_StreamID sg = ss_StreamID s.
Proof using Type. unfold sealSegment. case_match; [|done]. by intros [= <- <-]. Qed.

(** Streams filed under their own keys. *)
Definition well_keyed (streams : gmap string StreamState) : Prop :=
  forall k s, streams !! k = Some s -> k = StreamKey (ss_TenantID s) (ss_StreamID s).

Lemma segmentKey_stream s s' : segmentKeyAt (ss_TenantID s) (ss_StreamID s) (firstPending s) =
  segmentKeyAt (ss_TenantID s') (ss_StreamID s') (firstPending s') -> StreamKey (ss_TenantID s) (ss_StreamID s) = StreamKey (ss_TenantID s') (ss_StreamID s').
Proof using Type. intros H. by apply (sep_inj_r SepByte) in H as [H _]; [|apply Itoa_no_char, sep_not_digit..]. Qed.

Section blocked_stream.
Context (b : LedgerData) (Hb : base_ok b) (r0 : LedgerRecord) (sg0 : Segment) (s : StreamState).
Context (Hr0 : r0 ∈ ld_records b) (Hty : lr_RecordType r0 = LedgerSegment) (Hver : lr_Version r0 = 1) (Hsg0 : lr_Segment r0 = Some sg0).
Context (Hk0 : lr_Key r0 = segmentKeyAt (ss_TenantID s) (ss_StreamID s) (firstPending s)).

Lemma sealStreams_blocked now newID K keys v d :
  on b v d -> (forall x, x ∈ ld_pending d -> lr_RecordType x = LedgerSegment -> lr_Key x <> lr_Key r0) ->
  well_keyed (hd_Streams (tv_Hot v)) -> hd_Streams (tv_Hot v) !! K = Some s -> K ∈ keys -> NoDup keys -> now <> sg_CreatedAt sg0 ->
  is_Some (sealStreams now newID keys v).2.
Proof using All.
  intros Hon Hpend Hkeyed HK Hin Hnd Hnow. revert v d Hon Hpend Hkeyed HK.
  induction keys as [|key keys IH]; intros v d Hon Hpend Hkeyed HK; [inversion Hin|]. apply NoDup_cons in Hnd as [Hnot Hnd]. cbn [sealStreams].
  destruct (decide (key = K)) as [->|Hne].
  - rewrite HK. destruct (sealSegment s now _) as [[sg cp]|] eqn:Hseal; [|by eexists].
    destruct (sealSegment_fields _ _ _ _ _ Hseal) as (Ek & Ec & _).
    assert (is_Some (viewAppendSegment v now sg).2) as Hsome by (eapply (taken_segment b Hb r0 sg0 Hr0 Hty Hver Hsg0 v d); [done|done|by rewrite Hk0, Ek|intros ->; congruence]).
    destruct (viewAppendSegment v now sg) as [v1 [err|]]; [by eexists|by destruct Hsome].
  - apply elem_of_cons in Hin as [->|Hin]; [done|]. destruct (hd_Streams (tv_Hot v) !! key) as [s'|] eqn:Ekey; [|by eapply IH].
    destruct (sealSegment s' now _) as [[sg cp]|] eqn:Hseal; [|by eexists]. destruct (sealSegment_fields _ _ _ _ _ Hseal) as (Ek & _).
    destruct (viewAppendSegment v now sg) as [v1 [err|]] eqn:H1; [by eexists|]. apply (segment_buffered b v d) in H1 as (E1 & _ & d1 & Hon1 & P1); [|done..].
    destruct (viewAppendCheckpoint v1 now cp) as [v2 [err|]] eqn:H2; [by eexists|]. apply (checkpoint_buffered b v1 d1) in H2 as (E2 & _ & d2 & Hon2 & P2); [|done..].
    eapply (IH Hin Hnd _ d2).
    + destruct Hon2. by split.
    + intros x [[Hx| ->]%P1|Hx]%P2 Hxt; [by apply Hpend| |by rewrite Hxt in Hx]. cbn. rewrite Ek, Hk0. intros Heq%segmentKey_stream.
      apply Hkeyed in Ekey as ->. apply Hkeyed in HK. congruence.
    + cbn. rewrite E2, E1. intros k x [[<- <-]|[_ Hx]]%lookup_insert_Some; [apply (Hkeyed _ _ Ekey)|by apply Hkeyed].
    + cbn. rewrite E2, E1. by rewrite lookup_insert_ne.
Qed.

Lemma commit_blocked size publish now cid e v d :
  on b v d -> ld_pending d = [] -> hd_Streams (tv_Hot v) !! StreamKey (ld_tenantID b) (Stream e) = Some s ->
  ss_StreamID s = Stream e -> Stream e <> "" ->
  size <= Z.of_nat (length (ss_PendingHashes s)) + 1 -> sg_LastSequence sg0 < ss_NextSequence s ->
  is_Some (to_err (commitTenantEvent size publish now (ld_tenantID b) cid e v).2).
Proof using All.
  intros Hon Hp Hs Esid Hne Hsize Hlast. unfold commitTenantEvent.
  assert (openStream (hd_Streams (tv_Hot v)) (ld_tenantID b) (Stream e) = s) as ->
    by (unfold openStream, map_get; rewrite Hs; cbn; by rewrite bool_decide_eq_false_2 by (by rewrite Esid)).
  pose proof (hotHead_quiet b Hb v d s Hon) as Hq. destruct (validateIngestHotHead v s) as [v0 [err|]]; [by eexists|]. cbn [fst] in Hq.
  destruct Hq as (E0 & G0 & d0 & Hon0 & P0). destruct (chainEvent _ _ _ _) as [[e' s']|] eqn:Hch; [|by eexists].
  set (v1 := ensureLedgeredIntent _ _ _ _). assert (on b v1 d0) as Hon1 by (unfold v1, on; rewrite ensureLedgeredIntent_ledger; exact Hon0).
  pose proof Hon1 as [Hl1 Hv1]. unfold viewSetReceipt. rewrite Hl1.
  destruct (view_SetReceipt b d0 now (ledgeredReceipt (ld_tenantID b) e') Hb Hv1) as (d2 & err & -> & Hv2 & _ & P2).
  destruct err as [err|]; [by eexists|].
  assert (forall x, x ∈ ld_pending d2 -> lr_RecordType x = LedgerReceipt) as Honly.
  { rewrite P2, P0, Hp. intros x. case_bool_decide; [intros Hx; inversion Hx|]. by intros ->%list_elem_of_singleton. }
  apply chainEvent_inv in Hch as (h & Ee & _ & Es'). unfold sealFull.
  assert ((Z.of_nat (length (ss_PendingHashes s')) <? size) = false) as ->.
  { apply Z.ltb_ge. rewrite Es'. cbn. rewrite length_app. cbn. lia. }
  destruct (sealSegment s' _ cid) as [[sg cp]|] eqn:Hseal; [|by eexists]. destruct (sealSegment_fields _ _ _ _ _ Hseal) as (Ek & _ & El & _).
  assert (firstPending s' = firstPending s) as Ef by (rewrite Es'; unfold firstPending; cbn; rewrite length_app; cbn; lia).
  match goal with |- context [viewAppendSegment ?w now sg] => assert (is_Some (viewAppendSegment w now sg).2) as Hsome;
    [|destruct (viewAppendSegment w now sg) as [v3 [err|]]; [by eexists|by destruct Hsome]] end.
  eapply (taken_segment b Hb r0 sg0 Hr0 Hty Hver Hsg0 _ d2).
  - by split.
  - intros x Hx Hxt. apply Honly in Hx. by rewrite Hxt in Hx.
  - rewrite Hk0, Ek, Ef, Es'. done.
  - intros ->. rewrite El, Es' in Hlast. cbn in Hlast. lia.
Qed.

End blocked_stream.

(** A seal interrupted between its ledger append and its hot save blocks
    its stream.  The committed segment keeps the key of the stream's first
    pending sequence, but the next seal builds a segment with another creation
    time (or one more event), so every later seal pass of the tenant and every
    ingest that fills the stream fails with a ledger conflict. *)
Theorem interrupted_seal_blocks_stream b v d r0 sg0 s sid :
  base_ok b -> on b v d -> ld_pending d = [] -> well_keyed (hd_Streams (tv_Hot v)) ->
  hd_Streams (tv_Hot v) !! StreamKey (ld_tenantID b) sid = Some s -> ss_TenantID s = ld_tenantID b -> ss_StreamID s = sid ->
  sid <> "" -> ss_PendingHashes s <> [] ->
  r0 ∈ ld_records b -> lr_RecordType r0 = LedgerSegment -> lr_Version r0 = 1 -> lr_Segment r0 = Some sg0 ->
  lr_Key r0 = segmentKeyAt (ld_tenantID b) sid (firstPending s) ->
  (forall now newID, now <> sg_CreatedAt sg0 -> is_Some (sealPendingTenantClosure (ld_tenantID b) now newID v).2) /\
  (forall size publish now cid e, Stream e = sid -> size <= Z.of_nat (length (ss_PendingHashes s)) + 1 ->
     sg_LastSequence sg0 < ss_NextSequence s ->
     is_Some (to_err (commitTenantEvent size publish now (ld_tenantID b) cid e v).2)).
Proof using Type.
  intros Hb Hon Hp Hkeyed Hs Et Es Hne Hpend Hr0 Hty Hver Hsg Hkey. rewrite <- Et, <- Es in Hkey. split.
  - intros now newID Hnow. unfold sealPendingTenantClosure.
    eapply (sealStreams_blocked b Hb r0 sg0 s); eauto.
    + rewrite Hp. intros x Hx. inversion Hx.
    + unfold sealableKeys. rewrite sort_strings_perm. apply list_elem_of_In, filter_In. split.
      * apply list_elem_of_In, list_elem_of_fmap. exists (StreamKey (ld_tenantID b) sid, s). split; [done|]. by apply elem_of_map_to_list.
      * rewrite Hs, bool_decide_eq_true_2, bool_decide_eq_false_2 by done. done.
    + unfold sealableKeys. rewrite sort_strings_perm. apply NoDup_ListNoDup, List.NoDup_filter, NoDup_ListNoDup, NoDup_fst_map_to_list.
  - intros size publish now cid e <- Hsize Hlast. by eapply (commit_blocked b Hb r0 sg0 s).
Qed.

End service.

(** ** A concrete run *)

Local Transparent HashBytes hashText hashValue merkleRoot EventContentDigest.

Definition sealStart : splitStore := mksplitStore true runStart ∅ (mkdisk (Some runStart) ∅ ∅).
Definition sealIngest (e : Event) (cid : string) (s : splitStore) : splitStore * tenantOutcome :=
  ingestTenantOnce (signer := runSigner) (crypto := plainCrypto) (archive := runArchive) EventContentDigest no_faults None
    2 true (fun _ => Ok false) 5 "t1" "c1" "t1" cid e (ev_SourceDigest e) s.
Definition sealCommitted : splitStore := (sealIngest runEvent "cp1" sealStart).1.
(** The hot save of the seal fails. *)
Definition hotSaveFails : faults := mkfaults None None None None (WriteFails false (NewErr "disk full")) None AppendOk None WriteOk.
Definition sealTorn : splitStore :=
  (updateTenant hotSaveFails sealCommitted "t1" ColdFirst (sealPendingTenantClosure (signer := runSigner) "t1" 6 (fun _ => "cp2"))).1.
Definition sealView : TenantView :=
  let st := tenantStateOf sealTorn "t1" in mkTenantView (ts_hot st) (newTenantLedgerView (ts_ledger st)) runStart.
Definition sealLedger : LedgerData := tl_data (ts_ledger (tenantStateOf sealTorn "t1")).
Definition tornRecord : LedgerRecord := nth 1 (ld_records sealLedger) (mkLedgerRecord "" "" "" 0 None None None 0).
Definition tornStream : StreamState := map_get (mkStreamState "" "" 0 "" "" [] []) (hd_Streams (tv_Hot sealView)) (StreamKey "t1" (Stream runEvent)).

Lemma seal_reload : newTenantLedger "t1" (ld_records sealLedger) = TL sealLedger None.
Proof. vm_compute. reflexivity. Qed.
Lemma seal_checked : checkRecords "t1" (ld_records sealLedger) = Ok tt.
Proof. vm_compute. reflexivity. Qed.
Lemma seal_base : base_ok sealLedger.
Proof. exact (reload_base "t1" (ld_records sealLedger) sealLedger seal_checked seal_reload). Qed.
Lemma seal_view : tv_Ledger sealView = newTenantLedgerView (TL sealLedger None).
Proof. vm_compute. reflexivity. Qed.
Lemma seal_on : on sealLedger sealView (emptyData (ld_tenantID sealLedger) None true).
Proof. exact (on_fresh sealLedger sealView seal_base seal_view). Qed.
Lemma seal_keyed : well_keyed (hd_Streams (tv_Hot sealView)).
Proof.
  assert (hd_Streams (tv_Hot sealView) = {[StreamKey "t1" (Stream runEvent) := tornStream]}) as -> by (vm_compute; reflexivity).
  intros k s [<- <-]%lookup_singleton_Some. vm_compute. reflexivity.
Qed.
Lemma seal_record : tornRecord ∈ ld_records sealLedger.
Proof. apply (bool_decide_unpack _). vm_compute. exact I. Qed.

Lemma interrupted_seal_blocks_stream_witness :
  is_Some (sealPendingTenantClosure (signer := runSigner) "t1" 7 (fun _ => "cp3") sealView).2.
Proof.
  refine (proj1 (interrupted_seal_blocks_stream (signer := runSigner) sealLedger sealView (emptyData (ld_tenantID sealLedger) None true) tornRecord
    (default (mkSegment "" "" 0 0 "" "" 0 "" "" "" 0) (lr_Segment tornRecord)) tornStream (Stream runEvent)
    seal_base seal_on _ seal_keyed _ _ _ _ _ seal_record _ _ _ _) 7 (fun _ => "cp3") _);
    vm_compute; (reflexivity || discriminate).
Defined.

(** An ingest whose ledger append fails, recovered after a restart. *)
Definition tornEvent : Event := set_ev_ReceivedAt runEvent 5.
Definition appendFails : faults := mkfaults None None None None WriteOk None (AppendFails 0 (NewErr "disk full")) None WriteOk.
Definition tornIngest : splitStore * tenantOutcome :=
  ingestTenantOnce (signer := runSigner) (crypto := plainCrypto) (archive := runArchive) EventContentDigest appendFails None
    2 true (fun _ => Ok false) 5 "t1" "c1" "t1" "cp1" tornEvent (ev_SourceDigest tornEvent) sealStart.

Lemma torn_admissible : admissible (crypto := plainCrypto) (sn_Schemas runStart) "t1" tornEvent.
Proof.
  split; [reflexivity| |vm_compute; discriminate|vm_compute; discriminate|vm_compute; reflexivity].
  split; [done|]. apply contains_char_false. reflexivity.
Qed.

Lemma torn_pending : ts_pending (tenantStateOf tornIngest.1 "t1") <> [] /\ is_Some (to_err tornIngest.2).
Proof. vm_compute. split; [discriminate|by eexists]. Qed.


End TenantSeal.
