(* ===== verification/TenantWorkers.v ===== *)
(** * The background workers keep the tenant invariant

    Receipt transitions, archive passes and seals (internal/service:
    tenant_ingest.go, hotcold_workers.go), committed through the split store. *)

From Stdlib Require Import Ascii String.
From S2P Require Import Prelude GoStr Sha256 Merkle Signer Domain Canonical Keys Ledger LedgerFacts LedgerViews LedgerProps Store SplitStore SplitProps Evidence Integrity ChainProps EvidenceProps EvidenceInv EvidenceSteps TenantIngest TenantProps TenantRecovery TenantSeal.
Open Scope string_scope.
Open Scope Z_scope.
Import Domain Canonical Keys Ledger LedgerFacts LedgerViews LedgerProps Store SplitStore SplitProps
  Sha256 Merkle Signer Evidence Integrity ChainProps EvidenceProps EvidenceInv EvidenceSteps TenantIngest TenantProps TenantRecovery TenantSeal.

Module TenantWorkers.

Local Opaque HashBytes hashText hashValue merkleRoot EventContentDigest.

Section workers.
Context {signer : Signer} {crypto : FieldCrypto} {archive : ArchiveReader}.
Context (b : LedgerData) (T : string) (HT : ld_tenantID b = T) (HTne : T <> "") (Hb : base_ok b).

(** ** Receipt updates *)

(** Every buffered record is a new version of a committed receipt at the same
    coordinates. *)
Definition refreshed (d : LedgerData) : Prop :=
  forall x, x ∈ ld_pending d -> lr_RecordType x = LedgerReceipt /\
    exists r rc, lr_Receipt x = Some rc /\ latestReceipt (ld_records b) (lr_Key x) = Some r /\ same_evidence r rc.

Lemma latest_refreshed ps k :
  (forall x, x ∈ ps -> lr_RecordType x = LedgerReceipt /\
    exists r rc, lr_Receipt x = Some rc /\ latestReceipt (ld_records b) (lr_Key x) = Some r /\ same_evidence r rc) ->
  match latestReceipt (ld_records b) k with
  | None => latestReceipt (ld_records b ++ ps) k = None
  | Some r => exists rc, latestReceipt (ld_records b ++ ps) k = Some rc /\ same_evidence r rc
  end.
Proof using Type.
  induction ps as [|x ps IH] using rev_ind; intros H.
  { rewrite app_nil_r. destruct (latestReceipt _ _) as [r|]; [|done]. exists r. by split. }
  specialize (IH ltac:(intros y Hy; apply H, elem_of_app; by left)).
  destruct (H x ltac:(apply elem_of_app; right; left)) as (Hty & r & rc & Hrc & Hr & Hsame).
  assert (receiptFor k x = if bool_decide (lr_Key x = k) then Some rc else None) as Hf
    by (unfold receiptFor; rewrite (bool_decide_eq_true_2 (lr_RecordType x = _)), Hrc by done; done).
  assert (latestReceipt (ld_records b ++ ps ++ [x]) k = match receiptFor k x with Some y => Some y | None => latestReceipt (ld_records b ++ ps) k end) as ->
    by (unfold latestReceipt; by rewrite app_assoc, last_omap_snoc).
  rewrite Hf. case_bool_decide as Hk; [|exact IH]. subst k. rewrite Hr. by exists rc.
Qed.

Lemma at_coord_refreshed d sid n h : refreshed d -> at_coord T (ld_records b) sid n h -> at_coord T (ld_records b ++ ld_pending d) sid n h.
Proof using Type.
  intros Hd (k & r & Hr & E1 & E2 & E3 & E4 & Hh). pose proof (latest_refreshed (ld_pending d) k Hd) as H. rewrite Hr in H.
  destruct H as (rc & Hrc & _ & F2 & F3 & F4 & F5). exists k, rc. split_and!; congruence.
Qed.

Lemma refreshed_back d k r : refreshed d -> latestReceipt (ld_records b ++ ld_pending d) k = Some r ->
  exists r0, latestReceipt (ld_records b) k = Some r0 /\ same_evidence r0 r.
Proof using Type.
  intros Hd Hr. pose proof (latest_refreshed (ld_pending d) k Hd) as H. destruct (latestReceipt (ld_records b) k) as [r0|]; [|congruence].
  destruct H as (rc & Hrc & Hs). exists r0. split; [done|]. by assert (rc = r) as <- by congruence.
Qed.

Lemma refreshed_inv hot hot' d : tenant_inv T hot (ld_records b) -> refreshed d -> hd_Streams hot' = hd_Streams hot ->
  tenant_inv T hot' (ld_records b ++ ld_pending d).
Proof using Type.
  intros [I1 I2 I3 I4] Hd Es. split.
  - intros sid s Hs. rewrite Es in Hs. destruct (I1 sid s Hs) as (E1 & E2 & []). split_and!; [done..|]. split; eauto using at_coord_refreshed.
    intros i key h Hk Hh. destruct (si_pending0 i key h Hk Hh) as (r & Hr & F1 & F2 & F3 & F4 & Fh & F5).
    pose proof (latest_refreshed (ld_pending d) key Hd) as H. rewrite Hr in H. destruct H as (rc & Hrc & G1 & G2 & G3 & G4 & G5).
    exists rc. split_and!; congruence.
  - intros k r Hr. destruct (refreshed_back d k r Hd Hr) as (r0 & Hr0 & G1 & G2 & G3 & G4 & G5). destruct (I2 k r0 Hr0) as (H1 & s & Hs & Hlt).
    rewrite Es, G3, G4. eauto.
  - intros k k' r r' Hr Hr' E1 E2. destruct (refreshed_back d k r Hd Hr) as (r0 & Hr0 & _ & _ & G3 & G4 & _).
    destruct (refreshed_back d k' r' Hd Hr') as (r1 & Hr1 & _ & _ & G3' & G4' & _). eapply I3; eauto; congruence.
  - intros r sid m [Hr|Hr]%elem_of_app Hty Hk; [rewrite Es; by eapply I4|]. apply Hd in Hr as [Hr _]. by rewrite Hty in Hr.
Qed.

Lemma viewSetReceipt_refreshes v d now r r' v' :
  on b v d -> refreshed d -> latestReceipt (ld_records b) (EventKey T (rc_EventID r)) = Some r -> rc_TenantID r = T -> same_evidence r r' ->
  viewSetReceipt v now r' = (v', None) ->
  tv_Hot v' = tv_Hot v /\ tv_Global v' = tv_Global v /\ exists d', on b v' d' /\ refreshed d'.
Proof using HT HTne Hb.
  intros [Hl Hv] Hd Hr Ht Hsame H. unfold viewSetReceipt in H. rewrite Hl in H. pose proof Hsame as (G1 & G2 & _).
  destruct (view_SetReceipt b d now r' Hb Hv) as (d' & e & Hs & Hv' & _ & Hp). rewrite Hs in H. simplify_eq. split_and!; [done..|].
  exists d'. split; [done|]. assert (ownReceipt b r' = r') as Eo by (unfold ownReceipt; rewrite decide_False by congruence; done). rewrite Eo in Hp.
  intros x. rewrite Hp. case_bool_decide; [by apply Hd|]. intros [Hx|Hx]%elem_of_app; [by apply Hd|]. apply list_elem_of_singleton in Hx as ->.
  cbn. split; [done|]. rewrite G1. eauto.
Qed.

(** The receipt a lookup returns is the committed one of its own key. *)
Lemma latest_key k r : latestReceipt (ld_records b) k = Some r -> k = EventKey T (rc_EventID r) /\ rc_TenantID r = T.
Proof using HT Hb.
  intros H. apply (latestReceipt_Some T) in H as (E1 & E2 & _); [done|]. rewrite <- HT. apply (base_loadable b Hb).
Qed.

(** What a worker leaves: refreshed receipts and the streams as they were. *)
Definition refreshes (v v' : TenantView) : Prop :=
  hd_Streams (tv_Hot v') = hd_Streams (tv_Hot v) /\ hd_Events (tv_Hot v') ⊆ hd_Events (tv_Hot v) /\ exists d', on b v' d' /\ refreshed d'.

Lemma update_refreshes v d now r r' v1 key : on b v d -> refreshed d -> latestReceipt (ld_records b) key = Some r -> same_evidence r r' ->
  viewSetReceipt v now r' = (v1, None) -> exists d1, on b v1 d1 /\ refreshed d1 /\ tv_Hot v1 = tv_Hot v.
Proof using HT HTne Hb.
  intros Hon Hd Hr Hs Hset. destruct (latest_key _ _ Hr) as [-> Ht].
  destruct (viewSetReceipt_refreshes v d now r r' v1 Hon Hd Hr Ht Hs Hset) as (E1 & _ & d1 & H1 & H2). eauto.
Qed.

Lemma markTenantArchived_refreshes now es v d v' : on b v d -> refreshed d -> markTenantArchived T now es v = (v', None) -> refreshes v v'.
Proof using HT HTne Hb.
  revert v d. induction es as [|e es IH]; intros v d Hon Hd H; cbn [markTenantArchived] in H; [simplify_eq; split_and!; eauto|].
  destruct (viewReceipt_on b Hb v d (EventKey T (ev_EventID e)) Hon) as (v1 & Hr & E1 & _ & d1 & Hon1 & P1). rewrite Hr in H.
  destruct (latestReceipt (ld_records b) _) as [r|] eqn:El; [|done]. destruct (viewSetReceipt v1 now _) as [v2 [err|]] eqn:Hset; [done|].
  assert (refreshed d1) as Hd1 by (intros x Hx; apply Hd; congruence).
  eapply update_refreshes in Hset as (d2 & Hon2 & Hd2 & E2); [|exact Hon1|done|exact El|done].
  apply IH with (d := d2) in H as (F1 & F2 & F3); [|by destruct Hon2|done]. cbn in F1, F2. rewrite E2, E1 in F1, F2. split_and!; [done| |done].
  etrans; [exact F2|]. apply delete_subseteq.
Qed.

Lemma markTenantDead_refreshes now ds v d v' : on b v d -> refreshed d -> markTenantDead now ds v = (v', None) -> refreshes v v'.
Proof using HT HTne Hb.
  revert v d. induction ds as [|[key dead] ds IH]; intros v d Hon Hd H; cbn [markTenantDead] in H; [simplify_eq; split_and!; eauto|].
  set (v0 := set_tv_Global v _) in H. assert (on b v0 d) as Hon0 by (by destruct Hon).
  destruct (viewReceipt_on b Hb v0 d key Hon0) as (v1 & Hr & E1 & _ & d1 & Hon1 & P1). rewrite Hr in H.
  assert (refreshed d1) as Hd1 by (intros x Hx; apply Hd; congruence).
  destruct (latestReceipt (ld_records b) _) as [r|] eqn:El.
  - destruct (viewSetReceipt v1 now _) as [v2 [err|]] eqn:Hset; [done|].
    eapply update_refreshes in Hset as (d2 & Hon2 & Hd2 & E2); [|exact Hon1|done|exact El|done].
    apply IH with (d := d2) in H as (F1 & F2 & F3); [|done|done]. rewrite E2, E1 in F1, F2. by split_and!.
  - apply IH with (d := d1) in H as (F1 & F2 & F3); [|done|done]. rewrite E1 in F1, F2. by split_and!.
Qed.

Lemma evict_refreshes keys v d : on b v d -> refreshed d -> refreshes v (foldl evictTenantKey v keys).
Proof using Hb.
  revert v d. induction keys as [|key keys IH]; intros v d Hon Hd; cbn [foldl]; [split_and!; eauto|].
  unfold evictTenantKey at 2. destruct (viewReceipt_on b Hb v d key Hon) as (v1 & Hr & E1 & _ & d1 & Hon1 & P1). rewrite Hr.
  assert (refreshed d1) as Hd1 by (intros x Hx; apply Hd; congruence).
  assert (refreshes v1 (foldl evictTenantKey v1 keys)) as Hplain by (by eapply IH).
  case_match; [|unfold refreshes in Hplain; by rewrite E1 in Hplain]. case_bool_decide; [|unfold refreshes in Hplain; by rewrite E1 in Hplain].
  set (w := set_tv_Events v1 _). assert (hd_Streams (tv_Hot w) = hd_Streams (tv_Hot v)) as W1 by (unfold w; cbn; by rewrite E1).
  assert (hd_Events (tv_Hot w) ⊆ hd_Events (tv_Hot v)) as W2 by (unfold w; cbn; rewrite E1; apply delete_subseteq).
  destruct (IH w d1) as (F1 & F2 & F3); [by destruct Hon1|done|]. split_and!; [congruence|by etrans|done].
Qed.

Lemma archive_refreshes now keys es ds v d v' : on b v d -> refreshed d -> archiveTenantClosure T now keys es ds v = (v', None) -> refreshes v v'.
Proof using HT HTne Hb.
  intros Hon Hd H. unfold archiveTenantClosure in H. destruct (evict_refreshes keys v d Hon Hd) as (E1 & E2 & d1 & Hon1 & Hd1).
  destruct (markTenantArchived _ _ _ _) as [v2 [err|]] eqn:H2; [done|]. eapply markTenantArchived_refreshes in H2 as (F1 & F2 & d2 & Hon2 & Hd2); [|exact Hon1|done].
  destruct (markTenantDead _ _ _) as [v3 [err|]] eqn:H3; [done|]. eapply markTenantDead_refreshes in H3 as (G1 & G2 & d3 & Hon3 & Hd3); [|exact Hon2|done].
  simplify_eq. unfold refreshes. cbn. split_and!; [congruence|by etrans; [exact G2|etrans]|]. exists d3. split; [by destruct Hon3|done].
Qed.

Lemma transition_refreshes eventID status evict now v d v' r' : on b v d -> refreshed d ->
  (is_Some (hd_Events (tv_Hot v) !! EventKey T eventID) -> is_Some (latestReceipt (ld_records b) (EventKey T eventID))) ->
  transitionTenantClosure T eventID status evict now v = (v', Ok r') -> refreshes v v'.
Proof using HT HTne Hb.
  intros Hon Hd Hhas H. unfold transitionTenantClosure in H.
  destruct (viewReceipt_on b Hb v d (EventKey T eventID) Hon) as (v1 & Hr & E1 & _ & d1 & Hon1 & P1). rewrite Hr in H. rewrite E1 in H.
  assert (refreshed d1) as Hd1 by (intros x Hx; apply Hd; congruence).
  destruct (latestReceipt (ld_records b) _) as [r|] eqn:El.
  - set (v2 := if evict then _ else _) in H. destruct (viewSetReceipt v2 now _) as [v3 [err|]] eqn:Hset; [done|]. injection H as <- _.
    assert (on b v2 d1) as Hon2 by (unfold v2; destruct evict; by destruct Hon1).
    eapply update_refreshes in Hset as (d2 & Hon3 & Hd2 & E2); [|exact Hon2|done|exact El|by destruct evict].
    unfold refreshes. rewrite E2. split_and!; [|unfold v2; destruct evict; cbn; [apply delete_subseteq|by rewrite E1]|eauto].
    unfold v2. destruct evict; cbn; by rewrite E1.
  - destruct (hd_Events (tv_Hot v) !! _) eqn:Ee; [destruct Hhas as [? ?]; [by eexists|done]|done].
Qed.

(** ** Seals *)

(** Segments and checkpoints leave the receipts alone. *)
Lemma other_inv hot rs ps : (forall r, r ∈ ps -> lr_RecordType r <> LedgerReceipt) ->
  (forall r sid m, r ∈ ps -> lr_RecordType r = LedgerSegment -> lr_Key r = segmentKeyAt T sid m ->
     exists s, hd_Streams hot !! StreamKey T sid = Some s /\ m < firstPending s) ->
  tenant_inv T hot rs -> tenant_inv T hot (rs ++ ps).
Proof using Type.
  intros Hps Hseg [I1 I2 I3 I4]. assert (forall k, latestReceipt (rs ++ ps) k = latestReceipt rs k) as Hl by (intros k; by apply latestReceipt_app_other).
  assert (forall sid n h, at_coord T rs sid n h -> at_coord T (rs ++ ps) sid n h) as Hc.
  { intros sid n h (k & r & Hr & H). exists k, r. by rewrite Hl. }
  split.
  - intros sid s Hs. destruct (I1 sid s Hs) as (E1 & E2 & []). split_and!; [done..|]. split; eauto.
    intros i key h Hk Hh. destruct (si_pending0 i key h Hk Hh) as (r & Hr & H). exists r. by rewrite Hl.
  - intros k r. rewrite Hl. apply I2.
  - intros k k' r r'. rewrite !Hl. apply I3.
  - intros r sid m [Hr|Hr]%elem_of_app; [by apply I4|by apply Hseg].
Qed.

Lemma cleared_inv hot rs s sid : tenant_inv T hot rs -> hd_Streams hot !! StreamKey T sid = Some s ->
  tenant_inv T (mkhotDoc (hd_Events hot) (<[StreamKey T sid := clearPendingHashes s]> (hd_Streams hot))) rs.
Proof using Type.
  intros [I1 I2 I3 I4] Hs. destruct (I1 sid s Hs) as (E1 & E2 & Hi). pose proof Hi as []. unfold firstPending in *. split; cbn [hd_Streams]; [| |done|].
  - intros sid' x [[<-%StreamKey_inj_r <-]|[_ Hx]]%lookup_insert_Some; [|by apply I1]. split_and!; [done..|].
    split; unfold firstPending in *; cbn in *; try done; lia.
  - intros k r Hr. destruct (I2 k r Hr) as (H1 & x & Hx & Hlt). split; [done|].
    destruct (decide (rc_StreamID r = sid)) as [Eq|Hne]; [rewrite Eq in *|exists x; rewrite lookup_insert_ne; [done|intros ?%StreamKey_inj_r; congruence]].
    rewrite lookup_insert_eq. exists (clearPendingHashes s). split; [done|]. cbn. by assert (x = s) as -> by congruence.
  - intros r sid' m Hr Hty Hk. destruct (I4 r sid' m Hr Hty Hk) as (x & Hx & Hm).
    destruct (decide (sid' = sid)) as [->|Hne]; [|exists x; rewrite lookup_insert_ne; [done|intros ?%StreamKey_inj_r; congruence]].
    rewrite lookup_insert_eq. exists (clearPendingHashes s). split; [done|]. unfold firstPending. cbn. assert (x = s) as -> by congruence. lia.
Qed.

Definition seal_state (v : TenantView) (d : LedgerData) : Prop :=
  on b v d /\ (forall r, r ∈ ld_pending d -> lr_RecordType r <> LedgerReceipt) /\ well_keyed (hd_Streams (tv_Hot v)) /\
  tenant_inv T (tv_Hot v) (ld_records b) /\
  (forall r sid m, r ∈ ld_pending d -> lr_RecordType r = LedgerSegment -> lr_Key r = segmentKeyAt T sid m ->
     exists s, hd_Streams (tv_Hot v) !! StreamKey T sid = Some s /\ m < firstPending s).

Lemma sealStreams_inv now newID keys v d v' :
  seal_state v d -> (forall k s, k ∈ keys -> hd_Streams (tv_Hot v) !! k = Some s -> ss_TenantID s = T /\ ss_PendingHashes s <> []) -> NoDup keys ->
  sealStreams now newID keys v = (v', None) -> hd_Events (tv_Hot v') = hd_Events (tv_Hot v) /\ exists d', seal_state v' d'.
Proof using HT Hb.
  revert v d. induction keys as [|key keys IH]; intros v d Hst Hkeys Hnd H; cbn [sealStreams] in H; [simplify_eq; eauto|].
  apply NoDup_cons in Hnd as [Hnot Hnd]. destruct (hd_Streams (tv_Hot v) !! key) as [s|] eqn:Hs.
  2: { eapply IH; [done| |done|done]. intros k x Hk. apply Hkeys. by right. }
  destruct (Hkeys key s ltac:(left) Hs) as [Ets Hne]. destruct Hst as (Hon & Hps & Hkeyed & Hinv & Hseg). pose proof (Hkeyed _ _ Hs) as Ekey. rewrite Ets in Ekey.
  destruct (sealSegment s now _) as [[sg cp]|] eqn:Hseal; [|done]. destruct (sealSegment_fields _ _ _ _ _ Hseal) as (Ek & _ & _ & Esid). rewrite Ets in Ek.
  destruct (viewAppendSegment v now sg) as [v1 [err|]] eqn:H1; [done|]. apply (segment_buffered b v d) in H1 as (E1 & _ & d1 & Hon1 & P1); [|done..].
  destruct (viewAppendCheckpoint v1 now cp) as [v2 [err|]] eqn:H2; [done|]. apply (checkpoint_buffered b v1 d1) in H2 as (E2 & _ & d2 & Hon2 & P2); [|done..].
  set (w := set_tv_Streams v2 _) in H. assert (hd_Streams (tv_Hot w) = <[key := clearPendingHashes s]> (hd_Streams (tv_Hot v))) as Ew by (unfold w; cbn; by rewrite E2, E1).
  assert (hd_Events (tv_Hot w) = hd_Events (tv_Hot v)) as Ee by (unfold w; cbn; by rewrite E2, E1).
  rewrite <- Ee. eapply (IH w d2); [|intros k x Hk; rewrite Ew, lookup_insert_ne by congruence; apply Hkeys; by right|done|done].
  assert (forall r, r ∈ ld_pending d2 -> r ∈ ld_pending d \/ r = segmentRecord b now sg \/ lr_RecordType r = LedgerCheckpoint) as Hnew.
  { intros r [[Hr|Hr]%P1|Hr]%P2; auto. }
  split; [by destruct Hon2|]. split; [|split; [|split]].
  - intros r [Hr|[->|Hr]]%Hnew; [by apply Hps|done|by rewrite Hr].
  - rewrite Ew. intros k x [[<- <-]|[_ Hx]]%lookup_insert_Some; [by rewrite Ekey; cbn; rewrite Ets|by apply Hkeyed].
  - replace (tv_Hot w) with (mkhotDoc (hd_Events (tv_Hot v)) (<[StreamKey T (ss_StreamID s) := clearPendingHashes s]> (hd_Streams (tv_Hot v))))
      by (rewrite <- Ee, <- Ekey, <- Ew; by destruct (tv_Hot w)).
    apply cleared_inv; [done|by rewrite <- Ekey].
  - rewrite Ew, Ekey. intros r sid m Hr Hty Hk. destruct (Hnew r Hr) as [Hr'|[->|Hr']]; [| |by rewrite Hty in Hr'].
    + destruct (Hseg r sid m Hr' Hty Hk) as (x & Hx & Hm).
      destruct (decide (sid = ss_StreamID s)) as [->|Hd]; [|exists x; rewrite lookup_insert_ne; [done|intros ?%StreamKey_inj_r; congruence]].
      rewrite lookup_insert_eq. exists (clearPendingHashes s). split; [done|]. rewrite <- Ekey in Hx. assert (x = s) as -> by congruence. unfold firstPending in *. cbn. lia.
    + cbn in Hk. rewrite Ek in Hk. apply segmentKeyAt_inj in Hk as [<- <-]. rewrite lookup_insert_eq. exists (clearPendingHashes s). split; [done|].
      unfold firstPending. cbn. destruct (ss_PendingHashes s); [done|]. cbn. lia.
Qed.

End workers.

(** ** The invariant of a tenant's documents *)

Definition documents_ok (T : string) (hot : hotDoc) (rs : list LedgerRecord) : Prop :=
  tenant_inv T hot rs /\ well_keyed (hd_Streams hot) /\
  forall k, is_Some (hd_Events hot !! k) -> is_Some (latestReceipt rs k).

(** The tenant operations of the service with the commit order each uses. *)
Inductive operation {signer : Signer} {crypto : FieldCrypto} {archive : ArchiveReader} (legacyDigest : Event -> result string)
    (T : string) (rs : list LedgerRecord) : CommitOrder -> (TenantView -> TenantView * option error) -> Prop :=
  | op_ingest size publish confirmed now hint client cid e digest :
      Stream e <> "" -> cid <> "" -> (forall r, r ∈ rs -> lr_RecordType r = LedgerCheckpoint -> lr_Key r <> cid) ->
      operation legacyDigest T rs HotFirst
        (as_update (ingestTenantClosure legacyDigest size publish confirmed now hint client T cid e digest))
  | op_transition eventID status evict now :
      operation legacyDigest T rs (transitionOrder evict)
        (fun v => let '(v, r) := transitionTenantClosure T eventID status evict now v in (v, match r with Ok _ => None | Err e => Some e end))
  | op_seal now newID : operation legacyDigest T rs ColdFirst (sealPendingTenantClosure T now newID)
  | op_archive now keys es ds : operation legacyDigest T rs ColdFirst (archiveTenantClosure T now keys es ds).

Section operations.
Context {signer : Signer} {crypto : FieldCrypto} {archive : ArchiveReader} (legacyDigest : Event -> result string).

Lemma operation_api T rs order fn : operation legacyDigest T rs order fn -> uses_ledger_api fn.
Proof using Type.
  intros []; [apply ingest_uses_ledger_api| |apply seal_uses_ledger_api|apply archive_uses_ledger_api].
  intros v. unfold transitionTenantClosure. pose proof (viewReceipt_reaches v (EventKey T eventID)) as H1. destruct (viewReceipt _ _) as [v1 stored].
  cbn [fst] in H1. destruct (match stored with Some _ => _ | None => _ end) as [r|]; [|exact H1].
  match goal with |- context [viewSetReceipt ?w ?n ?x] => pose proof (viewSetReceipt_reaches w n x) as H2; destruct (viewSetReceipt w n x) as [v3 []] end;
    cbn [fst] in *; destruct evict; exact (reaches_trans _ _ _ H1 H2).
Qed.

(** A refreshed view keeps the documents in order. *)
Lemma refreshes_documents b T v v' : base_ok b -> ld_tenantID b = T -> documents_ok T (tv_Hot v) (ld_records b) -> refreshes b v v' ->
  documents_ok T (tv_Hot v') (ld_records b ++ pendingRecords (tv_Ledger v')).
Proof using Type.
  intros Hb HT (Hinv & Hkeyed & Hhot) (Es & Ee & d & Hon & Hd). destruct Hon as [-> Hv]. change (pendingRecords (view b d)) with (ld_pending d). split_and!.
  - by eapply refreshed_inv.
  - by rewrite Es.
  - intros k [e He]. eapply lookup_weaken in He; [|exact Ee]. destruct (Hhot k ltac:(by eexists)) as [r Hr].
    pose proof (latest_refreshed b (ld_pending d) k Hd) as H. rewrite Hr in H. destruct H as (rc & Hrc & _). by eexists.
Qed.

Lemma operation_documents b T order fn v v' : base_ok b -> ld_tenantID b = T -> T <> "" -> operation legacyDigest T (ld_records b) order fn ->
  tv_Ledger v = newTenantLedgerView (TL b None) -> documents_ok T (tv_Hot v) (ld_records b) -> fn v = (v', None) ->
  documents_ok T (tv_Hot v') (ld_records b ++ pendingRecords (tv_Ledger v')).
Proof using Type.
  intros Hb HT HTne Hop Hl Hdoc Hfn. pose proof (on_fresh b v Hb Hl) as Hon. set (d0 := emptyData _ _ _) in Hon.
  assert (refreshed b d0) as Hd0 by (intros x Hx; inversion Hx).
  assert (refreshes b v v' -> documents_ok T (tv_Hot v') (ld_records b ++ pendingRecords (tv_Ledger v'))) as Href by (by apply refreshes_documents).
  pose proof Hdoc as (Hinv & Hkeyed & Hhot). destruct Hop as [size publish confirmed now hint client cid e digest Hsid Hcid Hcids|eventID status evict now|now newID|now keys es ds].
  - unfold as_update in Hfn. destruct (ingestTenantClosure _ _ _ _ _ _ _ _ _ _ _ _) as [v1 o] eqn:Hcl. injection Hfn as -> He. rewrite <- HT in Hcl.
    eapply (ingestTenantClosure_on legacyDigest b) in Hcl as [(Eh & Eb & _)|(Hnh & Hnone & e' & s & Hch & Hcom & _)]; [| |done|exact Hon|done|by rewrite HT| |done].
    + by rewrite Eh, Eb, app_nil_r.
    + rewrite HT in *. split_and!; [by eapply commit_inv| |].
      * edestruct (commit_streams b T) as (s1 & -> & _ & E1 & E2 & _); eauto.
        intros k x [[<- <-]|[_ Hx]]%lookup_insert_Some; [by rewrite E1, E2|by apply Hkeyed].
      * intros k Hk. erewrite grown_receipts by eauto. destruct (decide (k = _)) as [->|Hne]; [by eexists|]. apply Hhot.
        assert (ev_EventID e' = ev_EventID e) as Eid by (destruct Hch as [(h & -> & _)%chainEvent_inv _]; done).
        destruct Hcom; cbn in Hk; rewrite lookup_insert_ne in Hk by (rewrite HT, Eid; congruence); exact Hk.
    + intros e' s Hch. rewrite HT in Hch. destruct (streamOf_inv b T _ e Hinv Hsid) as (_ & _ & _ & Hlk).
      destruct (commit_facts b T _ e e' s Hinv Hsid Hch) as (h & _ & _ & _ & Et & Es & _ & _ & _ & _ & Ef & _).
      split_and!; [done|done|]. intros r Hr Hty Hk. rewrite Et, Es in Hk. fold (firstPending s) in Hk. fold (segmentKeyAt T (Stream e) (firstPending s)) in Hk.
      destruct (ti_segments _ _ _ Hinv _ _ _ Hr Hty Hk) as (x & Hx & Hm). destruct Hlk as [Hlk|[Hlk _]]; [|congruence].
      assert (x = streamOf (tv_Hot v) T e) as -> by congruence. lia.
  - destruct (transitionTenantClosure _ _ _ _ _ _) as [v1 [r|]] eqn:Ht; simplify_eq. apply Href. eapply transition_refreshes; eauto.
  - unfold sealPendingTenantClosure in Hfn. eapply (sealStreams_inv b T HT Hb) with (d := d0) in Hfn as (Ee & d' & Hon' & Hps & Hk' & Hinv' & Hseg').
    + destruct Hon' as [El Hv']. rewrite El. change (pendingRecords (view b d')) with (ld_pending d'). split_and!; [by apply other_inv|done|].
      intros k. rewrite Ee, latestReceipt_app_other by done. apply Hhot.
    + split; [done|]. split; [intros r Hr; inversion Hr|]. split; [done|]. split; [done|]. intros r sid m Hr. inversion Hr.
    + intros k s Hk Hs. unfold sealableKeys in Hk. rewrite sort_strings_perm in Hk. apply list_elem_of_In, filter_In in Hk as [_ Hk]. rewrite Hs in Hk. bool_prop. done.
    + unfold sealableKeys. rewrite sort_strings_perm. apply NoDup_ListNoDup, List.NoDup_filter, NoDup_ListNoDup, NoDup_fst_map_to_list.
  - apply Href. eapply archive_refreshes; eauto.
Qed.

(** C20: every tenant operation of the service - ingest, receipt transition,
    seal and archive pass - keeps the tenant's documents in order when its
    commit succeeds: streams filed under their keys, their heads, pending
    events and predecessors backed by committed receipts at unique
    coordinates, no segment key of the future taken, and every hot event with
    its receipt.  This is the state the recovery validator relies on. *)
Theorem operations_keep_documents f s s' T order fn :
  sp_durable s = true -> T <> "" -> loadTenantState (sp_disk s) T = Ok (tenantStateOf s T) ->
  let st := tenantStateOf s T in
  documents_ok T (ts_hot st) (committedRecords (ts_ledger st)) ->
  operation legacyDigest T (committedRecords (ts_ledger st)) order fn ->
  updateTenant f s T order fn = (s', None) ->
  let st' := tenantStateOf s' T in
  documents_ok T (ts_hot st') (committedRecords (ts_ledger st')) /\ loadTenantState (sp_disk s') T = Ok st'.
Proof using Type.
  intros Hdur HTne Hsync st Hdoc Hop Hupd st'. unfold st, st' in *. clear st st'. pose proof (operation_api _ _ _ _ Hop) as Hapi.
  destruct (updateTenant_cases _ _ _ _ _ _ _ Hdur Hapi Hsync Hupd) as
    [_ [[[? ?] _]|(_ & global & view & b & b' & Hfn & _ & Hled & Hc & Htb & Hload & Hfile & Hacc & Hb' & [Hdone|[[? ?] _]])]]; [done| |done].
  edestruct (completed_reload T b b') as [Hl Hst]; eauto. rewrite Hl, Hst. split; [|done]. change (documents_ok T (tv_Hot view) (ld_records b')).
  destruct (grown T b b' _ Hc Htb Hacc Hb') as (_ & Hr' & _). rewrite Hr'.
  assert (committedRecords (ts_ledger (tenantStateOf s T)) = ld_records b) as E by (by rewrite Hled). rewrite E in *.
  eapply (operation_documents b T order fn (view_of s T global)); [apply Hc|done|done|done| |done|done]. unfold view_of. cbn. by rewrite Hled.
Qed.

End operations.

(** ** A concrete run *)

Local Transparent HashBytes hashText hashValue merkleRoot EventContentDigest.

Lemma empty_documents T : documents_ok T emptyTenantHot [].
Proof. split_and!; [apply tenant_inv_empty|by intros k s H|by intros k [e He]]. Qed.

Definition ingestFirst : TenantView -> TenantView * option error :=
  as_update (ingestTenantClosure (signer := runSigner) (crypto := plainCrypto) (archive := runArchive) EventContentDigest
    2 true (fun _ => Ok false) 5 "t1" "c1" "t1" "cp1" runEvent (ev_SourceDigest runEvent)).

Lemma operations_keep_documents_witness :
  let s' := (updateTenant no_faults sealStart "t1" HotFirst ingestFirst).1 in
  let st' := tenantStateOf s' "t1" in
  documents_ok "t1" (ts_hot st') (committedRecords (ts_ledger st')) /\ loadTenantState (sp_disk s') "t1" = Ok st'.
Proof.
  apply (operations_keep_documents (signer := runSigner) (crypto := plainCrypto) (archive := runArchive) EventContentDigest
    no_faults sealStart (updateTenant no_faults sealStart "t1" HotFirst ingestFirst).1 "t1" HotFirst ingestFirst).
  - reflexivity.
  - discriminate.
  - vm_compute. reflexivity.
  - exact (empty_documents "t1").
  - apply op_ingest; [vm_compute; discriminate|discriminate|intros r Hr; inversion Hr].
  - vm_compute. reflexivity.
Defined.

End TenantWorkers.
