(* ===== verification/Gate.v ===== *)
(** * The per-event publication gate

    [internal/service/ledgered_gate.go]: post-ledger publication is serialized
    per pending event by a table of reference-counted mutexes.  The model keeps
    the atomicity of the source: [ledgeredGateFor] and [unrefLedgeredKey] run
    under [ledgeredGatesMu] and are one step each, [TryLock] and [Unlock] are
    one step each, and any publisher may run between two steps of another.

    A publisher is a program counter.  [gateStep] is the step function of one
    publisher, [gateReach] the reachable states of any number of publishers
    under every schedule.  [None] is a crash: a nil gate dereferenced, or
    [Unlock] of an unlocked mutex. *)

From stdpp Require Import gmap strings list numbers.
From S2P Require Import Prelude.
Open Scope Z_scope.

Module Gate.

(** [ledgeredKeyGate]: the mutex and the reference count. *)
Record ledgeredKeyGate := { gate_mu : bool; gate_refs : Z }.

(** Where one publisher stands: outside, holding a reference before [TryLock],
    inside the publication, after a failed [TryLock], after [Unlock]. *)
Inductive publisher :=
  | Outside
  | Referenced (key : string) (gate : nat)
  | Publishing (key : string) (gate : nat)
  | Refused (key : string) (gate : nat)
  | Unlocked (key : string) (gate : nat).

(** The gate fields of [Service], the heap of gates (a [*ledgeredKeyGate] is
    an index, [gateNext] the next fresh one) and the publishers. *)
Record gateState := {
  ledgeredGates : gmap string nat;
  gateHeap : gmap nat ledgeredKeyGate;
  gateNext : nat;
  publishers : list publisher
}.

Definition setGates (t : gmap string nat) (h : gmap nat ledgeredKeyGate) (n : nat)
    (s : gateState) : gateState :=
  {| ledgeredGates := t; gateHeap := h; gateNext := n; publishers := publishers s |}.

Definition setPublisher (i : nat) (p : publisher) (s : gateState) : gateState :=
  {| ledgeredGates := ledgeredGates s; gateHeap := gateHeap s; gateNext := gateNext s;
     publishers := <[i := p]> (publishers s) |}.

(** [ledgeredGateFor]: look the gate up, create it when missing, reference it. *)
Definition ledgeredGateFor (key : string) (s : gateState) : option (gateState * nat) :=
  match ledgeredGates s !! key with
  | Some g =>
      match gateHeap s !! g with
      | Some gate =>
          Some (setGates (ledgeredGates s)
                  (<[g := {| gate_mu := gate_mu gate; gate_refs := gate_refs gate + 1 |}]> (gateHeap s))
                  (gateNext s) s, g)
      | None => None
      end
  | None =>
      let g := gateNext s in
      Some (setGates (<[key := g]> (ledgeredGates s))
              (<[g := {| gate_mu := false; gate_refs := 0 + 1 |}]> (gateHeap s)) (S g) s, g)
  end.

(** [unrefLedgeredKey]: drop one reference, delete the entry with the last. *)
Definition unrefLedgeredKey (key : string) (g : nat) (s : gateState) : option gateState :=
  match gateHeap s !! g with
  | None => None
  | Some gate =>
      let refs := gate_refs gate - 1 in
      Some (setGates (if refs <=? 0 then delete key (ledgeredGates s) else ledgeredGates s)
              (<[g := {| gate_mu := gate_mu gate; gate_refs := refs |}]> (gateHeap s))
              (gateNext s) s)
  end.

(** [sync.Mutex.TryLock] and [sync.Mutex.Unlock] of one gate. *)
Definition tryLock (g : nat) (s : gateState) : option (gateState * bool) :=
  match gateHeap s !! g with
  | None => None
  | Some gate =>
      if gate_mu gate then Some (s, false)
      else Some (setGates (ledgeredGates s)
                   (<[g := {| gate_mu := true; gate_refs := gate_refs gate |}]> (gateHeap s))
                   (gateNext s) s, true)
  end.

Definition unlock (g : nat) (s : gateState) : option gateState :=
  match gateHeap s !! g with
  | Some {| gate_mu := true; gate_refs := r |} =>
      Some (setGates (ledgeredGates s) (<[g := {| gate_mu := false; gate_refs := r |}]> (gateHeap s))
              (gateNext s) s)
  | _ => None
  end.

(** [tryAcquireLedgeredKey] and [releaseLedgeredKey] run without interruption. *)
Definition tryAcquireLedgeredKey (key : string) (s : gateState) : option (gateState * option nat) :=
  '(s1, g) ← ledgeredGateFor key s;
  '(s2, ok) ← tryLock g s1;
  if (ok : bool) then Some (s2, Some g)
  else s3 ← unrefLedgeredKey key g s2; Some (s3, None).

Definition releaseLedgeredKey (key : string) (gate : option nat) (s : gateState) : option gateState :=
  match gate with
  | None => Some s
  | Some g => s1 ← unlock g s; unrefLedgeredKey key g s1
  end.

(** One step of publisher [i]; [key] is the event it turns to when outside.
    The statements are those of the two functions above, in their order. *)
Definition gateStep (i : nat) (key : string) (s : gateState) : option gateState :=
  match publishers s !! i with
  | None => None
  | Some Outside => '(s', g) ← ledgeredGateFor key s; Some (setPublisher i (Referenced key g) s')
  | Some (Referenced k g) =>
      '(s', ok) ← tryLock g s;
      Some (setPublisher i (if (ok : bool) then Publishing k g else Refused k g) s')
  | Some (Publishing k g) => s' ← unlock g s; Some (setPublisher i (Unlocked k g) s')
  | Some (Refused k g) | Some (Unlocked k g) =>
      s' ← unrefLedgeredKey k g s; Some (setPublisher i Outside s')
  end.

Definition gateInit (n : nat) : gateState :=
  {| ledgeredGates := ∅; gateHeap := ∅; gateNext := 0%nat; publishers := replicate n Outside |}.

Inductive gateReach (n : nat) : gateState → Prop :=
  | reach_init : gateReach n (gateInit n)
  | reach_step s i key s' : gateReach n s → gateStep i key s = Some s' → gateReach n s'.

(** ** Counting publishers *)

Definition holds (p : publisher) : option (string * nat) :=
  match p with
  | Outside => None
  | Referenced k g | Publishing k g | Refused k g | Unlocked k g => Some (k, g)
  end.

Definition referencing (g : nat) (p : publisher) : bool :=
  match holds p with Some (_, g') => bool_decide (g = g') | None => false end.

Definition publishingOn (g : nat) (p : publisher) : bool :=
  match p with Publishing _ g' => bool_decide (g = g') | _ => false end.

Fixpoint countb (f : publisher → bool) (l : list publisher) : Z :=
  match l with [] => 0 | p :: l' => Z.b2z (f p) + countb f l' end.

Section Counting.
Context (f : publisher → bool).

Lemma countb_nonneg l : 0 <= countb f l.
Proof. induction l as [|p l IH]; simpl; [lia|]. destruct (f p); simpl; lia. Qed.

Lemma countb_insert l i old new :
  l !! i = Some old →
  countb f (<[i := new]> l) = countb f l - Z.b2z (f old) + Z.b2z (f new).
Proof.
  revert i. induction l as [|p l IH]; intros [|i] H; simplify_eq/=; [lia|].
  rewrite (IH _ H). lia.
Qed.

Lemma countb_pos l i p : l !! i = Some p → f p = true → 0 < countb f l.
Proof.
  revert i. induction l as [|q l IH]; intros [|i] H Hp; simplify_eq/=.
  - rewrite Hp. pose proof (countb_nonneg l). simpl. lia.
  - specialize (IH _ H Hp). destruct (f q); simpl; lia.
Qed.

Lemma countb_two l i j p q :
  l !! i = Some p → l !! j = Some q → f p = true → f q = true → i ≠ j → 2 <= countb f l.
Proof.
  revert i j. induction l as [|r l IH]; intros [|i] [|j] Hi Hj Hp Hq Hne; simplify_eq/=.
  - rewrite Hp. pose proof (countb_pos _ _ _ Hj Hq). simpl. lia.
  - rewrite Hq. pose proof (countb_pos _ _ _ Hi Hp). simpl. lia.
  - specialize (IH _ _ Hi Hj Hp Hq ltac:(lia)). destruct (f r); simpl; lia.
Qed.

Lemma countb_zero l : (∀ p, p ∈ l → f p = false) → countb f l = 0.
Proof.
  induction l as [|p l IH]; intros H; simpl; [done|].
  rewrite (H p) by apply elem_of_cons, or_introl, eq_refl.
  rewrite IH; [done|]. intros q Hq. apply H, elem_of_cons. by right.
Qed.
End Counting.

(** ** The invariant *)

Record gate_inv (s : gateState) : Prop := {
  gi_held : ∀ i p k g, publishers s !! i = Some p → holds p = Some (k, g) →
    ledgeredGates s !! k = Some g;
  gi_gate : ∀ k g, ledgeredGates s !! k = Some g → ∃ gate, gateHeap s !! g = Some gate ∧
    gate_refs gate = countb (referencing g) (publishers s) ∧ 0 < gate_refs gate ∧
    Z.b2z (gate_mu gate) = countb (publishingOn g) (publishers s);
  gi_inj : ∀ k k' g, ledgeredGates s !! k = Some g → ledgeredGates s !! k' = Some g → k = k';
  gi_fresh : ∀ g, (gateNext s <= g)%nat → gateHeap s !! g = None
}.

Lemma gate_inv_init n : gate_inv (gateInit n).
Proof.
  split; simpl; try done.
  intros i p k g Hp. apply lookup_replicate in Hp as [-> _]. done.
Qed.

(** A gate that the table does not know has no publisher. *)
Lemma unreferenced s g :
  gate_inv s → (∀ k, ledgeredGates s !! k ≠ Some g) →
  countb (referencing g) (publishers s) = 0 ∧ countb (publishingOn g) (publishers s) = 0.
Proof.
  intros Hinv Hno.
  assert (∀ p k g', p ∈ publishers s → holds p = Some (k, g') → g ≠ g') as Hp.
  { intros p k g' [i Hi]%list_elem_of_lookup Hh ->. by eapply Hno, gi_held. }
  split; apply countb_zero; intros p Hin; specialize (Hp p);
    unfold referencing, publishingOn; destruct p; simpl in *; try done;
    apply bool_decide_eq_false; eauto.
Qed.

(** What a step may do to the counts: publisher [i] moves from [old] to [new]. *)
Lemma count_move f s i old new t h n :
  publishers s !! i = Some old →
  countb f (publishers (setPublisher i new (setGates t h n s))) =
  countb f (publishers s) - Z.b2z (f old) + Z.b2z (f new).
Proof. apply countb_insert. Qed.

Lemma ref_Some k g p : holds p = Some (k, g) → referencing g p = true.
Proof. unfold referencing. intros ->. by apply bool_decide_eq_true. Qed.

Lemma ref_other k g g' p : holds p = Some (k, g) → g' ≠ g → referencing g' p = false.
Proof. unfold referencing. intros -> ?. by apply bool_decide_eq_false. Qed.

Lemma pub_other k g g' p : holds p = Some (k, g) → g' ≠ g → publishingOn g' p = false.
Proof. destruct p; simpl; intros; simplify_eq; try done. by apply bool_decide_eq_false. Qed.

(** Publisher [i] keeps its reference to gate [g] and changes only the mutex. *)
Lemma gate_inv_mutex s i old new k g gate b :
  gate_inv s → publishers s !! i = Some old → holds old = Some (k, g) → holds new = Some (k, g) →
  gateHeap s !! g = Some gate →
  Z.b2z b = Z.b2z (gate_mu gate) - Z.b2z (publishingOn g old) + Z.b2z (publishingOn g new) →
  gate_inv (setPublisher i new (setGates (ledgeredGates s)
    (<[g := {| gate_mu := b; gate_refs := gate_refs gate |}]> (gateHeap s)) (gateNext s) s)).
Proof.
  intros Hinv Hi Ho Hn Hg Hb. split.
  - simpl. intros j p k' g' [(-> & <- & _)|(? & Hj)]%list_lookup_insert_Some Hh.
    + rewrite Hn in Hh. simplify_eq. by eapply gi_held.
    + by eapply gi_held.
  - intros k' g' Hk. simpl in Hk. destruct (gi_gate _ Hinv _ _ Hk) as (gate' & Hg' & Hr & Hpos & Hm).
    rewrite !(count_move _ _ _ old) by done. cbn [gateHeap setPublisher setGates].
    destruct (decide (g' = g)) as [->|Hne].
    + exists {| gate_mu := b; gate_refs := gate_refs gate |}. rewrite lookup_insert_eq.
      simplify_eq. simpl. rewrite !(ref_Some k g) by done. split_and!; try done; lia.
    + exists gate'. rewrite lookup_insert_ne by done.
      rewrite !(ref_other k g g'), !(pub_other k g g') by done. split_and!; try done; simpl; lia.
  - simpl. apply (gi_inj _ Hinv).
  - simpl. intros g' Hle. rewrite lookup_insert_ne; [by apply (gi_fresh _ Hinv)|].
    intros <-. by rewrite (gi_fresh _ Hinv) in Hg.
Qed.

(** [ledgeredGateFor] by publisher [i], for a key with a gate and without. *)
Lemma gate_inv_join s i key g gate :
  gate_inv s → publishers s !! i = Some Outside →
  ledgeredGates s !! key = Some g → gateHeap s !! g = Some gate →
  gate_inv (setPublisher i (Referenced key g) (setGates (ledgeredGates s)
    (<[g := {| gate_mu := gate_mu gate; gate_refs := gate_refs gate + 1 |}]> (gateHeap s))
    (gateNext s) s)).
Proof.
  intros Hinv Hi Hk Hg. split.
  - simpl. intros j p k' g' [(-> & <- & _)|(? & Hj)]%list_lookup_insert_Some Hh.
    + simpl in Hh. by simplify_eq.
    + by eapply gi_held.
  - intros k' g' Hk'. simpl in Hk'.
    destruct (gi_gate _ Hinv _ _ Hk') as (gate' & Hg' & Hr & Hpos & Hm).
    rewrite !(count_move _ _ _ Outside) by done. cbn [gateHeap setPublisher setGates].
    destruct (decide (g' = g)) as [->|Hne].
    + eexists. rewrite lookup_insert_eq. split; [done|]. simplify_eq. simpl.
      rewrite (ref_Some key g (Referenced key g)) by done. simpl. lia.
    + exists gate'. rewrite lookup_insert_ne by done.
      rewrite (ref_other key g g' (Referenced _ _)) by done. simpl. split_and!; try done; lia.
  - simpl. apply (gi_inj _ Hinv).
  - simpl. intros g' Hle. rewrite lookup_insert_ne; [by apply (gi_fresh _ Hinv)|].
    intros <-. by rewrite (gi_fresh _ Hinv) in Hg.
Qed.

Lemma gate_inv_create s i key :
  gate_inv s → publishers s !! i = Some Outside → ledgeredGates s !! key = None →
  gate_inv (setPublisher i (Referenced key (gateNext s))
    (setGates (<[key := gateNext s]> (ledgeredGates s))
      (<[gateNext s := {| gate_mu := false; gate_refs := 0 + 1 |}]> (gateHeap s))
      (S (gateNext s)) s)).
Proof.
  intros Hinv Hi Hk.
  assert (∀ k, ledgeredGates s !! k ≠ Some (gateNext s)) as Hnew.
  { intros k Hk'. destruct (gi_gate _ Hinv _ _ Hk') as (gate & Hg & _).
    by rewrite (gi_fresh _ Hinv) in Hg. }
  split.
  - simpl. intros j p k' g' [(-> & <- & _)|(? & Hj)]%list_lookup_insert_Some Hh.
    + simpl in Hh. simplify_eq. apply lookup_insert_eq.
    + rewrite lookup_insert_ne; [by eapply gi_held|]. intros <-.
      by rewrite (gi_held _ Hinv _ _ _ _ Hj Hh) in Hk.
  - intros k' g'. rewrite !(count_move _ _ _ Outside) by done.
    cbn [gateHeap ledgeredGates setPublisher setGates].
    intros [[<- <-]|[Hne Hk']]%lookup_insert_Some.
    + eexists. rewrite lookup_insert_eq. split; [done|].
      destruct (unreferenced _ _ Hinv Hnew) as [-> ->].
      rewrite (ref_Some key (gateNext s) (Referenced key (gateNext s))) by done. simpl. lia.
    + destruct (gi_gate _ Hinv _ _ Hk') as (gate & Hg & Hr & Hpos & Hm).
      assert (g' ≠ gateNext s) by (intros ->; by eapply Hnew).
      exists gate. rewrite lookup_insert_ne by done.
      rewrite (ref_other key (gateNext s) g' (Referenced _ _)) by done.
      simpl. split_and!; try done; lia.
  - simpl. intros k k' g [[Ek Eg]|[_ Hk1]]%lookup_insert_Some [[Ek' Eg']|[_ Hk2]]%lookup_insert_Some.
    + congruence.
    + subst g. by destruct (Hnew k').
    + subst g. by destruct (Hnew k).
    + by eapply gi_inj.
  - simpl. intros g' Hle. rewrite lookup_insert_ne by lia. apply (gi_fresh _ Hinv). lia.
Qed.

(** [unrefLedgeredKey] by a publisher that does not publish. *)
Lemma gate_inv_unref s i old k g gate :
  gate_inv s → publishers s !! i = Some old → holds old = Some (k, g) →
  publishingOn g old = false → gateHeap s !! g = Some gate →
  gate_inv (setPublisher i Outside (setGates
    (if gate_refs gate - 1 <=? 0 then delete k (ledgeredGates s) else ledgeredGates s)
    (<[g := {| gate_mu := gate_mu gate; gate_refs := gate_refs gate - 1 |}]> (gateHeap s))
    (gateNext s) s)).
Proof.
  intros Hinv Hi Ho Hq Hg.
  pose proof (gi_held _ Hinv _ _ _ _ Hi Ho) as Hk.
  destruct (gi_gate _ Hinv _ _ Hk) as (gate0 & Hg0 & Hr & Hpos & Hm).
  rewrite Hg in Hg0. injection Hg0 as <-.
  set (t := if gate_refs gate - 1 <=? 0 then _ else _).
  assert (Hsub : ∀ k' g', t !! k' = Some g' →
    ledgeredGates s !! k' = Some g' ∧ (g' = g → 1 < gate_refs gate)).
  { subst t. intros k' g' Hk'. destruct (Z.leb_spec (gate_refs gate - 1) 0).
    - apply lookup_delete_Some in Hk' as [Hne Hk']. split; [done|]. intros ->.
      destruct Hne. by eapply gi_inj.
    - split; [done|]. lia. }
  split.
  - simpl. intros j p k' g' [(-> & <- & _)|(Hne & Hj)]%list_lookup_insert_Some Hh; [done|].
    pose proof (gi_held _ Hinv _ _ _ _ Hj Hh) as Hk'.
    subst t. destruct (Z.leb_spec (gate_refs gate - 1) 0); [|done].
    rewrite lookup_delete_ne; [done|]. intros <-.
    rewrite Hk in Hk'. injection Hk' as <-.
    pose proof (countb_two (referencing g) _ i j _ _ Hi Hj
      (ref_Some _ _ _ Ho) (ref_Some _ _ _ Hh) ltac:(done)). lia.
  - intros k' g'. rewrite !(count_move _ _ _ old) by done.
    cbn [gateHeap ledgeredGates setPublisher setGates]. intros Hk'.
    destruct (Hsub _ _ Hk') as [Hk0 Hlast].
    destruct (gi_gate _ Hinv _ _ Hk0) as (gate' & Hg' & Hr' & Hpos' & Hm').
    destruct (decide (g' = g)) as [->|Hne].
    + eexists. rewrite lookup_insert_eq. split; [done|]. simplify_eq. specialize (Hlast eq_refl).
      simpl. rewrite (ref_Some k g old), Hq by done. simpl. lia.
    + exists gate'. rewrite lookup_insert_ne by done.
      rewrite (ref_other k g g' old), (pub_other k g g' old) by done. simpl. split_and!; try done; lia.
  - simpl. intros k1 k2 g' [H1 _]%Hsub [H2 _]%Hsub. by eapply gi_inj.
  - simpl. intros g' Hle. rewrite lookup_insert_ne; [by apply (gi_fresh _ Hinv)|].
    intros <-. by rewrite (gi_fresh _ Hinv) in Hg.
Qed.

Lemma setGates_same s g gate :
  gateHeap s !! g = Some gate →
  setGates (ledgeredGates s) (<[g := gate]> (gateHeap s)) (gateNext s) s = s.
Proof. intros H. destruct s. unfold setGates. simpl in *. by rewrite insert_id. Qed.

(** Every step keeps the invariant. *)
Lemma gate_inv_step s i key s' : gate_inv s → gateStep i key s = Some s' → gate_inv s'.
Proof.
  intros Hinv. unfold gateStep. destruct (publishers s !! i) as [p|] eqn:Hi; [|done].
  unfold ledgeredGateFor, tryLock, unlock, unrefLedgeredKey.
  destruct p as [|k g|k g|k g|k g]; simpl.
  - destruct (ledgeredGates s !! key) as [g|] eqn:Hk.
    + destruct (gateHeap s !! g) as [gate|] eqn:Hg; intros [= <-]; by apply gate_inv_join.
    + intros [= <-]. by apply gate_inv_create.
  - destruct (gateHeap s !! g) as [[b r]|] eqn:Hg; [|done].
    destruct b; simpl; intros [= <-].
    + rewrite <- (setGates_same s g _ Hg).
      eapply (gate_inv_mutex s i (Referenced k g) (Refused k g) k g _ true) in Hg; done.
    + eapply (gate_inv_mutex s i (Referenced k g) (Publishing k g) k g _ true) in Hg; try done.
      simpl. by rewrite bool_decide_eq_true_2.
  - destruct (gateHeap s !! g) as [[b r]|] eqn:Hg; [|done].
    destruct b; simpl; intros [= <-].
    eapply (gate_inv_mutex s i (Publishing k g) (Unlocked k g) k g _ false) in Hg; try done.
    simpl. by rewrite bool_decide_eq_true_2.
  - destruct (gateHeap s !! g) as [gate|] eqn:Hg; intros [= <-]. by eapply gate_inv_unref.
  - destruct (gateHeap s !! g) as [gate|] eqn:Hg; intros [= <-]. by eapply gate_inv_unref.
Qed.

Lemma gate_inv_reach n s : gateReach n s → gate_inv s.
Proof. induction 1; [apply gate_inv_init|by eapply gate_inv_step]. Qed.

(** ** What the gate guarantees *)

Lemma publishing_unique s i j k g g' :
  gate_inv s → publishers s !! i = Some (Publishing k g) →
  publishers s !! j = Some (Publishing k g') → i = j.
Proof.
  intros Hinv Hi Hj. destruct (decide (i = j)) as [|Hne]; [done|].
  pose proof (gi_held _ Hinv _ _ _ _ Hi eq_refl) as Hk.
  pose proof (gi_held _ Hinv _ _ _ _ Hj eq_refl) as Hk'.
  rewrite Hk in Hk'. injection Hk' as <-.
  destruct (gi_gate _ Hinv _ _ Hk) as (gate & _ & _ & _ & Hm).
  pose proof (countb_two (publishingOn g) _ i j _ _ Hi Hj
    (bool_decide_eq_true_2 _ eq_refl) (bool_decide_eq_true_2 _ eq_refl) Hne).
  destruct (gate_mu gate); simpl in Hm; lia.
Qed.

Lemma gate_step_total s i p key :
  gate_inv s → publishers s !! i = Some p → is_Some (gateStep i key s).
Proof.
  intros Hinv Hi. unfold gateStep. rewrite Hi.
  assert (Hheap : ∀ k g, ledgeredGates s !! k = Some g → is_Some (gateHeap s !! g)).
  { intros k g Hk. destruct (gi_gate _ Hinv _ _ Hk) as (? & -> & _). eauto. }
  pose proof (λ k g, gi_held _ Hinv i p k g) as Hheld.
  unfold ledgeredGateFor, tryLock, unlock, unrefLedgeredKey.
  destruct p as [|k g|k g|k g|k g]; simpl.
  - destruct (ledgeredGates s !! key) as [g|] eqn:Hk; [|eauto].
    destruct (Hheap _ _ Hk) as [? ->]. eauto.
  - destruct (Hheap k g) as [[[] r] ->]; [by eapply Hheld|simpl; eauto..].
  - destruct (gi_gate _ Hinv k g) as ([b r] & -> & _ & _ & Hm); [by eapply Hheld|].
    pose proof (countb_pos (publishingOn g) _ _ _ Hi (bool_decide_eq_true_2 _ eq_refl)).
    destruct b; simpl in *; [eauto|lia].
  - destruct (Hheap k g) as [? ->]; [by eapply Hheld|simpl; eauto].
  - destruct (Hheap k g) as [? ->]; [by eapply Hheld|simpl; eauto].
Qed.

Lemma countb_exists f l : 0 < countb f l → ∃ i p, l !! i = Some p ∧ f p = true.
Proof.
  induction l as [|p l IH]; simpl; [lia|]. destruct (f p) eqn:Hp; simpl.
  - intros _. by exists 0%nat, p.
  - intros (i & q & ? & ?)%IH. by exists (S i), q.
Qed.

Lemma table_referenced s k g :
  gate_inv s → ledgeredGates s !! k = Some g →
  ∃ i p, publishers s !! i = Some p ∧ holds p = Some (k, g).
Proof.
  intros Hinv Hk. destruct (gi_gate _ Hinv _ _ Hk) as (gate & _ & Hr & Hpos & _).
  destruct (countb_exists (referencing g) (publishers s)) as (i & p & Hi & Hp); [lia|].
  exists i, p. split; [done|]. unfold referencing in Hp.
  destruct (holds p) as [[k' g']|] eqn:Hh; [|done]. apply bool_decide_eq_true in Hp as ->.
  pose proof (gi_held _ Hinv _ _ _ _ Hi Hh) as Hk'. by rewrite (gi_inj _ Hinv _ _ _ Hk Hk').
Qed.

(** The two functions are uninterrupted runs of the steps of one publisher. *)
Fixpoint gateRun (steps : nat) (i : nat) (key : string) (s : gateState) : option gateState :=
  match steps with
  | O => Some s
  | S n => s' ← gateStep i key s; gateRun n i key s'
  end.

Lemma acquire_is_run s i key s' r :
  publishers s !! i = Some Outside → tryAcquireLedgeredKey key s = Some (s', r) →
  match r with
  | Some g => gateRun 2 i key s = Some (setPublisher i (Publishing key g) s')
  | None => gateRun 3 i key s = Some (setPublisher i Outside s')
  end.
Proof.
  intros Hi H. pose proof (lookup_lt_Some _ _ _ Hi) as Hlt.
  unfold tryAcquireLedgeredKey in H.
  destruct (ledgeredGateFor key s) as [[s1 g]|] eqn:H1; simplify_eq/=.
  assert (publishers s1 = publishers s) as Hp1.
  { unfold ledgeredGateFor in H1. repeat case_match; by simplify_eq. }
  assert (gateStep i key s = Some (setPublisher i (Referenced key g) s1)) as E1.
  { unfold gateStep. by rewrite Hi, H1. }
  destruct (gateHeap s1 !! g) as [gate|] eqn:Hg; unfold tryLock in H; rewrite Hg in H; [|done].
  assert (gateStep i key (setPublisher i (Referenced key g) s1) =
    '(s', ok) ← tryLock g (setPublisher i (Referenced key g) s1);
    Some (setPublisher i (if (ok : bool) then Publishing key g else Refused key g) s')) as E2.
  { unfold gateStep. simpl. by rewrite Hp1, list_lookup_insert_eq by done. }
  unfold tryLock in E2. cbn [gateHeap setPublisher] in E2. rewrite Hg in E2.
  destruct (gate_mu gate); simplify_eq/=.
  - unfold unrefLedgeredKey in H. rewrite Hg in H. simplify_eq/=.
    rewrite E1. simpl. rewrite E2. simpl.
    unfold gateStep. simpl. rewrite Hp1, list_lookup_insert_eq by by rewrite length_insert.
    unfold unrefLedgeredKey. simpl. rewrite Hg. simpl. unfold setPublisher, setGates. simpl.
    by rewrite !list_insert_insert_eq, Hp1.
  - rewrite E1. simpl. rewrite E2. simpl. unfold setPublisher, setGates. simpl.
    by rewrite !list_insert_insert_eq, Hp1.
Qed.

Lemma release_is_run s i key g s' :
  publishers s !! i = Some (Publishing key g) → releaseLedgeredKey key (Some g) s = Some s' →
  gateRun 2 i key s = Some (setPublisher i Outside s').
Proof.
  intros Hi H. pose proof (lookup_lt_Some _ _ _ Hi) as Hlt.
  unfold releaseLedgeredKey, unlock in H.
  destruct (gateHeap s !! g) as [[[] refs]|] eqn:Hg; simplify_eq/=.
  assert (gateStep i key s = Some (setPublisher i (Unlocked key g)
    (setGates (ledgeredGates s) (<[g := {| gate_mu := false; gate_refs := refs |}]> (gateHeap s))
      (gateNext s) s))) as ->.
  { unfold gateStep. rewrite Hi. unfold unlock. by rewrite Hg. }
  unfold gateStep. simpl. rewrite list_lookup_insert_eq by done.
  unfold unrefLedgeredKey in *. simpl in *. rewrite lookup_insert_eq in *. simplify_eq/=.
  unfold setPublisher, setGates. simpl. by rewrite !list_insert_insert_eq.
Qed.

(** C12: the gate serializes publication.  In every state that any number of
    publishers can reach under any schedule of [ledgeredGateFor], [TryLock],
    [Unlock] and [unrefLedgeredKey], two publishers inside the publication of
    the same event key are the same publisher; no step of a publisher crashes
    or waits (it always has a successor state, so no nil gate is used and no
    unlocked mutex is unlocked); and every entry of the table is referenced by
    a publisher in flight, so the table is empty when none is. *)
Theorem gate_serializes (n : nat) (s : gateState) :
  gateReach n s →
  (∀ i j k g g', publishers s !! i = Some (Publishing k g) →
     publishers s !! j = Some (Publishing k g') → i = j) ∧
  (∀ i p key, publishers s !! i = Some p → is_Some (gateStep i key s)) ∧
  (∀ k g, ledgeredGates s !! k = Some g →
     ∃ i p, publishers s !! i = Some p ∧ holds p = Some (k, g)).
Proof.
  intros Hinv%gate_inv_reach. split_and!.
  - intros i j k g g'. by apply publishing_unique.
  - intros i p key. by apply gate_step_total.
  - intros k g. by apply table_referenced.
Qed.

(** Two publishers race for one key: the second is refused while the first
    publishes, and the table is empty when both have left. *)
Definition raceRun : option gateState :=
  s ← gateRun 2 0 "t:e" (gateInit 2);
  gateRun 2 1 "t:e" s.

Lemma gate_serializes_witness :
  ∃ s, raceRun = Some s ∧ publishers s = [Publishing "t:e" 0%nat; Refused "t:e" 0%nat] ∧
    (∀ i j k g g', publishers s !! i = Some (Publishing k g) →
       publishers s !! j = Some (Publishing k g') → i = j) ∧
    (∀ i p key, publishers s !! i = Some p → is_Some (gateStep i key s)) ∧
    (∀ k g, ledgeredGates s !! k = Some g →
       ∃ i p, publishers s !! i = Some p ∧ holds p = Some (k, g)).
Proof.
  eexists. split; [vm_compute; reflexivity|]. split; [reflexivity|].
  apply (gate_serializes 2).
  eapply (reach_step _ _ 1 "t:e");
    [eapply (reach_step _ _ 1 "t:e");
      [eapply (reach_step _ _ 0 "t:e");
        [eapply (reach_step _ _ 0 "t:e"); [apply reach_init|vm_compute; reflexivity]
        |vm_compute; reflexivity]
      |vm_compute; reflexivity]
    |vm_compute; reflexivity].
Defined.

End Gate.
