(* ===== verification/Publication.v ===== *)
(** * Publication of ledgered events (internal/store/publication.go,
    internal/service/ledgered.go, ledgered_reconcile.go)

    An ingest leaves a publication intent in the control document's
    LedgeredOutbox.  The request path and the background flush deliver the
    event to the broker, then record a confirmation bound to its ledger
    coordinates, then clear the intent; the reconciler re-creates intents that
    were lost.  Every store call, every file write and the broker may fail,
    also after their effect, and other publishers may act between any two of
    those calls: the runs below carry the answers of the calls and what the
    environment does between them.

    Confirmations are files under [publications/] when the store is durable
    and a map in memory otherwise; a file is the value it decodes to, or
    garbage that json.Unmarshal refuses. *)

From Stdlib Require Import Ascii String.
From S2P Require Import Prelude GoStr Sha256 Signer KeyCodec Domain Canonical Keys Ledger Store SplitStore Evidence Integrity TenantIngest.
Open Scope string_scope.
Open Scope Z_scope.
Import Domain Canonical Keys Ledger Store SplitStore Sha256 Signer Evidence Integrity TenantIngest.

Module Publication.

(** ** store/publication.go *)

Record publicationConfirmation : Type := mkpublication {
  pb_TenantID : string;
  pb_EventID : string;
  pb_StreamID : string;
  pb_Sequence : Z;
  pb_Hash : string;
  pb_ConfirmedAt : time
}.

#[export] Instance publicationConfirmation_eq_dec : EqDecision publicationConfirmation.
Proof. solve_decision. Defined.

Definition publicationFromReceipt (r : EventReceipt) : publicationConfirmation :=
  mkpublication (rc_TenantID r) (rc_EventID r) (rc_StreamID r) (rc_Sequence r) (rc_Hash r) 0.

Definition valid (p : publicationConfirmation) : result unit :=
  guard_err (negb (bool_decide (pb_TenantID p = "") || bool_decide (pb_EventID p = "") || bool_decide (pb_StreamID p = "")
                   || (pb_Sequence p <=? 0) || bool_decide (pb_Hash p = "")))
    (invalid "publication requires ledger coordinates") ;?
  ValidTenantID (pb_TenantID p) ;?
  ValidKeyComponent (pb_EventID p) ;?
  ValidKeyComponent (pb_StreamID p).

Definition matches (p other : publicationConfirmation) : bool :=
  bool_decide (pb_TenantID p = pb_TenantID other) && bool_decide (pb_EventID p = pb_EventID other) &&
  bool_decide (pb_StreamID p = pb_StreamID other) && (pb_Sequence p =? pb_Sequence other) &&
  bool_decide (pb_Hash p = pb_Hash other).

Definition checkedPublication (p : publicationConfirmation) : result publicationConfirmation :=
  if is_ok (valid p) && negb (time_IsZero (pb_ConfirmedAt p)) then Ok p
  else Err (Sentinel ErrPublicationCorrupt).

Inductive publicationFile : Type :=
  | Encoded (p : publicationConfirmation)
  | Garbage.

Record publications : Type := mkpublications {
  pu_files : gmap string publicationFile;
  pu_memory : gmap string publicationConfirmation
}.

(** hotcold_files.go *)
Definition tenantFileName (tenantID : string) : string :=
  let encoded := KeyCodec.EncodeKeyComponent tenantID in
  if (String.length encoded + 9 <=? 255)%nat then encoded
  else "sha256-" ++ HashBytes tenantID.

Definition publicationPath (p : publicationConfirmation) : string :=
  let name := HashBytes (pb_EventID p) in
  "publications/" ++ tenantFileName (pb_TenantID p) ++ "/" ++ String.substring 0 2 name ++ "/" ++ name ++ ".json".

(** The answers of the calls of one confirmation operation. *)
Record pubFaults : Type := mkpubFaults {
  pf_ctx : option error;        (** ctx.Err() under the lock *)
  pf_ctx_read : option error;   (** ctx.Err() in readPublication *)
  pf_read : option error;       (** ReadDataFile of an existing file *)
  pf_sync_read : option error;  (** SyncDirChain after a read *)
  pf_write : write_outcome;     (** writeDurableFile *)
  pf_sync : option error        (** SyncDirChain after a write *)
}.
Definition no_pubFaults : pubFaults := mkpubFaults None None None None WriteOk None.

Definition readPublication (durable : bool) (f : pubFaults) (ps : publications) (want : publicationConfirmation)
    : result (option publicationConfirmation) :=
  match pf_ctx_read f with
  | Some e => Err e
  | None =>
      if durable then
        match pu_files ps !! publicationPath want with
        | None => Ok None
        | Some file =>
            match pf_read f with
            | Some e => Err e
            | None =>
                match file with
                | Garbage => Err (Sentinel ErrPublicationCorrupt)
                | Encoded p =>
                    let? p := checkedPublication p in
                    match pf_sync_read f with
                    | Some e => Err e
                    | None => Ok (Some p)
                    end
                end
            end
        end
      else Ok (pu_memory ps !! EventKey (pb_TenantID want) (pb_EventID want))
  end.

Definition set_file (ps : publications) (path : string) (p : publicationConfirmation) : publications :=
  mkpublications (<[path := Encoded p]> (pu_files ps)) (pu_memory ps).

Definition ConfirmPublication (durable : bool) (f : pubFaults) (now : time) (ps : publications) (e : Event)
    : publications * option error :=
  let confirmation := publicationFromReceipt (receiptFromEvent e) in
  match valid confirmation with
  | Err err => (ps, Some err)
  | Ok _ =>
      match pf_ctx f with
      | Some err => (ps, Some err)
      | None =>
          let confirmation := mkpublication (pb_TenantID confirmation) (pb_EventID confirmation)
            (pb_StreamID confirmation) (pb_Sequence confirmation) (pb_Hash confirmation) now in
          match readPublication durable f ps confirmation with
          | Err err => (ps, Some err)
          | Ok (Some existing) =>
              (ps, if matches existing confirmation then None else Some (Sentinel ErrPublicationConflict))
          | Ok None =>
              if durable then
                match pf_write f with
                | WriteOk => (set_file ps (publicationPath confirmation) confirmation, pf_sync f)
                | WriteFails true err => (set_file ps (publicationPath confirmation) confirmation, Some err)
                | WriteFails false err => (ps, Some err)
                end
              else
                (mkpublications (pu_files ps)
                   (<[EventKey (pb_TenantID confirmation) (pb_EventID confirmation) := confirmation]> (pu_memory ps)),
                 None)
          end
      end
  end.

Definition publicationConfirmed (durable : bool) (f : pubFaults) (ps : publications) (r : EventReceipt) : result bool :=
  let want := publicationFromReceipt r in
  valid want ;?
  let? got := readPublication durable f ps want in
  match got with
  | None => Ok false
  | Some got => if matches got want then Ok true else Err (Sentinel ErrPublicationConflict)
  end.

(** The callback of a tenant view. *)
Definition tenantPublicationConfirmed (durable : bool) (f : pubFaults) (ps : publications) (tenantID : string)
    (r : EventReceipt) : result bool :=
  guard_err (bool_decide (rc_TenantID r = tenantID)) (invalid "publication tenant mismatch") ;?
  publicationConfirmed durable f ps r.

(** ** service/ledgered.go: the feed *)

Definition u64 (z : Z) : Z := z mod 2 ^ 64.

(** The publication counters of the Service (atomic uint64s). *)
Record counters : Type := mkcounters {
  ct_requestAcks : Z;
  ct_failures : Z;
  ct_successes : Z;
  ct_deferrals : Z;
  ct_scanned : Z;
  ct_evidenceFailures : Z;
  ct_reconcileErrors : Z;
  ct_repairs : Z
}.

(** The store, the confirmations, what the broker has delivered, the counters
    and the outbox gauge. *)
Record feed : Type := mkfeed {
  fd_store : splitStore;
  fd_publications : publications;
  fd_delivered : list Event;
  fd_counters : counters;
  fd_pending : Z;
  fd_sampled : bool
}.

Definition with_store (w : feed) (s : splitStore) : feed :=
  mkfeed s (fd_publications w) (fd_delivered w) (fd_counters w) (fd_pending w) (fd_sampled w).
Definition with_publications (w : feed) (ps : publications) : feed :=
  mkfeed (fd_store w) ps (fd_delivered w) (fd_counters w) (fd_pending w) (fd_sampled w).
Definition deliver (w : feed) (e : Event) : feed :=
  mkfeed (fd_store w) (fd_publications w) (fd_delivered w ++ [e])%list (fd_counters w) (fd_pending w) (fd_sampled w).
Definition with_counters (w : feed) (c : counters) : feed :=
  mkfeed (fd_store w) (fd_publications w) (fd_delivered w) c (fd_pending w) (fd_sampled w).
Definition sample (w : feed) (pending : Z) : feed :=
  mkfeed (fd_store w) (fd_publications w) (fd_delivered w) (fd_counters w) pending true.

Definition count (w : feed) (acks failures successes deferrals : Z) : feed :=
  let c := fd_counters w in
  with_counters w (mkcounters (u64 (ct_requestAcks c + acks)) (u64 (ct_failures c + failures))
    (u64 (ct_successes c + successes)) (u64 (ct_deferrals c + deferrals))
    (ct_scanned c) (ct_evidenceFailures c) (ct_reconcileErrors c) (ct_repairs c)).
Definition countReconcile (w : feed) (scanned evidenceFailures errors repairs : Z) : feed :=
  let c := fd_counters w in
  with_counters w (mkcounters (ct_requestAcks c) (ct_failures c) (ct_successes c) (ct_deferrals c)
    (u64 (ct_scanned c + scanned)) (u64 (ct_evidenceFailures c + evidenceFailures))
    (u64 (ct_reconcileErrors c + errors)) (u64 (ct_repairs c + repairs))).
Definition fd_requestAcks (w : feed) : Z := ct_requestAcks (fd_counters w).

Definition outbox (w : feed) : gmap string Event := sn_LedgeredOutbox (sp_control (fd_store w)).
Definition durable (w : feed) : bool := sp_durable (fd_store w).
Definition eventKey (e : Event) : string := EventKey (ev_TenantID e) (ev_EventID e).

(** The broker may deliver an event and still answer with an error. *)
Inductive brokerAnswer : Type :=
  | Accepted
  | BrokerError (delivered : bool) (e : error).

(** One publication attempt: the answers of its calls, and the environment
    before the delivery, before the confirmation and before the cleanup. *)
Record attempt : Type := mkattempt {
  at_busy : bool;                (** the gate is taken *)
  at_clone : option error;
  at_broker : brokerAnswer;
  at_now : time;
  at_confirm : pubFaults;
  at_clear : faults;
  at_env_publish : feed -> feed;
  at_env_confirm : feed -> feed;
  at_env_clear : feed -> feed
}.

Definition publishLedgeredNow (a : attempt) (w : feed) (e : Event) : feed * bool :=
  match at_clone a with
  | Some _ => (count w 0 1 0 0, false)
  | None =>
      match at_broker a with
      | BrokerError true _ => (count (deliver w e) 0 1 0 0, false)
      | BrokerError false _ => (count w 0 1 0 0, false)
      | Accepted => (deliver w e, true)
      end
  end.

Definition clearLedgeredIntent (a : attempt) (w : feed) (e : Event) : feed * option error :=
  let '(s, err) := updateControl (at_clear a) (fd_store w) (fun data =>
    Ok (set_sn_LedgeredOutbox data (delete (eventKey e) (sn_LedgeredOutbox data)))) in
  (with_store w s, err).

Definition ackLedgered (a : attempt) (w : feed) (e : Event) : feed * option error :=
  let '(ps, err) := ConfirmPublication (durable w) (at_confirm a) (at_now a) (fd_publications w) e in
  let w := with_publications w ps in
  match err with
  | Some err => (w, Some err)
  | None => clearLedgeredIntent a (at_env_clear a w) e
  end.

(** [configured]: a LedgeredPublisher is set. *)
Definition publishLedgered (configured : bool) (a : attempt) (w : feed) (e : Event) : feed :=
  if negb configured then w
  else if at_busy a then count w 0 0 0 1
  else
    match publishLedgeredNow a (at_env_publish a w) e with
    | (w, false) => w
    | (w, true) =>
        match ackLedgered a (at_env_confirm a w) e with
        | (w, Some _) => count w 0 1 0 0
        | (w, None) => count w 1 0 1 0
        end
    end.

Inductive ledgeredKeyOutcome : Type := ledgeredKeySkipped | ledgeredKeyPublished | ledgeredKeyFailed.

(** [readErr]: a read that the context or the backend refuses. *)
Definition ReadControl (readErr : option error) (s : splitStore) : result Snapshot :=
  match readErr with Some e => Err e | None => cloneControl (sp_control s) end.

Definition ledgeredOutboxBatchSize : Z := 100.

Definition pendingLedgeredOutbox (readErr : option error) (w : feed) : result (list string * gmap string Event) :=
  let? data := ReadControl readErr (fd_store w) in
  Ok (sort_strings (map_to_list (sn_LedgeredOutbox data)).*1, sn_LedgeredOutbox data).

Record ledgeredRevalidator : Type := mkrevalidator {
  rv_pending : gset string;
  rv_read : bool;
  rv_failed : bool
}.
Definition newRevalidator : ledgeredRevalidator := mkrevalidator ∅ false false.

Definition stillPending (readErr : option error) (w : feed) (r : ledgeredRevalidator) (key : string)
    : ledgeredRevalidator * bool :=
  let r :=
    if rv_read r then r
    else
      match ReadControl readErr (fd_store w) with
      | Err _ => mkrevalidator (rv_pending r) true true
      | Ok data => mkrevalidator (dom (sn_LedgeredOutbox data)) true (rv_failed r)
      end in
  (r, rv_failed r || bool_decide (key ∈ rv_pending r)).

(** One key of a flush round. *)
Record keyRun : Type := mkkeyRun {
  kr_ctx : option error;          (** ctx.Err() of the round's loop *)
  kr_env : feed -> feed;          (** before the gate is taken *)
  kr_revalidate : option error;   (** the revalidation read *)
  kr_env_check : feed -> feed;    (** before PublicationConfirmed *)
  kr_check : pubFaults;           (** PublicationConfirmed *)
  kr_attempt : attempt;
  kr_ctx_publish : option error   (** ctx.Err() after a failed publication *)
}.

Definition flushLedgeredKey (k : keyRun) (acksAtSnapshot : Z) (r : ledgeredRevalidator) (key : string) (e : Event)
    (w : feed) : feed * ledgeredRevalidator * result ledgeredKeyOutcome :=
  let a := kr_attempt k in
  if at_busy a then (w, r, Ok ledgeredKeySkipped)
  else
    let '(r, owed) :=
      if negb (fd_requestAcks w =? acksAtSnapshot) then stillPending (kr_revalidate k) w r key else (r, true) in
    if negb owed then (w, r, Ok ledgeredKeySkipped)
    else
      let w := kr_env_check k w in
      match publicationConfirmed (durable w) (kr_check k) (fd_publications w) (receiptFromEvent e) with
      | Err err => (count w 0 1 0 0, r, Err err)
      | Ok true =>
          match clearLedgeredIntent a (at_env_clear a w) e with
          | (w, Some err) => (count w 0 1 0 0, r, Err err)
          | (w, None) => (count w 0 0 1 0, r, Ok ledgeredKeySkipped)
          end
      | Ok false =>
          match publishLedgeredNow a (at_env_publish a w) e with
          | (w, false) =>
              (w, r, match kr_ctx_publish k with Some err => Err err | None => Ok ledgeredKeyFailed end)
          | (w, true) =>
              match ackLedgered a (at_env_confirm a w) e with
              | (w, Some err) => (count w 0 1 0 0, r, Err err)
              | (w, None) => (count w 0 0 1 0, r, Ok ledgeredKeyPublished)
              end
          end
      end.

(** The loop of a round: [runs i] is the run of its [i]-th key. *)
Fixpoint flushKeys (runs : nat -> keyRun) (i : nat) (acksAtSnapshot : Z) (events : gmap string Event)
    (r : ledgeredRevalidator) (keys : list string) (published : Z) (w : feed) : feed * Z * option error :=
  match keys with
  | [] => (w, published, None)
  | key :: keys =>
      let k := runs i in
      match kr_ctx k with
      | Some err => (w, published, Some err)
      | None =>
          match flushLedgeredKey k acksAtSnapshot r key (map_get zero_Event events key) (kr_env k w) with
          | (w, _, Err err) => (w, published, Some err)
          | (w, _, Ok ledgeredKeyFailed) => (w, published, None)
          | (w, r, Ok ledgeredKeyPublished) => flushKeys runs (S i) acksAtSnapshot events r keys (published + 1) w
          | (w, r, Ok ledgeredKeySkipped) => flushKeys runs (S i) acksAtSnapshot events r keys published w
          end
      end
  end.

Definition FlushLedgeredOutbox (configured contended : bool) (env : feed -> feed) (readErr : option error)
    (runs : nat -> keyRun) (limit : Z) (w : feed) : feed * Z * option error :=
  if negb configured then (w, 0, None)
  else
    let limit := if (limit <=? 0) || (ledgeredOutboxBatchSize <? limit) then ledgeredOutboxBatchSize else limit in
    if contended then (w, 0, None)
    else
      let acksAtSnapshot := fd_requestAcks w in
      let w := env w in
      match pendingLedgeredOutbox readErr w with
      | Err err => (w, 0, Some err)
      | Ok (keys, events) =>
          let w := sample w (Z.of_nat (length keys)) in
          flushKeys runs 0 acksAtSnapshot events newRevalidator (take (Z.to_nat limit) keys) 0 w
      end.

(** ** service/ledgered_reconcile.go *)

Section reconcile.
Context {signer : Signer} {crypto : FieldCrypto} {archive : ArchiveReader}.
Variable legacyDigest : Event -> result string.

Record LedgeredReconcileResult : Type := mkReconcileResult {
  rs_Scanned : Z;
  rs_Repaired : Z;
  rs_Failed : Z;
  rs_Next : LedgerPageCursor;
  rs_Done : bool
}.

Record publicationCandidate : Type := mkcandidate {
  cd_receipt : EventReceipt;
  cd_event : Event;
  cd_hot : bool;
  cd_schemas : gmap string EventSchema
}.

(** store/ledger_page.go, the split file store. *)
Definition ReadLedgerPage (ctxErr : option error) (s : splitStore) (tenantID : string) (cursor : LedgerPageCursor) (limit : Z)
    : result LedgerPage :=
  guard_err (validPageRequest tenantID cursor limit) (invalid "invalid ledger page scope or bounds") ;?
  ValidTenantID tenantID ;?
  match ctxErr with
  | Some e => Err e
  | None =>
      match sp_tenant s !! tenantID with
      | None => Ok (mkLedgerPage [] cursor true)
      | Some st => Ok (ledgerRecordsPage (committedRecords (ts_ledger st)) cursor limit)
      end
  end.

(** store/hotcold_commit.go readTenant: the view of one tenant; a missing
    tenant reads as a fresh one. *)
Definition tenantReadView (ctxErr : option error) (s : splitStore) (tenantID : string) : result TenantView :=
  match ctxErr with
  | Some e => Err e
  | None =>
      let st := default (freshTenant tenantID) (sp_tenant s !! tenantID) in
      let? global := cloneControl (sp_control s) in
      Ok (mkTenantView (ts_hot st) (newTenantLedgerView (ts_ledger st)) global)
  end.

(** An answer that condemns one confirmation, not the whole pass. *)
Definition confirmationFailure (e : error) : bool :=
  errors_Is e ErrPublicationConflict || errors_Is e ErrPublicationCorrupt || errors_Is e ErrInvalid.

(** The loop over the records of a page. *)
Fixpoint candidateLoop (confirmed : EventReceipt -> result bool) (records : list LedgerRecord) (seen : gset string)
    (candidates : list publicationCandidate) (failures : Z) (v : TenantView)
    : TenantView * (list publicationCandidate * Z * option error) :=
  match records with
  | [] => (v, (candidates, failures, None))
  | record :: records =>
      match lr_Receipt record with
      | None => candidateLoop confirmed records seen candidates failures v
      | Some _ =>
          let key := lr_Key record in
          if bool_decide (key ∈ seen) then candidateLoop confirmed records seen candidates failures v
          else
            let seen := {[key]} ∪ seen in
            match sn_LedgeredOutbox (tv_Global v) !! key with
            | Some _ => candidateLoop confirmed records seen candidates failures v
            | None =>
                match viewReceipt v key with
                | (v, None) =>
                    (v, (candidates, failures,
                         Some (default (NewErr "reconciliation receipt unavailable") (LedgerErr (tv_Ledger v)))))
                | (v, Some receipt) =>
                    match confirmed receipt with
                    | Err e =>
                        if confirmationFailure e then candidateLoop confirmed records seen candidates (failures + 1) v
                        else (v, (candidates, failures, Some e))
                    | Ok true => candidateLoop confirmed records seen candidates failures v
                    | Ok false =>
                        let event := hd_Events (tv_Hot v) !! key in
                        candidateLoop confirmed records seen
                          (candidates ++ [mkcandidate receipt (default zero_Event event)
                             (bool_decide (is_Some event)) (sn_Schemas (tv_Global v))])%list failures v
                    end
                end
            end
      end
  end.

Definition publicationCandidates (ctxErr : option error) (f : pubFaults) (w : feed) (tenantID : string)
    (records : list LedgerRecord) : list publicationCandidate * Z * option error :=
  match tenantReadView ctxErr (fd_store w) tenantID with
  | Err e => ([], 0, Some e)
  | Ok v =>
      match candidateLoop (tenantPublicationConfirmed (durable w) f (fd_publications w) tenantID) records ∅ [] 0 v with
      | (_, (candidates, failures, Some e)) => (candidates, failures, Some e)
      | (v, (candidates, failures, None)) => (candidates, failures, LedgerErr (tv_Ledger v))
      end
  end.

(** The evidence of one candidate, and the loop over all of them; [ctx i] is
    the context error before the [i]-th. *)
Definition candidateEvidence (c : publicationCandidate) : result Event :=
  let? event := if cd_hot c then Ok (cd_event c) else archivedEventContext (cd_receipt c) in
  validatePublicationEvent legacyDigest event (cd_receipt c) (cd_schemas c) ;? Ok event.

Fixpoint evidenceLoop (ctx : nat -> option error) (i : nat) (candidates : list publicationCandidate)
    (events : list Event) (failed : Z) : result (list Event) * Z :=
  match candidates with
  | [] => match ctx i with Some e => (Err e, failed) | None => (Ok events, failed) end
  | c :: candidates =>
      match ctx i with
      | Some e => (Err e, failed)
      | None =>
          match candidateEvidence c with
          | Err _ => evidenceLoop ctx (S i) candidates events (failed + 1)
          | Ok event => evidenceLoop ctx (S i) candidates (events ++ [event])%list failed
          end
      end
  end.

(** The update closure: the new outbox and the number of rows it added. *)
Definition repairRow (tenantID : string) (acc : gmap string Event * Z) (e : Event) : gmap string Event * Z :=
  let key := EventKey tenantID (ev_EventID e) in
  match acc.1 !! key with
  | Some _ => acc
  | None => (<[key := e]> acc.1, acc.2 + 1)
  end.
Definition repairRows (tenantID : string) (events : list Event) (rows : gmap string Event) : gmap string Event * Z :=
  foldl (repairRow tenantID) (rows, 0) events.

Record reconcileRun : Type := mkreconcileRun {
  rr_ctx_page : option error;
  rr_env_page : feed -> feed;
  rr_ctx_read : option error;
  rr_confirmed : pubFaults;
  rr_env_update : feed -> feed;
  rr_ctx : nat -> option error;
  rr_update : faults
}.

(** The body before the deferred counters: [passed] of the page is the scan. *)
Definition reconcilePass (rr : reconcileRun) (tenantID : string) (after : LedgerPageCursor) (limit : Z) (w : feed)
    : feed * LedgeredReconcileResult * option error :=
  let start := mkReconcileResult 0 0 0 after false in
  match requireTenantScope tenantID with
  | Err e => (w, start, Some e)
  | Ok _ =>
      match ReadLedgerPage (rr_ctx_page rr) (fd_store w) tenantID after limit with
      | Err e => (w, start, Some e)
      | Ok page =>
          let scanned := Z.of_nat (length (pg_Records page)) in
          let w := countReconcile w scanned 0 0 0 in
          if bool_decide (pg_Records page = []) then
            (w, mkReconcileResult scanned 0 0 (pg_Next page) (pg_Done page), None)
          else
            let w := rr_env_page rr w in
            match publicationCandidates (rr_ctx_read rr) (rr_confirmed rr) w tenantID (pg_Records page) with
            | (_, failures, Some e) => (w, mkReconcileResult scanned 0 failures after false, Some e)
            | (candidates, failures, None) =>
                match evidenceLoop (rr_ctx rr) 0 candidates [] failures with
                | (Err e, failed) => (w, mkReconcileResult scanned 0 failed after false, Some e)
                | (Ok [], failed) => (w, mkReconcileResult scanned 0 failed (pg_Next page) (pg_Done page), None)
                | (Ok events, failed) =>
                    let w := rr_env_update rr w in
                    let repaired := snd (repairRows tenantID events (outbox w)) in
                    match updateControl (rr_update rr) (fd_store w) (fun data =>
                            Ok (set_sn_LedgeredOutbox data (fst (repairRows tenantID events (sn_LedgeredOutbox data))))) with
                    | (s, Some e) => (with_store w s, mkReconcileResult scanned 0 failed after false, Some e)
                    | (s, None) =>
                        (countReconcile (with_store w s) 0 0 0 repaired,
                         mkReconcileResult scanned repaired failed (pg_Next page) (pg_Done page), None)
                    end
                end
            end
      end
  end.

Definition ReconcileLedgeredPublications (configured : bool) (rr : reconcileRun) (tenantID : string)
    (after : LedgerPageCursor) (limit : Z) (w : feed) : feed * LedgeredReconcileResult * option error :=
  if negb configured then (w, mkReconcileResult 0 0 0 after true, None)
  else
    let '(w, result, err) := reconcilePass rr tenantID after limit w in
    (countReconcile w 0 (rs_Failed result) (match err with Some _ => 1 | None => 0 end) 0, result, err).

End reconcile.

End Publication.
