(* ===== verification/PublicationDrain.v ===== *)
(** * A healthy flush round, tenant file names, and runs of the feed

    [healthy_flush_drains]: without faults a flush round delivers, confirms
    and clears the first [limit] intents in key order.  [tenantFileName] is
    injective while encodings are short, and not beyond that
    ([tenant_file_names_collide]).  The last section runs the feed through
    failures and a restart. *)

From Stdlib Require Import Ascii String.
From S2P Require Import Prelude GoStr Sha256 Signer KeyCodec Domain Canonical Keys Ledger LedgerFacts LedgerViews Store SplitStore Evidence Integrity ChainProps EvidenceSteps TenantIngest TenantRecovery TenantSeal Publication PublicationProps.
Open Scope string_scope.
Open Scope Z_scope.
Import Domain Canonical Keys Ledger LedgerFacts LedgerViews Store SplitStore Sha256 Signer Evidence Integrity ChainProps EvidenceSteps TenantIngest TenantRecovery TenantSeal Publication PublicationProps.

Module PublicationDrain.

Local Opaque HashBytes.

(** ** A round without faults *)

Definition healthyAttempt (now : time) : attempt :=
  mkattempt false None Accepted now no_pubFaults no_faults (fun w => w) (fun w => w) (fun w => w).
Definition healthyRun (now : time) : keyRun :=
  mkkeyRun None (fun w => w) None (fun w => w) no_pubFaults (healthyAttempt now) None.

Definition confirmationOf (e : Event) : publicationConfirmation := publicationFromReceipt (receiptFromEvent e).

Definition isConfirmed (w : feed) (e : Event) : Prop :=
  publicationConfirmed (durable w) no_pubFaults (fd_publications w) (receiptFromEvent e) = Ok true.

#[export] Instance isConfirmed_dec w e : Decision (isConfirmed w e).
Proof.
  unfold isConfirmed. destruct (publicationConfirmed _ _ _ _) as [[]|]; [by left|by right|by right].
Defined.

(** The stored confirmation of a row is missing or its own. *)
Definition confirmable (w : feed) (e : Event) : Prop :=
  match readPublication (durable w) no_pubFaults (fd_publications w) (confirmationOf e) with
  | Ok None => True
  | Ok (Some p) => coordinates p = coordinatesOf e
  | Err _ => False
  end.

(** What a round needs: encodable times, rows with valid coordinates under
    their own keys, at their own confirmation files. *)
Record ready (w : feed) : Prop := {
  rd_times : validateControlCloneTimes (sp_control (fd_store w)) = true;
  rd_acks : u64 (fd_requestAcks w) = fd_requestAcks w;
  rd_rows : forall k e, outbox w !! k = Some e ->
    eventKey e = k /\ valid (confirmationOf e) = Ok tt /\ confirmable w e;
  rd_paths : forall k k' e e', outbox w !! k = Some e -> outbox w !! k' = Some e' ->
    publicationPath (confirmationOf e) = publicationPath (confirmationOf e') -> k = k'
}.

Lemma valid_at p now : valid (mkpublication (pb_TenantID p) (pb_EventID p) (pb_StreamID p) (pb_Sequence p) (pb_Hash p) now) = valid p.
Proof. done. Qed.

Lemma confirmed_by_read w e p :
  valid (confirmationOf e) = Ok tt ->
  readPublication (durable w) no_pubFaults (fd_publications w) (confirmationOf e) = Ok (Some p) ->
  coordinates p = coordinatesOf e -> isConfirmed w e.
Proof.
  intros Hv Hr Hc. unfold isConfirmed, publicationConfirmed. fold (confirmationOf e). rewrite Hv. simpl.
  rewrite Hr. simpl. by rewrite (proj2 (matches_spec p (confirmationOf e)) Hc).
Qed.

Definition healthyConfirmation (now : time) (e : Event) : publicationConfirmation :=
  mkpublication (ev_TenantID e) (ev_EventID e) (ev_StreamID e) (ev_Sequence e) (ev_Hash e) now.

(** The confirmations after a healthy confirmation of a new event. *)
Definition confirmedStore (dur : bool) (now : time) (ps : publications) (e : Event) : publications :=
  if dur then set_file ps (publicationPath (confirmationOf e)) (healthyConfirmation now e)
  else mkpublications (pu_files ps) (<[eventKey e := healthyConfirmation now e]> (pu_memory ps)).

Lemma confirm_new w now e :
  valid (confirmationOf e) = Ok tt ->
  readPublication (durable w) no_pubFaults (fd_publications w) (confirmationOf e) = Ok None ->
  ConfirmPublication (durable w) no_pubFaults now (fd_publications w) e =
    (confirmedStore (durable w) now (fd_publications w) e, None).
Proof.
  intros Hv Hr. unfold ConfirmPublication. fold (confirmationOf e). rewrite Hv. simpl.
  change (readPublication (durable w) no_pubFaults (fd_publications w) _)
    with (readPublication (durable w) no_pubFaults (fd_publications w) (confirmationOf e)).
  rewrite Hr. by destruct (durable w).
Qed.

Lemma read_confirmedStore_eq dur now ps e :
  valid (confirmationOf e) = Ok tt -> now <> 0 ->
  readPublication dur no_pubFaults (confirmedStore dur now ps e) (confirmationOf e) = Ok (Some (healthyConfirmation now e)).
Proof.
  intros Hv Hnow. unfold readPublication, confirmedStore. simpl. destruct dur; simpl.
  - rewrite lookup_insert_eq. unfold checkedPublication.
    change (valid (healthyConfirmation now e)) with (valid (confirmationOf e)). rewrite Hv. simpl.
    unfold time_IsZero. simpl. by rewrite (proj2 (Z.eqb_neq _ _) Hnow).
  - by rewrite lookup_insert_eq.
Qed.

Lemma read_confirmedStore_ne dur now ps e e' :
  eventKey e' <> eventKey e -> publicationPath (confirmationOf e') <> publicationPath (confirmationOf e) ->
  readPublication dur no_pubFaults (confirmedStore dur now ps e) (confirmationOf e') =
  readPublication dur no_pubFaults ps (confirmationOf e').
Proof.
  intros Hk Hp. unfold readPublication, confirmedStore. simpl. destruct dur; simpl.
  - by rewrite lookup_insert_ne.
  - change (EventKey (ev_TenantID e') (ev_EventID e')) with (eventKey e'). by rewrite lookup_insert_ne.
Qed.

(** A confirmation already there stays. *)
Lemma isConfirmed_kept dur now ps e e' :
  readPublication dur no_pubFaults ps (confirmationOf e) = Ok None ->
  publicationConfirmed dur no_pubFaults ps (receiptFromEvent e') = Ok true ->
  publicationConfirmed dur no_pubFaults (confirmedStore dur now ps e) (receiptFromEvent e') = Ok true.
Proof.
  intros Hnone. unfold publicationConfirmed. fold (confirmationOf e'). destruct (valid _); [|done]. simpl.
  unfold readPublication, confirmedStore in *. simpl in *. destruct dur; simpl in *.
  - destruct (decide (publicationPath (confirmationOf e') = publicationPath (confirmationOf e))) as [->|Hne].
    + destruct (pu_files ps !! publicationPath (confirmationOf e)) as [[q|]|]; [|done..].
      by destruct (checkedPublication q).
    + by rewrite lookup_insert_ne.
  - change (EventKey (ev_TenantID e') (ev_EventID e')) with (eventKey e') in *.
    change (EventKey (ev_TenantID e) (ev_EventID e)) with (eventKey e) in Hnone.
    injection Hnone as Hnone. destruct (decide (eventKey e' = eventKey e)) as [->|Hne]; [by rewrite Hnone|].
    by rewrite lookup_insert_ne.
Qed.

(** ** The cleanup *)

Definition cleared (w : feed) (e : Event) : feed :=
  let c := sp_control (fd_store w) in
  let c' := set_sn_LedgeredOutbox (dropEvidence c) (delete (eventKey e) (sn_LedgeredOutbox c)) in
  with_store w (if durable w then set_control (set_disk (fd_store w) (write_control (sp_disk (fd_store w)) c')) c'
                else set_control (fd_store w) c').

Lemma dropEvidence_outbox c m : dropEvidence (set_sn_LedgeredOutbox (dropEvidence c) m) = set_sn_LedgeredOutbox (dropEvidence c) m.
Proof. destruct c. lazy. reflexivity. Qed.
Lemma cloneTimes_outbox c m : validateControlCloneTimes (set_sn_LedgeredOutbox (dropEvidence c) m) = validateControlCloneTimes c.
Proof. destruct c. unfold validateControlCloneTimes. reflexivity. Qed.

Lemma clear_healthy now w e :
  validateControlCloneTimes (sp_control (fd_store w)) = true ->
  clearLedgeredIntent (healthyAttempt now) w e = (cleared w e, None).
Proof.
  intros Ht. unfold clearLedgeredIntent, updateControl, cloneControl, cleared, durable. rewrite Ht.
  generalize dependent (sp_control (fd_store w)). intros c Ht.
  cbn [result_bind]. rewrite cloneTimes_outbox, Ht, dropEvidence_outbox.
  change (sn_LedgeredOutbox (dropEvidence c)) with (sn_LedgeredOutbox c).
  generalize (set_sn_LedgeredOutbox (dropEvidence c) (delete (eventKey e) (sn_LedgeredOutbox c))). intros c'.
  unfold writeControl. cbn [at_clear healthyAttempt ft_control_hook ft_control no_faults].
  by destruct (sp_durable (fd_store w)).
Qed.

Lemma cleared_facts w e :
  outbox (cleared w e) = delete (eventKey e) (outbox w) /\ durable (cleared w e) = durable w /\
  validateControlCloneTimes (sp_control (fd_store (cleared w e))) = validateControlCloneTimes (sp_control (fd_store w)).
Proof.
  unfold cleared, outbox, durable. destruct (sp_durable (fd_store w)) eqn:Hd; simpl; by rewrite ?Hd.
Qed.

(** One key: the row is cleared, its event confirmed, and delivered unless it
    was confirmed already; the other rows stay ready. *)
Record drained (w : feed) (k : string) (e : Event) (w' : feed) : Prop := {
  dr_outbox : outbox w' = delete k (outbox w);
  dr_acks : fd_requestAcks w' = fd_requestAcks w;
  dr_log : fd_delivered w ⊆ fd_delivered w';
  dr_event : isConfirmed w' e /\ (e ∈ fd_delivered w' \/ isConfirmed w e);
  dr_kept : forall e', isConfirmed w e' -> isConfirmed w' e';
  dr_new : forall e', isConfirmed w' e' -> isConfirmed w e' \/ eventKey e' = k \/
    publicationPath (confirmationOf e') = publicationPath (confirmationOf e);
  dr_ready : ready w'
}.

Lemma count_acks w n m p : u64 (fd_requestAcks w) = fd_requestAcks w -> fd_requestAcks (count w 0 n m p) = fd_requestAcks w.
Proof. intros H. unfold fd_requestAcks, count. simpl. by rewrite Z.add_0_r. Qed.

Lemma drained_confirmed w k e :
  ready w -> outbox w !! k = Some e -> isConfirmed w e -> drained w k e (count (cleared w e) 0 0 1 0).
Proof.
  intros Hr Hk Hc. destruct (rd_rows _ Hr _ _ Hk) as (<- & Hv & _).
  destruct (cleared_facts w e) as (Eo & Ed & Et).
  assert (forall e', isConfirmed (count (cleared w e) 0 0 1 0) e' <-> isConfirmed w e') as Hiff.
  { intros e'. unfold isConfirmed. change (durable (count _ _ _ _ _)) with (durable (cleared w e)). by rewrite Ed. }
  split; try done.
  - apply (count_acks (cleared w e)), Hr.
  - split; [by apply Hiff|by right].
  - intros e'. by rewrite Hiff.
  - intros e'. rewrite Hiff. by left.
  - change (outbox (count (cleared w e) 0 0 1 0)) with (outbox (cleared w e)) in *. split.
    + change (sp_control (fd_store (count (cleared w e) 0 0 1 0))) with (sp_control (fd_store (cleared w e))).
      rewrite Et. apply Hr.
    + rewrite (count_acks (cleared w e)) by apply Hr. apply Hr.
    + intros k' e'. change (outbox (count _ _ _ _ _)) with (outbox (cleared w e)). rewrite Eo.
      intros [_ Hk']%lookup_delete_Some. destruct (rd_rows _ Hr _ _ Hk') as (? & ? & Hconf).
      split_and!; [done..|]. unfold confirmable. change (durable (count _ _ _ _ _)) with (durable (cleared w e)).
      by rewrite Ed.
    + intros k1 k2 e1 e2. change (outbox (count _ _ _ _ _)) with (outbox (cleared w e)). rewrite Eo.
      intros [_ H1]%lookup_delete_Some [_ H2]%lookup_delete_Some. by apply (rd_paths _ Hr).
Qed.

Definition published (now : time) (w : feed) (e : Event) : feed :=
  count (cleared (with_publications (deliver w e) (confirmedStore (durable w) now (fd_publications w) e)) e) 0 0 1 0.

Lemma drained_published now w k e :
  ready w -> outbox w !! k = Some e -> now <> 0 ->
  readPublication (durable w) no_pubFaults (fd_publications w) (confirmationOf e) = Ok None ->
  drained w k e (published now w e).
Proof.
  intros Hr Hk Hnow Hnone. destruct (rd_rows _ Hr _ _ Hk) as (<- & Hv & _).
  set (w1 := with_publications (deliver w e) (confirmedStore (durable w) now (fd_publications w) e)).
  destruct (cleared_facts w1 e) as (Eo & Ed & Et). change (durable w1) with (durable w) in Ed.
  change (outbox w1) with (outbox w) in Eo.
  assert (Hiff : forall e', isConfirmed (published now w e) e' <->
    publicationConfirmed (durable w) no_pubFaults (confirmedStore (durable w) now (fd_publications w) e) (receiptFromEvent e') = Ok true).
  { intros e'. unfold isConfirmed. change (durable (published now w e)) with (durable (cleared w1 e)). by rewrite Ed. }
  split.
  - exact Eo.
  - apply (count_acks (cleared w1 e)), Hr.
  - simpl. set_solver.
  - split; [|left; simpl; set_solver]. apply Hiff. unfold publicationConfirmed. fold (confirmationOf e). rewrite Hv. simpl.
    rewrite read_confirmedStore_eq by done. simpl. by rewrite (proj2 (matches_spec (healthyConfirmation now e) (confirmationOf e)) eq_refl).
  - intros e' He'. apply Hiff. by apply isConfirmed_kept.
  - intros e' He'%Hiff. destruct (decide (eventKey e' = eventKey e)) as [|Hk']; [by right; left|].
    destruct (decide (publicationPath (confirmationOf e') = publicationPath (confirmationOf e))) as [|Hp']; [by right; right|].
    left. unfold isConfirmed, publicationConfirmed in *. fold (confirmationOf e') in *.
    by rewrite read_confirmedStore_ne in He'.
  - split.
    + change (sp_control (fd_store (published now w e))) with (sp_control (fd_store (cleared w1 e))).
      rewrite Et. apply Hr.
    + unfold published. rewrite (count_acks (cleared w1 e)) by apply Hr. apply Hr.
    + intros k' e'. change (outbox (published now w e)) with (outbox (cleared w1 e)). rewrite Eo.
      intros [Hne Hk']%lookup_delete_Some. destruct (rd_rows _ Hr _ _ Hk') as (E' & ? & Hconf).
      split_and!; [done..|]. unfold confirmable. change (durable (published now w e)) with (durable (cleared w1 e)).
      rewrite Ed. change (fd_publications (published now w e)) with (confirmedStore (durable w) now (fd_publications w) e).
      rewrite read_confirmedStore_ne; [exact Hconf|congruence|].
      intros Hp. apply Hne. symmetry. by apply (rd_paths _ Hr _ _ _ _ Hk' Hk).
    + intros k1 k2 e1 e2. change (outbox (published now w e)) with (outbox (cleared w1 e)). rewrite Eo.
      intros [_ H1]%lookup_delete_Some [_ H2]%lookup_delete_Some. by apply (rd_paths _ Hr).
Qed.

Lemma flushKey_healthy now r w k e :
  ready w -> outbox w !! k = Some e -> now <> 0 ->
  exists w', flushLedgeredKey (healthyRun now) (fd_requestAcks w) r k e w =
      (w', r, Ok (if bool_decide (isConfirmed w e) then ledgeredKeySkipped else ledgeredKeyPublished)) /\
    drained w k e w'.
Proof.
  intros Hr Hk Hnow. destruct (rd_rows _ Hr _ _ Hk) as (Ek & Hv & Hconf).
  unfold flushLedgeredKey. simpl. rewrite Z.eqb_refl. simpl. unfold confirmable in Hconf.
  destruct (readPublication (durable w) no_pubFaults (fd_publications w) (confirmationOf e)) as [[p|]|] eqn:Hread; [..|done].
  - pose proof (confirmed_by_read _ _ _ Hv Hread Hconf) as Hc. rewrite bool_decide_eq_true_2 by done.
    unfold isConfirmed in Hc. rewrite Hc, (clear_healthy now) by apply Hr.
    eexists. split; [done|]. by apply drained_confirmed.
  - assert (publicationConfirmed (durable w) no_pubFaults (fd_publications w) (receiptFromEvent e) = Ok false) as Hc.
    { unfold publicationConfirmed. fold (confirmationOf e). rewrite Hv. simpl. by rewrite Hread. }
    rewrite bool_decide_eq_false_2 by (unfold isConfirmed; by rewrite Hc).
    rewrite Hc. unfold ackLedgered. cbn [at_confirm at_now at_env_confirm at_env_clear healthyAttempt].
    change (durable (deliver w e)) with (durable w). change (fd_publications (deliver w e)) with (fd_publications w).
    rewrite confirm_new by done. rewrite (clear_healthy now) by apply Hr.
    eexists. split; [done|]. by apply drained_published.
Qed.

Record drained_keys (w : feed) (keys : list string) (w' : feed) : Prop := {
  dk_outbox : forall k, outbox w' !! k = if bool_decide (k ∈ keys) then None else outbox w !! k;
  dk_ready : ready w';
  dk_log : fd_delivered w ⊆ fd_delivered w';
  dk_kept : forall e, isConfirmed w e -> isConfirmed w' e;
  dk_events : forall k e, k ∈ keys -> outbox w !! k = Some e ->
    isConfirmed w' e /\ (e ∈ fd_delivered w' \/ isConfirmed w e)
}.

Lemma drained_keys_cons w k e keys w1 w' :
  ready w -> outbox w !! k = Some e -> k ∉ keys -> drained w k e w1 -> drained_keys w1 keys w' -> drained_keys w (k :: keys) w'.
Proof.
  intros Hr Hk Hnot H1 H2. split.
  - intros k'. rewrite (dk_outbox _ _ _ H2), (dr_outbox _ _ _ _ H1).
    destruct (decide (k' = k)) as [->|Hne].
    + rewrite bool_decide_eq_false_2, lookup_delete_eq by done.
      by rewrite bool_decide_eq_true_2 by (apply elem_of_cons; by left).
    + rewrite lookup_delete_ne by done. repeat case_bool_decide; set_solver.
  - apply H2.
  - pose proof (dr_log _ _ _ _ H1). pose proof (dk_log _ _ _ H2). set_solver.
  - intros e' He'. by apply (dk_kept _ _ _ H2), (dr_kept _ _ _ _ H1).
  - intros k' e' Hin He'. destruct (decide (k' = k)) as [->|Hne].
    + simplify_eq. destruct (dr_event _ _ _ _ H1) as [Hc Hd]. split; [by apply (dk_kept _ _ _ H2)|].
      destruct Hd as [Hd|Hd]; [left; by apply (dk_log _ _ _ H2)|by right].
    + assert (outbox w1 !! k' = Some e') as He1 by by rewrite (dr_outbox _ _ _ _ H1), lookup_delete_ne.
      destruct (dk_events _ _ _ H2 k' e' ltac:(set_solver) He1) as [Hc Hd]. split; [done|].
      destruct Hd as [Hd|Hd]; [by left|].
      destruct (dr_new _ _ _ _ H1 _ Hd) as [?|[Ek|Ep]]; [by right|..].
      * destruct (rd_rows _ Hr _ _ He') as [E' _]. congruence.
      * destruct Hne. by apply (rd_paths _ Hr _ _ _ _ He' Hk).
Qed.

Lemma flushKeys_healthy now i events r keys n w :
  ready w -> now <> 0 -> NoDup keys ->
  (forall k, k ∈ keys -> exists e, events !! k = Some e /\ outbox w !! k = Some e) ->
  exists w' m, flushKeys (fun _ => healthyRun now) i (fd_requestAcks w) events r keys n w = (w', m, None) /\
    n <= m <= n + Z.of_nat (length keys) /\ drained_keys w keys w'.
Proof.
  intros Hr Hnow Hnd. revert i n w Hr. induction Hnd as [|k keys Hnot Hnd IH]; intros i n w Hr Hrows; simpl.
  { exists w, n. split; [done|]. split; [lia|]. split; try done; set_solver. }
  destruct (Hrows k) as (e & He & Hk); [apply elem_of_cons; by left|].
  destruct (flushKey_healthy now r w k e Hr Hk Hnow) as (w1 & Hf & H1).
  unfold map_get. rewrite He. simpl. rewrite Hf. rewrite <- (dr_acks _ _ _ _ H1).
  assert (forall k', k' ∈ keys -> exists e', events !! k' = Some e' /\ outbox w1 !! k' = Some e') as Hrows1.
  { intros k' Hin. destruct (Hrows k') as (e' & ? & ?); [apply elem_of_cons; by right|]. exists e'. split; [done|].
    rewrite (dr_outbox _ _ _ _ H1), lookup_delete_ne; [done|]. by intros <-. }
  case_bool_decide.
  - destruct (IH (S i) n w1 (dr_ready _ _ _ _ H1) Hrows1) as (w' & m & E & Hm & H2).
    exists w', m. split; [exact E|]. split; [lia|]. by eapply drained_keys_cons.
  - destruct (IH (S i) (n + 1) w1 (dr_ready _ _ _ _ H1) Hrows1) as (w' & m & E & Hm & H2).
    exists w', m. split; [exact E|]. split; [lia|]. by eapply drained_keys_cons.
Qed.

(** The keys a round of the given limit works on. *)
Definition roundKeys (limit : Z) (w : feed) : list string :=
  take (Z.to_nat limit) (sort_strings (map_to_list (outbox w)).*1).

(** C11: a flush round over a healthy broker and store makes progress: it ends
    without error, the first [limit] pending events in key order are confirmed
    with their own ledger coordinates and no longer pending, each was delivered
    in this round or had been confirmed before it, every other pending event
    stays, and a round whose limit covers the backlog empties it. *)
Theorem healthy_flush_drains (now limit : Z) (w : feed) :
  ready w -> now <> 0 -> 0 < limit <= ledgeredOutboxBatchSize ->
  exists w' n, FlushLedgeredOutbox true false (fun w => w) None (fun _ => healthyRun now) limit w = (w', n, None) /\
    0 <= n <= limit /\
    (forall k, k ∉ roundKeys limit w -> outbox w' !! k = outbox w !! k) /\
    (forall k e, k ∈ roundKeys limit w -> outbox w !! k = Some e ->
       outbox w' !! k = None /\ isConfirmed w' e /\ (e ∈ fd_delivered w' \/ isConfirmed w e)) /\
    (Z.of_nat (size (outbox w)) <= limit -> outbox w' = ∅).
Proof.
  intros Hr Hnow Hl. unfold FlushLedgeredOutbox. simpl.
  assert ((limit <=? 0) || (ledgeredOutboxBatchSize <? limit) = false) as -> by lia.
  unfold pendingLedgeredOutbox, ReadControl, cloneControl. rewrite (rd_times _ Hr). simpl.
  change (sn_LedgeredOutbox (dropEvidence (sp_control (fd_store w)))) with (outbox w).
  fold (roundKeys limit w). set (w0 := sample w _).
  assert (ready w0) as Hr0 by (destruct Hr; by split).
  assert (forall k, k ∈ sort_strings (map_to_list (outbox w)).*1 <-> is_Some (outbox w !! k)) as Hkeys.
  { intros k. rewrite sort_strings_perm, list_elem_of_fmap. split.
    - intros ([k' e] & -> & Hin%elem_of_map_to_list). eauto.
    - intros [e He]. exists (k, e). by rewrite elem_of_map_to_list. }
  assert (NoDup (sort_strings (map_to_list (outbox w)).*1)) as Hnd.
  { rewrite sort_strings_perm. apply NoDup_fst_map_to_list. }
  destruct (flushKeys_healthy now 0 (outbox w) newRevalidator (roundKeys limit w) 0 w0 Hr0 Hnow)
    as (w' & n & E & Hn & Hd).
  { eapply sublist_NoDup; [exact Hnd|apply sublist_take]. }
  { intros k Hk. apply elem_of_take in Hk as (j & Hj & _). apply list_elem_of_lookup_2, Hkeys in Hj as [e He].
    by exists e. }
  exists w', n. change (fd_requestAcks w) with (fd_requestAcks w0). split; [exact E|]. split.
  { unfold roundKeys in Hn. rewrite length_take in Hn. lia. }
  pose proof (dk_outbox _ _ _ Hd) as Ho. split_and!.
  - intros k Hk. by rewrite Ho, bool_decide_eq_false_2 by done.
  - intros k e Hk He. split; [by rewrite Ho, bool_decide_eq_true_2 by done|]. by apply (dk_events _ _ _ Hd k e).
  - intros Hsize. apply map_eq. intros k. rewrite Ho, lookup_empty. case_bool_decide as Hk; [done|].
    destruct (outbox w0 !! k) as [e|] eqn:He; [|done]. destruct Hk. unfold roundKeys.
    rewrite take_ge; [apply Hkeys; by exists e|].
    rewrite sort_strings_perm, length_fmap, length_map_to_list. lia.
Qed.

(** ** Tenant file names *)

(** The encoding leaves room for the [.json.tmp] of an atomic replace. *)
Definition fits (t : string) : Prop := (String.length (KeyCodec.EncodeKeyComponent t) + 9 <= 255)%nat.

Lemma encode_safe s :
  s <> "" -> s <> "." -> s <> ".." -> (forall c, c ∈ chars s -> KeyCodec.isSafeComponentByte c = true) ->
  KeyCodec.EncodeKeyComponent s = s.
Proof.
  intros H1 H2 H3 Hs. unfold KeyCodec.EncodeKeyComponent. rewrite !decide_False by done.
  assert (forall l, (forall c, c ∈ l -> KeyCodec.isSafeComponentByte c = true) -> concat (map KeyCodec.encodeByte l) = l) as Hid.
  { induction l as [|c l IH]; intros Hl; [done|]. simpl. unfold KeyCodec.encodeByte at 1.
    rewrite (Hl c) by (apply elem_of_cons; by left). simpl. rewrite IH; [done|].
    intros c' Hc'. apply Hl, elem_of_cons. by right. }
  rewrite (Hid (chars s) Hs). apply string_of_list_ascii_of_string.
Qed.

Lemma sha_name_safe t c : c ∈ chars ("sha256-" ++ HashBytes t) -> KeyCodec.isSafeComponentByte c = true.
Proof.
  rewrite chars_app. intros [Hc|Hc]%elem_of_app.
  - repeat (apply elem_of_cons in Hc as [->|Hc]; [reflexivity|]). by apply not_elem_of_nil in Hc.
  - apply HashBytes_chars in Hc. unfold KeyCodec.isSafeComponentByte, in_rangeb. lia.
Qed.

(** A valid tenant of 84 bytes whose encoding has 252. *)
Definition longTenant : string :=
  String.concat "" (repeat "漢" 28).

(** The files of a tenant are its own only while its name is short.  Two
    tenants whose encodings leave room for the temporary suffix have different
    file names; the file name of any longer tenant is also the file name of
    the tenant called [sha256-<digest>], and both can be valid tenant ids. *)
Theorem tenant_file_names_collide :
  (forall t t', fits t -> fits t' -> tenantFileName t = tenantFileName t' -> t = t') /\
  (forall t, ~ fits t -> tenantFileName ("sha256-" ++ HashBytes t) = tenantFileName t) /\
  (~ fits longTenant /\ ValidTenantID longTenant = Ok tt /\
   ValidTenantID ("sha256-" ++ HashBytes longTenant) = Ok tt /\ longTenant <> "sha256-" ++ HashBytes longTenant).
Proof.
  split_and!.
  - intros t t' Ht Ht'. unfold tenantFileName. rewrite !(proj2 (Nat.leb_le _ _)) by done. intros E.
    pose proof (KeyCodec.decode_encode t) as D. rewrite E, KeyCodec.decode_encode in D. by injection D.
  - intros t Ht. unfold tenantFileName at 2. 
    assert ((String.length (KeyCodec.EncodeKeyComponent t) + 9 <=? 255)%nat = false) as ->
      by (apply Nat.leb_gt; unfold fits in Ht; lia).
    unfold tenantFileName. rewrite encode_safe; [|done..|apply sha_name_safe].
    assert (String.length ("sha256-" ++ HashBytes t) = 71%nat) as ->; [|done].
    change (7 + String.length (HashBytes t) = 71)%nat. pose proof (HashBytes_length t) as Hl. unfold Zlen in Hl. lia.
  - unfold fits. vm_compute. lia.
  - vm_compute. reflexivity.
  - vm_compute. reflexivity.
  - done.
Qed.

(** ** A run through a lost intent, a failed cleanup and a restart *)

Local Transparent HashBytes.

(** An event ingested without a publisher: no intent was written. *)
Definition feedStore : splitStore :=
  (ingestTenantOnce (signer := runSigner) (crypto := plainCrypto) (archive := runArchive) EventContentDigest no_faults None
     2 false (fun _ => Ok false) 5 "t1" "c1" "t1" "cp1" runEvent (ev_SourceDigest runEvent) sealStart).1.
Definition feedTenant : tenantState := tenantStateOf feedStore "t1".
Definition feedLedger : LedgerData := tl_data (ts_ledger feedTenant).
Definition feedRecord : LedgerRecord := nth 0 (ld_records feedLedger) (mkLedgerRecord "" "" "" 0 None None None 0).
Definition feedReceipt : EventReceipt := default zero_EventReceipt (lr_Receipt feedRecord).
Definition feedKey : string := EventKey "t1" "e1".
Definition feedEvent : Event := map_get zero_Event (hd_Events (ts_hot feedTenant)) feedKey.
Definition feedStart : feed :=
  mkfeed feedStore (mkpublications ∅ ∅) [] (mkcounters 0 0 0 0 0 0 0 0) 0 false.
Definition feedCommitted (k : string) : EventReceipt := feedReceipt.

Lemma feed_records : ld_records feedLedger = [feedRecord].
Proof. vm_compute. reflexivity. Qed.
Lemma feed_record : lr_Key feedRecord = feedKey /\ lr_Receipt feedRecord = Some feedReceipt /\
  EventKey (rc_TenantID feedReceipt) (rc_EventID feedReceipt) = feedKey.
Proof. vm_compute. split_and!; reflexivity. Qed.
Lemma feed_base : base_ok feedLedger.
Proof. apply (reload_base "t1" (ld_records feedLedger)); vm_compute; reflexivity. Qed.
Lemma feed_tenants : sp_tenant feedStore = {["t1" := feedTenant]}.
Proof. vm_compute. reflexivity. Qed.
Lemma feed_outbox : sn_LedgeredOutbox (sp_control feedStore) = ∅ /\
  dk_control (sp_disk feedStore) = Some (sp_control feedStore).
Proof. vm_compute. split; reflexivity. Qed.

Lemma feed_ledger : ts_ledger feedTenant = TL feedLedger None.
Proof. vm_compute. reflexivity. Qed.

Local Opaque feedStore feedTenant feedLedger feedRecord feedReceipt.

Lemma latestReceipt_one rec k0 rc k r :
  lr_Key rec = k0 -> lr_Receipt rec = Some rc -> latestReceipt [rec] k = Some r -> k0 = k /\ rc = r.
Proof.
  intros <- Hr. unfold latestReceipt. simpl. unfold receiptFor. rewrite Hr.
  destruct (bool_decide (lr_RecordType rec = LedgerReceipt) && bool_decide (lr_Key rec = k)) eqn:Hm; [|done].
  simpl. intros [= <-]. by apply andb_true_iff in Hm as [_ ?%bool_decide_eq_true].
Qed.

Lemma feed_tenants_ok t st : sp_tenant feedStore !! t = Some st -> ledger_ok feedCommitted (ts_ledger st).
Proof.
  rewrite feed_tenants. intros [<- <-]%lookup_singleton_Some.
  exists feedLedger. split; [exact feed_ledger|]. split; [exact feed_base|].
  intros k r. rewrite feed_records. destruct feed_record as (Ek & Er & Ee). intros Hl.
  destruct (latestReceipt_one _ _ _ _ _ Ek Er Hl) as [<- <-]. split; [exact Ee|reflexivity].
Qed.

Lemma empty_feed_inv committed s counters :
  (forall t st, sp_tenant s !! t = Some st -> ledger_ok committed (ts_ledger st)) ->
  sn_LedgeredOutbox (sp_control s) = ∅ -> dk_control (sp_disk s) = Some (sp_control s) ->
  feed_inv committed (mkfeed s (mkpublications ∅ ∅) [] counters 0 false).
Proof.
  intros Ht Eo Ed. split; simpl.
  - exact Ht.
  - intros k e. rewrite Eo. done.
  - rewrite Ed. intros c [= <-] k e. rewrite Eo. done.
  - intros _ k. unfold outbox. simpl. rewrite Eo. by intros [].
  - split; intros ? ?; simpl; by rewrite lookup_empty.
Qed.

Lemma feed_start : feed_inv feedCommitted feedStart.
Proof. destruct feed_outbox as [Eo Ed]. exact (empty_feed_inv _ _ _ feed_tenants_ok Eo Ed). Qed.

Local Transparent feedStore feedTenant feedLedger feedRecord feedReceipt.

Definition quietReconcile : reconcileRun :=
  mkreconcileRun None (fun w => w) None no_pubFaults (fun w => w) (fun _ => None) no_faults.
(** The control file cannot be replaced during the cleanup. *)
Definition cleanupFails : attempt :=
  mkattempt false None Accepted 9 no_pubFaults
    (mkfaults None None None None WriteOk None AppendOk None (WriteFails false (NewErr "disk full")))
    (fun w => w) (fun w => w) (fun w => w).
Definition feedBefore : list feedOp := [Reconcile true quietReconcile "t1" (mkLedgerPageCursor 0 0) 10].
Definition feedAfter : list feedOp :=
  [Publish true cleanupFails feedEvent; Restart (sp_tenant feedStore);
   Flush true false (fun w => w) None (fun _ => healthyRun 11) 10].
Definition feedRun (ops : list feedOp) : feed :=
  foldl (runOp (crypto := plainCrypto) (archive := runArchive) EventContentDigest) feedStart ops.

Lemma env_id_ok : env_ok feedCommitted (fun w => w).
Proof. apply env_ok_id. Qed.
Lemma healthyRun_ok now : keyRun_ok feedCommitted (healthyRun now).
Proof. split; [exact env_id_ok|exact env_id_ok|split; exact env_id_ok]. Qed.
Lemma feed_genuine : genuine feedCommitted (eventKey feedEvent) feedEvent.
Proof. split; [reflexivity|vm_compute; reflexivity]. Qed.
Lemma feedBefore_ok : Forall (op_ok feedCommitted) feedBefore.
Proof. constructor; [|constructor]. split; exact env_id_ok. Qed.
Lemma feedAfter_ok : Forall (op_ok feedCommitted) feedAfter.
Proof.
  constructor; [split; [split; exact env_id_ok|exact feed_genuine]|].
  constructor; [exact feed_tenants_ok|]. constructor; [|constructor].
  split; [exact env_id_ok|]. intros j. apply healthyRun_ok.
Qed.

(** The lost intent is repaired, delivered once although the cleanup fails,
    and cleared by the first round after the restart. *)
Example feed_run_once :
  outbox (feedRun feedBefore) = {[feedKey := feedEvent]} /\
  outbox (feedRun (feedBefore ++ feedAfter)%list) = ∅ /\
  fd_delivered (feedRun (feedBefore ++ feedAfter)%list) = [feedEvent].
Proof. vm_compute. split_and!; reflexivity. Qed.

Lemma publication_never_lost_witness :
  is_Some (outbox (feedRun (feedBefore ++ feedAfter)%list) !! feedKey) \/
  exists e', e' ∈ fd_delivered (feedRun (feedBefore ++ feedAfter)%list) /\ eventKey e' = feedKey /\
    coordinatesOf e' = coordinates (publicationFromReceipt (feedCommitted feedKey)).
Proof.
  apply (proj1 (publication_never_lost (crypto := plainCrypto) (archive := runArchive)
    feedCommitted EventContentDigest feedStart feedBefore feedAfter feed_start feedBefore_ok feedAfter_ok)
    feedKey feedEvent).
  vm_compute. reflexivity.
Defined.

Lemma reconcile_settles_witness :
  is_Some (outbox (feedRun feedBefore) !! feedKey) \/ delivered feedCommitted (feedRun feedBefore) feedKey.
Proof.
  destruct feed_record as (Ek & Er & _). rewrite <- Ek.
  pose (run := ReconcileLedgeredPublications (crypto := plainCrypto) (archive := runArchive)
    EventContentDigest true quietReconcile "t1" (mkLedgerPageCursor 0 0) 10 feedStart).
  refine (reconcile_settles (crypto := plainCrypto) (archive := runArchive)
    feedCommitted EventContentDigest quietReconcile "t1" (mkLedgerPageCursor 0 0) 10 feedStart run.1.1 run.1.2
    (ledgerRecordsPage (ld_records feedLedger) (mkLedgerPageCursor 0 0) 10) feedRecord
    feed_start env_id_ok env_id_ok _ _ _ _ _).
  - vm_compute. reflexivity.
  - vm_compute. reflexivity.
  - vm_compute. reflexivity.
  - apply (bool_decide_unpack _). vm_compute. exact I.
  - rewrite Er. done.
Defined.

Lemma feed_ready : ready (feedRun feedBefore).
Proof.
  pose proof (proj1 feed_run_once) as Eo.
  split; [vm_compute; reflexivity|vm_compute; reflexivity|..]; rewrite Eo.
  - intros k e [<- <-]%lookup_singleton_Some. split_and!; [vm_compute; reflexivity..|].
    vm_compute. exact I.
  - intros k k' e e' [<- _]%lookup_singleton_Some [<- _]%lookup_singleton_Some. done.
Qed.

Lemma healthy_flush_drains_witness :
  exists w' n, FlushLedgeredOutbox true false (fun w => w) None (fun _ => healthyRun 11) 10 (feedRun feedBefore) = (w', n, None) /\
    outbox w' = ∅.
Proof.
  destruct (healthy_flush_drains 11 10 (feedRun feedBefore) feed_ready ltac:(lia) ltac:(vm_compute; split; congruence))
    as (w' & n & E & _ & _ & _ & Hempty).
  exists w', n. split; [exact E|]. apply Hempty. vm_compute. discriminate.
Defined.

End PublicationDrain.
