(* ===== verification/Governance.v ===== *)
(** * The governance control plane (internal/service: restore.go, hold.go,
    sources.go, service.go, admin_trail.go)

    Tenants, sources, schemas, retention policies, legal holds and restore
    runs live in the control document.  Each operation validates its request,
    then runs a closure on a copy of the document that re-checks the current
    state, changes it and appends an admin fact; the store commits the copy as
    a whole or discards it (Store, SplitStore).  A closure is a function
    [Snapshot -> result Snapshot] here.

    [stamp] carries what a call takes from its environment: the clock and the
    random identifiers. *)

From Stdlib Require Import Ascii String.
From S2P Require Import Prelude GoStr Domain Keys Limits Store Integrity.
Open Scope string_scope.
Open Scope Z_scope.
Import Domain Keys Limits Store Integrity.

Module Governance.

Record stamp : Type := mkstamp {
  at_now : time;        (** s.Now() of the changed object *)
  at_admin : time;      (** s.Now() of its admin fact *)
  at_id : string;       (** newID of the object *)
  at_admin_id : string  (** newID of the admin fact *)
}.

(** ** admin_trail.go and adminAction *)

Definition DefaultMaxAdminActions : Z := 10000.
Definition DefaultMaxAdminTrailActions : Z := 100000.

(** The two caps of Config, resolved. *)
Definition resolveAdminTrailConfig (maxActions maxTrail : Z) : result (Z * Z) :=
  let maxActions := if maxActions <=? 0 then DefaultMaxAdminActions else maxActions in
  let maxTrail := if maxTrail <? 0 then DefaultMaxAdminTrailActions else maxTrail in
  if (0 <? maxTrail) && (maxTrail <? maxActions) then Err (invalid "MaxAdminTrailActions must be 0 or at least MaxAdminActions")
  else Ok (maxActions, maxTrail).

Definition adminAction (st : stamp) (tenantID actor action targetType targetID detail : string) : AdminAction :=
  mkAdminAction (at_admin_id st) tenantID actor action targetType targetID detail (at_admin st).

Definition appendAdminAction (capN : Z) (data : Snapshot) (action : AdminAction) : Snapshot :=
  let actions := (sn_AdminActions data ++ [action])%list in
  let len := Z.of_nat (length actions) in
  set_sn_AdminActions data
    (if (0 <? capN) && (capN <? len) then drop (Z.to_nat (len - capN)) actions else actions).

(** The merge of the mutation facts (oldest first) with the read trail (newest
    first).  [fuel] bounds the two walks together. *)
Fixpoint mergeLoop (matches : AdminAction -> bool) (limit : nat) (snapshot trail : list AdminAction) (fuel : nat)
    : list AdminAction :=
  let take1 next rest := if matches next then
      match limit with
      | O => []
      | S O => [next]
      | S limit' => next :: rest limit'
      end
    else rest limit in
  match fuel with
  | O => []
  | S fuel =>
      match snapshot, trail with
      | [], [] => []
      | s :: snapshot', t :: trail' =>
          if negb (time_Before (aa_CreatedAt t) (aa_CreatedAt s))
          then take1 t (fun l => mergeLoop matches l snapshot trail' fuel)
          else take1 s (fun l => mergeLoop matches l snapshot' trail fuel)
      | s :: snapshot', [] => take1 s (fun l => mergeLoop matches l snapshot' [] fuel)
      | [], t :: trail' => take1 t (fun l => mergeLoop matches l [] trail' fuel)
      end
  end.

Definition actionMatches (tenantID : string) (platform : bool) (a : AdminAction) : bool :=
  (platform && bool_decide (tenantID = "")) || bool_decide (aa_TenantID a = tenantID).

Definition mergeAdminActions (snapshot trail : list AdminAction) (tenantID : string) (platform : bool) (limit : Z)
    : list AdminAction :=
  mergeLoop (actionMatches tenantID platform) (Z.to_nat limit) (rev snapshot) trail (length snapshot + length trail).

(** The pre-trail loop of ListAdminActions. *)
Fixpoint newestMatching (matches : AdminAction -> bool) (limit : nat) (actions : list AdminAction) : list AdminAction :=
  match actions, limit with
  | [], _ | _, O => []
  | a :: actions, S limit' =>
      if matches a then a :: newestMatching matches limit' actions else newestMatching matches limit actions
  end.

Definition requireOptionalTenantScope (tenantID : string) : result unit :=
  if bool_decide (tenantID = "") then Ok tt else ValidTenantID tenantID.

Definition ListAdminActions (trail : result (list AdminAction)) (data : result Snapshot) (tenantID : string)
    (platform : bool) (limit : Z) : result (list AdminAction) :=
  if bool_decide (tenantID = "") && negb platform then Err (invalid "tenant_id is required")
  else
    requireOptionalTenantScope tenantID ;?
    let limit := if (limit <=? 0) || (100 <? limit) then 100 else limit in
    let? trail := trail in
    let? data := data in
    Ok (match trail with
        | [] => newestMatching (actionMatches tenantID platform) (Z.to_nat limit) (rev (sn_AdminActions data))
        | _ => mergeAdminActions (sn_AdminActions data) trail tenantID platform limit
        end).

(** ** Tenants *)

Definition normalizeTenant (st : stamp) (t : Tenant) : Tenant :=
  mkTenant (tn_ID t) (tn_Name t) (tn_HomeRegion t) (tn_DataRegion t) true (tn_EventsPerSecond t) (tn_Burst t)
    (if time_IsZero (tn_CreatedAt t) then at_now st else tn_CreatedAt t).

Definition tenantRequest (t : Tenant) : result unit :=
  guard_err (negb (bool_decide (TrimSpace (tn_ID t) = "") || bool_decide (TrimSpace (tn_Name t) = "")))
    (invalid "tenant id and name are required") ;?
  ValidTenantID (tn_ID t).

Definition createTenantClosure (capN : Z) (st : stamp) (actor : string) (t : Tenant) (data : Snapshot) : result Snapshot :=
  match sn_Tenants data !! tn_ID t with
  | Some _ => Err (Wrapf (Sentinel ErrConflict) "tenant already exists")
  | None =>
      Ok (appendAdminAction capN (set_sn_Tenants data (<[tn_ID t := normalizeTenant st t]> (sn_Tenants data)))
            (adminAction st (tn_ID t) actor "tenant.created" "tenant" (tn_ID t) ""))
  end.

(** ** sources.go *)

Fixpoint checkClientIDs (seen : gset string) (ids : list string) : result unit :=
  match ids with
  | [] => Ok tt
  | id :: ids =>
      if bool_decide (TrimSpace id = "") || negb (bool_decide (id = TrimSpace id))
      then Err (invalid "allowed client IDs must be non-empty and trimmed")
      else if bool_decide (id ∈ seen) then Err (invalid "allowed client IDs must be unique")
      else checkClientIDs ({[id]} ∪ seen) ids
  end.

Definition normalizeSource (s : SourceSystem) : result SourceSystem :=
  requireTenantScope (so_TenantID s) ;?
  guard_err (negb (bool_decide (so_TenantID s = "") || bool_decide (so_ID s = "") || bool_decide (so_Name s = "")))
    (invalid "source tenant_id, id and name are required") ;?
  ValidKeyComponent (so_ID s) ;?
  ValidArchiveComponentLength (so_ID s) ;?
  ValidateSourceCaps s ;?
  checkClientIDs ∅ (so_AllowedClientIDs s) ;?
  Ok (mkSourceSystem (so_ID s) (so_TenantID s) (so_Name s) (sort_strings (so_AllowedClientIDs s)) (so_Active s) (so_CreatedAt s)).

(** ["%v"] of a string slice and of a bool. *)
Definition sprintStrings (l : list string) : string :=
  "[" ++ String.concat " " l ++ "]".
Definition sprintBool (b : bool) : string := if b then "true" else "false".

Definition tenantMissing : error := Wrapf (Sentinel ErrNotFound) "tenant does not exist".

Definition activeSource (st : stamp) (s : SourceSystem) : SourceSystem :=
  mkSourceSystem (so_ID s) (so_TenantID s) (so_Name s) (so_AllowedClientIDs s) true
    (if time_IsZero (so_CreatedAt s) then at_now st else so_CreatedAt s).

Definition addSourceClosure (capN : Z) (st : stamp) (actor : string) (s : SourceSystem) (data : Snapshot) : result Snapshot :=
  match sn_Tenants data !! so_TenantID s with
  | None => Err tenantMissing
  | Some _ =>
      let key := SourceKey (so_TenantID s) (so_ID s) in
      match sn_Sources data !! key with
      | Some _ => Err (Wrapf (Sentinel ErrConflict) "source already exists")
      | None =>
          Ok (appendAdminAction capN (set_sn_Sources data (<[key := activeSource st s]> (sn_Sources data)))
                (adminAction st (so_TenantID s) actor "source.created" "source" (so_ID s)
                   ("allowed_client_ids=" ++ sprintStrings (so_AllowedClientIDs s))))
      end
  end.

Definition updateSourceClosure (capN : Z) (st : stamp) (actor : string) (s : SourceSystem) (data : Snapshot) : result Snapshot :=
  match sn_Tenants data !! so_TenantID s with
  | None => Err tenantMissing
  | Some _ =>
      let key := SourceKey (so_TenantID s) (so_ID s) in
      match sn_Sources data !! key with
      | None => Err (Sentinel ErrNotFound)
      | Some existing =>
          let s := mkSourceSystem (so_ID s) (so_TenantID s) (so_Name s) (so_AllowedClientIDs s) (so_Active s) (so_CreatedAt existing) in
          Ok (appendAdminAction capN (set_sn_Sources data (<[key := s]> (sn_Sources data)))
                (adminAction st (so_TenantID s) actor "source.updated" "source" (so_ID s)
                   ("allowed_client_ids=" ++ sprintStrings (so_AllowedClientIDs s) ++ " active=" ++ sprintBool (so_Active s))))
      end
  end.

(** ** RegisterSchema *)

Definition schemaRequest (s : EventSchema) : result unit :=
  requireTenantScope (sc_TenantID s) ;?
  guard_err (negb (bool_decide (sc_TenantID s = ""))) (invalid "schema tenant_id is required") ;?
  guard_err (negb (bool_decide (sc_SchemaID s = "") || (sc_Version s <=? 0) || bool_decide (sc_EventType s = "")))
    (invalid "schema_id, version and event_type are required") ;?
  ValidKeyComponent (sc_SchemaID s) ;?
  ValidateSchemaCaps s.

Definition activeSchema (st : stamp) (s : EventSchema) : EventSchema :=
  mkEventSchema (sc_TenantID s) (sc_SchemaID s) (sc_Version s) (sc_EventType s) (sc_RequiredFields s) (sc_AllowedFields s)
    (sc_EncryptedFields s) (sc_SearchableFields s) (sc_Classification s) true
    (if time_IsZero (sc_CreatedAt s) then at_now st else sc_CreatedAt s).

Definition sameSchema (s candidate : EventSchema) : bool :=
  bool_decide (sc_TenantID candidate = sc_TenantID s) && bool_decide (sc_SchemaID candidate = sc_SchemaID s).

Definition maxVersionOf (s : EventSchema) (schemas : list EventSchema) : Z :=
  foldl (fun maxVersion c => if sameSchema s c && (maxVersion <? sc_Version c) then sc_Version c else maxVersion) 0 schemas.

(** The newest registered version below [s]. *)
Definition previousVersion (s : EventSchema) (schemas : list EventSchema) : option EventSchema :=
  foldl (fun previous c =>
    if sameSchema s c && (sc_Version c <? sc_Version s) &&
       match previous with None => true | Some p => sc_Version p <? sc_Version c end
    then Some c else previous) None schemas.

Definition containsString (values : list string) (wanted : string) : bool := bool_decide (wanted ∈ values).

Definition evolutionOk (previous s : EventSchema) : result unit :=
  guard_err (forallb (containsString (sc_RequiredFields s)) (sc_RequiredFields previous))
    (invalid "schema version removes required field") ;?
  if negb (bool_decide (sc_AllowedFields previous = [])) && negb (bool_decide (sc_AllowedFields s = [])) then
    guard_err (forallb (containsString (sc_AllowedFields s)) (sc_AllowedFields previous))
      (invalid "schema version removes allowed field")
  else Ok tt.

Definition registerSchemaClosure (capN : Z) (st : stamp) (actor : string) (s : EventSchema) (data : Snapshot) : result Snapshot :=
  match sn_Tenants data !! sc_TenantID s with
  | None => Err tenantMissing
  | Some _ =>
      let schemas := (map_to_list (sn_Schemas data)).*2 in
      if sc_Version s <? maxVersionOf s schemas then Err (invalid "version rollback is not allowed")
      else
        let key := SchemaKey (sc_TenantID s) (sc_SchemaID s) (sc_Version s) in
        match sn_Schemas data !! key with
        | Some _ => Err (Wrapf (Sentinel ErrConflict) "schema already exists")
        | None =>
            match previousVersion s schemas with Some p => evolutionOk p s | None => Ok tt end ;?
            Ok (appendAdminAction capN (set_sn_Schemas data (<[key := activeSchema st s]> (sn_Schemas data)))
                  (adminAction st (sc_TenantID s) actor "schema.created" "event_schema" (sc_SchemaID s)
                     ("version " ++ Itoa (sc_Version s))))
        end
  end.

(** ** Retention policies *)

Definition policyRequest (p : RetentionPolicy) : result unit :=
  requireTenantScope (rp_TenantID p) ;?
  guard_err (negb (bool_decide (rp_TenantID p = "") || bool_decide (TrimSpace (rp_RetentionClass p) = "") ||
                   (rp_ArchiveDays p <? 0) || (rp_HotDays p <? 0) || (rp_WarmDays p <? 0)))
    (invalid "invalid retention policy").

Definition setRetentionPolicyClosure (capN : Z) (st : stamp) (actor : string) (p : RetentionPolicy) (data : Snapshot) : result Snapshot :=
  match sn_Tenants data !! rp_TenantID p with
  | None => Err tenantMissing
  | Some _ =>
      Ok (appendAdminAction capN (set_sn_Policies data (<[rp_TenantID p := p]> (sn_Policies data)))
            (adminAction st (rp_TenantID p) actor "retention_policy.set" "retention_policy" (rp_RetentionClass p)
               ("hot=" ++ Itoa (rp_HotDays p) ++ " warm=" ++ Itoa (rp_WarmDays p) ++ " archive=" ++ Itoa (rp_ArchiveDays p))))
  end.

(** ** hold.go *)

Definition holdRequest (h : LegalHold) : result unit :=
  requireTenantScope (lh_TenantID h) ;?
  guard_err (negb (bool_decide (lh_TenantID h = "") || bool_decide (lh_Name h = "") || bool_decide (lh_Reason h = "")))
    (invalid "tenant_id, name and reason are required") ;?
  let f := lh_Filter h in
  guard_err (negb ((negb (time_IsZero (qy_From f)) || negb (time_IsZero (qy_To f))) &&
                   (time_IsZero (qy_From f) || time_IsZero (qy_To f) || negb (time_Before (qy_From f) (qy_To f)))))
    (invalid "legal hold filter requires from before to") ;?
  guard_err (Bool.eqb (bool_decide (qy_PayloadField f = "")) (bool_decide (qy_PayloadDigest f = "")))
    (invalid "payload_field and payload_digest must be provided together").

Definition preparedHold (st : stamp) (h : LegalHold) : LegalHold :=
  mkLegalHold (if bool_decide (lh_ID h = "") then at_id st else lh_ID h) (lh_TenantID h) (lh_Name h) (lh_Reason h)
    (lh_Filter h) (lh_CreatedBy h) (if time_IsZero (lh_CreatedAt h) then at_now st else lh_CreatedAt h)
    (lh_ReleasedAt h) (lh_ReleasedBy h).

Definition createHoldClosure (capN : Z) (st : stamp) (h : LegalHold) (data : Snapshot) : result Snapshot :=
  match sn_Tenants data !! lh_TenantID h with
  | None => Err (Sentinel ErrNotFound)
  | Some _ =>
      match sn_LegalHolds data !! lh_ID h with
      | Some _ => Err (Wrapf (Sentinel ErrConflict) "legal hold already exists")
      | None =>
          Ok (appendAdminAction capN (set_sn_LegalHolds data (<[lh_ID h := h]> (sn_LegalHolds data)))
                (adminAction st (lh_TenantID h) (lh_CreatedBy h) "legal_hold.created" "legal_hold" (lh_ID h) (lh_Reason h)))
      end
  end.

(** UpdateControlChecked: the flag is "changed"; the hold is the captured one. *)
Definition releaseHoldClosure (capN : Z) (st : stamp) (tenantID holdID releasedBy : string) (data : Snapshot)
    : result (Snapshot * bool * LegalHold) :=
  match sn_LegalHolds data !! holdID with
  | None => Err (Sentinel ErrNotFound)
  | Some h =>
      if negb (bool_decide (lh_TenantID h = tenantID)) then Err (Sentinel ErrNotFound)
      else
        match lh_ReleasedAt h with
        | Some _ => Ok (data, false, h)
        | None =>
            let h := mkLegalHold (lh_ID h) (lh_TenantID h) (lh_Name h) (lh_Reason h) (lh_Filter h) (lh_CreatedBy h)
                       (lh_CreatedAt h) (Some (at_now st)) releasedBy in
            Ok (appendAdminAction capN (set_sn_LegalHolds data (<[holdID := h]> (sn_LegalHolds data)))
                  (adminAction st (lh_TenantID h) releasedBy "legal_hold.released" "legal_hold" holdID ""), true, h)
        end
  end.

(** ** restore.go *)

Definition RestoreStatusPendingApproval : string := "pending_approval".
Definition RestoreStatusApproved : string := "approved".
Definition RestoreStatusRejected : string := "rejected".

(** [replay] is the outcome of ReplayOperation, which only reads. *)
Definition restoreRequest (tenantID operationID reason : string) (replay : option error) : result unit :=
  requireTenantScope tenantID ;?
  guard_err (negb (bool_decide (operationID = "") || bool_decide (reason = ""))) (invalid "operation_id and reason are required") ;?
  match replay with Some e => Err e | None => Ok tt end.

Definition newRestoreRun (st : stamp) (tenantID operationID reason requestedBy : string) : RestoreRun :=
  mkRestoreRun (at_id st) tenantID operationID RestoreStatusPendingApproval reason requestedBy (at_now st) "" None "" None.

Definition createRestoreClosure (capN : Z) (st : stamp) (tenantID operationID reason requestedBy : string) (data : Snapshot)
    : result Snapshot :=
  let run := newRestoreRun st tenantID operationID reason requestedBy in
  Ok (appendAdminAction capN (set_sn_RestoreRuns data (<[rn_ID run := run]> (sn_RestoreRuns data)))
        (adminAction st tenantID requestedBy "restore.created" "restore" (rn_ID run) operationID)).

Definition decide_run (st : stamp) (actor : string) (approve : bool) (r : RestoreRun) : RestoreRun :=
  if approve then
    mkRestoreRun (rn_ID r) (rn_TenantID r) (rn_OperationID r) RestoreStatusApproved (rn_Reason r) (rn_CreatedBy r) (rn_CreatedAt r)
      actor (Some (at_now st)) (rn_RejectedBy r) (rn_RejectedAt r)
  else
    mkRestoreRun (rn_ID r) (rn_TenantID r) (rn_OperationID r) RestoreStatusRejected (rn_Reason r) (rn_CreatedBy r) (rn_CreatedAt r)
      (rn_ApprovedBy r) (rn_ApprovedAt r) actor (Some (at_now st)).

Definition transitionRestoreClosure (capN : Z) (st : stamp) (tenantID runID actor : string) (approve : bool) (data : Snapshot)
    : result (Snapshot * RestoreRun) :=
  match sn_RestoreRuns data !! runID with
  | None => Err (Sentinel ErrNotFound)
  | Some r =>
      if negb (bool_decide (rn_TenantID r = tenantID)) then Err (Sentinel ErrNotFound)
      else if negb (bool_decide (rn_Status r = RestoreStatusPendingApproval))
      then Err (Wrapf (Sentinel ErrConflict) "restore run is not pending approval")
      else if bool_decide (rn_CreatedBy r = actor) then Err (Sentinel ErrForbidden)
      else
        let r' := decide_run st actor approve r in
        Ok (set_sn_RestoreRuns
              (appendAdminAction capN data
                 (adminAction st (rn_TenantID r) actor (if approve then "restore.approved" else "restore.rejected")
                    "restore" runID (rn_OperationID r)))
              (<[runID := r']> (sn_RestoreRuns data)), r')
  end.

(** ** The operations *)

Inductive govOp : Type :=
  | CreateTenant (actor : string) (t : Tenant)
  | AddSource (actor : string) (s : SourceSystem)
  | UpdateSource (actor : string) (s : SourceSystem)
  | RegisterSchema (actor : string) (s : EventSchema)
  | SetRetentionPolicy (actor : string) (p : RetentionPolicy)
  | CreateLegalHold (h : LegalHold)
  | ReleaseLegalHold (tenantID holdID releasedBy : string)
  | CreateRestore (tenantID operationID reason requestedBy : string) (replay : option error)
  | ApproveRestore (tenantID runID actor : string)
  | RejectRestore (tenantID runID actor : string).

(** One operation on the current document: request checks, then the closure.
    An error leaves the document as it was. *)
Definition govern (capN : Z) (st : stamp) (op : govOp) (data : Snapshot) : result Snapshot :=
  match op with
  | CreateTenant actor t => tenantRequest t ;? createTenantClosure capN st actor t data
  | AddSource actor s =>
      requireTenantScope (so_TenantID s) ;?
      let? s := normalizeSource s in addSourceClosure capN st actor s data
  | UpdateSource actor s =>
      requireTenantScope (so_TenantID s) ;?
      let? s := normalizeSource s in updateSourceClosure capN st actor s data
  | RegisterSchema actor s => schemaRequest s ;? registerSchemaClosure capN st actor s data
  | SetRetentionPolicy actor p => policyRequest p ;? setRetentionPolicyClosure capN st actor p data
  | CreateLegalHold h => holdRequest h ;? createHoldClosure capN st (preparedHold st h) data
  | ReleaseLegalHold tenantID holdID releasedBy =>
      requireTenantScope tenantID ;?
      let? r := releaseHoldClosure capN st tenantID holdID releasedBy data in Ok (fst (fst r))
  | CreateRestore tenantID operationID reason requestedBy replay =>
      restoreRequest tenantID operationID reason replay ;?
      createRestoreClosure capN st tenantID operationID reason requestedBy data
  | ApproveRestore tenantID runID actor =>
      requireTenantScope tenantID ;?
      let? r := transitionRestoreClosure capN st tenantID runID actor true data in Ok (fst r)
  | RejectRestore tenantID runID actor =>
      requireTenantScope tenantID ;?
      let? r := transitionRestoreClosure capN st tenantID runID actor false data in Ok (fst r)
  end.

End Governance.
