(* ===== verification/GovernanceProps.v ===== *)
(** * What the governance control plane guarantees

    Over any sequence of operations: decisions are final and taken by someone
    else than the requester, registered schemas never lose required fields,
    every change is recorded in the bounded admin trail
    ([governance_decisions_final], [schema_versions_monotone],
    [changes_are_recorded]); and the listing is the newest part of the merged
    trails ([mergeAdminActions_newest]). *)

From Stdlib Require Import Ascii String Sorted.
From S2P Require Import Prelude GoStr Domain Keys Limits Store Integrity Governance.
Open Scope string_scope.
Open Scope Z_scope.
Import Domain Keys Limits Store Integrity Governance.

Module GovernanceProps.

(** ** Steps *)

(** A new restore run gets a new identifier. *)
Definition fresh_ids (st : stamp) (op : govOp) (data : Snapshot) : Prop :=
  match op with CreateRestore _ _ _ _ _ => sn_RestoreRuns data !! at_id st = None | _ => True end.

Inductive gstep (capN : Z) (data : Snapshot) : Snapshot -> Prop :=
  | gstep_op st op data' : fresh_ids st op data -> govern capN st op data = Ok data' -> gstep capN data data'.

(** The shape of every successful operation: one map of the document changes,
    and one admin fact is appended. *)
Inductive change (capN : Z) (st : stamp) (data : Snapshot) : Snapshot -> Prop :=
  | no_change : change capN st data data
  | new_tenant t fact : sn_Tenants data !! tn_ID t = None ->
      change capN st data (appendAdminAction capN (set_sn_Tenants data (<[tn_ID t := t]> (sn_Tenants data))) fact)
  | put_source key s fact :
      (forall old, sn_Sources data !! key = Some old -> so_CreatedAt s = so_CreatedAt old) ->
      change capN st data (appendAdminAction capN (set_sn_Sources data (<[key := s]> (sn_Sources data))) fact)
  | new_schema actor s data' : schemaRequest s = Ok tt -> registerSchemaClosure capN st actor s data = Ok data' ->
      change capN st data data'
  | put_policy p fact :
      change capN st data (appendAdminAction capN (set_sn_Policies data (<[rp_TenantID p := p]> (sn_Policies data))) fact)
  | new_hold h fact : sn_LegalHolds data !! lh_ID h = None ->
      change capN st data (appendAdminAction capN (set_sn_LegalHolds data (<[lh_ID h := h]> (sn_LegalHolds data))) fact)
  | released_hold id h h' fact : sn_LegalHolds data !! id = Some h -> lh_ReleasedAt h = None ->
      h' = mkLegalHold (lh_ID h) (lh_TenantID h) (lh_Name h) (lh_Reason h) (lh_Filter h) (lh_CreatedBy h) (lh_CreatedAt h)
             (lh_ReleasedAt h') (lh_ReleasedBy h') ->
      change capN st data (appendAdminAction capN (set_sn_LegalHolds data (<[id := h']> (sn_LegalHolds data))) fact)
  | new_run tenantID operationID reason requestedBy fact : sn_RestoreRuns data !! at_id st = None ->
      let run := newRestoreRun st tenantID operationID reason requestedBy in
      change capN st data (appendAdminAction capN (set_sn_RestoreRuns data (<[at_id st := run]> (sn_RestoreRuns data))) fact)
  | decided_run id r actor approve fact : sn_RestoreRuns data !! id = Some r ->
      rn_Status r = RestoreStatusPendingApproval -> rn_CreatedBy r <> actor ->
      change capN st data (set_sn_RestoreRuns (appendAdminAction capN data fact) (<[id := decide_run st actor approve r]> (sn_RestoreRuns data))).

Lemma transition_change capN st tenantID runID actor approve data data' r :
  transitionRestoreClosure capN st tenantID runID actor approve data = Ok (data', r) -> change capN st data data'.
Proof.
  unfold transitionRestoreClosure. destruct (sn_RestoreRuns data !! runID) as [run|] eqn:Hr; [|done].
  destruct (negb _); [done|]. destruct (decide (rn_Status run = RestoreStatusPendingApproval)) as [Hs|Hs];
    [rewrite bool_decide_eq_true_2 by done|by rewrite bool_decide_eq_false_2].
  simpl. destruct (decide (rn_CreatedBy run = actor)) as [Ha|Ha];
    [by rewrite bool_decide_eq_true_2|rewrite bool_decide_eq_false_2 by done].
  intros H. injection H as <- _. by apply decided_run.
Qed.

Lemma govern_change capN st op data data' :
  fresh_ids st op data -> govern capN st op data = Ok data' -> change capN st data data'.
Proof.
  intros Hf. destruct op; cbn [govern fresh_ids] in *.
  - destruct (tenantRequest t); [|done]. cbn [result_bind]. unfold createTenantClosure.
    destruct (sn_Tenants data !! tn_ID t) eqn:Ht; [done|]. intros H. injection H as <-.
    by apply (new_tenant capN st data (normalizeTenant st t)).
  - destruct (requireTenantScope _); [|done]. cbn [result_bind]. destruct (normalizeSource s) as [s'|]; [|done].
    cbn [result_bind]. unfold addSourceClosure. destruct (sn_Tenants data !! _); [|done].
    destruct (sn_Sources data !! _) eqn:Hs; [done|]. intros H. injection H as <-. apply put_source. congruence.
  - destruct (requireTenantScope _); [|done]. cbn [result_bind]. destruct (normalizeSource s) as [s'|]; [|done].
    cbn [result_bind]. unfold updateSourceClosure. destruct (sn_Tenants data !! _); [|done].
    destruct (sn_Sources data !! _) as [existing|] eqn:Hs; [|done]. intros H. injection H as <-. apply put_source.
    intros old Ho. simpl in Ho. rewrite Hs in Ho. injection Ho as <-. reflexivity.
  - destruct (schemaRequest s) as [[]|] eqn:Hreq; [|done]. cbn [result_bind]. intros H. by eapply new_schema.
  - destruct (policyRequest p); [|done]. cbn [result_bind]. unfold setRetentionPolicyClosure.
    destruct (sn_Tenants data !! _); [|done]. intros H. injection H as <-. apply put_policy.
  - destruct (holdRequest h); [|done]. cbn [result_bind]. unfold createHoldClosure.
    destruct (sn_Tenants data !! _); [|done]. destruct (sn_LegalHolds data !! _) eqn:Hh; [done|].
    intros H. injection H as <-. by apply new_hold.
  - destruct (requireTenantScope _); [|done]. cbn [result_bind]. unfold releaseHoldClosure.
    destruct (sn_LegalHolds data !! holdID) as [h|] eqn:Hh; [|done]. destruct (negb _); [done|].
    destruct (lh_ReleasedAt h) eqn:Hrel; cbn [result_bind fst]; intros H; injection H as <-; [constructor|].
    by eapply released_hold.
  - destruct (restoreRequest _ _ _ _); [|done]. cbn [result_bind]. intros H. injection H as <-. by apply new_run.
  - destruct (requireTenantScope _); [|done]. cbn [result_bind].
    destruct (transitionRestoreClosure _ _ _ _ _ _ _) as [[d r]|] eqn:Ht; [|done]. cbn [result_bind fst].
    intros H. injection H as <-. by eapply transition_change.
  - destruct (requireTenantScope _); [|done]. cbn [result_bind].
    destruct (transitionRestoreClosure _ _ _ _ _ _ _) as [[d r]|] eqn:Ht; [|done]. cbn [result_bind fst].
    intros H. injection H as <-. by eapply transition_change.
Qed.

(** ** Decisions *)

Definition hold_kept (h h' : LegalHold) : Prop :=
  (lh_ReleasedAt h <> None -> h' = h) /\
  lh_ID h' = lh_ID h /\ lh_TenantID h' = lh_TenantID h /\ lh_Name h' = lh_Name h /\ lh_Reason h' = lh_Reason h /\
  lh_Filter h' = lh_Filter h /\ lh_CreatedBy h' = lh_CreatedBy h /\ lh_CreatedAt h' = lh_CreatedAt h.

Definition run_kept (r r' : RestoreRun) : Prop :=
  (rn_Status r <> RestoreStatusPendingApproval -> r' = r) /\
  rn_ID r' = rn_ID r /\ rn_TenantID r' = rn_TenantID r /\ rn_OperationID r' = rn_OperationID r /\
  rn_Reason r' = rn_Reason r /\ rn_CreatedBy r' = rn_CreatedBy r /\ rn_CreatedAt r' = rn_CreatedAt r.

(** What later documents keep of an earlier one. *)
Record keeps (data data' : Snapshot) : Prop := {
  kp_tenants : sn_Tenants data ⊆ sn_Tenants data';
  kp_schemas : sn_Schemas data ⊆ sn_Schemas data';
  kp_sources : forall k s, sn_Sources data !! k = Some s ->
    exists s', sn_Sources data' !! k = Some s' /\ so_CreatedAt s' = so_CreatedAt s;
  kp_holds : forall k h, sn_LegalHolds data !! k = Some h ->
    exists h', sn_LegalHolds data' !! k = Some h' /\ hold_kept h h';
  kp_runs : forall k r, sn_RestoreRuns data !! k = Some r ->
    exists r', sn_RestoreRuns data' !! k = Some r' /\ run_kept r r'
}.

Lemma hold_kept_refl h : hold_kept h h.
Proof. unfold hold_kept. split_and!; done. Qed.
Lemma run_kept_refl r : run_kept r r.
Proof. unfold run_kept. split_and!; done. Qed.

Lemma gov_keeps_refl data : keeps data data.
Proof. split; eauto using hold_kept_refl, run_kept_refl. Qed.

Lemma gov_keeps_trans d1 d2 d3 : keeps d1 d2 -> keeps d2 d3 -> keeps d1 d3.
Proof.
  intros H12 H23. split.
  - etransitivity; [apply H12|apply H23].
  - etransitivity; [apply H12|apply H23].
  - intros k s (s2 & H2 & E2)%(kp_sources _ _ H12). destruct (kp_sources _ _ H23 _ _ H2) as (s3 & H3 & E3).
    exists s3. split; [done|congruence].
  - intros k h (h2 & H2 & K2)%(kp_holds _ _ H12). destruct (kp_holds _ _ H23 _ _ H2) as (h3 & H3 & K3).
    exists h3. split; [done|]. destruct K2 as (F2 & ?), K3 as (F3 & ?). split; [|split_and!; naive_solver congruence].
    intros Hr. rewrite <- (F2 Hr). apply F3. by rewrite (F2 Hr).
  - intros k r (r2 & H2 & K2)%(kp_runs _ _ H12). destruct (kp_runs _ _ H23 _ _ H2) as (r3 & H3 & K3).
    exists r3. split; [done|]. destruct K2 as (F2 & ?), K3 as (F3 & ?). split; [|split_and!; naive_solver congruence].
    intros Hs. rewrite <- (F2 Hs). apply F3. by rewrite (F2 Hs).
Qed.

(** The document without its admin facts decides [keeps]. *)
Lemma registerSchema_frame capN st actor s data data' :
  registerSchemaClosure capN st actor s data = Ok data' ->
  exists fact, let key := SchemaKey (sc_TenantID s) (sc_SchemaID s) (sc_Version s) in
    sn_Schemas data !! key = None /\
    maxVersionOf s (map_to_list (sn_Schemas data)).*2 <= sc_Version s /\
    (forall p, previousVersion s (map_to_list (sn_Schemas data)).*2 = Some p -> evolutionOk p s = Ok tt) /\
    data' = appendAdminAction capN (set_sn_Schemas data (<[key := activeSchema st s]> (sn_Schemas data))) fact /\
    aa_Actor fact = actor /\ aa_TenantID fact = sc_TenantID s.
Proof.
  unfold registerSchemaClosure. destruct (sn_Tenants data !! _); [|done].
  destruct (Z.ltb_spec (sc_Version s) (maxVersionOf s (map_to_list (sn_Schemas data)).*2)); [done|].
  destruct (sn_Schemas data !! _) eqn:Hk; [done|].
  destruct (previousVersion s _) as [p|] eqn:Hp.
  - destruct (evolutionOk p s) as [[]|] eqn:He; [|done]. cbn [result_bind]. intros H'. injection H' as <-.
    eexists. split_and!; try done. by intros p' [= <-].
  - cbn [result_bind]. intros H'. injection H' as <-. eexists. by split_and!.
Qed.

Lemma change_keeps capN st data data' : change capN st data data' -> keeps data data'.
Proof.
  destruct 1 as [|t fact Hn|key s fact Hold|actor s data' _ Hs|p fact|h fact Hn|id h h' fact Hh Hr Eh|t o r b fact Hn run|id r actor approve fact Hr Hs Ha];
    [apply gov_keeps_refl|..|].
  all: try (apply registerSchema_frame in Hs as (fact & Hk & _ & _ & -> & _)).
  all: split; cbn [sn_Tenants sn_Schemas sn_Sources sn_LegalHolds sn_RestoreRuns appendAdminAction set_sn_AdminActions
         set_sn_Tenants set_sn_Schemas set_sn_Sources set_sn_Policies set_sn_LegalHolds set_sn_RestoreRuns];
    try done; try (by apply insert_subseteq); try (intros ? ? ?; eexists; split; [done|]; auto using hold_kept_refl, run_kept_refl; done).
  - intros k s' Hk. destruct (decide (k = key)) as [->|]; [rewrite lookup_insert_eq|rewrite lookup_insert_ne by done]; eauto.
  - intros k h' Hk. rewrite lookup_insert_ne by congruence. eauto using hold_kept_refl.
  - intros k h0 Hk. destruct (decide (k = id)) as [->|]; [|rewrite lookup_insert_ne by done; eauto using hold_kept_refl].
    rewrite lookup_insert_eq. rewrite Hh in Hk. injection Hk as <-. exists h'. split; [done|].
    rewrite Eh. unfold hold_kept. split_and!; done.
  - intros k r0 Hk. rewrite lookup_insert_ne by congruence. eauto using run_kept_refl.
  - intros k r0 Hk. destruct (decide (k = id)) as [->|]; [|rewrite lookup_insert_ne by done; eauto using run_kept_refl].
    rewrite lookup_insert_eq. rewrite Hr in Hk. injection Hk as <-. eexists. split; [done|].
    unfold run_kept, decide_run. destruct approve; split_and!; done.
Qed.

(** A run waits for its decision, or carries exactly one, by another actor. *)
Definition run_ok (r : RestoreRun) : Prop :=
  (rn_Status r = RestoreStatusPendingApproval /\ rn_ApprovedAt r = None /\ rn_RejectedAt r = None) \/
  (rn_Status r = RestoreStatusApproved /\ rn_ApprovedBy r <> rn_CreatedBy r /\ is_Some (rn_ApprovedAt r) /\ rn_RejectedAt r = None) \/
  (rn_Status r = RestoreStatusRejected /\ rn_RejectedBy r <> rn_CreatedBy r /\ is_Some (rn_RejectedAt r) /\ rn_ApprovedAt r = None).

Definition runs_ok (data : Snapshot) : Prop := forall id r, sn_RestoreRuns data !! id = Some r -> run_ok r.

Lemma decide_run_ok st actor approve r :
  run_ok r -> rn_Status r = RestoreStatusPendingApproval -> rn_CreatedBy r <> actor -> run_ok (decide_run st actor approve r).
Proof.
  intros [(_ & Ha & Hr)|[(E & _)|(E & _)]] Hs Hne; [|by rewrite E in Hs..].
  unfold run_ok, decide_run. right. destruct approve; [left|right]; simpl; rewrite ?Ha, ?Hr; split_and!; eauto.
Qed.

Lemma change_runs_ok capN st data data' : change capN st data data' -> runs_ok data -> runs_ok data'.
Proof.
  intros Hc Hok. destruct Hc as [|t fact Hn|key s fact Hold|actor s data' _ Hs|p fact|h fact Hn|id h h' fact Hh Hr Eh|t o r b fact Hn run|id r actor approve fact Hr Hs Ha]; try exact Hok.
  - apply registerSchema_frame in Hs as (fact & _ & _ & _ & -> & _). exact Hok.
  - intros id r'. simpl. intros [[<- <-]|[_ ?]]%lookup_insert_Some; [left; split_and!; done|by eapply Hok].
  - intros id' r'. simpl. intros [[<- <-]|[_ ?]]%lookup_insert_Some; [|by eapply Hok].
    eapply decide_run_ok; [by eapply Hok|done..].
Qed.

Lemma gsteps capN (P : Snapshot -> Snapshot -> Prop) (I : Snapshot -> Prop) :
  (forall d, P d d) -> (forall d1 d2 d3, P d1 d2 -> P d2 d3 -> P d1 d3) ->
  (forall st d d', I d -> change capN st d d' -> P d d' /\ I d') ->
  forall data data', rtc (gstep capN) data data' -> I data -> P data data' /\ I data'.
Proof.
  intros Hrefl Htrans Hstep data data' H. induction H as [d|d1 d2 d3 [st op d2' Hf Hg] _ IH]; intros HI; [by split|].
  destruct (Hstep st d1 d2' HI) as [H1 H2]; [by eapply govern_change|]. destruct (IH H2) as [H3 H4]. eauto.
Qed.

(** C22: governance decisions are final and separated.  Over any sequence of
    governance operations, successful or refused: a restore run is decided at
    most once, by an actor other than the one who requested it, and a decided
    run never changes again; the first release of a legal hold stands and
    nothing else about a hold ever changes; tenants and schema versions are
    never altered or removed, and a source keeps its creation time. *)
Theorem governance_decisions_final (capN : Z) (data data' : Snapshot) :
  runs_ok data -> rtc (gstep capN) data data' ->
  runs_ok data' /\
  (forall id r, sn_RestoreRuns data !! id = Some r -> exists r', sn_RestoreRuns data' !! id = Some r' /\ run_kept r r') /\
  (forall id h, sn_LegalHolds data !! id = Some h -> exists h', sn_LegalHolds data' !! id = Some h' /\ hold_kept h h') /\
  sn_Tenants data ⊆ sn_Tenants data' /\ sn_Schemas data ⊆ sn_Schemas data' /\
  (forall k s, sn_Sources data !! k = Some s -> exists s', sn_Sources data' !! k = Some s' /\ so_CreatedAt s' = so_CreatedAt s).
Proof.
  intros Hok Hsteps.
  destruct (gsteps capN keeps runs_ok gov_keeps_refl gov_keeps_trans) with (3 := Hok) (2 := Hsteps) as [Hk Hok'].
  { intros st d d' Hd Hc. split; [by eapply change_keeps|by eapply change_runs_ok]. }
  split; [done|]. split; [apply Hk|]. split; [apply Hk|]. split; [apply Hk|]. split; [apply Hk|]. apply Hk.
Qed.

(** ** Schema evolution *)

(** The registered versions of one schema. *)
Definition same_id (s s' : EventSchema) : Prop := sc_TenantID s = sc_TenantID s' /\ sc_SchemaID s = sc_SchemaID s'.

Record schemas_ok (data : Snapshot) : Prop := {
  so_keyed : forall k s, sn_Schemas data !! k = Some s -> k = SchemaKey (sc_TenantID s) (sc_SchemaID s) (sc_Version s);
  so_grows : forall k k' s s', sn_Schemas data !! k = Some s -> sn_Schemas data !! k' = Some s' -> same_id s s' ->
    sc_Version s <= sc_Version s' -> sc_RequiredFields s ⊆ sc_RequiredFields s'
}.

Lemma sameSchema_spec s c : sameSchema s c = true <-> same_id c s.
Proof. unfold sameSchema, same_id. by rewrite andb_true_iff, !bool_decide_eq_true. Qed.

Lemma maxVersionOf_ge s l c : c ∈ l -> same_id c s -> sc_Version c <= maxVersionOf s l.
Proof.
  intros Hc Hid. unfold maxVersionOf.
  assert (forall l m, m <= foldl (fun maxVersion c => if sameSchema s c && (maxVersion <? sc_Version c) then sc_Version c else maxVersion) m l) as Hmono.
  { clear. induction l as [|c l IH]; intros m; simpl; [lia|].
    etransitivity; [|apply IH]. destruct (sameSchema s c); simpl; [|lia]. destruct (Z.ltb_spec m (sc_Version c)); lia. }
  generalize 0. induction l as [|c' l IH]; intros m; [by apply not_elem_of_nil in Hc|].
  apply elem_of_cons in Hc as [<-|Hc]; simpl; [|by apply IH].
  etransitivity; [|apply Hmono]. rewrite (proj2 (sameSchema_spec s c) Hid). simpl.
  destruct (Z.ltb_spec m (sc_Version c)); lia.
Qed.

(** The previous version is a newest one below. *)
Lemma previousVersion_spec s l c :
  c ∈ l -> same_id c s -> sc_Version c < sc_Version s ->
  exists p, previousVersion s l = Some p /\ p ∈ l /\ same_id p s /\ sc_Version c <= sc_Version p.
Proof.
  intros Hc Hid Hv. unfold previousVersion.
  set (step := fun (previous : option EventSchema) (c0 : EventSchema) => _).
  assert (forall l0 acc, (forall p, acc = Some p -> p ∈ l /\ same_id p s) -> (forall c0, c0 ∈ l0 -> c0 ∈ l) ->
    (forall p, foldl step acc l0 = Some p -> p ∈ l /\ same_id p s) /\
    (forall p, acc = Some p -> exists p', foldl step acc l0 = Some p' /\ sc_Version p <= sc_Version p') /\
    (forall c0, c0 ∈ l0 -> same_id c0 s -> sc_Version c0 < sc_Version s ->
       exists p', foldl step acc l0 = Some p' /\ sc_Version c0 <= sc_Version p')) as Hgen.
  { clear Hc Hid Hv c. induction l0 as [|c0 l0 IH]; intros acc Hacc Hsub; simpl.
    { split; [done|]. split; [intros p ->; eexists; split; [done|lia]|]. intros c0 Hc0. by apply not_elem_of_nil in Hc0. }
    assert (Hstep : forall p, step acc c0 = Some p -> p ∈ l /\ same_id p s).
    { intros p. unfold step. destruct (sameSchema s c0) eqn:Hs; simpl; [|apply Hacc].
      destruct (Z.ltb (sc_Version c0) (sc_Version s)); simpl; [|apply Hacc].
      destruct acc as [q|]; [destruct (sc_Version q <? sc_Version c0)|];
        try (intros [= <-]; split; [apply Hsub, elem_of_cons; by left|by apply sameSchema_spec]); by apply Hacc. }
    destruct (IH (step acc c0) Hstep) as (I1 & I2 & I3); [intros c1 Hc1; apply Hsub, elem_of_cons; by right|].
    split; [done|]. split.
    - intros p ->. assert (exists q, step (Some p) c0 = Some q /\ sc_Version p <= sc_Version q) as (q & Hq & Hle).
      { unfold step. destruct (sameSchema s c0 && (sc_Version c0 <? sc_Version s)); simpl; [|exists p; split; [done|lia]].
        destruct (Z.ltb_spec (sc_Version p) (sc_Version c0)); eexists; (split; [done|lia]). }
      destruct (I2 q Hq) as (p' & ? & ?). exists p'. split; [done|lia].
    - intros c1 Hc1 Hid1 Hv1. apply elem_of_cons in Hc1 as [->|Hc1]; [|by apply I3].
      assert (exists q, step acc c0 = Some q /\ sc_Version c0 <= sc_Version q) as (q & Hq & Hle).
      { unfold step. rewrite (proj2 (sameSchema_spec s c0) Hid1), (proj2 (Z.ltb_lt _ _) Hv1). simpl.
        destruct acc as [p|]; [destruct (Z.ltb_spec (sc_Version p) (sc_Version c0))|]; eexists; (split; [done|lia]). }
      destruct (I2 q Hq) as (p' & ? & ?). exists p'. split; [done|lia]. }
  destruct (Hgen l None) as (H1 & _ & H3); [done|done|].
  destruct (H3 c Hc Hid Hv) as (p & Hp & Hle). exists p. destruct (H1 p Hp). by split_and!.
Qed.

Definition grows (data data' : Snapshot) : Prop :=
  sn_Schemas data ⊆ sn_Schemas data' /\
  forall k k' s s', sn_Schemas data !! k = Some s -> sn_Schemas data' !! k' = Some s' -> sn_Schemas data !! k' = None ->
    same_id s s' -> sc_Version s < sc_Version s'.

Lemma grows_refl d : grows d d.
Proof. split; [done|]. congruence. Qed.

Lemma grows_trans d1 d2 d3 : grows d1 d2 -> grows d2 d3 -> grows d1 d3.
Proof.
  intros [S12 N12] [S23 N23]. split; [by etransitivity|]. intros k k' s s' Hs Hs' Hnone Hid.
  destruct (sn_Schemas d2 !! k') as [s2|] eqn:H2.
  - pose proof (lookup_weaken _ _ _ _ H2 S23) as H3. rewrite Hs' in H3. injection H3 as <-. by eapply N12.
  - eapply N23; [eapply lookup_weaken; [exact Hs|exact S12]|done..].
Qed.

(** Registering a version above the others keeps the order. *)
Lemma register_grows capN st actor s data data' :
  schemas_ok data -> registerSchemaClosure capN st actor s data = Ok data' -> grows data data' /\ schemas_ok data'.
Proof.
  intros Hok Hreg. apply registerSchema_frame in Hreg as (fact & Hkey & Hmax & Hevo & -> & _).
  set (key := SchemaKey (sc_TenantID s) (sc_SchemaID s) (sc_Version s)) in *.
  assert (Hlist : forall k c, sn_Schemas data !! k = Some c -> c ∈ (map_to_list (sn_Schemas data)).*2).
  { intros k c Hc. apply list_elem_of_fmap. exists (k, c). by rewrite elem_of_map_to_list. }
  assert (Hbelow : forall k c, sn_Schemas data !! k = Some c -> same_id c s -> sc_Version c < sc_Version s).
  { intros k c Hc Hid. pose proof (maxVersionOf_ge s _ c (Hlist _ _ Hc) Hid).
    destruct (decide (sc_Version c = sc_Version s)) as [Ev|]; [|lia].
    pose proof (so_keyed _ Hok _ _ Hc) as Hk. destruct Hid as [E1 E2]. rewrite E1, E2, Ev in Hk. subst k.
    unfold key in Hkey. by rewrite Hc in Hkey. }
  assert (Hreq : forall k c, sn_Schemas data !! k = Some c -> same_id c s -> sc_RequiredFields c ⊆ sc_RequiredFields s).
  { intros k c Hc Hid. destruct (previousVersion_spec s _ c (Hlist _ _ Hc) Hid (Hbelow _ _ Hc Hid)) as (p & Hp & Hin & Hidp & Hle).
    apply list_elem_of_fmap in Hin as ([kp p'] & -> & Hinp%elem_of_map_to_list). simpl in *.
    assert (sc_RequiredFields c ⊆ sc_RequiredFields p') as H1.
    { eapply (so_grows _ Hok k kp); [done|done| |done]. destruct Hid, Hidp. split; congruence. }
    pose proof (Hevo _ Hp) as He. unfold evolutionOk, guard_err in He.
    destruct (forallb _ (sc_RequiredFields p')) eqn:Hall; [|done].
    etransitivity; [exact H1|]. intros f Hf. apply forallb_forall with (x := f) in Hall; [|by apply list_elem_of_In].
    by apply bool_decide_eq_true in Hall. }
  split; [split|split]; cbn [sn_Schemas appendAdminAction set_sn_AdminActions set_sn_Schemas].
  - by apply insert_subseteq.
  - intros k k' c c' Hc [[<- <-]|[_ Hc']]%lookup_insert_Some Hnone Hid; [by eapply Hbelow|congruence].
  - intros k c [[<- <-]|[_ Hc]]%lookup_insert_Some; [done|by apply (so_keyed _ Hok)].
  - intros k k' c c' [[<- <-]|[_ Hc]]%lookup_insert_Some [[<- <-]|[_ Hc']]%lookup_insert_Some Hid Hle.
    + done.
    + assert (sc_Version c' < sc_Version s) by (eapply Hbelow; [done|]; destruct Hid; split; simpl in *; congruence).
      simpl in Hle. lia.
    + eapply Hreq; [done|]. destruct Hid; split; simpl in *; congruence.
    + by eapply (so_grows _ Hok).
Qed.

Lemma schemas_same d d' : sn_Schemas d' = sn_Schemas d -> schemas_ok d -> grows d d' /\ schemas_ok d'.
Proof.
  intros E [H1 H2]. unfold grows. split; [|split]; rewrite E; [|done|done]. split; [done|congruence].
Qed.

Lemma change_grows capN st data data' : schemas_ok data -> change capN st data data' -> grows data data' /\ schemas_ok data'.
Proof.
  intros Hok Hc. destruct Hc as [|t fact Hn|key s fact Hold|actor s data' _ Hs|p fact|h fact Hn|id h h' fact Hh Hr Eh|t o r b fact Hn run|id r actor approve fact Hr Hs Ha];
    try (by apply schemas_same). by eapply register_grows.
Qed.

(** Schema versions only move forward.  Over any sequence of governance
    operations a version is registered under its own key, above every version
    registered before it for the same tenant and schema, and its required
    fields include those of all of them; registered versions stay. *)
Theorem schema_versions_monotone (capN : Z) (data data' : Snapshot) :
  schemas_ok data -> rtc (gstep capN) data data' ->
  sn_Schemas data ⊆ sn_Schemas data' /\
  (forall k s, sn_Schemas data' !! k = Some s -> k = SchemaKey (sc_TenantID s) (sc_SchemaID s) (sc_Version s)) /\
  (forall k k' s s', sn_Schemas data !! k = Some s -> sn_Schemas data' !! k' = Some s' -> sn_Schemas data !! k' = None ->
     same_id s s' -> sc_Version s < sc_Version s') /\
  (forall k k' s s', sn_Schemas data' !! k = Some s -> sn_Schemas data' !! k' = Some s' -> same_id s s' ->
     sc_Version s <= sc_Version s' -> sc_RequiredFields s ⊆ sc_RequiredFields s').
Proof.
  intros Hok Hsteps.
  destruct (gsteps capN grows schemas_ok grows_refl grows_trans) with (3 := Hok) (2 := Hsteps) as [[H1 H2] [H3 H4]].
  { intros st d d' Hd Hc. by eapply change_grows. }
  by split_and!.
Qed.

(** ** The admin trail *)

Definition actorOf (op : govOp) : string :=
  match op with
  | CreateTenant actor _ | AddSource actor _ | UpdateSource actor _ | RegisterSchema actor _ | SetRetentionPolicy actor _ => actor
  | CreateLegalHold h => lh_CreatedBy h
  | ReleaseLegalHold _ _ actor | CreateRestore _ _ _ actor _ | ApproveRestore _ _ actor | RejectRestore _ _ actor => actor
  end.

(** The newest facts of a list that the cap admits. *)
Definition newest (capN : Z) (l : list AdminAction) : list AdminAction := drop (length l - Z.to_nat capN) l.

Lemma appendAdminAction_actions capN data fact :
  0 < capN -> sn_AdminActions (appendAdminAction capN data fact) = newest capN (sn_AdminActions data ++ [fact])%list.
Proof.
  intros Hc. unfold appendAdminAction, newest. simpl.
  destruct (Z.ltb_spec 0 capN); [|lia].
  destruct (Z.ltb_spec capN (Z.of_nat (length (sn_AdminActions data ++ [fact])))); simpl; [f_equal; lia|].
  replace (_ - _)%nat with 0%nat by lia. done.
Qed.

Ltac recorded := let H := fresh in intros H; injection H as <-; right; eexists _, _; split; [|split; [|split; [|split]]];
  [| | | |reflexivity]; reflexivity.

Lemma recorded_fact capN st op data data' :
  govern capN st op data = Ok data' ->
  data' = data \/
  exists fact data0, sn_AdminActions data0 = sn_AdminActions data /\ aa_Actor fact = actorOf op /\ aa_ID fact = at_admin_id st /\
    aa_CreatedAt fact = at_admin st /\ sn_AdminActions data' = sn_AdminActions (appendAdminAction capN data0 fact).
Proof.
  destruct op; cbn [govern].
  - destruct (tenantRequest t); [|done]. cbn [result_bind]. unfold createTenantClosure.
    destruct (sn_Tenants data !! _); [done|]. recorded.
  - destruct (requireTenantScope _); [|done]. cbn [result_bind]. destruct (normalizeSource s) as [s'|]; [|done].
    cbn [result_bind]. unfold addSourceClosure. destruct (sn_Tenants data !! _); [|done].
    destruct (sn_Sources data !! _); [done|]. recorded.
  - destruct (requireTenantScope _); [|done]. cbn [result_bind]. destruct (normalizeSource s) as [s'|]; [|done].
    cbn [result_bind]. unfold updateSourceClosure. destruct (sn_Tenants data !! _); [|done].
    destruct (sn_Sources data !! _); [|done]. recorded.
  - destruct (schemaRequest s) as [[]|]; [|done]. cbn [result_bind]. unfold registerSchemaClosure.
    destruct (sn_Tenants data !! _); [|done]. destruct (_ <? _); [done|]. destruct (sn_Schemas data !! _); [done|].
    destruct (match previousVersion s _ with Some p => evolutionOk p s | None => Ok tt end); [|done]. cbn [result_bind]. recorded.
  - destruct (policyRequest p); [|done]. cbn [result_bind]. unfold setRetentionPolicyClosure.
    destruct (sn_Tenants data !! _); [|done]. recorded.
  - destruct (holdRequest h); [|done]. cbn [result_bind]. unfold createHoldClosure.
    destruct (sn_Tenants data !! _); [|done]. destruct (sn_LegalHolds data !! _); [done|]. recorded.
  - destruct (requireTenantScope _); [|done]. cbn [result_bind]. unfold releaseHoldClosure.
    destruct (sn_LegalHolds data !! holdID) as [h|]; [|done]. destruct (negb _); [done|].
    destruct (lh_ReleasedAt h); cbn [result_bind fst]; [intros H; injection H as <-; by left|]. recorded.
  - destruct (restoreRequest _ _ _ _); [|done]. cbn [result_bind]. recorded.
  - destruct (requireTenantScope _); [|done]. cbn [result_bind]. unfold transitionRestoreClosure.
    destruct (sn_RestoreRuns data !! runID); [|done]. destruct (negb _); [done|]. destruct (negb _); [done|].
    destruct (bool_decide _); [done|]. cbn [result_bind fst]. recorded.
  - destruct (requireTenantScope _); [|done]. cbn [result_bind]. unfold transitionRestoreClosure.
    destruct (sn_RestoreRuns data !! runID); [|done]. destruct (negb _); [done|]. destruct (negb _); [done|].
    destruct (bool_decide _); [done|]. cbn [result_bind fst]. recorded.
Qed.

(** Every governance change leaves its trace.  A successful operation
    either changes nothing, or appends to the admin facts, in the same commit,
    one fact with the operation's actor and its own identifier and time; the
    facts kept are the newest ones the configured cap admits, so the new fact
    is always among them and the document never holds more. *)
Theorem changes_are_recorded (capN : Z) (st : stamp) (op : govOp) (data data' : Snapshot) :
  0 < capN -> fresh_ids st op data -> govern capN st op data = Ok data' ->
  data' = data \/
  exists fact, aa_Actor fact = actorOf op /\ aa_ID fact = at_admin_id st /\ aa_CreatedAt fact = at_admin st /\
    sn_AdminActions data' = newest capN (sn_AdminActions data ++ [fact])%list /\
    last (sn_AdminActions data') = Some fact /\ Z.of_nat (length (sn_AdminActions data')) <= capN.
Proof.
  intros Hcap Hf Hg. destruct (recorded_fact capN st op data data' Hg) as [->|(fact & data0 & E0 & Ea & Ei & Et & E)]; [by left|].
  right. exists fact. rewrite E, appendAdminAction_actions, E0 by done. split_and!; try done.
  - unfold newest. rewrite drop_app_le; [apply last_snoc|]. rewrite length_app. simpl. lia.
  - unfold newest. rewrite length_drop. lia.
Qed.

(** ** The merged listing *)

(** The whole merge, newest first. *)
Fixpoint mergeNewest (snapshot trail : list AdminAction) (fuel : nat) : list AdminAction :=
  match fuel with
  | O => []
  | S fuel =>
      match snapshot, trail with
      | [], [] => []
      | s :: snapshot', t :: trail' =>
          if negb (time_Before (aa_CreatedAt t) (aa_CreatedAt s)) then t :: mergeNewest snapshot trail' fuel
          else s :: mergeNewest snapshot' trail fuel
      | s :: snapshot', [] => s :: mergeNewest snapshot' [] fuel
      | [], t :: trail' => t :: mergeNewest [] trail' fuel
      end
  end.

Lemma mergeLoop_take matches limit snapshot trail fuel :
  (0 < limit)%nat ->
  mergeLoop matches limit snapshot trail fuel = take limit (List.filter matches (mergeNewest snapshot trail fuel)).
Proof.
  revert limit snapshot trail. induction fuel as [|fuel IH]; intros limit snapshot trail Hl; [by destruct limit|].
  destruct limit as [|[|limit]]; [lia|..].
  all: destruct snapshot as [|s snapshot], trail as [|t trail]; simpl; [done|..];
    try destruct (negb (time_Before (aa_CreatedAt t) (aa_CreatedAt s))); simpl;
    destruct (matches _) eqn:Hm; simpl; rewrite ?IH by lia; simpl; rewrite ?take_0; done.
Qed.

Lemma mergeNewest_perm snapshot trail fuel :
  (length snapshot + length trail <= fuel)%nat -> mergeNewest snapshot trail fuel ≡ₚ (snapshot ++ trail)%list.
Proof.
  revert snapshot trail. induction fuel as [|fuel IH]; intros [|s snapshot] [|t trail] Hf; simpl in *; try lia; try done.
  - by rewrite IH by (simpl; lia).
  - by rewrite IH by (simpl; lia).
  - destruct (negb _).
    + rewrite IH by (simpl; lia). apply (Permutation_middle (s :: snapshot) trail t).
    + by rewrite IH by (simpl; lia).
Qed.

(** Newest first. *)
Definition later (a b : AdminAction) : Prop := aa_CreatedAt b <= aa_CreatedAt a.

Lemma mergeNewest_sorted snapshot trail fuel :
  (length snapshot + length trail <= fuel)%nat ->
  StronglySorted later snapshot -> StronglySorted later trail -> StronglySorted later (mergeNewest snapshot trail fuel).
Proof.
  revert snapshot trail. induction fuel as [|fuel IH]; intros [|s snapshot] [|t trail] Hf Hs Ht; simpl in *; try lia; try constructor.
  - apply IH; [simpl; lia|done|by inversion Ht].
  - rewrite mergeNewest_perm by (simpl; lia). by inversion Ht.
  - apply IH; [simpl; lia|by inversion Hs|done].
  - rewrite mergeNewest_perm by (simpl; lia). rewrite app_nil_r. by inversion Hs.
  - inversion Hs as [|? ? Hs1 Hs2]; inversion Ht as [|? ? Ht1 Ht2]; subst.
    unfold time_Before. destruct (Z.ltb_spec (aa_CreatedAt t) (aa_CreatedAt s)); simpl; constructor.
    + apply IH; [simpl; lia|done|done].
    + rewrite mergeNewest_perm by (simpl; lia). apply Forall_app. split; [done|].
      constructor; [unfold later; lia|]. eapply Forall_impl; [exact Ht2|]. unfold later. intros a ?. lia.
    + apply IH; [simpl; lia|done|done].
    + rewrite mergeNewest_perm by (simpl; lia). constructor; [unfold later; lia|]. apply Forall_app. split; [|done].
      eapply Forall_impl; [exact Hs2|]. unfold later. intros a ?. lia.
Qed.

(** The admin listing is what a full merge would show.  For facts in time
    order, with at most [limit] (at least one) requested, mergeAdminActions
    returns the first [limit] matching entries of one list that contains every
    mutation fact and every read fact exactly once, newest first: filtering
    happens before the limit and nothing newer is left out. *)
Theorem mergeAdminActions_newest (snapshot trail : list AdminAction) (tenantID : string) (platform : bool) (limit : Z) :
  0 < limit -> StronglySorted later (rev snapshot) -> StronglySorted later trail ->
  exists merged, merged ≡ₚ (snapshot ++ trail)%list /\ StronglySorted later merged /\
    mergeAdminActions snapshot trail tenantID platform limit =
      take (Z.to_nat limit) (List.filter (actionMatches tenantID platform) merged).
Proof.
  intros Hl Hs Ht. exists (mergeNewest (rev snapshot) trail (length snapshot + length trail)).
  assert (length (rev snapshot) + length trail <= length snapshot + length trail)%nat by by rewrite length_rev.
  split_and!.
  - rewrite mergeNewest_perm by done. apply Permutation_app_tail. symmetry. apply Permutation_rev.
  - by apply mergeNewest_sorted.
  - apply mergeLoop_take. lia.
Qed.

(** ** A run *)

Definition freshb (st : stamp) (op : govOp) (data : Snapshot) : bool :=
  match op with CreateRestore _ _ _ _ _ => bool_decide (sn_RestoreRuns data !! at_id st = None) | _ => true end.

(** A sequence of calls; a refused call leaves the document. *)
Fixpoint governAll (capN : Z) (ops : list (stamp * govOp)) (data : Snapshot) : option Snapshot :=
  match ops with
  | [] => Some data
  | (st, op) :: ops =>
      if freshb st op data then
        governAll capN ops (match govern capN st op data with Ok data' => data' | Err _ => data end)
      else None
  end.

Lemma governAll_steps capN ops data data' : governAll capN ops data = Some data' -> rtc (gstep capN) data data'.
Proof.
  revert data. induction ops as [|[st op] ops IH]; intros data; simpl; [by intros [= <-]|].
  destruct (freshb st op data) eqn:Hf; [|done].
  assert (fresh_ids st op data) by (destruct op; try done; by apply bool_decide_eq_true in Hf).
  intros H'%IH. destruct (govern capN st op data) eqn:Hg; [|done].
  eapply rtc_l; [by econstructor|done].
Qed.

Definition govStamp (n : Z) : stamp := mkstamp n n ("id" ++ Itoa n) ("admin" ++ Itoa n).
Definition govTenant : Tenant := mkTenant "t1" "Tenant" "eu" "eu" true 10 10 1.
Definition govSchema (version : Z) (required : list string) : EventSchema :=
  mkEventSchema "t1" "sch" version "invoice.paid" required [] [] [] "internal" true 1.
Definition govHold : LegalHold := mkLegalHold "h1" "t1" "case" "litigation" zero_Query "dana" 1 None "".

(** A tenant, two schema versions, a hold and a restore run. *)
Definition govSetup : list (stamp * govOp) :=
  [(govStamp 1, CreateTenant "root" govTenant);
   (govStamp 2, RegisterSchema "root" (govSchema 1 ["a"]));
   (govStamp 3, CreateLegalHold govHold);
   (govStamp 4, CreateRestore "t1" "op1" "undo" "bob" None)].
(** Self approval, approval, a late rejection, a rollback, two releases. *)
Definition govRest : list (stamp * govOp) :=
  [(govStamp 5, ApproveRestore "t1" "id4" "bob");
   (govStamp 6, ApproveRestore "t1" "id4" "carol");
   (govStamp 7, RejectRestore "t1" "id4" "dave");
   (govStamp 8, RegisterSchema "root" (govSchema 2 ["b"]));
   (govStamp 9, RegisterSchema "root" (govSchema 2 ["a"; "b"]));
   (govStamp 10, ReleaseLegalHold "t1" "h1" "erin");
   (govStamp 11, ReleaseLegalHold "t1" "h1" "frank")].
Definition govMiddle : Snapshot := default NewSnapshot (governAll 5 govSetup NewSnapshot).
Definition govEnd : Snapshot := default NewSnapshot (governAll 5 govRest govMiddle).

Lemma gov_steps : rtc (gstep 5) govMiddle govEnd.
Proof. apply (governAll_steps 5 govRest). vm_compute. reflexivity. Qed.

Example gov_end :
  (rn_ApprovedBy <$> sn_RestoreRuns govEnd !! "id4") = Some "carol" /\
  (lh_ReleasedBy <$> sn_LegalHolds govEnd !! "h1") = Some "erin" /\
  size (sn_Schemas govEnd) = 2%nat /\ aa_Action <$> sn_AdminActions govEnd =
    ["legal_hold.created"; "restore.created"; "restore.approved"; "schema.created"; "legal_hold.released"].
Proof. vm_compute. split_and!; reflexivity. Qed.

Lemma governance_decisions_final_witness :
  runs_ok govEnd /\ sn_Tenants govMiddle ⊆ sn_Tenants govEnd.
Proof.
  assert (runs_ok govMiddle) as Hok.
  { intros id r Hr. apply (map_Forall_lookup_1 (fun _ r => run_ok r) (sn_RestoreRuns govMiddle) id r); [|exact Hr].
    assert (sn_RestoreRuns govMiddle = {["id4" := newRestoreRun (govStamp 4) "t1" "op1" "undo" "bob"]}) as -> by (vm_compute; reflexivity).
    apply map_Forall_singleton. left. split_and!; reflexivity. }
  destruct (governance_decisions_final 5 govMiddle govEnd Hok gov_steps) as (H1 & _ & _ & H2 & _). by split.
Defined.

Lemma gov_schemas : schemas_ok govMiddle.
Proof.
  assert (sn_Schemas govMiddle = {[SchemaKey "t1" "sch" 1 := activeSchema (govStamp 2) (govSchema 1 ["a"])]}) as E by (vm_compute; reflexivity).
  split; rewrite E.
  - intros k s [<- <-]%lookup_singleton_Some. reflexivity.
  - intros k k' s s' [<- <-]%lookup_singleton_Some [<- <-]%lookup_singleton_Some. done.
Qed.

Lemma schema_versions_monotone_witness : sn_Schemas govMiddle ⊆ sn_Schemas govEnd.
Proof. exact (proj1 (schema_versions_monotone 5 govMiddle govEnd gov_schemas gov_steps)). Defined.

Definition govApproved : Snapshot :=
  match govern 5 (govStamp 6) (ApproveRestore "t1" "id4" "carol") govMiddle with Ok d => d | Err _ => govMiddle end.

Lemma changes_are_recorded_witness :
  govApproved = govMiddle \/
  exists fact, aa_Actor fact = "carol" /\ aa_ID fact = "admin6" /\ last (sn_AdminActions govApproved) = Some fact.
Proof.
  destruct (changes_are_recorded 5 (govStamp 6) (ApproveRestore "t1" "id4" "carol") govMiddle govApproved)
    as [E|(fact & Ea & Ei & _ & _ & El & _)]; [lia|exact I|vm_compute; reflexivity|by left|right].
  exists fact. split; [exact Ea|]. split; [|exact El]. rewrite Ei. vm_compute. reflexivity.
Defined.

Definition factAt (id : string) (t : time) : AdminAction := mkAdminAction id "t1" "a" "audit.event.read" "" "" "" t.

Lemma mergeAdminActions_newest_witness :
  exists merged, merged ≡ₚ [factAt "s1" 1; factAt "s2" 4; factAt "r2" 5; factAt "r1" 2] /\ StronglySorted later merged /\
    mergeAdminActions [factAt "s1" 1; factAt "s2" 4] [factAt "r2" 5; factAt "r1" 2] "t1" false 3 =
      take 3 (List.filter (actionMatches "t1" false) merged).
Proof.
  apply (mergeAdminActions_newest [factAt "s1" 1; factAt "s2" 4] [factAt "r2" 5; factAt "r1" 2] "t1" false 3).
  - lia.
  - repeat constructor; unfold later; simpl; lia.
  - repeat constructor; unfold later; simpl; lia.
Defined.

End GovernanceProps.
