(* ===== verification/Holds.v ===== *)
(** * Queries, legal holds and retention (internal/service: query_match.go,
    export.go, export_checkpoint_hold.go, service.go EvaluateRetention)

    Which events a query selects, which legal holds block an export of them,
    and which events a retention policy calls eligible.  [SearchDigest] is the
    unbound HMAC digest of the security package for the configured key; the
    bound one is part of [FieldCrypto]. *)

From Stdlib Require Import Ascii String.
From S2P Require Import Prelude GoStr Sha256 Signer Domain Keys Store Evidence Integrity TenantIngest Governance.
Open Scope string_scope.
Open Scope Z_scope.
Import Domain Keys Store Signer Evidence Integrity TenantIngest Governance.

Module Holds.

Section service.
Context {crypto : FieldCrypto} {archive : ArchiveReader}.
Variable SearchDigest : value -> result string.
Variable legacyDigest : Event -> result string.

(** ** query_match.go *)

Definition searchDigestPrefix : string := "sd2:".
Definition IsBoundSearchDigest (digest : string) : bool := String.prefix searchDigestPrefix digest.

Definition hasTarget (e : Event) (targetID : string) : bool := existsb (fun t => bool_decide (tg_ID t = targetID)) (ev_Targets e).

Definition payloadOf (e : Event) : gmap string value := default ∅ (ev_Payload e).

(** The digest of a plaintext in the format of the query. *)
Definition queryDigest (digest : string) (v : value) (tenantID field : string) : result string :=
  if IsBoundSearchDigest digest then SearchDigestBound v tenantID field else SearchDigest v.

Definition digestMatches (e : Event) (q : Query) (schemas : gmap string EventSchema) : bool :=
  match payloadOf e !! (qy_PayloadField q ++ SearchDigestSuffix) with
  | Some (VString stored) =>
      if Bool.eqb (IsBoundSearchDigest stored) (IsBoundSearchDigest (qy_PayloadDigest q))
      then bool_decide (stored = qy_PayloadDigest q)
      else
        match schemas !! SchemaKey (ev_TenantID e) (ev_SchemaID e) (ev_SchemaVersion e) with
        | None => false
        | Some schema =>
            if containsString (sc_EncryptedFields schema) (qy_PayloadField q) then false
            else
              match payloadOf e !! qy_PayloadField q with
              | None => false
              | Some v =>
                  match queryDigest (qy_PayloadDigest q) v (ev_TenantID e) (qy_PayloadField q) with
                  | Ok derived => bool_decide (derived = qy_PayloadDigest q)
                  | Err _ => false
                  end
              end
        end
  | _ => false
  end.

(** An empty filter field selects everything. *)
Definition wants (wanted actual : string) : bool := bool_decide (wanted = "") || bool_decide (actual = wanted).

Definition matches (e : Event) (q : Query) (schemas : gmap string EventSchema) : bool :=
  negb (time_Before (ev_OccurredAt e) (qy_From q) || negb (time_Before (ev_OccurredAt e) (qy_To q))) &&
  wants (qy_EventType q) (ev_EventType e) &&
  wants (qy_SourceSystem q) (ev_SourceSystem e) &&
  wants (qy_ActorID q) (ac_ID (ev_Actor e)) &&
  (bool_decide (qy_TargetID q = "") || hasTarget e (qy_TargetID q)) &&
  wants (qy_AggregateType q) (ev_AggregateType e) &&
  wants (qy_AggregateID q) (ev_AggregateID e) &&
  wants (qy_OperationID q) (ev_OperationID e) &&
  wants (qy_CausationID q) (ev_CausationID e) &&
  wants (qy_CorrelationID q) (ev_CorrelationID e) &&
  wants (qy_TraceID q) (ev_TraceID e) &&
  wants (qy_Outcome q) (ev_Outcome e) &&
  (bool_decide (qy_PayloadField q = "") || digestMatches e q schemas) &&
  wants (qy_StreamID q) (ev_StreamID e).

Definition holdMatchesEvent (h : LegalHold) (e : Event) (schemas : gmap string EventSchema) : bool :=
  let f := lh_Filter h in
  if time_IsZero (qy_From f) && time_IsZero (qy_To f) then true
  else if time_IsZero (qy_From f) || time_IsZero (qy_To f) then false
  else matches e f schemas.

Definition holdCanSelectAnySelected (h : LegalHold) (q : Query) : bool :=
  let f := lh_Filter h in
  if time_IsZero (qy_From f) && time_IsZero (qy_To f) then true
  else if time_IsZero (qy_From f) || time_IsZero (qy_To f) then false
  else if time_IsZero (qy_From q) || time_IsZero (qy_To q) || negb (time_Before (qy_From q) (qy_To q)) then true
  else if negb (time_Before (qy_From f) (qy_To f)) then true
  else time_Before (qy_From f) (qy_To q) && time_Before (qy_From q) (qy_To f).

Definition appendUnique (values : list string) (wanted : string) : list string :=
  if containsString values wanted then values else (values ++ [wanted])%list.

(** ** export.go: the gate on the snapshot *)

Definition hold_leb (a b : LegalHold) : bool := str_leb (lh_ID a) (lh_ID b).

Definition activeHold (tenantID : string) (h : LegalHold) : bool :=
  bool_decide (lh_TenantID h = tenantID) && bool_decide (lh_ReleasedAt h = None).

Definition holdBlockingCandidates (data : Snapshot) (tenantID : string) (q : Query) : list LegalHold :=
  stable_sort hold_leb
    (List.filter (fun h => activeHold tenantID h && holdCanSelectAnySelected h q) (map_to_list (sn_LegalHolds data)).*2).

(** The two nested loops. *)
Fixpoint firstBlocking (schemas : gmap string EventSchema) (events : list Event) (holds : list LegalHold) : option LegalHold :=
  match holds with
  | [] => None
  | h :: holds =>
      if existsb (fun e => holdMatchesEvent h e schemas) events then Some h else firstBlocking schemas events holds
  end.

Definition holdBlockingExport (data : Snapshot) (tenantID : string) (q : Query) : result (option LegalHold) :=
  match holdBlockingCandidates data tenantID q with
  | [] => Ok None
  | holds =>
      let? events := resolveSnapshotEvents data tenantID (fun e => matches e q (sn_Schemas data)) true in
      Ok (firstBlocking (sn_Schemas data) events holds)
  end.

(** ** query_evidence.go and export_checkpoint_hold.go: the gate on evidence *)

Definition resolveQueryEvidence (hot : option Event) (r : EventReceipt) (schemas : gmap string EventSchema) : result Event :=
  let? e := match hot with Some e => Ok e | None => archivedEventContext r end in
  let mismatch := Wrapf (Sentinel ErrConflict) "query evidence exact schema identity mismatch" in
  match schemas !! SchemaKey (ev_TenantID e) (ev_SchemaID e) (ev_SchemaVersion e) with
  | None => Err mismatch
  | Some schema =>
      guard_err (bool_decide (sc_TenantID schema = ev_TenantID e) && bool_decide (sc_SchemaID schema = ev_SchemaID e)
                 && (sc_Version schema =? ev_SchemaVersion e)) mismatch ;?
      validatePublicationEvent legacyDigest e r schemas ;? Ok e
  end.

Definition matchesExportHoldEvidence (source : Event) (schema : EventSchema) (q : Query) : result bool :=
  let q' := mkQuery (qy_From q) (qy_To q) (qy_EventType q) (qy_SourceSystem q) (qy_ActorID q) (qy_TargetID q) (qy_AggregateType q)
              (qy_AggregateID q) (qy_OperationID q) (qy_CausationID q) (qy_CorrelationID q) (qy_TraceID q) (qy_Outcome q) "" ""
              (qy_StreamID q) (qy_Cursor q) (qy_PageSize q) in
  if negb (matches source q' ∅) then Ok false
  else if bool_decide (qy_PayloadField q = "") then Ok true
  else
    match payloadOf source !! qy_PayloadField q with
    | None => Ok false
    | Some v =>
        if negb (containsString (sc_SearchableFields schema) (qy_PayloadField q)) then Ok false
        else
          let? derived := queryDigest (qy_PayloadDigest q) v (ev_TenantID source) (qy_PayloadField q) in
          Ok (bool_decide (derived = qy_PayloadDigest q))
    end.

(** One hold against one authenticated source event. *)
Definition holdCovers (source : Event) (schema : EventSchema) (h : LegalHold) : result bool :=
  let f := lh_Filter h in
  if time_IsZero (qy_From f) && time_IsZero (qy_To f) then Ok true
  else if negb (time_IsZero (qy_From f)) && negb (time_IsZero (qy_To f)) then matchesExportHoldEvidence source schema f
  else Ok false.

(** [for index, hold := range holds[:blocker]]: the first covering hold below
    the current blocker, which otherwise stays. *)
Fixpoint lowerBlocker (source : Event) (schema : EventSchema) (holds : list LegalHold) (blocker : nat) : result nat :=
  match holds, blocker with
  | h :: holds, S blocker' =>
      let? covers := holdCovers source schema h in
      if covers : bool then Ok O
      else let? index := lowerBlocker source schema holds blocker' in Ok (S index)
  | _, _ => Ok blocker
  end.

(** One receipt of the tenant. *)
Definition evidenceBlocker (data : Snapshot) (tenantID : string) (q : Query) (holds : list LegalHold) (blocker : nat) (key : string)
    : result nat :=
  match sn_Receipts data !! key with
  | None => Err (Sentinel ErrNotFound)
  | Some receipt =>
      match sn_Events data !! key with
      | None => guard_err (bool_decide (rc_Status receipt = StatusArchived)) (Sentinel ErrNotFound)
      | Some _ => Ok tt
      end ;?
      let? event := resolveQueryEvidence (sn_Events data !! key) receipt (sn_Schemas data) in
      match sn_Schemas data !! SchemaKey tenantID (ev_SchemaID event) (ev_SchemaVersion event) with
      | None => Err (Wrapf (Sentinel ErrConflict) "current export Hold schema identity mismatch")
      | Some schema =>
          guard_err (bool_decide (sc_TenantID schema = tenantID) && bool_decide (sc_SchemaID schema = ev_SchemaID event)
                     && (sc_Version schema =? ev_SchemaVersion event))
            (Wrapf (Sentinel ErrConflict) "current export Hold schema identity mismatch") ;?
          let? source := reconstructEventForDigest event (sn_Schemas data) in
          let? selected := matchesExportHoldEvidence source schema q in
          if selected : bool then lowerBlocker source schema holds blocker else Ok blocker
      end
  end.

Fixpoint evidenceBlockers (data : Snapshot) (tenantID : string) (q : Query) (holds : list LegalHold) (keys : list string) (blocker : nat)
    : result nat :=
  match keys with
  | [] => Ok blocker
  | key :: keys =>
      let? blocker := evidenceBlocker data tenantID q holds blocker key in
      evidenceBlockers data tenantID q holds keys blocker
  end.

(** The tenant's receipt keys; a row filed under another tenant is an error. *)
Fixpoint tenantReceiptKeys (tenantID : string) (entries : list (string * EventReceipt)) : result (list string) :=
  match entries with
  | [] => Ok []
  | (key, r) :: entries =>
      let keyTenant := match SplitTenantKey key with Some (t, _) => bool_decide (t = tenantID) | None => false end in
      if negb (bool_decide (rc_TenantID r = tenantID)) && negb keyTenant then tenantReceiptKeys tenantID entries
      else if negb (bool_decide (rc_TenantID r = tenantID)) || negb (bool_decide (key = EventKey tenantID (rc_EventID r)))
      then Err (Wrapf (Sentinel ErrConflict) "current export Hold evidence identity mismatch")
      else let? keys := tenantReceiptKeys tenantID entries in Ok (key :: keys)
  end.

Definition holdBlockingExportEvidence (data : Snapshot) (tenantID : string) (q : Query) : result (option LegalHold) :=
  match holdBlockingCandidates data tenantID q with
  | [] => Ok None
  | holds =>
      let? keys := tenantReceiptKeys tenantID (map_to_list (sn_Receipts data)) in
      let? blocker := evidenceBlockers data tenantID q holds (sort_strings keys) (length holds) in
      Ok (holds !! blocker)
  end.

(** ** service.go: EvaluateRetention *)

(** int64 arithmetic. *)
Definition wrap64 (z : Z) : Z := (z + 2 ^ 63) mod 2 ^ 64 - 2 ^ 63.

(** [now.Add(-time.Duration(policy.ArchiveDays) * 24 * time.Hour)] *)
Definition retentionCutoff (now : time) (archiveDays : Z) : time :=
  now + wrap64 (wrap64 (wrap64 (- archiveDays) * 24) * Hour).

Definition retentionExpired (tenantID : string) (policy : RetentionPolicy) (cutoff : time) (e : Event) : bool :=
  negb (negb (bool_decide (ev_TenantID e = tenantID)) || negb (bool_decide (ev_RetentionClass e = rp_RetentionClass policy)) ||
        (rp_ArchiveDays policy <=? 0) || time_After (ev_OccurredAt e) cutoff).

(** One event against the active holds: the HoldIDs collected and whether it is
    protected. *)
Definition coveringHolds (schemas : gmap string EventSchema) (e : Event) (holds : list LegalHold) : list LegalHold :=
  List.filter (fun h => holdMatchesEvent h e schemas) holds.

Definition retentionStep (tenantID : string) (policy : RetentionPolicy) (cutoff : time) (schemas : gmap string EventSchema)
    (holds : list LegalHold) (report : RetentionReport) (e : Event) : RetentionReport :=
  if negb (retentionExpired tenantID policy cutoff e) then report
  else
    let covering := coveringHolds schemas e holds in
    let ids := foldl appendUnique (rr_HoldIDs report) (map lh_ID covering) in
    if bool_decide (covering = []) then
      mkRetentionReport (rr_TenantID report) (rr_EvaluatedAt report) (rr_Policy report) (rr_EligibleEvents report + 1)
        (rr_ProtectedEvents report) ids (rr_Action report)
    else
      mkRetentionReport (rr_TenantID report) (rr_EvaluatedAt report) (rr_Policy report) (rr_EligibleEvents report)
        (rr_ProtectedEvents report + 1) ids (rr_Action report).

(** [control] and [data] are what the two reads deliver, [clock] is s.Now(). *)
Definition EvaluateRetention (control data : result Snapshot) (clock now : time) (tenantID : string) : result RetentionReport :=
  requireTenantScope tenantID ;?
  let? control := control in
  match sn_Policies control !! tenantID with
  | None => Err (Sentinel ErrNotFound)
  | Some policy =>
      let now := if time_IsZero now then clock else now in
      let report := mkRetentionReport tenantID now policy 0 0 [] "archive_only_immutable_ledger" in
      let cutoff := retentionCutoff now (rp_ArchiveDays policy) in
      let? data := data in
      let holds := List.filter (activeHold tenantID) (map_to_list (sn_LegalHolds data)).*2 in
      let report := foldl (retentionStep tenantID policy cutoff (sn_Schemas data) holds) report (map_to_list (sn_Events data)).*2 in
      Ok (mkRetentionReport (rr_TenantID report) (rr_EvaluatedAt report) (rr_Policy report) (rr_EligibleEvents report)
            (rr_ProtectedEvents report) (sort_strings (rr_HoldIDs report)) (rr_Action report))
  end.

(** ** Replay *)

Record ReplayResult : Type := mkReplayResult {
  rl_TenantID : string;
  rl_OperationID : string;
  rl_AggregateID : string;
  rl_EventCount : Z;
  rl_State : gmap string value;
  rl_LastSequence : Z
}.

Definition applyChange (state : gmap string value) (change : string * FieldChange) : gmap string value :=
  match fc_After change.2 with
  | VNil => delete change.1 state
  | after => <[change.1 := after]> state
  end.

Definition replayEvent (acc : gmap string value * Z) (e : Event) : gmap string value * Z :=
  (foldl applyChange acc.1 (map_to_list (ev_ChangedFields e)), ev_Sequence e).

Definition replay (events : list Event) (tenantID operationID aggregateID : string) : ReplayResult :=
  let '(state, last) := foldl replayEvent (∅, 0) events in
  mkReplayResult tenantID operationID aggregateID (Z.of_nat (length events)) state last.

Definition compareEvents (a b : Event) : bool :=
  if bool_decide (ev_OccurredAt a = ev_OccurredAt b) then
    if ev_Sequence a =? ev_Sequence b then str_ltb (ev_EventID a) (ev_EventID b)
    else ev_Sequence a <? ev_Sequence b
  else time_Before (ev_OccurredAt a) (ev_OccurredAt b).

End service.

End Holds.
