(* ===== verification/ExportJobs.v ===== *)
(** * Export jobs: the control document (internal/service: export.go,
    export_lease.go, export_plan.go, export_plan_schema.go,
    export_generation.go, export_checkpoint.go, export_checkpoint_schedule.go,
    export_recovery.go, export_retry.go, export_actions.go,
    export_scheduler.go, export_creation.go, export_access.go)

    An export job moves from pending to running to one terminal status.  A
    running job has a lease with a random owner token, and at most one of a
    plan (fixed members and committed pages) and a sealed checkpoint.  Every
    transition is a closure on the control document that the store commits as
    a whole or discards (Store, SplitStore); [result (Snapshot * bool)] is the
    Go closure over the snapshot returning (bool, error), where [false] discards.

    [clk] gives the readings of s.Now() in their order inside one closure. *)

From Stdlib Require Import Ascii String.
From S2P Require Import Prelude GoStr Sha256 Signer TimeFmt KeyCodec Domain Canonical Keys Store Evidence Integrity TenantIngest Governance Holds.
Open Scope string_scope.
Open Scope Z_scope.
Import Domain Canonical Keys Store Sha256 Signer Evidence Integrity TenantIngest Governance Holds.

Module ExportJobs.

(** ** Constants *)

Definition ExportLeaseDuration : Z := 2 * Minute.
Definition ExportGenerationPageEvents : Z := 100.
Definition MaxQuerySnapshotEvents : Z := 10000.
Definition MaxQuerySnapshotBytes : Z := 4 * 1024 * 1024.
Definition MaxExportPlanEvents : Z := MaxQuerySnapshotEvents.
Definition MaxExportPlanBytes : Z := MaxQuerySnapshotBytes.
Definition ExportConcurrency : nat := 2.
Definition ExportTenantConcurrency : nat := 1.
Definition MaxPendingExportsPerTenant : nat := 32.
Definition MaxPendingExports : nat := 128.
Definition exportTerminalRetryLimit : nat := 3.

Definition errExportLeaseLost : error := NewErr "export execution lease lost".
Definition errExportPlanInvalid : error := Wrapf (Sentinel ErrConflict) "invalid export execution plan".
Definition errExportCheckpointInvalid : error := Wrapf (Sentinel ErrConflict) "invalid export checkpoint metadata".
Definition exportConflict (msg : string) : error := Wrapf (Sentinel ErrConflict) msg.
Definition queueExhausted : error := Wrapf (Sentinel ErrQuotaExceeded) "export queue capacity exhausted".

(** ** Helpers of the standard library *)

Definition lowerHex (c : ascii) : bool := in_rangeb 48 57 (byteZ c) || in_rangeb 97 102 (byteZ c).
Definition anyHex (c : ascii) : bool := lowerHex c || in_rangeb 65 70 (byteZ c).
(** [exportDigestPattern], ^[0-9a-f]{64}$ *)
Definition isDigest (s : string) : bool := (String.length s =? 64)%nat && forallb lowerHex (chars s).
(** [hex.DecodeString]: the number of bytes of a well-formed string. *)
Definition hexBytes (s : string) : option nat :=
  if Nat.even (String.length s) && forallb anyHex (chars s) then Some (String.length s / 2)%nat else None.
Definition TrimPrefix (s p : string) : string :=
  if String.prefix p s then substring (String.length p) (String.length s - String.length p) s else s.
Definition TrimSuffix (s p : string) : string :=
  if hasSuffix s p then substring 0 (String.length s - String.length p) s else s.
(** [suffix == strings.ToLower(suffix)] on hexadecimal digits. *)
Definition isLower (s : string) : bool := forallb (fun c => negb (in_rangeb 65 90 (byteZ c))) (chars s).
Definition FormatRFC3339 (t : time) : string := TimeFmt.FormatRFC3339Nano (t - t mod Second).
Definition safeName (s : string) : string := KeyCodec.EncodeKeyComponent s.

Definition zero_ExportLease : ExportLease := mkExportLease 0 "" "" "" 0 0.
Definition zero_ExportCheckpoint : ExportCheckpoint := mkExportCheckpoint 0 0 "" "" "" "" "" "" 0 0 "".
Definition zero_ExportPlan : ExportPlan := mkExportPlan 0 0 "" "" "" 0 [] [] "".
Definition isNone {A} (o : option A) : bool := match o with None => true | Some _ => false end.
Definition isSet {A} (o : option A) : bool := negb (isNone o).
Definition deref (o : option time) : time := default 0 o.

(** ** Setters *)

Definition set_xp (p : ExportPlan) (version : Z) (chunks : list ExportPlanChunk) (signature : string) : ExportPlan :=
  mkExportPlan version (xp_FormatVersion p) (xp_JobID p) (xp_TenantID p) (xp_Binding p) (xp_CreatedAt p) (xp_Members p) chunks signature.
Definition set_xp_Signature (p : ExportPlan) (s : string) : ExportPlan := set_xp p (xp_Version p) (xp_Chunks p) s.
Definition set_xc_Signature (c : ExportCheckpoint) (s : string) : ExportCheckpoint :=
  mkExportCheckpoint (xc_Version c) (xc_SealVersion c) (xc_JobID c) (xc_TenantID c) (xc_Binding c) (xc_ObjectPath c)
    (xc_SealedDigest c) (xc_Digest c) (xc_EventCount c) (xc_CreatedAt c) s.
Definition set_qy_Cursor (q : Query) (cursor : string) : Query :=
  mkQuery (qy_From q) (qy_To q) (qy_EventType q) (qy_SourceSystem q) (qy_ActorID q) (qy_TargetID q) (qy_AggregateType q)
    (qy_AggregateID q) (qy_OperationID q) (qy_CausationID q) (qy_CorrelationID q) (qy_TraceID q) (qy_Outcome q)
    (qy_PayloadField q) (qy_PayloadDigest q) (qy_StreamID q) cursor (qy_PageSize q).
Definition startJob (j : ExportJob) (at_ : time) : ExportJob :=
  mkExportJob (ej_ID j) (ej_TenantID j) (ej_RequestedBy j) (ej_Query j) "running" (ej_RetryOf j) (ej_FailureCode j)
    (ej_CreatedAt j) (Some at_) (ej_FinishedAt j) (ej_ObjectPath j) (ej_Digest j) (ej_EventCount j) (ej_Error j).
Definition finishJob (j : ExportJob) (status code : string) (at_ : time) (path digest : string) (count : Z) (failure : string) : ExportJob :=
  mkExportJob (ej_ID j) (ej_TenantID j) (ej_RequestedBy j) (ej_Query j) status (ej_RetryOf j) code
    (ej_CreatedAt j) (ej_StartedAt j) (Some at_) path digest count failure.

(** ** Keyed bindings (query_snapshot.go: queryMAC) *)

(** What queryMAC is applied to; [encoding/json] turns it into bytes. *)
Inductive macValue : Type :=
  | MacScope (ID Tenant Requester RetryOf : string) (CreatedAt : time) (StartedAt : option time) (query : Query)
  | MacText (s : string)
  | MacCheckpoint (cp : ExportCheckpoint)
  | MacPlan (plan : ExportPlan)
  | MacSchema (schema : EventSchema)
  | MacHolds (holds : gmap string LegalHold)
  | MacChunk (Plan Object : string) (Index First Count SealVersion : Z).

(** The configuration: the signing secret, json.Marshal, and AES-GCM under the
    encryption key. *)
Class ExportConfig : Type := mkExportConfig {
  SigningSecret : string;
  jsonMarshal : macValue -> option string;
  gcmSeal : string -> string -> string -> string;
  gcmOpen : string -> string -> string -> option string
}.

(** What is sealed opens under the same nonce and associated data. *)
Class ExportConfigOk (cfg : ExportConfig) : Prop :=
  gcm_opens : forall nonce plain aad, gcmOpen nonce (gcmSeal nonce plain aad) aad = Some plain.

Section service.
Context {cfg : ExportConfig}.

Definition queryMAC (label : string) (v : macValue) : string :=
  match jsonMarshal v with
  | None => ""
  | Some raw => EncodeToString (hmacSum SigningSecret ((label ++ String zero EmptyString) ++ raw))
  end.

Definition exportCheckpointBinding (job : ExportJob) : string :=
  queryMAC "export.checkpoint.scope.v1"
    (MacScope (ej_ID job) (ej_TenantID job) (ej_RequestedBy job) (ej_RetryOf job) (ej_CreatedAt job) (ej_StartedAt job) (ej_Query job)).
Definition signExportCheckpoint (cp : ExportCheckpoint) : string :=
  queryMAC "export.checkpoint.sealed.v1" (MacCheckpoint (set_xc_Signature cp "")).
Definition exportPlanBinding (job : ExportJob) : string :=
  queryMAC "export.plan.scope.v1" (MacText (exportCheckpointBinding job)).
Definition signExportPlan (plan : ExportPlan) : string :=
  queryMAC "export.plan.members.v1" (MacPlan (set_xp_Signature plan "")).
Definition exportPlanSchemaDigest (schema : EventSchema) : string := queryMAC "export.plan.schema.v1" (MacSchema schema).
Definition exportGenerationID (plan : ExportPlan) : string :=
  queryMAC "export.generation.plan.v1" (MacPlan (set_xp plan (xp_Version plan) [] "")).
Definition exportChunkBinding (plan : ExportPlan) (index : Z) (chunk : ExportPlanChunk) : string :=
  queryMAC "export.generation.chunk.v1"
    (MacChunk (exportGenerationID plan) (xk_ObjectPath chunk) index (xk_First chunk) (xk_Count chunk) (xk_SealVersion chunk)).
Definition activeHoldMap (data : Snapshot) (tenantID : string) : gmap string LegalHold :=
  filter (fun kv => activeHold tenantID kv.2 = true) (sn_LegalHolds data).
Definition exportHoldBinding (data : Snapshot) (tenantID : string) : string :=
  queryMAC "export.checkpoint.holds.v1" (MacHolds (activeHoldMap data tenantID)).

(** ** Leases (export_lease.go) *)

Record exportClaim : Type := mkexportClaim {
  cl_Job : ExportJob;
  cl_Owner : string;
  cl_Checkpoint : ExportCheckpoint;
  cl_Plan : ExportPlan;
  cl_HoldBinding : string
}.
Definition cl_ID (c : exportClaim) : string := ej_ID (cl_Job c).
Definition cl_TenantID (c : exportClaim) : string := ej_TenantID (cl_Job c).
Definition set_cl_Plan (c : exportClaim) (p : ExportPlan) : exportClaim :=
  mkexportClaim (cl_Job c) (cl_Owner c) (cl_Checkpoint c) p (cl_HoldBinding c).
Definition set_cl_HoldBinding (c : exportClaim) (b : string) : exportClaim :=
  mkexportClaim (cl_Job c) (cl_Owner c) (cl_Checkpoint c) (cl_Plan c) b.
(** The sealed checkpoint consumes the plan. *)
Definition seal_claim (c : exportClaim) (cp : ExportCheckpoint) : exportClaim :=
  mkexportClaim (cl_Job c) (cl_Owner c) cp zero_ExportPlan (cl_HoldBinding c).

(** [exportClaimFromContext]: whether the context carries a usable claim. *)
Definition validClaim (c : exportClaim) : bool :=
  negb (bool_decide (cl_ID c = "")) && negb (bool_decide (cl_Owner c = "")) && negb (bool_decide (cl_TenantID c = "")).

Definition validExportLease (job : ExportJob) (lease : ExportLease) : bool :=
  negb (bool_decide (ej_ID job = "")) && negb (bool_decide (ej_TenantID job = "")) && (xl_Version lease =? 1) &&
  bool_decide (xl_JobID lease = ej_ID job) && bool_decide (xl_TenantID lease = ej_TenantID job) &&
  negb (bool_decide (xl_Owner lease = "")) &&
  match ej_StartedAt job with
  | None => false
  | Some started =>
      negb (time_IsZero started) && negb (time_IsZero (xl_HeartbeatAt lease)) && negb (time_Before (xl_HeartbeatAt lease) started)
  end && (xl_ExpiresAt lease =? xl_HeartbeatAt lease + ExportLeaseDuration).

Definition ownsExportLease (data : Snapshot) (job : ExportJob) (c : exportClaim) (now : time) : bool :=
  match sn_ExportLeases data !! ej_ID job with
  | None => false
  | Some lease =>
      validExportLease job lease && bool_decide (ej_ID job = cl_ID c) && bool_decide (ej_TenantID job = cl_TenantID c) &&
      bool_decide (xl_Owner lease = cl_Owner c) && bool_decide (ej_Status job = "running") && isNone (ej_FinishedAt job) &&
      negb (time_Before now (xl_HeartbeatAt lease)) && time_After (xl_ExpiresAt lease) now
  end.

Definition claimedJob (data : Snapshot) (c : exportClaim) : ExportJob := map_get zero_ExportJob (sn_Exports data) (cl_ID c).

Definition renewExportLease (c : exportClaim) (clk : nat -> time) (data : Snapshot) : result (Snapshot * bool) :=
  let now := clk O in
  if negb (ownsExportLease data (claimedJob data c) c now) then Err errExportLeaseLost
  else
    let lease := map_get zero_ExportLease (sn_ExportLeases data) (cl_ID c) in
    if negb (time_After now (xl_HeartbeatAt lease)) then Ok (data, false)
    else
      Ok (set_sn_ExportLeases data
            (<[cl_ID c := mkExportLease (xl_Version lease) (xl_JobID lease) (xl_TenantID lease) (xl_Owner lease) now (now + ExportLeaseDuration)]>
               (sn_ExportLeases data)), true).

Definition checkExportLease (c : exportClaim) (clk : nat -> time) (data : Snapshot) : result unit :=
  if negb (validClaim c) then Err errExportLeaseLost
  else guard_err (ownsExportLease data (claimedJob data c) c (clk O)) errExportLeaseLost.

(** ** Plans (export_plan.go, export_generation.go) *)

Definition exportPlanMemberBefore (a b : ExportPlanMember) : bool :=
  let ra := xm_EventReference a in
  let rb := xm_EventReference b in
  if negb (er_OccurredAt ra =? er_OccurredAt rb) then time_Before (er_OccurredAt ra) (er_OccurredAt rb)
  else (er_Sequence ra <? er_Sequence rb) || ((er_Sequence ra =? er_Sequence rb) && str_ltb (er_EventID ra) (er_EventID rb)).

Definition memberOk (m : ExportPlanMember) : bool :=
  let r := xm_EventReference m in
  negb (bool_decide (er_EventID r = "")) && negb (bool_decide (er_StreamID r = "")) && (0 <? er_Sequence r) &&
  negb (time_IsZero (er_OccurredAt r)) && isDigest (er_Hash r) && negb (bool_decide (xm_SchemaID m = "")) &&
  (0 <? xm_SchemaVersion m) && isDigest (xm_SchemaDigest m) &&
  is_ok (ValidKeyComponent (er_EventID r)) && is_ok (ValidKeyComponent (er_StreamID r)).

(** The loop over the members: fields, unique event ids, strict order. *)
Fixpoint membersOk (seen : gset string) (previous : option ExportPlanMember) (members : list ExportPlanMember) : bool :=
  match members with
  | [] => true
  | m :: members =>
      let id := er_EventID (xm_EventReference m) in
      memberOk m && negb (bool_decide (id ∈ seen)) &&
      match previous with None => true | Some p => exportPlanMemberBefore p m end &&
      membersOk ({[id]} ∪ seen) (Some m) members
  end.

Definition chunkStem (plan : ExportPlan) (index : Z) : string :=
  ("export-chunks/" ++ exportGenerationID plan ++ "/") ++ TimeFmt.appendInt index 4 ++ "-".

Definition chunkOk (plan : ExportPlan) (now previous : time) (index : Z) (chunk : ExportPlanChunk) : bool :=
  let page := ExportGenerationPageEvents in
  let count := Z.min page (Z.of_nat (length (xp_Members plan)) - index * page) in
  let stem := chunkStem plan index in
  let attempt := TrimSuffix (TrimPrefix (xk_ObjectPath chunk) stem) ".bin" in
  (xk_SealVersion chunk =? 2) && (xk_First chunk =? index * page) && (xk_Count chunk =? count) &&
  String.prefix stem (xk_ObjectPath chunk) && hasSuffix (xk_ObjectPath chunk) ".bin" &&
  (Zlen attempt =? 32) && isDigest (attempt ++ attempt) && isDigest (xk_SealedDigest chunk) && isDigest (xk_Digest chunk) &&
  negb (time_IsZero (xk_CreatedAt chunk)) && negb (time_Before (xk_CreatedAt chunk) previous) && negb (time_Before now (xk_CreatedAt chunk)).

Fixpoint chunksOk (plan : ExportPlan) (now previous : time) (index : Z) (chunks : list ExportPlanChunk) : bool :=
  match chunks with
  | [] => true
  | chunk :: chunks => chunkOk plan now previous index chunk && chunksOk plan now (xk_CreatedAt chunk) (index + 1) chunks
  end.

Definition validExportGeneration (plan : ExportPlan) (now : time) : bool :=
  let page := ExportGenerationPageEvents in
  let members := Z.of_nat (length (xp_Members plan)) in
  if xp_Version plan =? 1 then bool_decide (xp_Chunks plan = [])
  else if (members <=? page) || ((members + page - 1) / page <? Z.of_nat (length (xp_Chunks plan))) then false
  else chunksOk plan now (xp_CreatedAt plan) 0 (xp_Chunks plan).

Definition validExportPlan (job : ExportJob) (plan : ExportPlan) (now : time) : bool :=
  ((xp_Version plan =? 1) || (xp_Version plan =? 2)) && (xp_FormatVersion plan =? 1) &&
  negb (bool_decide (ej_ID job = "")) && negb (bool_decide (ej_TenantID job = "")) &&
  bool_decide (xp_JobID plan = ej_ID job) && bool_decide (xp_TenantID plan = ej_TenantID job) &&
  bool_decide (ej_Status job = "running") && isNone (ej_FinishedAt job) && negb (time_IsZero (ej_CreatedAt job)) &&
  match ej_StartedAt job with
  | None => false
  | Some started => negb (time_IsZero started) && negb (time_Before (xp_CreatedAt plan) started)
  end &&
  bool_decide (ej_ObjectPath job = "") && bool_decide (ej_Digest job = "") && (ej_EventCount job =? 0) &&
  negb (time_IsZero (xp_CreatedAt plan)) && negb (time_Before now (xp_CreatedAt plan)) &&
  (Z.of_nat (length (xp_Members plan)) <=? MaxExportPlanEvents) &&
  isDigest (xp_Binding plan) && isDigest (xp_Signature plan) && bool_decide (xp_Binding plan = exportPlanBinding job) &&
  membersOk ∅ None (xp_Members plan) && validExportGeneration plan now &&
  match jsonMarshal (MacPlan plan) with
  | None => false
  | Some raw => Zlen raw <=? MaxExportPlanBytes
  end && bool_decide (xp_Signature plan = signExportPlan plan).

Definition schemaMatches (schemas : gmap string EventSchema) (tenantID : string) (m : ExportPlanMember) : bool :=
  match schemas !! SchemaKey tenantID (xm_SchemaID m) (xm_SchemaVersion m) with
  | None => false
  | Some schema =>
      bool_decide (sc_TenantID schema = tenantID) && bool_decide (sc_SchemaID schema = xm_SchemaID m) &&
      (sc_Version schema =? xm_SchemaVersion m) && bool_decide (exportPlanSchemaDigest schema = xm_SchemaDigest m)
  end.

(** The source hashes each distinct schema once; the check of a member does not
    depend on that. *)
Definition exportPlanSchemasMatch (data : Snapshot) (plan : ExportPlan) : bool :=
  forallb (schemaMatches (sn_Schemas data) (xp_TenantID plan)) (xp_Members plan).

Definition exportPlanMatches (data : Snapshot) (job : ExportJob) (c : exportClaim) (now1 now2 : time) : bool :=
  match sn_ExportPlans data !! ej_ID job with
  | None => xp_Version (cl_Plan c) =? 0
  | Some plan =>
      negb (xp_Version (cl_Plan c) =? 0) && bool_decide (xp_Signature plan = xp_Signature (cl_Plan c)) &&
      validExportPlan job plan now1 && validExportPlan job (cl_Plan c) now2
  end.

Definition checkExportPlan (c : exportClaim) (clk : nat -> time) (data : Snapshot) : result unit :=
  let job := claimedJob data c in
  guard_err (ownsExportLease data job c (clk 0%nat)) errExportLeaseLost ;?
  guard_err (exportPlanMatches data job c (clk 1%nat) (clk 2%nat) &&
             ((xp_Version (cl_Plan c) =? 0) || exportPlanSchemasMatch data (cl_Plan c))) errExportPlanInvalid.

Definition runningJobs (jobs : gmap string ExportJob) : list ExportJob :=
  List.filter (fun j => bool_decide (ej_Status j = "running")) (map_to_list jobs).*2.
Definition activeJobs (jobs : gmap string ExportJob) : list ExportJob :=
  List.filter (fun j => bool_decide (ej_Status j = "pending") || bool_decide (ej_Status j = "running")) (map_to_list jobs).*2.
Definition ofTenant (tenantID : string) (jobs : list ExportJob) : list ExportJob :=
  List.filter (fun j => bool_decide (ej_TenantID j = tenantID)) jobs.

Definition exportQueueHasCapacity (jobs : gmap string ExportJob) (tenantID : string) : bool :=
  (length (activeJobs jobs) <? MaxPendingExports)%nat && (length (ofTenant tenantID (activeJobs jobs)) <? MaxPendingExportsPerTenant)%nat.
Definition exportClaimHasCapacity (jobs : gmap string ExportJob) (tenantID : string) : bool :=
  (length (runningJobs jobs) <? ExportConcurrency)%nat && (length (ofTenant tenantID (runningJobs jobs)) <? ExportTenantConcurrency)%nat.
Definition exportCheckpointHasCapacity (jobs : gmap string ExportJob) (tenantID : string) : bool :=
  (length (runningJobs jobs) <=? ExportConcurrency)%nat && (length (ofTenant tenantID (runningJobs jobs)) <=? ExportTenantConcurrency)%nat.

(** ** Checkpoints (export_checkpoint.go) *)

Definition exportObjectKey (c : exportClaim) : string :=
  "exports/" ++ safeName (cl_ID c) ++ "-" ++ substring 0 32 (HashBytes (cl_Owner c)) ++ ".jsonl".

Definition validExportCheckpoint (job : ExportJob) (cp : ExportCheckpoint) (now : time) : bool :=
  let prefix := "exports/" ++ safeName (ej_ID job) ++ "-" in
  let suffix := TrimSuffix (TrimPrefix (xc_ObjectPath cp) prefix) ".jsonl" in
  (xc_Version cp =? 1) && (xc_SealVersion cp =? 2) && negb (bool_decide (ej_ID job = "")) && negb (bool_decide (ej_TenantID job = "")) &&
  bool_decide (xc_JobID cp = ej_ID job) && bool_decide (xc_TenantID cp = ej_TenantID job) && negb (time_IsZero (ej_CreatedAt job)) &&
  bool_decide (ej_Status job = "running") && isNone (ej_FinishedAt job) &&
  match ej_StartedAt job with
  | None => false
  | Some started => negb (time_IsZero started) && negb (time_Before (xc_CreatedAt cp) started)
  end &&
  bool_decide (ej_ObjectPath job = "") && bool_decide (ej_Digest job = "") && (ej_EventCount job =? 0) &&
  negb (time_IsZero (xc_CreatedAt cp)) && negb (time_Before now (xc_CreatedAt cp)) &&
  (0 <=? xc_EventCount cp) && (xc_EventCount cp <=? MaxQuerySnapshotEvents) &&
  String.prefix prefix (xc_ObjectPath cp) && hasSuffix (xc_ObjectPath cp) ".jsonl" &&
  bool_decide (hexBytes suffix = Some 16%nat) && isLower suffix &&
  isDigest (xc_SealedDigest cp) && isDigest (xc_Digest cp) &&
  bool_decide (xc_Binding cp = exportCheckpointBinding job) && bool_decide (xc_Signature cp = signExportCheckpoint cp).

Definition validExportArtifacts (data : Snapshot) (job : ExportJob) (now : time) : result unit :=
  let sealed := sn_ExportCheckpoints data !! ej_ID job in
  match sn_ExportPlans data !! ej_ID job with
  | None => Ok tt
  | Some plan => guard_err (negb (isSet sealed) && validExportPlan job plan now) errExportPlanInvalid
  end ;?
  match sealed with
  | None => Ok tt
  | Some cp => guard_err (validExportCheckpoint job cp now) errExportCheckpointInvalid
  end.

(** ** Creating and retrying jobs (export.go, export_creation.go, export_retry.go) *)

Definition checkExportPreflight (data : Snapshot) (tenantID holdBinding : string) : result unit :=
  guard_err (negb (bool_decide (holdBinding = "")) && bool_decide (holdBinding = exportHoldBinding data tenantID))
    (exportConflict "export Hold changed during preflight; refresh before retrying").

Definition newExportJob (st : stamp) (tenantID requestedBy : string) (q : Query) (retryOf : string) : ExportJob :=
  mkExportJob (at_id st) tenantID requestedBy q "pending" retryOf "" (at_now st) None None "" "" 0 "".

Definition createExportClosure (capN : Z) (st : stamp) (job : ExportJob) (holdBinding : string) (data : Snapshot)
    : result (Snapshot * bool) :=
  checkExportPreflight data (ej_TenantID job) holdBinding ;?
  guard_err (exportQueueHasCapacity (sn_Exports data) (ej_TenantID job)) queueExhausted ;?
  Ok (appendAdminAction capN (set_sn_Exports data (<[ej_ID job := job]> (sn_Exports data)))
        (adminAction st (ej_TenantID job) (ej_RequestedBy job) "export.created" "export" (ej_ID job)
           ("from=" ++ FormatRFC3339 (qy_From (ej_Query job)) ++ " to=" ++ FormatRFC3339 (qy_To (ej_Query job)))), true).

Definition retryableExport (job : ExportJob) : bool :=
  (bool_decide (ej_Status job = "failed") || bool_decide (ej_Status job = ExportStatusCancelled)) &&
  match ej_FinishedAt job with None => false | Some t => negb (time_IsZero t) end.

Definition ownedExport (data : Snapshot) (tenantID actor jobID : string) : result ExportJob :=
  match sn_Exports data !! jobID with
  | None => Err (Sentinel ErrNotFound)
  | Some job =>
      guard_err (bool_decide (ej_TenantID job = tenantID)) (Sentinel ErrNotFound) ;?
      guard_err (negb (bool_decide (ej_RequestedBy job = "")) && bool_decide (ej_RequestedBy job = actor)) (Sentinel ErrForbidden) ;?
      guard_err (bool_decide (ej_ID job = jobID)) (exportConflict "export control identity mismatch") ;?
      Ok job
  end.

Definition ownedRetrySource (data : Snapshot) (tenantID actor jobID : string) : result ExportJob :=
  let? job := ownedExport data tenantID actor jobID in
  guard_err (retryableExport job && isNone (sn_ExportLeases data !! jobID) && isNone (sn_ExportCheckpoints data !! jobID) &&
             isNone (sn_ExportPlans data !! jobID)) (exportConflict "export is not retryable") ;?
  Ok job.

(** One step of the loop over the jobs. *)
Definition successorStep (source : ExportJob) (acc : result (option ExportSummary)) (entry : string * ExportJob)
    : result (option ExportSummary) :=
  let? found := acc in
  let '(key, child) := entry in
  if negb (bool_decide (ej_RetryOf child = ej_ID source)) then Ok found
  else if isSet found || negb (bool_decide (ej_ID child = key)) || bool_decide (ej_ID child = ej_ID source) ||
          negb (bool_decide (ej_TenantID child = ej_TenantID source)) || negb (bool_decide (ej_RequestedBy child = ej_RequestedBy source)) ||
          negb (bool_decide (ej_Query child = set_qy_Cursor (ej_Query source) ""))
  then Err (exportConflict "invalid export retry linkage")
  else Ok (Some (SummarizeExport child)).

Definition exportRetrySuccessor (data : Snapshot) (source : ExportJob) : result (option ExportSummary) :=
  foldl (successorStep source) (Ok None) (map_to_list (sn_Exports data)).

(** [source] is the job as the preflight read it. *)
Definition retryExportClosure (capN : Z) (st st' : stamp) (tenantID actor : string) (source child : ExportJob) (holdBinding : string)
    (data : Snapshot) : result (Snapshot * bool) :=
  let? current := ownedRetrySource data tenantID actor (ej_ID source) in
  guard_err (bool_decide (source = current)) (exportConflict "export changed during retry preflight") ;?
  let? found := exportRetrySuccessor data current in
  match found with
  | Some _ => Ok (data, false)
  | None =>
      checkExportPreflight data tenantID holdBinding ;?
      guard_err (exportQueueHasCapacity (sn_Exports data) tenantID) queueExhausted ;?
      guard_err (isNone (sn_Exports data !! ej_ID child)) (exportConflict "export retry identity collision") ;?
      let data := set_sn_Exports data (<[ej_ID child := child]> (sn_Exports data)) in
      let data := appendAdminAction capN data
        (adminAction st tenantID actor "export.created" "export" (ej_ID child) ("retry_of=" ++ ej_ID source)) in
      let data := appendAdminAction capN data
        (adminAction st' tenantID actor "export.retried" "export" (ej_ID child) ("retry_of=" ++ ej_ID source)) in
      Ok (data, true)
  end.

(** ** Claiming (export_recovery.go) *)

Definition newLease (jobID tenantID owner : string) (now : time) : ExportLease :=
  mkExportLease 1 jobID tenantID owner now (now + ExportLeaseDuration).

Definition resumeDetail (plan : option ExportPlan) : string :=
  match plan with
  | None => "stage=sealed version=1"
  | Some plan => if bool_decide (xp_Chunks plan = []) then "stage=selected version=" ++ Itoa (xp_Version plan) else "stage=generating version=1"
  end.

(** The new document and the claim; [None] where the closure returns false. *)
Definition claimExport (capN : Z) (st : stamp) (jobID owner : string) (allowCheckpoint : bool) (clk : nat -> time) (data : Snapshot)
    : result (option (Snapshot * exportClaim)) :=
  match sn_Exports data !! jobID with
  | None => Ok None
  | Some value =>
      if negb (bool_decide (ej_Status value = "pending")) && (negb allowCheckpoint || negb (bool_decide (ej_Status value = "running")))
      then Ok None
      else
        guard_err (bool_decide (ej_ID value = jobID) && negb (bool_decide (ej_TenantID value = "")) && isNone (ej_FinishedAt value))
          (exportConflict "invalid export identity or terminal marker") ;?
        let now := clk 0%nat in
        let checkpoint := sn_ExportCheckpoints data !! jobID in
        let plan := sn_ExportPlans data !! jobID in
        let grant value data :=
          Ok (Some (set_sn_ExportLeases (set_sn_Exports data (<[jobID := value]> (sn_Exports data)))
                      (<[jobID := newLease jobID (ej_TenantID value) owner now]> (sn_ExportLeases data)),
                    mkexportClaim value owner (default zero_ExportCheckpoint checkpoint) (default zero_ExportPlan plan) "")) in
        if bool_decide (ej_Status value = "running") then
          if isNone checkpoint && isNone plan then Ok None
          else
            let lease := map_get zero_ExportLease (sn_ExportLeases data) jobID in
            guard_err (validExportLease value lease) errExportPlanInvalid ;?
            validExportArtifacts data value now ;?
            if time_After (xl_ExpiresAt lease) now || negb (exportCheckpointHasCapacity (sn_Exports data) (ej_TenantID value)) then Ok None
            else grant value (appendAdminAction capN data
                   (adminAction st (ej_TenantID value) "governance-worker" "export.resumed" "export" (ej_ID value) (resumeDetail plan)))
        else
          guard_err (isNone (sn_ExportLeases data !! jobID) && isNone checkpoint && isNone plan)
            (exportConflict "pending export has unexpected execution metadata") ;?
          if negb (exportClaimHasCapacity (sn_Exports data) (ej_TenantID value)) then Ok None
          else grant (startJob value now) data
  end.

(** ** Progress of the owner *)

Definition saveExportPlan (capN : Z) (st : stamp) (c : exportClaim) (plan : ExportPlan) (clk : nat -> time) (data : Snapshot)
    : result (Snapshot * bool) :=
  let job := claimedJob data c in
  guard_err (ownsExportLease data job c (clk 0%nat)) errExportLeaseLost ;?
  guard_err (isNone (sn_ExportCheckpoints data !! ej_ID job) && validExportPlan job plan (clk 1%nat) && exportPlanSchemasMatch data plan &&
             exportCheckpointHasCapacity (sn_Exports data) (ej_TenantID job)) errExportPlanInvalid ;?
  match sn_ExportPlans data !! ej_ID job with
  | Some previous =>
      guard_err (validExportPlan job previous (clk 2%nat) && bool_decide (xp_Signature previous = xp_Signature plan)) errExportPlanInvalid ;?
      Ok (data, false)
  | None =>
      Ok (appendAdminAction capN (set_sn_ExportPlans data (<[ej_ID job := plan]> (sn_ExportPlans data)))
            (adminAction st (ej_TenantID job) "governance-worker" "export.planned" "export" (ej_ID job)
               ("stage=selected version=" ++ Itoa (xp_Version plan))), true)
  end.

Definition exportGeneratedMembers (plan : ExportPlan) : Z :=
  match last (xp_Chunks plan) with None => 0 | Some chunk => xk_First chunk + xk_Count chunk end.

(** The plan with one more page, signed. *)
Definition extendPlan (plan : ExportPlan) (chunk : ExportPlanChunk) : ExportPlan :=
  let p := set_xp plan (xp_Version plan) (xp_Chunks plan ++ [chunk]) (xp_Signature plan) in
  set_xp_Signature p (signExportPlan p).

Definition saveExportChunk (capN : Z) (st : stamp) (c : exportClaim) (chunk : ExportPlanChunk) (clk : nat -> time) (data : Snapshot)
    : result (Snapshot * bool) :=
  let plan := extendPlan (cl_Plan c) chunk in
  let job := claimedJob data c in
  guard_err (ownsExportLease data job c (clk 0%nat)) errExportLeaseLost ;?
  guard_err ((xp_Version (cl_Plan c) =? 2) && isNone (sn_ExportCheckpoints data !! cl_ID c) &&
             exportPlanMatches data job c (clk 1%nat) (clk 2%nat) && validExportPlan job plan (clk 3%nat) && exportPlanSchemasMatch data plan &&
             exportCheckpointHasCapacity (sn_Exports data) (ej_TenantID job) && negb (bool_decide (cl_HoldBinding c = "")) &&
             bool_decide (cl_HoldBinding c = exportHoldBinding data (ej_TenantID job))) errExportPlanInvalid ;?
  Ok (appendAdminAction capN (set_sn_ExportPlans data (<[ej_ID job := plan]> (sn_ExportPlans data)))
        (adminAction st (ej_TenantID job) "governance-worker" "export.progressed" "export" (ej_ID job)
           ("stage=generating version=1 pages=" ++ Itoa (Z.of_nat (length (xp_Chunks plan))))), true).

Definition checkExportGenerationAccess (c : exportClaim) (clk : nat -> time) (data : Snapshot) : result unit :=
  let job := claimedJob data c in
  guard_err (ownsExportLease data job c (clk 0%nat)) errExportLeaseLost ;?
  guard_err (exportPlanMatches data job c (clk 1%nat) (clk 2%nat) && exportPlanSchemasMatch data (cl_Plan c) &&
             negb (bool_decide (cl_HoldBinding c = "")) && bool_decide (cl_HoldBinding c = exportHoldBinding data (ej_TenantID job)))
    errExportPlanInvalid.

(** ** The sealed object *)

(** The coordinates json.Unmarshal reads from one line. *)
Record lineIdentity : Type := mklineIdentity {
  li_Reference : EventReference;
  li_TenantID : string;
  li_SchemaID : string;
  li_SchemaVersion : Z
}.

Variable decodeIdentity : string -> option lineIdentity.

Definition newline : ascii := ascii_of_nat 10.

(** [bytes.Split(plain, "\n")] *)
Fixpoint splitLines (plain : string) : list string :=
  match plain with
  | EmptyString => [EmptyString]
  | String c rest =>
      if bool_decide (c = newline) then EmptyString :: splitLines rest
      else match splitLines rest with
           | [] => [String c EmptyString]
           | line :: lines => String c line :: lines
           end
  end.

Definition lineMatches (tenantID line : string) (m : ExportPlanMember) : bool :=
  match decodeIdentity line with
  | None => false
  | Some i =>
      bool_decide (li_TenantID i = tenantID) && bool_decide (li_Reference i = xm_EventReference m) &&
      bool_decide (li_SchemaID i = xm_SchemaID m) && (li_SchemaVersion i =? xm_SchemaVersion m)
  end.

Definition exportPlainMatchesPlan (plain : string) (plan : ExportPlan) : bool :=
  match xp_Members plan with
  | [] => bool_decide (plain = "")
  | members =>
      let lines := splitLines plain in
      (length lines =? length members + 1)%nat && bool_decide (last lines = Some "") &&
      forallb (fun lm => lineMatches (xp_TenantID plan) lm.1 lm.2) (zip (removelast lines) members)
  end.

Definition newCheckpoint (c : exportClaim) (sealed plain : string) (count : Z) (now : time) : ExportCheckpoint :=
  let cp := mkExportCheckpoint 1 2 (cl_ID c) (cl_TenantID c) (exportCheckpointBinding (cl_Job c)) (exportObjectKey c)
              (HashBytes sealed) (HashBytes plain) count now "" in
  set_xc_Signature cp (signExportCheckpoint cp).

(** The check before the update. *)
Definition checkpointRequest (c : exportClaim) (plain : string) (count : Z) : result unit :=
  let members := Z.of_nat (length (xp_Members (cl_Plan c))) in
  guard_err (negb (negb (xp_Version (cl_Plan c) =? 0) &&
      (negb (count =? members) || negb (exportPlainMatchesPlan plain (cl_Plan c)) ||
       ((xp_Version (cl_Plan c) =? 2) && negb (exportGeneratedMembers (cl_Plan c) =? count))))) errExportPlanInvalid.

Definition saveExportCheckpoint (capN : Z) (st : stamp) (c : exportClaim) (cp : ExportCheckpoint) (clk : nat -> time) (data : Snapshot)
    : result (Snapshot * bool) :=
  let job := claimedJob data c in
  guard_err (ownsExportLease data job c (clk 0%nat)) errExportLeaseLost ;?
  guard_err (validExportCheckpoint job cp (clk 1%nat)) errExportCheckpointInvalid ;?
  match sn_ExportCheckpoints data !! cl_ID c with
  | Some previous => guard_err (bool_decide (previous = cp)) errExportCheckpointInvalid ;? Ok (data, false)
  | None =>
      guard_err (exportPlanMatches data job c (clk 2%nat) (clk 3%nat) &&
                 ((xp_Version (cl_Plan c) =? 0) || exportPlanSchemasMatch data (cl_Plan c))) errExportPlanInvalid ;?
      let data := set_sn_ExportCheckpoints data (<[cl_ID c := cp]> (sn_ExportCheckpoints data)) in
      let data := set_sn_ExportPlans data (delete (cl_ID c) (sn_ExportPlans data)) in
      Ok (appendAdminAction capN data
            (adminAction st (ej_TenantID job) "governance-worker" "export.checkpointed" "export" (ej_ID job) "stage=sealed version=1"), true)
  end.

(** ** Terminal transitions *)

Definition terminalExportCheckpointMatches (data : Snapshot) (job : ExportJob) (c : exportClaim) (status path digest : string) (count : Z)
    (now : time) : bool :=
  match sn_ExportCheckpoints data !! ej_ID job with
  | None => xc_Version (cl_Checkpoint c) =? 0
  | Some cp =>
      bool_decide (cp = cl_Checkpoint c) && validExportCheckpoint job cp now &&
      (negb (bool_decide (status = "completed")) ||
       (bool_decide (path = xc_ObjectPath cp) && bool_decide (digest = xc_Digest cp) && (count =? xc_EventCount cp) &&
        negb (bool_decide (cl_HoldBinding c = "")) && bool_decide (cl_HoldBinding c = exportHoldBinding data (ej_TenantID job))))
  end.

(** The onWrite callbacks of finishExport, failExportBlocked and
    rejectExportCheckpoint. *)
Inductive terminalNote : Type := NoNote | BlockedNote (hold : LegalHold) | RejectedNote.

Record terminalWrite : Type := mkterminalWrite {
  tw_status : string;
  tw_path : string;
  tw_digest : string;
  tw_count : Z;
  tw_failure : string;
  tw_note : terminalNote
}.

Definition finishExport (status path digest : string) (count : Z) (failure : string) : terminalWrite :=
  mkterminalWrite status path digest count failure NoNote.
Definition failExportBlocked (hold : LegalHold) : terminalWrite :=
  mkterminalWrite "failed" "" "" 0 ("export blocked by active legal hold " ++ lh_ID hold) (BlockedNote hold).
Definition rejectExportCheckpoint : terminalWrite :=
  mkterminalWrite "failed" "" "" 0 "sealed export checkpoint evidence verification failed" RejectedNote.

Definition clearExecution (data : Snapshot) (jobID : string) : Snapshot :=
  let data := set_sn_ExportLeases data (delete jobID (sn_ExportLeases data)) in
  let data := set_sn_ExportCheckpoints data (delete jobID (sn_ExportCheckpoints data)) in
  set_sn_ExportPlans data (delete jobID (sn_ExportPlans data)).

Definition terminalCode (w : terminalWrite) : string :=
  match tw_note w with
  | BlockedNote _ => ExportFailureLegalHold
  | _ => if bool_decide (tw_status w = "failed") then ExportFailureExecution else ""
  end.

Definition noteAction (capN : Z) (st : stamp) (job : ExportJob) (note : terminalNote) (data : Snapshot) : Snapshot :=
  match note with
  | NoNote => data
  | BlockedNote hold =>
      appendAdminAction capN data (adminAction st (ej_TenantID job) "governance-worker" "export.blocked" "legal_hold" (lh_ID hold)
        ("export_blocked reason=" ++ lh_Reason hold))
  | RejectedNote =>
      appendAdminAction capN data (adminAction st (ej_TenantID job) "governance-worker" "export.checkpoint_rejected" "export" (ej_ID job)
        "stage=sealed verification_failed")
  end.

(** The closure of one attempt of persistTerminalExport. *)
Definition persistTerminalExport (capN : Z) (st st' : stamp) (c : exportClaim) (w : terminalWrite) (clk : nat -> time) (data : Snapshot)
    : result (Snapshot * bool) :=
  let jobID := cl_ID c in
  match sn_Exports data !! jobID with
  | None => Ok (data, false)
  | Some value =>
      let now := clk 0%nat in
      if negb (ownsExportLease data value c now) then Ok (data, false)
      else
        guard_err (exportPlanMatches data value c (clk 1%nat) (clk 2%nat) &&
                   negb (isSet (sn_ExportPlans data !! jobID) && bool_decide (tw_status w = "completed"))) errExportPlanInvalid ;?
        guard_err (terminalExportCheckpointMatches data value c (tw_status w) (tw_path w) (tw_digest w) (tw_count w) (clk 3%nat))
          errExportCheckpointInvalid ;?
        let data1 :=
          if isSet (sn_ExportCheckpoints data !! jobID) && bool_decide (tw_status w = "completed")
          then appendAdminAction capN data (adminAction st (ej_TenantID value) "governance-worker" "export.completed" "export" jobID
                 "stage=sealed status=completed")
          else data in
        let job := finishJob value (tw_status w) (terminalCode w) now (tw_path w) (tw_digest w) (tw_count w) (tw_failure w) in
        let data2 := noteAction capN st' job (tw_note w) (clearExecution data1 jobID) in
        Ok (set_sn_Exports data2 (<[jobID := job]> (sn_Exports data2)), true)
  end.

Definition cancelExportClosure (capN : Z) (st : stamp) (tenantID actor jobID : string) (clk : nat -> time) (data : Snapshot)
    : result (Snapshot * bool) :=
  let? job := ownedExport data tenantID actor jobID in
  let lease := sn_ExportLeases data !! jobID in
  if bool_decide (ej_Status job = ExportStatusCancelled) then
    guard_err (match ej_FinishedAt job with None => false | Some t => negb (time_IsZero t) end &&
               bool_decide (ej_ObjectPath job = "") && bool_decide (ej_Digest job = "") && (ej_EventCount job =? 0))
      (exportConflict "invalid cancelled export") ;?
    guard_err (isNone lease && isNone (sn_ExportCheckpoints data !! jobID) && isNone (sn_ExportPlans data !! jobID))
      (exportConflict "cancelled export still has execution metadata") ;?
    Ok (data, false)
  else
    guard_err (isNone (ej_FinishedAt job) && (bool_decide (ej_Status job = "pending") || bool_decide (ej_Status job = "running")))
      (exportConflict "export is not cancellable") ;?
    validExportArtifacts data job (clk 0%nat) ;?
    guard_err (negb ((bool_decide (ej_Status job = "pending") && isSet lease) ||
                     (bool_decide (ej_Status job = "running") && match lease with None => true | Some l => negb (validExportLease job l) end)))
      (exportConflict "export cancellation requires valid execution metadata") ;?
    let job := finishJob job ExportStatusCancelled ExportFailureCancelled (clk 1%nat) "" "" 0 "" in
    let data := clearExecution (set_sn_Exports data (<[jobID := job]> (sn_Exports data))) jobID in
    Ok (appendAdminAction capN data (adminAction st tenantID actor "export.cancelled" "export" jobID "status=cancelled"), true).

(** ** Recovery *)

(** Why a running job is failed: the code, the detail and the error text. *)
Definition recoveryReason (stuckAge : Z) (includeLegacy : bool) (now : time) (jobID : string) (job : ExportJob) (data : Snapshot)
    : result (option (string * string * string)) :=
  let checkpointed := isSet (sn_ExportCheckpoints data !! jobID) in
  let planned := isSet (sn_ExportPlans data !! jobID) in
  let lease := sn_ExportLeases data !! jobID in
  validExportArtifacts data job now ;?
  guard_err (negb ((checkpointed || planned) && isNone lease)) errExportPlanInvalid ;?
  match lease with
  | Some lease =>
      guard_err (bool_decide (ej_ID job = jobID) && validExportLease job lease) (exportConflict "invalid export lease metadata") ;?
      if time_After (xl_ExpiresAt lease) now || checkpointed || planned then Ok None
      else Ok (Some (ExportFailureLease, "lease_expired status=failed", "export interrupted: execution lease expired; re-request the export"))
  | None =>
      let started := match ej_StartedAt job with Some t => if time_IsZero t then ej_CreatedAt job else t | None => ej_CreatedAt job end in
      if negb includeLegacy || negb (time_Before started (now - stuckAge)) then Ok None
      else Ok (Some (ExportFailureLegacy, "stuck_running_since=" ++ FormatRFC3339 started ++ " status=failed",
                     "export interrupted: stuck in running since " ++ FormatRFC3339 started ++ "; re-request the export"))
  end.

Definition recoverStep (capN : Z) (stamps : string -> stamp) (stuckAge : Z) (tenantID : string) (includeLegacy : bool) (now : time)
    (acc : result (Snapshot * Z)) (entry : string * ExportJob) : result (Snapshot * Z) :=
  let? acc := acc in
  let '(data, recovered) := acc in
  let '(jobID, job) := entry in
  if (negb (bool_decide (tenantID = "")) && negb (bool_decide (ej_TenantID job = tenantID))) ||
     negb (bool_decide (ej_Status job = "running")) || isSet (ej_FinishedAt job) then Ok (data, recovered)
  else
    let? reason := recoveryReason stuckAge includeLegacy now jobID job data in
    match reason with
    | None => Ok (data, recovered)
    | Some (code, detail, failure) =>
        let data := set_sn_Exports data (<[jobID := finishJob job "failed" code now "" "" 0 failure]> (sn_Exports data)) in
        let data := set_sn_ExportLeases data (delete jobID (sn_ExportLeases data)) in
        Ok (appendAdminAction capN data (adminAction (stamps jobID) (ej_TenantID job) "governance-worker" "export.recovered" "export" jobID detail),
            recovered + 1)
    end.

(** [entries] is the iteration over data.Exports in the order Go picks. *)
Definition recoverExportJobs (capN : Z) (stamps : string -> stamp) (stuckAge : Z) (tenantID : string) (includeLegacy : bool) (clk : nat -> time)
    (entries : list (string * ExportJob)) (data : Snapshot) : result (Snapshot * bool) :=
  let? out := foldl (recoverStep capN stamps stuckAge tenantID includeLegacy (clk 0%nat)) (Ok (data, 0)) entries in
  Ok (out.1, negb (out.2 =? 0)).

(** ** The dispatcher's choice (export_scheduler.go, export_checkpoint_schedule.go) *)

(** [byTenant]: the oldest eligible pending job of each tenant. *)
Definition olderJob (a b : ExportJob) : bool :=
  time_Before (ej_CreatedAt a) (ej_CreatedAt b) || ((ej_CreatedAt a =? ej_CreatedAt b) && str_ltb (ej_ID a) (ej_ID b)).

Definition occupants (jobs : gmap string ExportJob) (active : gmap string string) : list string :=
  (map ej_TenantID (runningJobs jobs) ++
   map snd (List.filter (fun it => negb (bool_decide (ej_Status (map_get zero_ExportJob jobs it.1) = "running"))) (map_to_list active)))%list.

Definition occupied (jobs : gmap string ExportJob) (active : gmap string string) (tenantID : string) : nat :=
  length (List.filter (fun t => bool_decide (t = tenantID)) (occupants jobs active)).

Definition eligible (jobs : gmap string ExportJob) (active : gmap string string) (id : string) (job : ExportJob) : bool :=
  bool_decide (ej_Status job = "pending") && negb (ExportTenantConcurrency <=? occupied jobs active (ej_TenantID job))%nat &&
  isNone (active !! id).

Definition byTenantStep (jobs : gmap string ExportJob) (active : gmap string string) (acc : gmap string ExportJob) (entry : string * ExportJob)
    : gmap string ExportJob :=
  let '(id, job) := entry in
  if negb (eligible jobs active id job) then acc
  else
    match acc !! ej_TenantID job with
    | None => <[ej_TenantID job := job]> acc
    | Some current => if olderJob job current then <[ej_TenantID job := job]> acc else acc
    end.

Definition byTenant (jobs : gmap string ExportJob) (active : gmap string string) : gmap string ExportJob :=
  foldl (byTenantStep jobs active) ∅ (map_to_list jobs).

(** The first element past [after], or the first one. *)
Definition roundRobin {A} (key : A -> string) (after : string) (l : list A) : option A :=
  match find_first (fun x => str_ltb after (key x)) l with
  | Some x => Some x
  | None => head l
  end.

Definition nextExport (jobs : gmap string ExportJob) (active : gmap string string) (after : string) : ExportJob :=
  if (ExportConcurrency <=? length (occupants jobs active))%nat then zero_ExportJob
  else
    let chosen := byTenant jobs active in
    match roundRobin (fun t => t) after (sort_strings (map_to_list chosen).*1) with
    | None => zero_ExportJob
    | Some tenant => map_get zero_ExportJob chosen tenant
    end.

Definition resumable (data : Snapshot) (active : gmap string string) (now : time) (id : string) (job : ExportJob) : bool :=
  let lease := map_get zero_ExportLease (sn_ExportLeases data) id in
  (isSet (sn_ExportCheckpoints data !! id) || isSet (sn_ExportPlans data !! id)) && isNone (active !! id) &&
  bool_decide (ej_ID job = id) && bool_decide (ej_Status job = "running") && isNone (ej_FinishedAt job) &&
  validExportLease job lease && negb (time_After (xl_ExpiresAt lease) now) &&
  exportCheckpointHasCapacity (sn_Exports data) (ej_TenantID job).

Definition jobBefore (a b : ExportJob) : bool :=
  if negb (bool_decide (ej_TenantID a = ej_TenantID b)) then str_ltb (ej_TenantID a) (ej_TenantID b)
  else if negb (ej_CreatedAt a =? ej_CreatedAt b) then time_Before (ej_CreatedAt a) (ej_CreatedAt b)
  else str_ltb (ej_ID a) (ej_ID b).

Definition candidates (data : Snapshot) (active : gmap string string) (now : time) : list ExportJob :=
  stable_sort (fun a b => negb (jobBefore b a))
    (List.filter (fun it => resumable data active now it.1 it.2) (map_to_list (sn_Exports data))).*2.

Definition nextRunnableExport (data : Snapshot) (active : gmap string string) (after : string) (now : time) : ExportJob :=
  match candidates data active now with
  | [] => nextExport (sn_Exports data) active after
  | jobs => default zero_ExportJob (roundRobin ej_TenantID after jobs)
  end.

(** ** Access to a finished export (export.go, export_access.go) *)

Definition exportV2Prefix : string := "export:v2:".
Definition ExportBinding (tenantID jobID : string) : string :=
  exportV2Prefix ++ Itoa (Zlen tenantID) ++ ":" ++ tenantID ++ "|" ++ Itoa (Zlen jobID) ++ ":" ++ jobID.

(** [nonce] is the random nonce of 12 bytes. *)
Definition EncryptBytesBound (nonce plain binding : string) : string := exportV2Prefix ++ nonce ++ gcmSeal nonce plain binding.

Definition nonceSize : nat := 12.

(** The version 2 format; [legacyOpen] is DecryptBytes, the version 1 format. *)
Definition DecryptExport (legacyOpen : string -> result string) (sealed binding : string) : result string :=
  if String.prefix exportV2Prefix sealed then
    let body := substring (String.length exportV2Prefix) (String.length sealed - String.length exportV2Prefix) sealed in
    if (String.length body <? nonceSize)%nat then Err (NewErr "invalid encrypted export")
    else
      match gcmOpen (substring 0 nonceSize body) (substring nonceSize (String.length body - nonceSize) body) binding with
      | None => Err (NewErr "cipher: message authentication failed")
      | Some plain => Ok plain
      end
  else legacyOpen sealed.

Definition exportAccessJob (data : Snapshot) (tenantID jobID : string) : result ExportJob :=
  match sn_Exports data !! jobID with
  | None => Err (Sentinel ErrNotFound)
  | Some job =>
      guard_err (bool_decide (ej_TenantID job = tenantID)) (Sentinel ErrNotFound) ;?
      guard_err (bool_decide (ej_ID job = jobID)) (exportConflict "invalid export identity") ;?
      Ok job
  end.

(** The job, the blocking hold if any, and the binding of the holds observed. *)
Record exportAccess : Type := mkexportAccess {
  xa_Job : ExportJob;
  xa_Hold : option LegalHold;
  xa_HoldBinding : string
}.

Definition captureExportAccess (gate : Snapshot -> string -> Query -> result (option LegalHold)) (data : Snapshot) (tenantID jobID : string)
    : result exportAccess :=
  let? job := exportAccessJob data tenantID jobID in
  let? hold := gate data (ej_TenantID job) (ej_Query job) in
  Ok (mkexportAccess job hold (exportHoldBinding data tenantID)).

Definition accessChanged : error := exportConflict "export access changed during verification; refresh before retrying".

Definition revalidateExportAccess (access : exportAccess) (exact : bool) (data : Snapshot) : result ExportJob :=
  let original := xa_Job access in
  let? job := exportAccessJob data (ej_TenantID original) (ej_ID original) in
  let selectionChanged := negb (bool_decide (ej_RequestedBy job = ej_RequestedBy original)) ||
    negb (bool_decide (ej_RetryOf job = ej_RetryOf original)) || negb (ej_CreatedAt job =? ej_CreatedAt original) ||
    negb (bool_decide (ej_Query job = ej_Query original)) in
  let terminal := negb (bool_decide (ej_Status original = "pending")) && negb (bool_decide (ej_Status original = "running")) in
  let backward := bool_decide (ej_Status original = "running") && bool_decide (ej_Status job = "pending") in
  guard_err (negb (selectionChanged || backward || ((exact || terminal) && negb (bool_decide (job = original))) ||
                   negb (bool_decide (exportHoldBinding data (ej_TenantID job) = xa_HoldBinding access)))) accessChanged ;?
  Ok job.

(** The last gate of a download: the bytes, or the error with whether a
    rejection is recorded. *)
Definition VerifyExportDownload (legacyOpen : string -> result string) (data : result Snapshot) (tenantID jobID sealed : string)
    : result string * bool :=
  match requireTenantScope tenantID, data with
  | Err e, _ | _, Err e => (Err e, false)
  | Ok _, Ok data =>
      match sn_Exports data !! jobID with
      | None => (Err (Sentinel ErrNotFound), false)
      | Some job =>
          if negb (bool_decide (ej_TenantID job = tenantID)) then (Err (Sentinel ErrNotFound), false)
          else if negb (bool_decide (ej_Status job = "completed")) || bool_decide (ej_ObjectPath job = "")
          then (Err (exportConflict "export is not completed"), false)
          else
            match DecryptExport legacyOpen sealed (ExportBinding (ej_TenantID job) (ej_ID job)) with
            | Err e => (Err e, true)
            | Ok plain =>
                if negb (isDigest (ej_Digest job)) then (Err (NewErr "stored digest is empty or malformed"), true)
                else if negb (bool_decide (HashBytes plain = ej_Digest job)) then (Err (NewErr "decrypted content digest mismatch"), true)
                else (Ok plain, false)
            end
      end
  end.

(** The backlog ResumePendingExports reports. *)
Definition backlogStep (tenantID : string) (data : Snapshot) (clk : nat -> time) (acc : result Z) (entry : string * ExportJob) : result Z :=
  let? backlog := acc in
  let '(id, job) := entry in
  if negb (bool_decide (ej_TenantID job = tenantID)) then Ok backlog
  else if bool_decide (ej_Status job = "pending") then Ok (backlog + 1)
  else if negb (bool_decide (ej_Status job = "running")) then Ok backlog
  else if isNone (sn_ExportCheckpoints data !! id) && isNone (sn_ExportPlans data !! id) then Ok backlog
  else
    let lease := map_get zero_ExportLease (sn_ExportLeases data) id in
    guard_err (bool_decide (ej_ID job = id) && validExportLease job lease) errExportPlanInvalid ;?
    validExportArtifacts data job (clk 0%nat) ;?
    Ok (if time_After (xl_ExpiresAt lease) (clk 1%nat) then backlog else backlog + 1).

Definition ResumePendingExports (data : result Snapshot) (tenantID : string) (clk : nat -> time) : result Z :=
  requireTenantScope tenantID ;?
  let? data := data in
  foldl (backlogStep tenantID data clk) (Ok 0) (map_to_list (sn_Exports data)).

End service.

End ExportJobs.
