(* ===== verification/ExportRun.v ===== *)
(** * The export executor (internal/service: export.go runExport,
    export_plan_execution.go, export_generation_execution.go,
    export_checkpoint_finalize.go, export_selection.go, export_plan_output.go,
    query_projection.go)

    [runExport] as a step machine: a program point per call on the store, the
    archive or the read trail, so that other executors, cancellations,
    recoveries and governance changes interleave at every point where the
    code releases its locks.  [input] is what the environment decides in a
    step: the clock, random identifiers, the archive's answers, and whether a
    write fails, succeeds, or succeeds with an error reported.

    Cancelling the context makes the next call fail, and an executor that is
    never scheduled again has crashed. *)

From Stdlib Require Import Ascii String.
From S2P Require Import Prelude GoStr Sha256 Signer TimeFmt KeyCodec Domain Canonical Keys Store Evidence Integrity TenantIngest Governance Holds ExportJobs.
Open Scope string_scope.
Open Scope Z_scope.
Import Domain Canonical Keys Store Sha256 Signer Evidence Integrity TenantIngest Governance Holds ExportJobs.

Module ExportRun.

(** ** The environment *)

Inductive ioResult : Type := IoOk | IoFailed | IoUnknown.

Record input : Type := mkinput {
  in_clk : nat -> time;
  in_stamp : stamp;
  in_stamp' : stamp;
  in_io : ioResult;
  in_err : error;
  in_archive : ArchiveReader;
  in_nonce : string
}.

(** The control document with the tenants' evidence, and the object archive. *)
Record world : Type := mkworld {
  w_control : Snapshot;
  w_objects : gmap string string
}.

Definition readStore {A} (i : input) (f : Snapshot -> result A) (w : world) : result A :=
  match in_io i with IoOk => f (w_control w) | _ => Err (in_err i) end.

(** UpdateControlChecked: the closure on the current document and its Save. *)
Definition updateControl (i : input) (closure : Snapshot -> result (Snapshot * bool)) (w : world) : world * result unit :=
  match closure (w_control w) with
  | Err e => (w, Err e)
  | Ok (data, false) => (w, match in_io i with IoOk => Ok tt | _ => Err (in_err i) end)
  | Ok (data, true) =>
      match in_io i with
      | IoOk => (mkworld data (w_objects w), Ok tt)
      | IoFailed => (w, Err (in_err i))
      | IoUnknown => (mkworld data (w_objects w), Err (in_err i))
      end
  end.

(** Archive.Put of an immutable object. *)
Definition putObject (i : input) (path bytes : string) (w : world) : world * result unit :=
  match in_io i with
  | IoFailed => (w, Err (in_err i))
  | io =>
      match w_objects w !! path with
      | Some present => (w, if bool_decide (present = bytes) then match io with IoOk => Ok tt | _ => Err (in_err i) end
                            else Err (NewErr "archive object conflict"))
      | None => (mkworld (w_control w) (<[path := bytes]> (w_objects w)), match io with IoOk => Ok tt | _ => Err (in_err i) end)
      end
  end.

Definition getObject (i : input) (path : string) (w : world) : result string :=
  match in_io i with
  | IoOk => match w_objects w !! path with Some bytes => Ok bytes | None => Err (Sentinel ErrNotFound) end
  | _ => Err (in_err i)
  end.

Section service.
Context {cfg : ExportConfig} {crypto : FieldCrypto}.
Variable SearchDigest : value -> result string.
Variable legacyDigest : Event -> result string.
Variable decodeIdentity : string -> option lineIdentity.
(** DecryptBytes, the version 1 format. *)
Variable legacyOpen : string -> result string.
(** json.Marshal of a payload and its decoding with UseNumber. *)
Variable reencode : option (gmap string value) -> result (option (gmap string value)).
Variable maxAdminActions : Z.

Definition gate (archive : ArchiveReader) (data : Snapshot) (tenantID : string) (q : Query) : result (option LegalHold) :=
  holdBlockingExportEvidence (archive := archive) SearchDigest legacyDigest data tenantID q.

(** ** Reading evidence *)

(** One receipt: its event, when the job's query selects it. *)
Definition selectReceipt (archive : ArchiveReader) (data : Snapshot) (job : ExportJob) (key : string) (receipt : EventReceipt)
    : result (option Event) :=
  if negb (bool_decide (rc_TenantID receipt = ej_TenantID job)) then Ok None
  else
    guard_err (bool_decide (key = EventKey (ej_TenantID job) (rc_EventID receipt))) errExportPlanInvalid ;?
    match sn_Events data !! key with
    | Some _ => Ok tt
    | None => guard_err (bool_decide (rc_Status receipt = StatusArchived)) (Sentinel ErrNotFound)
    end ;?
    let? event := resolveQueryEvidence (archive := archive) legacyDigest (sn_Events data !! key) receipt (sn_Schemas data) in
    match sn_Schemas data !! SchemaKey (ej_TenantID job) (ev_SchemaID event) (ev_SchemaVersion event) with
    | None => Err errExportPlanInvalid
    | Some schema =>
        guard_err (bool_decide (sc_TenantID schema = ej_TenantID job) && bool_decide (sc_SchemaID schema = ev_SchemaID event) &&
                   (sc_Version schema =? ev_SchemaVersion event)) errExportPlanInvalid ;?
        let? source := reconstructEventForDigest event (sn_Schemas data) in
        let? selected := matchesExportHoldEvidence SearchDigest source schema (ej_Query job) in
        Ok (if selected : bool then Some event else None)
    end.

Fixpoint selectReceipts (archive : ArchiveReader) (data : Snapshot) (job : ExportJob) (receipts : list (string * EventReceipt)) (events : list Event)
    : result (list Event) :=
  match receipts with
  | [] => Ok events
  | (key, receipt) :: receipts =>
      let? selected := selectReceipt archive data job key receipt in
      let events := (events ++ match selected with Some e => [e] | None => [] end)%list in
      guard_err (Z.of_nat (length events) <=? MaxExportPlanEvents)
        (Wrapf (Sentinel ErrQuotaExceeded) "export evidence budget exceeded; narrow filters") ;?
      selectReceipts archive data job receipts events
  end.

Definition sortEvents (events : list Event) : list Event := stable_sort (fun a b => negb (compareEvents b a)) events.

(** The blocking hold, or the selected events in their order. *)
Definition selectExportEvidenceSnapshot (archive : ArchiveReader) (data : Snapshot) (job : ExportJob) : result (LegalHold + list Event) :=
  let? hold := gate archive data (ej_TenantID job) (ej_Query job) in
  match hold with
  | Some hold => Ok (inl hold)
  | None =>
      let? events := selectReceipts archive data job (map_to_list (sn_Receipts data)) [] in
      Ok (inr (sortEvents events))
  end.

Definition memberOf (job : ExportJob) (schemas : gmap string EventSchema) (e : Event) : result ExportPlanMember :=
  match schemas !! SchemaKey (ej_TenantID job) (ev_SchemaID e) (ev_SchemaVersion e) with
  | None => Err errExportPlanInvalid
  | Some schema =>
      guard_err (bool_decide (sc_TenantID schema = ej_TenantID job) && bool_decide (sc_SchemaID schema = ev_SchemaID e) &&
                 (sc_Version schema =? ev_SchemaVersion e)) errExportPlanInvalid ;?
      Ok (mkExportPlanMember (mkEventReference (ev_OccurredAt e) (ev_EventID e) (ev_StreamID e) (ev_Sequence e) (ev_Hash e))
            (ev_SchemaID e) (ev_SchemaVersion e) (exportPlanSchemaDigest schema))
  end.

Fixpoint membersOf (job : ExportJob) (schemas : gmap string EventSchema) (events : list Event) : result (list ExportPlanMember) :=
  match events with
  | [] => Ok []
  | e :: events => let? m := memberOf job schemas e in let? ms := membersOf job schemas events in Ok (m :: ms)
  end.

Definition newExportPlan (job : ExportJob) (events : list Event) (schemas : gmap string EventSchema) (clk : nat -> time) : result ExportPlan :=
  let n := Z.of_nat (length events) in
  guard_err (n <=? MaxExportPlanEvents) (Sentinel ErrQuotaExceeded) ;?
  let? members := membersOf job schemas events in
  let version := if ExportGenerationPageEvents <? n then 2 else 1 in
  let plan := mkExportPlan version 1 (ej_ID job) (ej_TenantID job) (exportPlanBinding job) (clk 0%nat) members [] "" in
  let plan := set_xp_Signature plan (signExportPlan plan) in
  let reserved := if version =? 2 then (n + ExportGenerationPageEvents - 1) / ExportGenerationPageEvents * 1024 else 0 in
  match jsonMarshal (MacPlan plan) with
  | None => Err (Wrapf (Sentinel ErrQuotaExceeded) "export execution plan byte budget exceeded")
  | Some raw =>
      guard_err (Zlen raw + reserved <=? MaxExportPlanBytes) (Wrapf (Sentinel ErrQuotaExceeded) "export execution plan byte budget exceeded") ;?
      guard_err (validExportPlan job plan (clk 1%nat)) errExportPlanInvalid ;?
      Ok plan
  end.

(** The receipt, the hot event and the schema of a member, as ReadTenant shows
    them. *)
Definition memberCandidate (data : Snapshot) (tenantID : string) (m : ExportPlanMember) : result (EventReceipt * option Event * gmap string EventSchema) :=
  let r := xm_EventReference m in
  let key := EventKey tenantID (er_EventID r) in
  match sn_Receipts data !! key with
  | None => Err errExportPlanInvalid
  | Some receipt =>
      guard_err (bool_decide (rc_TenantID receipt = tenantID) && bool_decide (rc_EventID receipt = er_EventID r) &&
                 bool_decide (rc_StreamID receipt = er_StreamID r) && (rc_Sequence receipt =? er_Sequence r) &&
                 bool_decide (rc_Hash receipt = er_Hash r)) errExportPlanInvalid ;?
      guard_err (schemaMatches (sn_Schemas data) tenantID m) errExportPlanInvalid ;?
      match sn_Events data !! key with
      | Some _ => Ok tt
      | None => guard_err (bool_decide (rc_Status receipt = StatusArchived)) (Sentinel ErrNotFound)
      end ;?
      let schemaKey := SchemaKey tenantID (xm_SchemaID m) (xm_SchemaVersion m) in
      Ok (receipt, sn_Events data !! key,
          match sn_Schemas data !! schemaKey with Some s => {[schemaKey := s]} | None => ∅ end)
  end.

Definition memberEvent (archive : ArchiveReader) (m : ExportPlanMember) (candidate : EventReceipt * option Event * gmap string EventSchema)
    : result Event :=
  let '(receipt, hot, schemas) := candidate in
  let? event := resolveQueryEvidence (archive := archive) legacyDigest hot receipt schemas in
  guard_err (bool_decide (ev_SchemaID event = xm_SchemaID m) && (ev_SchemaVersion event =? xm_SchemaVersion m) &&
             (ev_OccurredAt event =? er_OccurredAt (xm_EventReference m))) errExportPlanInvalid ;?
  Ok event.

Fixpoint traverse {A B} (f : A -> result B) (l : list A) : result (list B) :=
  match l with
  | [] => Ok []
  | x :: l => let? y := f x in let? ys := traverse f l in Ok (y :: ys)
  end.

Definition readExportPlanMembers (archive : ArchiveReader) (tenantID : string) (members : list ExportPlanMember) (data : Snapshot) : result (list Event) :=
  let? found := traverse (memberCandidate data tenantID) members in
  traverse (fun mc => memberEvent archive mc.1 mc.2) (zip members found).

Fixpoint referencesOk (data : Snapshot) (tenantID : string) (seen : gset string) (references : list EventReference) : result unit :=
  match references with
  | [] => Ok tt
  | r :: references =>
      guard_err (negb (bool_decide (er_EventID r = "") || time_IsZero (er_OccurredAt r) || bool_decide (er_EventID r ∈ seen)))
        (exportConflict "invalid projected identity") ;?
      match sn_Receipts data !! EventKey tenantID (er_EventID r) with
      | None => Err (exportConflict "projected identity differs from committed ledger")
      | Some receipt =>
          guard_err (bool_decide (rc_TenantID receipt = tenantID) && bool_decide (rc_EventID receipt = er_EventID r) &&
                     bool_decide (er_StreamID r = rc_StreamID receipt) && (er_Sequence r =? rc_Sequence receipt) &&
                     bool_decide (er_Hash r = rc_Hash receipt)) (exportConflict "projected identity differs from committed ledger") ;?
          referencesOk data tenantID ({[er_EventID r]} ∪ seen) references
      end
  end.

Definition verifyQueryReferences (tenantID : string) (references : list EventReference) (data : Snapshot) : result unit :=
  guard_err (Z.of_nat (length references) <=? MaxQuerySnapshotEvents) (Sentinel ErrQuotaExceeded) ;?
  referencesOk data tenantID ∅ references.

(** ** Producing and authenticating bytes *)

(** stripSearchDigestKeys on decoded JSON. *)
Fixpoint stripSearchDigestKeys (v : value) : value :=
  match v with
  | VMap (Some m) => VMap (Some (filter (fun kv => hasSuffix kv.1 SearchDigestSuffix = false) (stripSearchDigestKeys <$> m)))
  | VSlice (Some l) => VSlice (Some (map stripSearchDigestKeys l))
  | v => v
  end.

Definition StripSearchDigests (payload : option (gmap string value)) : result (option (gmap string value)) :=
  let? copyPayload := reencode payload in
  Ok match stripSearchDigestKeys (VMap copyPayload) with VMap p => p | _ => copyPayload end.

Fixpoint encodeExportEvents (events : list Event) : result string :=
  match events with
  | [] => Ok ""
  | e :: events =>
      let? stripped := StripSearchDigests (ev_Payload e) in
      let? line := CanonicalJSON (EventValue (set_ev_Payload e stripped)) in
      let? rest := encodeExportEvents events in
      Ok (line ++ String newline rest)
  end.

Definition lineReference (tenantID line : string) : option EventReference :=
  match decodeIdentity line with
  | None => None
  | Some i =>
      if bool_decide (li_TenantID i = tenantID) && negb (bool_decide (li_SchemaID i = "")) && (0 <? li_SchemaVersion i)
      then Some (li_Reference i) else None
  end.

Definition checkpointUnverified : error := exportConflict "sealed export checkpoint evidence verification failed".

Definition authenticateExportCheckpoint (c : exportClaim) (sealed : string) : result (list EventReference) :=
  let cp := cl_Checkpoint c in
  if negb (String.prefix exportV2Prefix sealed) || negb (bool_decide (HashBytes sealed = xc_SealedDigest cp)) then Err checkpointUnverified
  else
    match DecryptExport legacyOpen sealed (ExportBinding (cl_TenantID c) (cl_ID c)) with
    | Err _ => Err checkpointUnverified
    | Ok plain =>
        if negb (bool_decide (HashBytes plain = xc_Digest cp)) then Err checkpointUnverified
        else if (xc_EventCount cp =? 0) && bool_decide (plain = "") then Ok []
        else
          let lines := splitLines plain in
          if negb (Z.of_nat (length lines) =? xc_EventCount cp + 1) || negb (bool_decide (last lines = Some "")) then Err checkpointUnverified
          else match mapM (lineReference (cl_TenantID c)) (removelast lines) with
               | Some references => Ok references
               | None => Err checkpointUnverified
               end
    end.

Definition pagePlan (plan : ExportPlan) (chunk : ExportPlanChunk) : ExportPlan :=
  mkExportPlan (xp_Version plan) (xp_FormatVersion plan) (xp_JobID plan) (xp_TenantID plan) (xp_Binding plan) (xp_CreatedAt plan)
    (take (Z.to_nat (xk_Count chunk)) (drop (Z.to_nat (xk_First chunk)) (xp_Members plan))) (xp_Chunks plan) (xp_Signature plan).

Definition authenticateExportChunk (plan : ExportPlan) (index : Z) (chunk : ExportPlanChunk) (sealed : string) : result string :=
  if negb (String.prefix exportV2Prefix sealed) || negb (bool_decide (HashBytes sealed = xk_SealedDigest chunk)) then Err errExportPlanInvalid
  else
    match DecryptExport legacyOpen sealed (exportChunkBinding plan index chunk) with
    | Err _ => Err errExportPlanInvalid
    | Ok plain =>
        guard_err (bool_decide (HashBytes plain = xk_Digest chunk) && exportPlainMatchesPlan decodeIdentity plain (pagePlan plan chunk))
          errExportPlanInvalid ;?
        Ok plain
    end.

(** ** Program points of runExport *)

Inductive pc : Type :=
  | XLookup (jobID owner : string)
  | XClaim (jobID owner : string)
  (* exportExecutionEvidence without a plan *)
  | XSelect (c : exportClaim)
  | XSelectFact (c : exportClaim) (plan : ExportPlan) (events : list Event)
  | XSavePlan (c : exportClaim) (plan : ExportPlan) (events : list Event)
  (* exportExecutionEvidence with a version 1 plan *)
  | XPlanCheck (c : exportClaim)
  | XPlanRead (c : exportClaim)
  | XPlanGate (c : exportClaim) (events : list Event)
  | XPlanFact (c : exportClaim) (events : list Event)
  | XPlanRecheck (c : exportClaim) (events : list Event)
  (* readExportGenerationPrefix *)
  | XPrefixCheck (c : exportClaim)
  | XPrefixRefs (c : exportClaim)
  | XPrefixGate (c : exportClaim)
  | XPrefixFact (c : exportClaim)
  | XPrefixGet (c : exportClaim) (index : nat) (plain : string)
  | XPrefixRecheck (c : exportClaim) (plain : string)
  (* generateExportPage *)
  | XPageCheck (c : exportClaim) (plain : string)
  | XPageRead (c : exportClaim) (plain : string)
  | XPageGate (c : exportClaim) (plain : string) (events : list Event)
  | XPageFact (c : exportClaim) (plain : string) (events : list Event)
  | XPageAccess (c : exportClaim) (plain page sealed : string) (chunk : ExportPlanChunk)
  | XPagePut (c : exportClaim) (plain page sealed : string) (chunk : ExportPlanChunk)
  | XPageSave (c : exportClaim) (plain page : string) (chunk : ExportPlanChunk)
  (* the whole object *)
  | XSealCheck (c : exportClaim) (sealed plain : string)
  | XPut (c : exportClaim) (sealed plain : string)
  | XSaveCheckpoint (c : exportClaim) (sealed plain : string)
  (* finalizeExportCheckpoint *)
  | XFinalLease (c : exportClaim) (sealed : option string)
  | XFinalGet (c : exportClaim)
  | XFinalRefs (c : exportClaim) (references : list EventReference)
  | XFinalGate (c : exportClaim)
  | XFinalFact (c : exportClaim)
  (* persistTerminalExport: attempts left *)
  | XTerminal (attempts : nat) (c : exportClaim) (tw : terminalWrite)
  | XDone.

(** An unusable claim never reaches the store. *)
Definition terminate (c : exportClaim) (tw : terminalWrite) : pc :=
  if validClaim c then XTerminal (S exportTerminalRetryLimit) c tw else XDone.
Definition failWith (c : exportClaim) (text : string) : pc := terminate c (finishExport "failed" "" "" 0 text).

(** err.Error() of a failed call. *)
Variable errorText : error -> string.

Definition sealPlain (i : input) (c : exportClaim) (plain : string) : pc :=
  XSealCheck c (EncryptBytesBound (in_nonce i) plain (ExportBinding (cl_TenantID c) (cl_ID c))) plain.

Definition encodeAndSeal (i : input) (c : exportClaim) (events : list Event) : pc :=
  match encodeExportEvents events with
  | Err e => failWith c (errorText e)
  | Ok plain => sealPlain i c plain
  end.

(** The loop head of generateExportPages. *)
Definition nextPage (i : input) (c : exportClaim) (plain : string) : pc :=
  if exportGeneratedMembers (cl_Plan c) <? Z.of_nat (length (xp_Members (cl_Plan c))) then XPageCheck c plain else sealPlain i c plain.
Definition startPages (i : input) (c : exportClaim) : pc :=
  if bool_decide (xp_Chunks (cl_Plan c) = []) then nextPage i c "" else XPrefixCheck c.

(** Where runExport goes with a fresh claim. *)
Definition dispatchClaim (i : input) (c : exportClaim) : pc :=
  if negb (xc_Version (cl_Checkpoint c) =? 0) then XFinalLease c None
  else if xp_Version (cl_Plan c) =? 2 then startPages i c
  else if negb (xp_Version (cl_Plan c) =? 0) then XPlanCheck c
  else XSelect c.

Definition authenticated (c : exportClaim) (sealed : string) : pc :=
  match authenticateExportCheckpoint c sealed with
  | Err _ => terminate c rejectExportCheckpoint
  | Ok references => XFinalRefs c references
  end.

Definition permanent (e : error) : bool := errors_Is e ErrConflict || errors_Is e ErrNotFound || errors_Is e ErrQuotaExceeded.

Definition memberReferences (plan : ExportPlan) : list EventReference := map xm_EventReference (xp_Members plan).
Definition pageCount (plan : ExportPlan) : Z :=
  Z.min ExportGenerationPageEvents (Z.of_nat (length (xp_Members plan)) - exportGeneratedMembers plan).
Definition pageMembers (plan : ExportPlan) : list ExportPlanMember :=
  take (Z.to_nat (pageCount plan)) (drop (Z.to_nat (exportGeneratedMembers plan)) (xp_Members plan)).

Definition newChunk (c : exportClaim) (now : time) : ExportPlanChunk :=
  let plan := cl_Plan c in
  mkExportPlanChunk 2 (exportGeneratedMembers plan) (pageCount plan)
    (chunkStem plan (Z.of_nat (length (xp_Chunks plan))) ++ substring 0 32 (HashBytes (cl_Owner c)) ++ ".bin") "" "" now.
Definition digestChunk (chunk : ExportPlanChunk) (sealed page : string) : ExportPlanChunk :=
  mkExportPlanChunk (xk_SealVersion chunk) (xk_First chunk) (xk_Count chunk) (xk_ObjectPath chunk) (HashBytes sealed) (HashBytes page)
    (xk_CreatedAt chunk).

(** holdBlockingExportEvidence returns the zero hold when nothing blocks. *)
Definition zero_LegalHold : LegalHold := mkLegalHold "" "" "" "" zero_Query "" 0 None "".

(** The outcome of a gate in a running export: the hold terminates the job,
    otherwise the claim carries the binding of the holds that were observed. *)
Definition gated (i : input) (w : world) (c : exportClaim) (next : exportClaim -> pc) : pc :=
  match readStore i (fun data => let? hold := gate (in_archive i) data (cl_TenantID c) (ej_Query (cl_Job c)) in
                                 Ok (hold, exportHoldBinding data (cl_TenantID c))) w with
  | Err _ => XDone
  | Ok (Some hold, _) => terminate c (failExportBlocked hold)
  | Ok (None, binding) => next (set_cl_HoldBinding c binding)
  end.

Definition orDone (r : result unit) (next : pc) : pc := match r with Ok _ => next | Err _ => XDone end.
(** AppendAdminFact to the read trail. *)
Definition recordFact (i : input) : result unit := match in_io i with IoOk => Ok tt | _ => Err (in_err i) end.

(** ** One step *)

(** The head of runExport: the job is looked up and claimed. *)
Definition claimStep (i : input) (w : world) (p : pc) : world * pc :=
  let clk := in_clk i in
  match p with
  | XLookup jobID owner =>
      (w, match readStore i (fun data => Ok (sn_Exports data !! jobID)) w with Ok (Some _) => XClaim jobID owner | _ => XDone end)
  | XClaim jobID owner =>
      match claimExport maxAdminActions (in_stamp i) jobID owner true clk (w_control w) with
      | Ok (Some (data, c)) =>
          match in_io i with
          | IoOk => (mkworld data (w_objects w), dispatchClaim i c)
          | IoUnknown => (mkworld data (w_objects w), XDone)
          | IoFailed => (w, XDone)
          end
      | _ => (w, XDone)
      end
  | _ => (w, p)
  end.

(** exportExecutionEvidence and the encoding of a plan that is not paged. *)
Definition planStep (i : input) (w : world) (p : pc) : world * pc :=
  let clk := in_clk i in
  match p with
  | XSelect c =>
      let planFrom events schemas :=
        match newExportPlan (cl_Job c) events schemas clk with
        | Err e => failWith c (errorText e)
        | Ok plan => XSelectFact c plan events
        end in
      (w, match readStore i (fun data =>
              let? selected := selectExportEvidenceSnapshot (in_archive i) data (cl_Job c) in Ok (selected, sn_Schemas data)) w with
          | Err e => failWith c (errorText e)
          | Ok (selected, schemas) =>
              match selected with
              | inl hold => if bool_decide (lh_ID hold = "") then planFrom [] schemas else terminate c (failExportBlocked hold)
              | inr events => planFrom events schemas
              end
          end)
  | XSelectFact c plan events =>
      (w, match recordFact i with Err e => failWith c (errorText e) | Ok _ => XSavePlan c plan events end)
  | XSavePlan c plan events =>
      let '(w, r) := updateControl i (saveExportPlan maxAdminActions (in_stamp i) c plan clk) w in
      (w, orDone r (let c := set_cl_Plan c plan in if xp_Version plan =? 2 then startPages i c else encodeAndSeal i c events))
  | XPlanCheck c => (w, orDone (readStore i (checkExportPlan c clk) w) (XPlanRead c))
  | XPlanRead c =>
      (w, match readStore i (readExportPlanMembers (in_archive i) (cl_TenantID c) (xp_Members (cl_Plan c))) w with
          | Err _ => XDone | Ok events => XPlanGate c events end)
  | XPlanGate c events =>
      (w, match readStore i (fun data => gate (in_archive i) data (cl_TenantID c) (ej_Query (cl_Job c))) w with
          | Err _ => XDone
          | Ok hold => if bool_decide (lh_ID (default zero_LegalHold hold) = "") then XPlanFact c events
                       else terminate c (failExportBlocked (default zero_LegalHold hold))
          end)
  | XPlanFact c events => (w, orDone (recordFact i) (XPlanRecheck c events))
  | XPlanRecheck c events => (w, orDone (readStore i (checkExportPlan c clk) w) (encodeAndSeal i c events))
  | _ => (w, p)
  end.

(** readExportGenerationPrefix. *)
Definition prefixStep (i : input) (w : world) (p : pc) : world * pc :=
  let clk := in_clk i in
  match p with
  | XPrefixCheck c => (w, orDone (readStore i (checkExportPlan c clk) w) (XPrefixRefs c))
  | XPrefixRefs c =>
      (w, orDone (readStore i (verifyQueryReferences (cl_TenantID c) (memberReferences (cl_Plan c))) w) (XPrefixGate c))
  | XPrefixGate c => (w, gated i w c XPrefixFact)
  | XPrefixFact c => (w, orDone (recordFact i) (XPrefixGet c 0 ""))
  | XPrefixGet c index plain =>
      (w, match xp_Chunks (cl_Plan c) !! index with
          | None => XPrefixRecheck c plain
          | Some chunk =>
              match getObject i (xk_ObjectPath chunk) w with
              | Err _ => XDone
              | Ok sealed =>
                  match authenticateExportChunk (cl_Plan c) (Z.of_nat index) chunk sealed with
                  | Err _ => XDone
                  | Ok page => XPrefixGet c (S index) (plain ++ page)
                  end
              end
          end)
  | XPrefixRecheck c plain =>
      (* the prefix reader works on its own copy of the claim *)
      (w, orDone (readStore i (checkExportGenerationAccess c clk) w) (nextPage i (set_cl_HoldBinding c "") plain))
  | _ => (w, p)
  end.

(** generateExportPage. *)
Definition pageStep (i : input) (w : world) (p : pc) : world * pc :=
  let clk := in_clk i in
  match p with
  | XPageCheck c plain =>
      (w, orDone (readStore i (checkExportPlan c clk) w)
            (if (xp_Version (cl_Plan c) =? 2) && (0 <? pageCount (cl_Plan c)) then XPageRead c plain else XDone))
  | XPageRead c plain =>
      (w, match readStore i (readExportPlanMembers (in_archive i) (cl_TenantID c) (pageMembers (cl_Plan c))) w with
          | Err _ => XDone | Ok events => XPageGate c plain events end)
  | XPageGate c plain events => (w, gated i w c (fun c => XPageFact c plain events))
  | XPageFact c plain events =>
      (w, orDone (recordFact i)
            match encodeExportEvents events with
            | Err _ => XDone
            | Ok page =>
                let chunk := newChunk c (clk 0%nat) in
                let binding := exportChunkBinding (cl_Plan c) (Z.of_nat (length (xp_Chunks (cl_Plan c)))) chunk in
                XPageAccess c plain page (EncryptBytesBound (in_nonce i) page binding) chunk
            end)
  | XPageAccess c plain page sealed chunk =>
      (w, orDone (readStore i (checkExportGenerationAccess c clk) w) (XPagePut c plain page sealed chunk))
  | XPagePut c plain page sealed chunk =>
      let '(w, r) := putObject i (xk_ObjectPath chunk) sealed w in
      (w, match r with
          | Err _ => failWith c "export generation object write failed"
          | Ok _ => XPageSave c plain page (digestChunk chunk sealed page)
          end)
  | XPageSave c plain page chunk =>
      let '(w, r) := updateControl i (saveExportChunk maxAdminActions (in_stamp i) c chunk clk) w in
      (w, orDone r (nextPage i (set_cl_Plan c (extendPlan (cl_Plan c) chunk)) (plain ++ page)))
  | _ => (w, p)
  end.

(** The tail of runExport: the sealed object and its checkpoint. *)
Definition objectStep (i : input) (w : world) (p : pc) : world * pc :=
  let clk := in_clk i in
  match p with
  | XSealCheck c sealed plain => (w, orDone (readStore i (checkExportPlan c clk) w) (XPut c sealed plain))
  | XPut c sealed plain =>
      let '(w, r) := putObject i (exportObjectKey c) sealed w in
      (w, match r with Err e => failWith c (errorText e) | Ok _ => XSaveCheckpoint c sealed plain end)
  | XSaveCheckpoint c sealed plain =>
      let count := Z.of_nat (length (xp_Members (cl_Plan c))) in
      (* the clock is read before the update here *)
      let cp := newCheckpoint c sealed plain count (clk 4%nat) in
      match checkpointRequest decodeIdentity c plain count with
      | Err _ => (w, XDone)
      | Ok _ =>
          let '(w, r) := updateControl i (saveExportCheckpoint maxAdminActions (in_stamp i) c cp clk) w in
          (w, orDone r (XFinalLease (seal_claim c cp) (Some sealed)))
      end
  | _ => (w, p)
  end.

(** finalizeExportCheckpoint. *)
Definition finalStep (i : input) (w : world) (p : pc) : world * pc :=
  let clk := in_clk i in
  match p with
  | XFinalLease c sealed =>
      (w, orDone (readStore i (checkExportLease c clk) w)
            match sealed with Some sealed => authenticated c sealed | None => XFinalGet c end)
  | XFinalGet c =>
      (w, match getObject i (xc_ObjectPath (cl_Checkpoint c)) w with Err _ => XDone | Ok sealed => authenticated c sealed end)
  | XFinalRefs c references =>
      (w, match readStore i (verifyQueryReferences (cl_TenantID c) references) w with
          | Ok _ => XFinalGate c
          | Err e => if permanent e then terminate c rejectExportCheckpoint else XDone
          end)
  | XFinalGate c => (w, gated i w c XFinalFact)
  | XFinalFact c =>
      (w, orDone (recordFact i)
            (terminate c (finishExport "completed" (xc_ObjectPath (cl_Checkpoint c)) (xc_Digest (cl_Checkpoint c))
                            (xc_EventCount (cl_Checkpoint c)) "")))
  | _ => (w, p)
  end.

(** The retry loop of persistTerminalExport. *)
Definition terminalStep (i : input) (w : world) (p : pc) : world * pc :=
  let clk := in_clk i in
  match p with
  | XTerminal O c tw => (w, XDone)
  | XTerminal (S attempts) c tw =>
      let '(w, r) := updateControl i (persistTerminalExport maxAdminActions (in_stamp i) (in_stamp' i) c tw clk) w in
      (w, match r with Ok _ => XDone | Err _ => XTerminal attempts c tw end)
  | _ => (w, p)
  end.

Definition execStep (i : input) (w : world) (p : pc) : world * pc :=
  match p with
  | XLookup _ _ | XClaim _ _ => claimStep i w p
  | XSelect _ | XSelectFact _ _ _ | XSavePlan _ _ _ | XPlanCheck _ | XPlanRead _ | XPlanGate _ _ | XPlanFact _ _ | XPlanRecheck _ _ => planStep i w p
  | XPrefixCheck _ | XPrefixRefs _ | XPrefixGate _ | XPrefixFact _ | XPrefixGet _ _ _ | XPrefixRecheck _ _ => prefixStep i w p
  | XPageCheck _ _ | XPageRead _ _ | XPageGate _ _ _ | XPageFact _ _ _ | XPageAccess _ _ _ _ _ | XPagePut _ _ _ _ _ | XPageSave _ _ _ _ => pageStep i w p
  | XSealCheck _ _ _ | XPut _ _ _ | XSaveCheckpoint _ _ _ => objectStep i w p
  | XFinalLease _ _ | XFinalGet _ | XFinalRefs _ _ | XFinalGate _ | XFinalFact _ => finalStep i w p
  | XTerminal _ _ _ => terminalStep i w p
  | XDone => (w, XDone)
  end.

End service.

(** One step at a known program point. *)
Ltac unfold_exec H := cbn [execStep claimStep planStep prefixStep pageStep objectStep finalStep terminalStep] in H.

End ExportRun.
