(* ===== verification/ExportSystem.v ===== *)
(** * Exports under interleaving: the system and its effects

    Any number of executors, on any replicas, run [execStep] beside heartbeats,
    job creation, retries, cancellations, recovery passes and writes of other
    components.  [effect] is the abstract step on the four maps of the control
    document that belong to exports; [step_effects] shows that every step of
    the system is a sequence of effects, which the properties build on. *)

From Stdlib Require Import Ascii String.
From stdpp Require Import relations.
From S2P Require Import Prelude GoStr Sha256 Signer Domain Keys Store Evidence Integrity TenantIngest Governance Holds ExportJobs ExportRun.
Open Scope string_scope.
Open Scope Z_scope.
Import Domain Keys Store Sha256 Signer Evidence Integrity TenantIngest Governance Holds ExportJobs ExportRun.

Module ExportSystem.

(** ** The abstract lifecycle of a job *)

Definition terminalStatus (s : string) : Prop := s = "completed" \/ s = "failed" \/ s = ExportStatusCancelled.

Inductive ends : ExportJob -> ExportJob -> Prop :=
  | ends_cancelled j at_ : ej_Status j = "pending" \/ ej_Status j = "running" ->
      ends j (finishJob j ExportStatusCancelled ExportFailureCancelled at_ "" "" 0 "")
  | ends_failed j code at_ failure : ej_Status j = "running" -> ends j (finishJob j "failed" code at_ "" "" 0 failure)
  | ends_completed j at_ path digest count : ej_Status j = "running" -> ends j (finishJob j "completed" "" at_ path digest count "").

Definition freshJob (id : string) (j : ExportJob) : Prop :=
  ej_ID j = id /\ id <> "" /\ ej_TenantID j <> "" /\ ej_Status j = "pending" /\ ej_StartedAt j = None /\ ej_FinishedAt j = None /\
  ej_ObjectPath j = "" /\ ej_Digest j = "" /\ ej_EventCount j = 0.

Inductive lifecycle (id : string) : option ExportJob -> option ExportJob -> Prop :=
  | life_created j : freshJob id j -> lifecycle id None (Some j)
  | life_started j at_ : ej_Status j = "pending" -> lifecycle id (Some j) (Some (startJob j at_))
  | life_ended j j' : ends j j' -> lifecycle id (Some j) (Some j').

(** ** Effects on the export maps *)

Record view : Type := mkview {
  vx : gmap string ExportJob;
  vl : gmap string ExportLease;
  vc : gmap string ExportCheckpoint;
  vp : gmap string ExportPlan
}.

Definition viewOf (d : Snapshot) : view := mkview (sn_Exports d) (sn_ExportLeases d) (sn_ExportCheckpoints d) (sn_ExportPlans d).

(** The running job of an unexpired owner. *)
Definition held (v : view) (id owner : string) (j : ExportJob) : Prop :=
  vx v !! id = Some j /\ ej_ID j = id /\ ej_Status j = "running" /\ ej_FinishedAt j = None /\
  exists lease, vl v !! id = Some lease /\ xl_Owner lease = owner.

(** Who acts: an operation without a claim, an executor that claims a job with
    its token, or the owner of a lease. *)
Inductive actor : Type := Nobody | Claimer (id owner : string) | Owner (id owner : string).

Inductive effect : actor -> view -> view -> Prop :=
  | eff_create v id j : vx v !! id = None -> freshJob id j -> exportQueueHasCapacity (vx v) (ej_TenantID j) = true ->
      (ej_RetryOf j <> "" -> forall id' j', vx v !! id' = Some j' -> ej_RetryOf j' <> ej_RetryOf j) ->
      effect Nobody v (mkview (<[id := j]> (vx v)) (vl v) (vc v) (vp v))
  | eff_start v id j owner now : vx v !! id = Some j -> ej_ID j = id -> ej_TenantID j <> "" -> ej_Status j = "pending" -> ej_FinishedAt j = None ->
      vl v !! id = None -> vc v !! id = None -> vp v !! id = None -> exportClaimHasCapacity (vx v) (ej_TenantID j) = true ->
      effect (Claimer id owner) v
        (mkview (<[id := startJob j now]> (vx v)) (<[id := newLease id (ej_TenantID j) owner now]> (vl v)) (vc v) (vp v))
  | eff_resume v id j owner now lease : vx v !! id = Some j -> ej_ID j = id -> ej_Status j = "running" -> ej_FinishedAt j = None ->
      vl v !! id = Some lease -> xl_ExpiresAt lease <= now ->
      effect (Claimer id owner) v (mkview (vx v) (<[id := newLease id (ej_TenantID j) owner now]> (vl v)) (vc v) (vp v))
  | eff_renew v id owner j lease : held v id owner j -> xl_Owner lease = owner ->
      effect (Owner id owner) v (mkview (vx v) (<[id := lease]> (vl v)) (vc v) (vp v))
  | eff_plan v id owner j plan : held v id owner j -> vc v !! id = None ->
      effect (Owner id owner) v (mkview (vx v) (vl v) (vc v) (<[id := plan]> (vp v)))
  | eff_checkpoint v id owner j cp : held v id owner j ->
      effect (Owner id owner) v (mkview (vx v) (vl v) (<[id := cp]> (vc v)) (delete id (vp v)))
  | eff_finish v id owner j j' : held v id owner j -> ends j j' ->
      effect (Owner id owner) v (mkview (<[id := j']> (vx v)) (delete id (vl v)) (delete id (vc v)) (delete id (vp v)))
  | eff_end v id j j' : vx v !! id = Some j -> ends j j' -> ej_Status j' <> "completed" ->
      effect Nobody v (mkview (<[id := j']> (vx v)) (delete id (vl v)) (delete id (vc v)) (delete id (vp v))).

Definition effects : relation view := rtc (fun a b => exists by_, effect by_ a b).

#[export] Instance effects_transitive : Transitive effects.
Proof. unfold effects. apply _. Qed.

(** Which program points hold a claim. *)
Definition pcClaim (p : pc) : option exportClaim :=
  match p with
  | XLookup _ _ | XClaim _ _ | XDone => None
  | XSelect c | XSelectFact c _ _ | XSavePlan c _ _ | XPlanCheck c | XPlanRead c | XPlanGate c _ | XPlanFact c _ | XPlanRecheck c _
  | XPrefixCheck c | XPrefixRefs c | XPrefixGate c | XPrefixFact c | XPrefixGet c _ _ | XPrefixRecheck c _
  | XPageCheck c _ | XPageRead c _ | XPageGate c _ _ | XPageFact c _ _ | XPageAccess c _ _ _ _ | XPagePut c _ _ _ _ | XPageSave c _ _ _
  | XSealCheck c _ _ | XPut c _ _ | XSaveCheckpoint c _ _ | XFinalLease c _ | XFinalGet c | XFinalRefs c _ | XFinalGate c | XFinalFact c
  | XTerminal _ c _ => Some c
  end.

Section service.
Context {cfg : ExportConfig}.

(** ** Closures as effects *)

Lemma owns_held data c now :
  ownsExportLease data (claimedJob data c) c now = true -> held (viewOf data) (cl_ID c) (cl_Owner c) (claimedJob data c).
Proof.
  unfold ownsExportLease, claimedJob, map_get. set (j := default zero_ExportJob (sn_Exports data !! cl_ID c)).
  destruct (sn_ExportLeases data !! ej_ID j) as [lease|] eqn:Hl; [|done]. rewrite !andb_true_iff.
  intros [[[[[[[Hv Hid] Ht] Ho] Hs] Hf] _] _]. apply bool_decide_eq_true in Hid, Ho, Hs.
  destruct (ej_FinishedAt j) eqn:Hf'; [done|].
  assert (ej_ID j <> "") as Hne.
  { unfold validExportLease in Hv. rewrite !andb_true_iff, negb_true_iff, bool_decide_eq_false in Hv. tauto. }
  unfold j in *. destruct (sn_Exports data !! cl_ID c) as [job|] eqn:Hj; simpl in *; [|done].
  split; [done|]. split; [done|]. split; [done|]. split; [done|]. exists lease. by rewrite <- Hid.
Qed.

Lemma viewOf_append capN d a : viewOf (appendAdminAction capN d a) = viewOf d.
Proof. reflexivity. Qed.

Lemma held_id v id owner j : held v id owner j -> ej_ID j = id.
Proof. unfold held. tauto. Qed.

Lemma renew_effect c clk d d' : renewExportLease c clk d = Ok (d', true) -> effect (Owner (cl_ID c) (cl_Owner c)) (viewOf d) (viewOf d').
Proof.
  unfold renewExportLease. destruct (ownsExportLease _ _ _ _) eqn:Ho; [|done]. cbn [negb]. destruct (negb _); [done|].
  apply owns_held in Ho as Hh. intros [= <-]. eapply eff_renew; [exact Hh|].
  destruct Hh as (_ & _ & _ & _ & lease & Hl & <-). unfold map_get. cbn in Hl |- *. by rewrite Hl.
Qed.

Lemma plan_effect capN st c plan clk d d' :
  saveExportPlan capN st c plan clk d = Ok (d', true) -> effect (Owner (cl_ID c) (cl_Owner c)) (viewOf d) (viewOf d').
Proof.
  unfold saveExportPlan. destruct (ownsExportLease _ _ _ _) eqn:Ho; [|done]. cbn [guard_err result_bind].
  apply owns_held in Ho as Hh. destruct (_ && exportCheckpointHasCapacity _ _) eqn:Hg; [|done]. cbn [guard_err result_bind].
  rewrite !andb_true_iff in Hg. destruct Hg as [[[Hc _] _] _]. rewrite (held_id _ _ _ _ Hh) in *.
  destruct (sn_ExportPlans d !! _) as [previous|]; [destruct (guard_err _ _); done|]. intros [= <-].
  apply (eff_plan (viewOf d) _ _ _ plan Hh). cbn. by destruct (sn_ExportCheckpoints d !! cl_ID c).
Qed.

Lemma chunk_effect capN st c chunk clk d d' :
  saveExportChunk capN st c chunk clk d = Ok (d', true) -> effect (Owner (cl_ID c) (cl_Owner c)) (viewOf d) (viewOf d').
Proof.
  unfold saveExportChunk. destruct (ownsExportLease _ _ _ _) eqn:Ho; [|done]. cbn [guard_err result_bind].
  apply owns_held in Ho as Hh. destruct (_ && bool_decide (cl_HoldBinding c = _)) eqn:Hg; [|done]. cbn [guard_err result_bind].
  rewrite !andb_true_iff in Hg. destruct Hg as [[[[[[[_ Hc] _] _] _] _] _] _]. intros [= <-]. rewrite (held_id _ _ _ _ Hh).
  apply (eff_plan (viewOf d) _ _ _ (extendPlan (cl_Plan c) chunk) Hh). cbn. by destruct (sn_ExportCheckpoints d !! cl_ID c).
Qed.

Lemma checkpoint_effect capN st c cp clk d d' :
  saveExportCheckpoint capN st c cp clk d = Ok (d', true) -> effect (Owner (cl_ID c) (cl_Owner c)) (viewOf d) (viewOf d').
Proof.
  unfold saveExportCheckpoint. destruct (ownsExportLease _ _ _ _) eqn:Ho; [|done]. cbn [guard_err result_bind].
  apply owns_held in Ho as Hh. destruct (validExportCheckpoint _ _ _); [|done]. cbn [guard_err result_bind].
  destruct (sn_ExportCheckpoints d !! _) as [previous|]; [destruct (guard_err _ _); done|].
  destruct (_ && _); [|done]. cbn [guard_err result_bind]. intros [= <-].
  apply (eff_checkpoint (viewOf d) _ _ _ cp Hh).
Qed.

(** What the executor may ask persistTerminalExport to write. *)
Definition writeOk (tw : terminalWrite) : Prop :=
  (tw_status tw = "failed" /\ tw_path tw = "" /\ tw_digest tw = "" /\ tw_count tw = 0) \/
  (tw_status tw = "completed" /\ tw_failure tw = "" /\ tw_note tw = NoNote).

Lemma terminal_effect capN st st' c tw clk d d' :
  writeOk tw -> persistTerminalExport capN st st' c tw clk d = Ok (d', true) ->
  effect (Owner (cl_ID c) (cl_Owner c)) (viewOf d) (viewOf d') /\
  exists j, sn_Exports d !! cl_ID c = Some j /\
    sn_Exports d' = <[cl_ID c := finishJob j (tw_status tw) (terminalCode tw) (clk 0%nat) (tw_path tw) (tw_digest tw) (tw_count tw) (tw_failure tw)]>
      (sn_Exports d).
Proof.
  intros Hok. unfold persistTerminalExport. destruct (sn_Exports d !! cl_ID c) as [j|] eqn:Hj; [|done].
  assert (claimedJob d c = j) as Ej by (unfold claimedJob, map_get; by rewrite Hj). rewrite <- Ej at 1.
  destruct (ownsExportLease _ _ _ _) eqn:Ho; [|done]. apply owns_held in Ho as Hh. rewrite Ej in Hh. cbn [negb].
  destruct (_ && negb _); [|done]. cbn [guard_err result_bind].
  destruct (terminalExportCheckpointMatches _ _ _ _ _ _ _ _); [|done]. cbn [guard_err result_bind]. intros [= <-].
  set (job := finishJob _ _ _ _ _ _ _ _). set (data1 := if _ && _ then _ else d).
  assert (viewOf data1 = viewOf d) as E1 by (unfold data1; by destruct (_ && _)).
  assert (forall x, viewOf (noteAction capN st' job (tw_note tw) x) = viewOf x) as E2 by (by destruct (tw_note tw)).
  set (data2 := noteAction _ _ _ _ _). assert (viewOf data2 = viewOf (clearExecution data1 (cl_ID c))) as E3 by apply E2.
  assert (sn_Exports data2 = sn_Exports d) as E4.
  { change (vx (viewOf data2) = vx (viewOf d)). rewrite E3. change (vx (viewOf data1) = vx (viewOf d)). by rewrite E1. }
  split; [|exists j; split; [done|]; cbn; by rewrite E4].
  assert (ends j job) as He.
  { unfold job. assert (ej_Status j = "running") as Hr by apply Hh. destruct Hok as [(-> & -> & -> & ->)|(Hs & -> & Hn)]; [by constructor|].
    unfold terminalCode. rewrite Hs, Hn. by constructor. }
  replace (viewOf (set_sn_Exports data2 (<[cl_ID c := job]> (sn_Exports data2)))) with
    (mkview (<[cl_ID c := job]> (vx (viewOf d))) (delete (cl_ID c) (vl (viewOf d))) (delete (cl_ID c) (vc (viewOf d))) (delete (cl_ID c) (vp (viewOf d))));
    [by eapply eff_finish|].
  change (viewOf (set_sn_Exports data2 (<[cl_ID c := job]> (sn_Exports data2)))) with
    (mkview (<[cl_ID c := job]> (sn_Exports data2)) (vl (viewOf data2)) (vc (viewOf data2)) (vp (viewOf data2))).
  rewrite E4, E3. change (viewOf (clearExecution data1 (cl_ID c))) with
    (mkview (vx (viewOf data1)) (delete (cl_ID c) (vl (viewOf data1))) (delete (cl_ID c) (vc (viewOf data1))) (delete (cl_ID c) (vp (viewOf data1)))).
  by rewrite E1.
Qed.

Lemma claim_effect capN st id owner clk d d' c :
  claimExport capN st id owner true clk d = Ok (Some (d', c)) ->
  cl_ID c = id /\ cl_Owner c = owner /\ effect (Claimer id owner) (viewOf d) (viewOf d').
Proof.
  unfold claimExport. destruct (sn_Exports d !! id) as [j|] eqn:Hj; [|done].
  destruct (negb _ && _) eqn:Hst; [done|]. destruct (guard_err _ _) eqn:Hg; [|done]. cbn [result_bind].
  apply guard_err_Ok in Hg. rewrite !andb_true_iff, negb_true_iff, bool_decide_eq_true, bool_decide_eq_false in Hg.
  destruct Hg as [[Hid Ht] Hf]. assert (ej_FinishedAt j = None) as Hf' by (by destruct (ej_FinishedAt j)).
  destruct (bool_decide_reflect (ej_Status j = "running")) as [Hr|Hr].
  - cbv zeta. destruct (isNone (sn_ExportCheckpoints d !! id) && _); [done|]. destruct (guard_err _ _) eqn:Hv; [|done]. apply guard_err_Ok in Hv. cbn [result_bind].
    destruct (validExportArtifacts _ _ _); [|done]. cbn [result_bind].
    destruct (time_After _ _ || _) eqn:He; [done|]. intros [= <- <-]. split; [done|]. split; [done|].
    unfold map_get in *. destruct (sn_ExportLeases d !! id) as [lease|] eqn:Hl.
    + apply orb_false_iff in He as [He _]. unfold time_After in He. cbn in He.
      match goal with |- effect _ _ ?v => replace v with (mkview (vx (viewOf d)) (<[id := newLease id (ej_TenantID j) owner (clk 0%nat)]> (vl (viewOf d))) (vc (viewOf d)) (vp (viewOf d))) end.
      * eapply (eff_resume _ _ _ _ _ lease); try done. lia.
      * unfold viewOf; cbn. f_equal. symmetry. by apply insert_id.
    + exfalso. clear -Hv. unfold validExportLease in Hv. cbn in Hv. rewrite !andb_false_r in Hv. done.
  - destruct (guard_err _ _) eqn:Hn; [|done]. cbn [result_bind]. apply guard_err_Ok in Hn. rewrite !andb_true_iff in Hn. destruct Hn as [[Hl Hc] Hp].
    destruct (exportClaimHasCapacity _ _) eqn:Hcap; [|done]. cbn [negb]. intros [= <- <-]. split; [done|]. split; [done|].
    eapply (eff_start (viewOf d)); try done; cbn.
    + destruct (bool_decide_reflect (ej_Status j = "pending")); [done|]. done.
    + by destruct (sn_ExportLeases d !! id).
    + by destruct (sn_ExportCheckpoints d !! id).
    + by destruct (sn_ExportPlans d !! id).
Qed.

(** ** Operations without a claim *)

Lemma newExportJob_fresh st tenantID actor q retryOf :
  at_id st <> "" -> tenantID <> "" -> freshJob (at_id st) (newExportJob st tenantID actor q retryOf).
Proof. done. Qed.

Lemma create_effect capN st tenantID actor q binding d d' :
  at_id st <> "" -> tenantID <> "" -> sn_Exports d !! at_id st = None ->
  createExportClosure capN st (newExportJob st tenantID actor q "") binding d = Ok (d', true) -> effect Nobody (viewOf d) (viewOf d').
Proof.
  intros Hid Ht Hn. unfold createExportClosure. destruct (checkExportPreflight _ _ _); [|done]. cbn [result_bind].
  destruct (exportQueueHasCapacity _ _) eqn:Hcap; [|done]. cbn [guard_err result_bind]. intros [= <-].
  apply (eff_create (viewOf d) (at_id st) (newExportJob st tenantID actor q "")); [done|by apply newExportJob_fresh|done|done].
Qed.

Lemma successor_fold source l r :
  foldl (successorStep source) r l = Ok None -> r = Ok None /\ Forall (fun kj => ej_RetryOf kj.2 <> ej_ID source) l.
Proof.
  revert r. induction l as [|[k j] l IH]; intros r; simpl; [done|]. intros [H Hl]%IH. unfold successorStep in H.
  destruct r as [found|e]; [|done]. cbn [result_bind] in H.
  destruct (bool_decide_reflect (ej_RetryOf j = ej_ID source)); simpl in H; [destruct (_ || _); done|].
  injection H as ->. split; [done|]. by constructor.
Qed.

Lemma no_successor d source :
  exportRetrySuccessor d source = Ok None -> forall id j, sn_Exports d !! id = Some j -> ej_RetryOf j <> ej_ID source.
Proof.
  intros [_ H]%successor_fold id j Hj. rewrite Forall_forall in H. apply (H (id, j)). by apply elem_of_map_to_list.
Qed.

Lemma retry_effect capN st1 st2 tenantID actor source q binding st d d' :
  at_id st <> "" -> tenantID <> "" ->
  retryExportClosure capN st1 st2 tenantID actor source (newExportJob st tenantID actor q (ej_ID source)) binding d = Ok (d', true) ->
  effect Nobody (viewOf d) (viewOf d').
Proof.
  intros Hid Ht. unfold retryExportClosure. destruct (ownedRetrySource _ _ _ _) as [current|]; [|done]. cbn [result_bind].
  destruct (bool_decide_reflect (source = current)) as [<-|]; [|done]. cbn [guard_err result_bind].
  destruct (exportRetrySuccessor d source) as [[|]|] eqn:Hs; [done| |done]. cbn [result_bind].
  destruct (checkExportPreflight _ _ _); [|done]. cbn [result_bind].
  destruct (exportQueueHasCapacity _ _) eqn:Hcap; [|done]. cbn [guard_err result_bind].
  destruct (guard_err _ _) eqn:Hn; [|done]. apply guard_err_Ok in Hn. cbn [result_bind]. intros [= <-].
  apply (eff_create (viewOf d) (at_id st) (newExportJob st tenantID actor q (ej_ID source))); [|by apply newExportJob_fresh|done|].
  - cbn. cbn in Hn. by destruct (sn_Exports d !! at_id st).
  - intros _ id' j' Hj'. by eapply no_successor.
Qed.

Lemma ownedExport_lookup d tenantID actor id j :
  ownedExport d tenantID actor id = Ok j -> sn_Exports d !! id = Some j /\ ej_ID j = id.
Proof.
  unfold ownedExport. destruct (sn_Exports d !! id) as [job|]; [|done]. destruct (guard_err _ _); [|done]. cbn [result_bind].
  destruct (guard_err (_ && _) _); [|done]. cbn [result_bind]. destruct (bool_decide_reflect (ej_ID job = id)); [|done].
  cbn. by intros [= <-].
Qed.

Lemma cancel_effect capN st tenantID actor id clk d d' :
  cancelExportClosure capN st tenantID actor id clk d = Ok (d', true) -> effect Nobody (viewOf d) (viewOf d').
Proof.
  unfold cancelExportClosure. destruct (ownedExport d tenantID actor id) as [j|] eqn:Ho; [|done]. cbn [result_bind].
  apply ownedExport_lookup in Ho as [Hj Hid]. destruct (bool_decide (ej_Status j = ExportStatusCancelled)).
  { destruct (guard_err _ _); [|done]. cbn [result_bind]. by destruct (guard_err _ _). }
  destruct (guard_err _ _) eqn:Hg; [|done]. apply guard_err_Ok, andb_true_iff in Hg as [_ Hs]. cbn [result_bind].
  destruct (validExportArtifacts _ _ _); [|done]. cbn [result_bind]. destruct (guard_err _ _); [|done]. cbn [result_bind]. intros [= <-].
  eapply (eff_end (viewOf d) id j); [done| |done]. constructor. apply orb_true_iff in Hs as [Hs|Hs]; apply bool_decide_eq_true in Hs; [by left|by right].
Qed.

Lemma recovery_reason stuck legacy now id j d r :
  recoveryReason stuck legacy now id j d = Ok (Some r) -> sn_ExportCheckpoints d !! id = None /\ sn_ExportPlans d !! id = None.
Proof.
  unfold recoveryReason. destruct (validExportArtifacts _ _ _); [|done]. cbn [result_bind].
  destruct (sn_ExportCheckpoints d !! id), (sn_ExportPlans d !! id), (sn_ExportLeases d !! id); cbn;
    try done; destruct (guard_err _ _); cbn; try done; by rewrite ?orb_true_r.
Qed.

Lemma recover_fold_err capN stamps stuck tenantID legacy now entries e :
  foldl (recoverStep capN stamps stuck tenantID legacy now) (Err e) entries = Err e.
Proof. by induction entries. Qed.

Lemma recover_fold capN stamps stuck tenantID legacy now entries d n d' n' :
  NoDup entries.*1 -> (forall id j, (id, j) ∈ entries -> sn_Exports d !! id = Some j) ->
  foldl (recoverStep capN stamps stuck tenantID legacy now) (Ok (d, n)) entries = Ok (d', n') -> rtc (effect Nobody) (viewOf d) (viewOf d').
Proof.
  revert d n. induction entries as [|[id j] entries IH]; intros d n Hnd Hin; cbn [foldl].
  { intros [= <- _]. apply rtc_refl. }
  cbn in Hnd. apply NoDup_cons in Hnd as [Hnid Hnd]. unfold recoverStep at 2. cbn [result_bind].
  destruct (_ || _) eqn:Hskip.
  { apply IH; [done|]. intros id' j' H. apply Hin, elem_of_cons. by right. }
  rewrite !orb_false_iff, negb_false_iff, bool_decide_eq_true in Hskip. destruct Hskip as [[_ Hr] _].
  destruct (recoveryReason _ _ _ _ _ _) as [[[[code detail] failure]|]|] eqn:Hreason; cbn [result_bind].
  - intros Hrest. destruct (recovery_reason _ _ _ _ _ _ _ Hreason) as [Hc Hp]. eapply rtc_l; [|eapply IH; [exact Hnd| |exact Hrest]].
    + assert (vx (viewOf d) !! id = Some j) as Hj by (apply Hin, elem_of_cons; by left).
      assert (effect Nobody (viewOf d) (mkview (<[id := finishJob j "failed" code now "" "" 0 failure]> (vx (viewOf d)))
        (delete id (vl (viewOf d))) (delete id (vc (viewOf d))) (delete id (vp (viewOf d))))) as He.
      { eapply eff_end; [exact Hj|by constructor|done]. }
      rewrite (delete_id (vc (viewOf d))), (delete_id (vp (viewOf d))) in He by done. exact He.
    + intros id' j' H'. cbn. rewrite lookup_insert_ne; [apply Hin, elem_of_cons; by right|].
      intros ->. apply Hnid. apply list_elem_of_fmap. by exists (id', j').
  - apply IH; [done|]. intros id' j' H. apply Hin, elem_of_cons. by right.
  - by rewrite recover_fold_err.
Qed.

Lemma recover_effects capN stamps stuck tenantID legacy clk entries d d' :
  entries ≡ₚ map_to_list (sn_Exports d) ->
  recoverExportJobs capN stamps stuck tenantID legacy clk entries d = Ok (d', true) -> rtc (effect Nobody) (viewOf d) (viewOf d').
Proof.
  intros Hperm. unfold recoverExportJobs. destruct (foldl _ _ _) as [[d1 n]|] eqn:Hf; [|done]. cbn [result_bind fst snd]. intros [= <- _].
  eapply recover_fold; [| |exact Hf].
  - rewrite Hperm. apply NoDup_fst_map_to_list.
  - intros id j Hin. rewrite Hperm in Hin. by apply elem_of_map_to_list.
Qed.

End service.

(** ** The system *)

Definition pcKey (p : pc) : option (string * string) :=
  match p with
  | XLookup id owner | XClaim id owner => Some (id, owner)
  | XDone => None
  | p => (fun c => (cl_ID c, cl_Owner c)) <$> pcClaim p
  end.

Definition pcActor (p : pc) : actor :=
  match p with
  | XClaim id owner => Claimer id owner
  | p => match pcClaim p with Some c => Owner (cl_ID c) (cl_Owner c) | None => Nobody end
  end.

Definition pcOk (p : pc) : Prop := match p with XTerminal _ _ tw => writeOk tw | _ => True end.

Record system : Type := mksystem {
  sy_world : world;
  sy_execs : gmap nat pc;
  sy_owners : gset string
}.

Definition sy_control (s : system) : Snapshot := w_control (sy_world s).
Definition commit (s : system) (d : Snapshot) : system := mksystem (mkworld d (w_objects (sy_world s))) (sy_execs s) (sy_owners s).

(** The cases of a step, named once. *)
Ltac step_cases H :=
  destruct H as [s n p i w p' Hn He|s n id owner Hn Ho Hne|s n p c i w r Hn Hc Hu|s st tenantID actor q binding d Hid Ht Hf Hc
    |s st st1 st2 tenantID actor source q binding d Hid Ht Hc|s st tenantID actor id clk d Hc
    |s stamps stuck tenantID legacy clk entries d Hperm Hc|s d objects Hv Hob].

Section system.
Context {cfg : ExportConfig} {crypto : FieldCrypto}.
Context (SearchDigest : value -> result string) (legacyDigest : Event -> result string).
Context (decodeIdentity : string -> option lineIdentity) (legacyOpen : string -> result string).
Context (reencode : option (gmap string value) -> result (option (gmap string value))) (maxAdminActions : Z).
Context (errorText : error -> string).

Notation exec := (execStep SearchDigest legacyDigest decodeIdentity legacyOpen reencode maxAdminActions errorText).

Inductive step : system -> system -> Prop :=
  | step_exec s n p i w p' :
      sy_execs s !! n = Some p -> exec i (sy_world s) p = (w, p') -> step s (mksystem w (<[n := p']> (sy_execs s)) (sy_owners s))
  | step_spawn s n id owner :
      sy_execs s !! n = None -> owner ∉ sy_owners s -> owner <> "" ->
      step s (mksystem (sy_world s) (<[n := XLookup id owner]> (sy_execs s)) ({[owner]} ∪ sy_owners s))
  | step_heartbeat s n p c i w r :
      sy_execs s !! n = Some p -> pcClaim p = Some c -> updateControl i (renewExportLease c (in_clk i)) (sy_world s) = (w, r) ->
      step s (mksystem w (sy_execs s) (sy_owners s))
  | step_create s st tenantID actor q binding d :
      at_id st <> "" -> tenantID <> "" -> sn_Exports (sy_control s) !! at_id st = None ->
      createExportClosure maxAdminActions st (newExportJob st tenantID actor q "") binding (sy_control s) = Ok (d, true) -> step s (commit s d)
  | step_retry s st st1 st2 tenantID actor source q binding d :
      at_id st <> "" -> tenantID <> "" ->
      retryExportClosure maxAdminActions st1 st2 tenantID actor source (newExportJob st tenantID actor q (ej_ID source)) binding (sy_control s)
        = Ok (d, true) -> step s (commit s d)
  | step_cancel s st tenantID actor id clk d :
      cancelExportClosure maxAdminActions st tenantID actor id clk (sy_control s) = Ok (d, true) -> step s (commit s d)
  | step_recover s stamps stuck tenantID legacy clk entries d :
      entries ≡ₚ map_to_list (sn_Exports (sy_control s)) ->
      recoverExportJobs maxAdminActions stamps stuck tenantID legacy clk entries (sy_control s) = Ok (d, true) -> step s (commit s d)
  | step_other s d objects :
      viewOf d = viewOf (sy_control s) -> w_objects (sy_world s) ⊆ objects ->
      step s (mksystem (mkworld d objects) (sy_execs s) (sy_owners s)).

(** ** Every step is a sequence of effects *)

Lemma updateControl_cases i f w w' r :
  updateControl i f w = (w', r) ->
  w_objects w' = w_objects w /\ (w_control w' = w_control w \/ f (w_control w) = Ok (w_control w', true)) /\
  (r = Ok tt -> exists b, f (w_control w) = Ok (w_control w', b) \/ (w' = w /\ exists d, f (w_control w) = Ok (d, false))).
Proof.
  unfold updateControl. destruct (f (w_control w)) as [[d []]|] eqn:Hf.
  - destruct (in_io i); intros [= <- <-]; cbn; split_and!; auto; try done. intros _. exists true. by left.
  - intros [= <- <-]. split_and!; auto. intros _. exists false. right. split; [done|]. by exists d.
  - intros [= <- <-]. split_and!; auto. done.
Qed.

Lemma update_effect i f w w' r k :
  updateControl i f w = (w', r) -> (forall d, f (w_control w) = Ok (d, true) -> effect k (viewOf (w_control w)) (viewOf d)) ->
  w_control w' = w_control w \/ effect k (viewOf (w_control w)) (viewOf (w_control w')).
Proof. intros (_ & [H|H] & _)%updateControl_cases Hf; [by left|right; by apply Hf]. Qed.

Lemma put_control i path bytes w w' r : putObject i path bytes w = (w', r) -> w_control w' = w_control w.
Proof. unfold putObject. destruct (in_io i), (w_objects w !! path); by intros [= <- _]. Qed.

(** The closures of the executor as effects of its key. *)
Local Hint Resolve plan_effect chunk_effect checkpoint_effect : export.

Ltac update_case H :=
  let Hu := fresh "Hu" in
  destruct (updateControl _ _ _) as [? ?] eqn:Hu; injection H as <- <-;
  eapply update_effect in Hu; [destruct Hu as [Hu|Hu]; [by left|right; exact Hu]|eauto with export].
Ltac put_case H :=
  let Hu := fresh "Hu" in
  destruct (putObject _ _ _ _) as [? ?] eqn:Hu; injection H as <- <-; left; by eapply put_control.

Lemma exec_effect i w p w' p' :
  exec i w p = (w', p') -> pcOk p ->
  w_control w' = w_control w \/
  effect (pcActor p) (viewOf (w_control w)) (viewOf (w_control w')).
Proof.
  intros H Hok. destruct p; unfold_exec H; cbn [pcActor pcClaim];
    first [injection H as <- <-; by left | update_case H | put_case H | idtac].
  - destruct (claimExport _ _ _ _ _ _ _) as [[[d c]|]|] eqn:Hc; [|injection H as <- <-; by left..].
    apply claim_effect in Hc as (_ & _ & He).
    destruct (in_io i); injection H as <- <-; [by right|by left|by right].
  - destruct (checkpointRequest _ _ _ _); [|injection H as <- <-; by left]. update_case H.
  - destruct attempts; [injection H as <- <-; by left|]. destruct (updateControl _ _ _) as [? ?] eqn:Hu. injection H as <- <-.
    eapply update_effect in Hu; [destruct Hu as [Hu|Hu]; [by left|right; exact Hu]|].
    intros d Hd. by eapply terminal_effect in Hd as [? _].
Qed.

(** What comes after a claim keeps its job and its owner. *)
Definition follows (c : exportClaim) (p : pc) : Prop :=
  pcOk p /\ (p = XDone \/ exists c', pcClaim p = Some c' /\ cl_Job c' = cl_Job c /\ cl_Owner c' = cl_Owner c).

Lemma follows_done c : follows c XDone.
Proof. split; [done|by left]. Qed.
Lemma follows_claim c c' p : pcOk p -> pcClaim p = Some c' -> cl_Job c' = cl_Job c -> cl_Owner c' = cl_Owner c -> follows c p.
Proof. intros. split; [done|right; by exists c']. Qed.
Lemma follows_terminate c c' tw : writeOk tw -> cl_Job c' = cl_Job c -> cl_Owner c' = cl_Owner c -> follows c (terminate c' tw).
Proof. intros. unfold terminate. destruct (validClaim c'); [by eapply follows_claim|apply follows_done]. Qed.
Lemma follows_fail c c' text : cl_Job c' = cl_Job c -> cl_Owner c' = cl_Owner c -> follows c (failWith c' text).
Proof. apply follows_terminate. by left. Qed.
Lemma follows_blocked c hold : follows c (terminate c (failExportBlocked hold)).
Proof. apply follows_terminate; [by left|done|done]. Qed.
Lemma follows_orDone c r p : follows c p -> follows c (orDone r p).
Proof. destruct r; [done|intros; apply follows_done]. Qed.
Lemma follows_seal i c c' plain : cl_Job c' = cl_Job c -> cl_Owner c' = cl_Owner c -> follows c (sealPlain i c' plain).
Proof. by apply follows_claim. Qed.
Lemma follows_encode i c c' events : cl_Job c' = cl_Job c -> cl_Owner c' = cl_Owner c -> follows c (encodeAndSeal reencode errorText i c' events).
Proof. intros. unfold encodeAndSeal. destruct (encodeExportEvents _ _); [by apply follows_seal|by apply follows_fail]. Qed.
Lemma follows_page i c c' plain : cl_Job c' = cl_Job c -> cl_Owner c' = cl_Owner c -> follows c (nextPage i c' plain).
Proof. intros. unfold nextPage. destruct (_ <? _); [by eapply follows_claim|by apply follows_seal]. Qed.
Lemma follows_pages i c c' : cl_Job c' = cl_Job c -> cl_Owner c' = cl_Owner c -> follows c (startPages i c').
Proof. intros. unfold startPages. destruct (bool_decide _); [by apply follows_page|by eapply follows_claim]. Qed.
Lemma follows_gated i w c next :
  (forall b, follows c (next (set_cl_HoldBinding c b))) -> follows c (gated SearchDigest legacyDigest i w c next).
Proof. intros H. unfold gated. destruct (readStore _ _ _) as [[[hold|] b]|]; [apply follows_blocked|apply H|apply follows_done]. Qed.
Lemma follows_authenticated c sealed : follows c (authenticated decodeIdentity legacyOpen c sealed).
Proof.
  unfold authenticated. destruct (authenticateExportCheckpoint _ _ _ _); [by eapply follows_claim|].
  apply follows_terminate; [by left|done|done].
Qed.
Lemma follows_dispatch i c : follows c (dispatchClaim i c).
Proof.
  unfold dispatchClaim. destruct (negb _); [by eapply follows_claim|]. destruct (_ =? _); [by apply follows_pages|].
  destruct (negb _); by eapply follows_claim.
Qed.

Create HintDb follows.
#[local] Hint Resolve follows_done follows_fail follows_blocked follows_seal follows_encode follows_page follows_pages follows_authenticated
  follows_dispatch : follows.
#[local] Hint Extern 4 (follows _ (gated _ _ _ _ _ _)) => apply follows_gated; intros ?; eapply follows_claim : follows.
#[local] Hint Extern 4 (follows _ (orDone _ _)) => apply follows_orDone : follows.
#[local] Hint Extern 5 (follows _ _) => (eapply follows_claim; reflexivity || exact I) : follows.
#[local] Hint Extern 6 (follows _ (terminate _ _)) => (apply follows_terminate; [by left|reflexivity|reflexivity]) : follows.

Ltac follow_case H :=
  repeat match type of H with context [let '(_, _) := ?x in _] => destruct x as [? ?] eqn:?; cbv beta iota in H end;
  injection H as <- <-;
  repeat first [solve [auto 6 with follows] | progress (cbv zeta) | case_match | apply follows_orDone].

Lemma exec_follows i w p w' p' c :
  exec i w p = (w', p') -> pcClaim p = Some c -> pcOk p -> follows c p'.
Proof.
  intros H [= Hc] Hok. destruct p; unfold_exec H; try discriminate Hc; injection Hc as ->; try (follow_case H; fail).
  - destruct (checkpointRequest _ _ _ _); [|injection H as <- <-; apply follows_done]. follow_case H.
  - injection H as <- <-. apply follows_orDone, follows_terminate; [by right|done|done].
  - destruct attempts; [injection H as <- <-; apply follows_done|]. destruct (updateControl _ _ _) as [? r]. injection H as <- <-.
    destruct r; [apply follows_done|by eapply follows_claim].
Qed.

Lemma follows_key c p : follows c p -> pcOk p /\ (p = XDone \/ pcKey p = Some (cl_ID c, cl_Owner c)).
Proof.
  intros [Hok [->|(c' & Hc & Hj & Ho)]]; split; auto. right.
  assert (pcKey p = Some (cl_ID c', cl_Owner c')) as ->; [|unfold cl_ID; by rewrite Hj, Ho].
  destruct p; cbn in Hc |- *; try discriminate Hc; by injection Hc as ->.
Qed.

(** The key of an executor never changes until it is done. *)
Lemma exec_key i w p w' p' :
  exec i w p = (w', p') -> pcOk p -> pcOk p' /\ (p' = XDone \/ (pcKey p' = pcKey p /\ pcKey p <> None)).
Proof.
  intros H Hok. destruct (pcClaim p) as [c|] eqn:Hc.
  - assert (follows c p') as Hf by (by eapply exec_follows). apply follows_key in Hf as [Hok' [->|Hk]]; [by split; [|left]|].
    split; [done|right]. assert (pcKey p = Some (cl_ID c, cl_Owner c)) as ->; [|done].
    destruct p; cbn in Hc |- *; try discriminate Hc; by injection Hc as ->.
  - destruct p; try discriminate Hc; unfold_exec H.
    + injection H as <- <-. destruct (readStore _ _ _) as [[|]|]; cbn; auto.
    + destruct (claimExport _ _ _ _ _ _ _) as [[[d c]|]|] eqn:Hcl; [|injection H as <- <-; cbn; auto..].
      apply claim_effect in Hcl as (Hid & Ho & _). destruct (in_io i); injection H as <- <-; [|cbn; auto..].
      destruct (follows_key c (dispatchClaim i c) (follows_dispatch i c)) as [Hok' [->|Hk]]; [cbn; auto|].
      split; [done|right]. cbn [pcKey]. rewrite Hk, Hid, Ho. done.
    + injection H as <- <-. cbn; auto.
Qed.

(** ** Reachable systems *)

Definition initial (s : system) : Prop := viewOf (sy_control s) = mkview ∅ ∅ ∅ ∅ /\ sy_execs s = ∅.
Definition reachable (s : system) : Prop := exists s0, initial s0 /\ rtc step s0 s.

Definition execsOk (s : system) : Prop := map_Forall (fun _ p => pcOk p) (sy_execs s).

Lemma step_execsOk s s' : step s s' -> execsOk s -> execsOk s'.
Proof.
  intros H Hok. step_cases H; try exact Hok; unfold execsOk; cbn.
  - apply map_Forall_insert_2; [|done]. apply exec_key in He as [? _]; [done|by eapply Hok].
  - by apply map_Forall_insert_2.
Qed.

Lemma pcClaim_actor p c : pcClaim p = Some c -> pcActor p = Owner (cl_ID c) (cl_Owner c).
Proof. destruct p; cbn; intros H; try discriminate H; by injection H as ->. Qed.

(** A step is the work of nobody's claim, or one effect of one executor. *)
Lemma step_actor s s' :
  step s s' -> execsOk s ->
  rtc (effect Nobody) (viewOf (sy_control s)) (viewOf (sy_control s')) \/
  exists n p, sy_execs s !! n = Some p /\ effect (pcActor p) (viewOf (sy_control s)) (viewOf (sy_control s')).
Proof.
  intros H Hok. step_cases H; unfold sy_control in *; cbn.
  - apply exec_effect in He as [->|He]; [left; apply rtc_refl|right; by exists n, p|by eapply Hok].
  - left. apply rtc_refl.
  - eapply update_effect in Hu; [|intros d; apply renew_effect].
    destruct Hu as [->|He]; [left; apply rtc_refl|right]. exists n, p. by rewrite (pcClaim_actor p c Hc).
  - left. apply rtc_once. eapply create_effect; [| |exact Hf|exact Hc]; done.
  - left. apply rtc_once. eapply retry_effect; [| |exact Hc]; done.
  - left. apply rtc_once. by eapply cancel_effect.
  - left. by eapply recover_effects.
  - left. rewrite Hv. apply rtc_refl.
Qed.

Lemma step_effects s s' : step s s' -> execsOk s -> effects (viewOf (sy_control s)) (viewOf (sy_control s')).
Proof.
  intros H Hok. destruct (step_actor s s' H Hok) as [He|(n & p & _ & He)]; [|apply rtc_once; by eexists].
  eapply rtc_subrel; [|exact He]. intros a b Hab. by exists Nobody.
Qed.

Lemma steps_effects s s' : rtc step s s' -> execsOk s -> execsOk s' /\ effects (viewOf (sy_control s)) (viewOf (sy_control s')).
Proof.
  induction 1 as [s|s s1 s' Hstep _ IH]; intros Hok; [split; [done|apply rtc_refl]|].
  destruct IH as [Hok' He]; [by eapply step_execsOk|]. split; [done|]. eapply transitivity; [by apply step_effects|exact He].
Qed.

Lemma reachable_execs s : reachable s -> execsOk s.
Proof. intros (s0 & [_ He] & H). eapply steps_effects; [done|]. unfold execsOk. rewrite He. apply map_Forall_empty. Qed.

Lemma effects_ind (P : view -> Prop) v v' : (forall by_ a b, effect by_ a b -> P a -> P b) -> effects v v' -> P v -> P v'.
Proof. intros Hstep. induction 1 as [|a b c [by_ He] _ IH]; [done|]. intros Ha. apply IH. by eapply Hstep. Qed.

Lemma reachable_view (P : view -> Prop) s :
  P (mkview ∅ ∅ ∅ ∅) -> (forall by_ a b, effect by_ a b -> P a -> P b) -> reachable s -> P (viewOf (sy_control s)).
Proof.
  intros H0 Hstep (s0 & [Hv He] & H). eapply effects_ind; [exact Hstep|eapply steps_effects; [exact H|]|by rewrite Hv].
  unfold execsOk. rewrite He. apply map_Forall_empty.
Qed.

End system.

End ExportSystem.
