(* ===== verification/ExportProps.v ===== *)
(** * What holds of exports under every interleaving

    [export_job_lifecycle]: every step moves every job along the lifecycle, and
    a terminal job never changes.  [export_slots_bounded]: queue and execution
    slots stay within their ceilings.  [execution_metadata_exact]: leases,
    plans and checkpoints belong to running jobs only, and a job has at most
    one retry.  [superseded_executor_is_fenced]: an executor that lost its lease
    never writes again. *)

From Stdlib Require Import Ascii String.
From stdpp Require Import relations.
From S2P Require Import Prelude GoStr Sha256 Signer Domain Keys Store Evidence Integrity TenantIngest Governance Holds ExportJobs ExportRun ExportSystem.
Open Scope string_scope.
Open Scope Z_scope.
Import Domain Keys Store Sha256 Signer Evidence Integrity TenantIngest Governance Holds ExportJobs ExportRun ExportSystem.

Module ExportProps.

(** ** Counting jobs *)

Definition countJobs (p : ExportJob -> bool) (jobs : gmap string ExportJob) : nat := length (List.filter p (map_to_list jobs).*2).
Definition isRunning (j : ExportJob) : bool := bool_decide (ej_Status j = "running").
Definition isActive (j : ExportJob) : bool := bool_decide (ej_Status j = "pending") || bool_decide (ej_Status j = "running").
Definition inTenant (t : string) (j : ExportJob) : bool := bool_decide (ej_TenantID j = t).
Definition weight (b : bool) : nat := if b then 1%nat else 0%nat.

Lemma filter_length_perm {A} (p : A -> bool) (l l' : list A) : l ≡ₚ l' -> length (List.filter p l) = length (List.filter p l').
Proof. induction 1; simpl; repeat case_match; simpl; congruence. Qed.

Lemma count_insert_new p jobs id j : jobs !! id = None -> countJobs p (<[id := j]> jobs) = (weight (p j) + countJobs p jobs)%nat.
Proof.
  intros H. unfold countJobs. rewrite (filter_length_perm p _ ((id, j) :: map_to_list jobs).*2).
  - simpl. by destruct (p j).
  - by rewrite map_to_list_insert.
Qed.

Lemma count_insert p jobs id j j0 :
  jobs !! id = Some j0 -> (countJobs p (<[id := j]> jobs) + weight (p j0) = weight (p j) + countJobs p jobs)%nat.
Proof.
  intros H. rewrite <- (insert_delete_id jobs id j0) at 2 by done. rewrite <- (insert_delete_eq jobs id j).
  rewrite !count_insert_new by apply lookup_delete_eq. lia.
Qed.

Lemma filter_filter {A} (p q : A -> bool) l : List.filter p (List.filter q l) = List.filter (fun x => q x && p x) l.
Proof. induction l as [|x l IH]; simpl; [done|]. destruct (q x); simpl; [|done]. destruct (p x); by rewrite IH. Qed.

Lemma running_count jobs : length (runningJobs jobs) = countJobs isRunning jobs.
Proof. done. Qed.
Lemma running_tenant t jobs : length (ofTenant t (runningJobs jobs)) = countJobs (fun j => isRunning j && inTenant t j) jobs.
Proof. unfold ofTenant, runningJobs, countJobs. by rewrite filter_filter. Qed.
Lemma active_count jobs : length (activeJobs jobs) = countJobs isActive jobs.
Proof. done. Qed.
Lemma active_tenant t jobs : length (ofTenant t (activeJobs jobs)) = countJobs (fun j => isActive j && inTenant t j) jobs.
Proof. unfold ofTenant, activeJobs, countJobs. by rewrite filter_filter. Qed.

(** ** The invariant of the export maps *)

Definition noArtifacts (v : view) (id : string) : Prop := vl v !! id = None /\ vc v !! id = None /\ vp v !! id = None.

Definition jobOk (v : view) (id : string) (j : ExportJob) : Prop :=
  ej_ID j = id /\ id <> "" /\ ej_TenantID j <> "" /\
  ((ej_Status j = "pending" /\ ej_FinishedAt j = None /\ noArtifacts v id) \/
   (ej_Status j = "running" /\ ej_FinishedAt j = None /\ is_Some (vl v !! id) /\ (vc v !! id = None \/ vp v !! id = None)) \/
   (terminalStatus (ej_Status j) /\ is_Some (ej_FinishedAt j) /\ noArtifacts v id)).

Record viewOk (v : view) : Prop := {
  ok_job : forall id j, vx v !! id = Some j -> jobOk v id j;
  ok_none : forall id, vx v !! id = None -> noArtifacts v id;
  ok_retry : forall id id' j j', vx v !! id = Some j -> vx v !! id' = Some j' -> ej_RetryOf j <> "" -> ej_RetryOf j = ej_RetryOf j' -> id = id';
  ok_running : (countJobs isRunning (vx v) <= ExportConcurrency)%nat;
  ok_running_tenant : forall t, (countJobs (fun j => isRunning j && inTenant t j) (vx v) <= ExportTenantConcurrency)%nat;
  ok_active : (countJobs isActive (vx v) <= MaxPendingExports)%nat;
  ok_active_tenant : forall t, (countJobs (fun j => isActive j && inTenant t j) (vx v) <= MaxPendingExportsPerTenant)%nat
}.

Lemma count_empty p : countJobs p ∅ = 0%nat.
Proof. done. Qed.

Lemma viewOk_empty : viewOk (mkview ∅ ∅ ∅ ∅).
Proof.
  split; cbn [vx vl vc vp]; intros *; rewrite ?lookup_empty, ?count_empty; try done; lia.
Qed.

Lemma ends_status j j' : ends j j' -> (ej_Status j = "pending" \/ ej_Status j = "running") /\ terminalStatus (ej_Status j').
Proof. destruct 1; unfold terminalStatus; cbn; tauto. Qed.

Lemma ends_frozen j j' :
  ends j j' -> ej_ID j' = ej_ID j /\ ej_TenantID j' = ej_TenantID j /\ ej_RetryOf j' = ej_RetryOf j /\ is_Some (ej_FinishedAt j').
Proof. destruct 1; cbn; eauto. Qed.

Lemma terminal_inactive j : terminalStatus (ej_Status j) -> isRunning j = false /\ isActive j = false.
Proof. unfold isRunning, isActive. intros [->|[->| ->]]; split; reflexivity. Qed.

Lemma effect_lifecycle by_ v v' id : effect by_ v v' -> rtc (lifecycle id) (vx v !! id) (vx v' !! id).
Proof.
  destruct 1 as [v id0 j Hn|v id0 j ? ? Hj|v id0 j|v id0|v id0|v id0|v id0 o j j' [Hj _] He|v id0 j j' Hj He]; cbn; try apply rtc_refl.
  all: destruct (decide (id0 = id)) as [->|]; [|rewrite lookup_insert_ne by done; apply rtc_refl].
  all: rewrite lookup_insert_eq; (rewrite Hj || rewrite Hn); apply rtc_once; by constructor.
Qed.

Definition sameAt (v v' : view) (id : string) : Prop :=
  vl v' !! id = vl v !! id /\ vc v' !! id = vc v !! id /\ vp v' !! id = vp v !! id.

Lemma jobOk_same v v' id j : sameAt v v' id -> jobOk v id j -> jobOk v' id j.
Proof. unfold jobOk, noArtifacts. by intros (-> & -> & ->). Qed.

Definition boundsOk (jobs : gmap string ExportJob) : Prop :=
  (countJobs isRunning jobs <= ExportConcurrency)%nat /\
  (forall t, countJobs (fun j => isRunning j && inTenant t j) jobs <= ExportTenantConcurrency)%nat /\
  (countJobs isActive jobs <= MaxPendingExports)%nat /\
  (forall t, countJobs (fun j => isActive j && inTenant t j) jobs <= MaxPendingExportsPerTenant)%nat.

Lemma viewOk_bounds v : viewOk v -> boundsOk (vx v).
Proof. intros Hok. split_and!; apply Hok. Qed.

(** An effect at one job keeps the invariant when the job, the retry links and
    the counts are right. *)
Lemma viewOk_update v v' id j' :
  viewOk v -> (forall id', id' <> id -> sameAt v v' id') -> vx v' = <[id := j']> (vx v) -> jobOk v' id j' ->
  (forall id1 j1, vx v !! id1 = Some j1 -> id1 <> id -> ej_RetryOf j' <> "" -> ej_RetryOf j1 <> ej_RetryOf j') ->
  boundsOk (<[id := j']> (vx v)) -> viewOk v'.
Proof.
  intros Hok Hsame Hx Hj Hretry (B1 & B2 & B3 & B4). split; rewrite Hx; try done.
  - intros id1 j1. destruct (decide (id1 = id)) as [->|Hne]; [by rewrite lookup_insert_eq; intros [= <-]|].
    rewrite lookup_insert_ne by done. intros H1. eapply jobOk_same; [by apply Hsame|by apply Hok].
  - intros id1. destruct (decide (id1 = id)) as [->|Hne]; [by rewrite lookup_insert_eq|].
    rewrite lookup_insert_ne by done. intros H1. destruct (Hsame id1 Hne) as (E1 & E2 & E3). unfold noArtifacts. rewrite E1, E2, E3. by apply Hok.
  - intros id1 id2 j1 j2. destruct (decide (id1 = id)) as [->|H1], (decide (id2 = id)) as [->|H2];
      rewrite ?lookup_insert_eq, ?lookup_insert_ne by done; try done.
    + intros [= <-] Hj2 Hne Heq. by destruct (Hretry id2 j2 Hj2 H2 Hne).
    + intros Hj1 [= <-] Hne Heq. destruct (Hretry id1 j1 Hj1 H1); [congruence|done].
    + apply Hok.
Qed.

Lemma count_le p jobs id j j0 : jobs !! id = Some j0 -> (p j = true -> p j0 = true) -> (countJobs p (<[id := j]> jobs) <= countJobs p jobs)%nat.
Proof. intros H Himp. pose proof (count_insert p jobs id j j0 H). unfold weight in *. destruct (p j), (p j0); try lia. Qed.

Lemma bounds_terminal jobs id j j0 :
  jobs !! id = Some j0 -> terminalStatus (ej_Status j) -> boundsOk jobs -> boundsOk (<[id := j]> jobs).
Proof.
  intros H [Hr Ha]%terminal_inactive (B1 & B2 & B3 & B4).
  assert (forall p, (p j = false) -> countJobs p (<[id := j]> jobs) <= countJobs p jobs)%nat as Hle.
  { intros p Hp. eapply count_le; [exact H|]. congruence. }
  split_and!.
  - etrans; [by apply Hle|done].
  - intros t. etrans; [apply (Hle (fun j => isRunning j && inTenant t j)); by rewrite Hr|done].
  - etrans; [by apply Hle|done].
  - intros t. etrans; [apply (Hle (fun j => isActive j && inTenant t j)); by rewrite Ha|done].
Qed.

Lemma bounds_create jobs id j :
  jobs !! id = None -> ej_Status j = "pending" -> exportQueueHasCapacity jobs (ej_TenantID j) = true -> boundsOk jobs -> boundsOk (<[id := j]> jobs).
Proof.
  intros H Hs Hcap (B1 & B2 & B3 & B4). unfold exportQueueHasCapacity in Hcap. rewrite active_count, active_tenant, andb_true_iff in Hcap.
  rewrite !Nat.ltb_lt in Hcap. destruct Hcap as [C1 C2].
  assert (isRunning j = false) as Hr by (unfold isRunning; by rewrite Hs). assert (isActive j = true) as Ha by (unfold isActive; by rewrite Hs).
  split_and!.
  - rewrite count_insert_new, Hr by done. done.
  - intros t. rewrite count_insert_new, Hr by done. apply B2.
  - rewrite count_insert_new, Ha by done. cbn. lia.
  - intros t. rewrite count_insert_new, Ha by done. unfold inTenant at 1. cbn. destruct (bool_decide_reflect (ej_TenantID j = t)) as [<-|]; cbn; [lia|apply B4].
Qed.

Lemma bounds_start jobs id j now :
  jobs !! id = Some j -> ej_Status j = "pending" -> exportClaimHasCapacity jobs (ej_TenantID j) = true -> boundsOk jobs ->
  boundsOk (<[id := startJob j now]> jobs).
Proof.
  intros H Hs Hcap (B1 & B2 & B3 & B4). unfold exportClaimHasCapacity in Hcap. rewrite running_count, running_tenant, andb_true_iff in Hcap.
  rewrite !Nat.ltb_lt in Hcap. destruct Hcap as [C1 C2].
  assert (isActive j = true) as Ha by (unfold isActive; by rewrite Hs).
  assert (isRunning j = false) as Hr by (unfold isRunning; by rewrite Hs).
  assert (isRunning (startJob j now) = true) as Hr' by reflexivity. split_and!.
  - pose proof (count_insert isRunning jobs id (startJob j now) j H) as Hc. rewrite Hr, Hr' in Hc. cbn [weight] in Hc. lia.
  - intros t. pose proof (count_insert (fun j => isRunning j && inTenant t j) jobs id (startJob j now) j H) as Hc. cbn beta in Hc.
    specialize (B2 t). rewrite Hr, Hr' in Hc. change (inTenant t (startJob j now)) with (bool_decide (ej_TenantID j = t)) in Hc.
    destruct (bool_decide_reflect (ej_TenantID j = t)) as [<-|]; cbn [andb weight] in Hc; lia.
  - etrans; [eapply count_le; [exact H|done]|done].
  - intros t. etrans; [eapply count_le; [exact H|]|apply B4]. cbn beta. rewrite Ha. by change (inTenant t (startJob j now)) with (inTenant t j).
Qed.

Lemma sameAt_at v v' id id' :
  (forall k, k <> id -> vl v' !! k = vl v !! k) -> (forall k, k <> id -> vc v' !! k = vc v !! k) -> (forall k, k <> id -> vp v' !! k = vp v !! k) ->
  id' <> id -> sameAt v v' id'.
Proof. intros H1 H2 H3 Hne. split; [by apply H1|]. split; [by apply H2|by apply H3]. Qed.

Ltac same_elsewhere := intros ? ?; repeat split; cbn; rewrite ?lookup_insert_ne, ?lookup_delete_ne by done; done.

(** A terminal record replaces an active one. *)
Lemma viewOk_finished v id j j' :
  viewOk v -> vx v !! id = Some j -> ends j j' -> viewOk (mkview (<[id := j']> (vx v)) (delete id (vl v)) (delete id (vc v)) (delete id (vp v))).
Proof.
  intros Hok Hj He. destruct (ends_status _ _ He) as [_ Ht]. destruct (ends_frozen _ _ He) as (E1 & E2 & E3 & E4).
  destruct (ok_job _ Hok _ _ Hj) as (J1 & J2 & J3 & _).
  eapply (viewOk_update v _ id j' Hok); [same_elsewhere|done| | |].
  - split; [congruence|]. split; [done|]. split; [congruence|]. right; right. split; [done|]. split; [done|].
    unfold noArtifacts; cbn. by rewrite !lookup_delete_eq.
  - intros id1 j1 H1 Hne. rewrite E3. intros Hr Heq. apply Hne. eapply (ok_retry _ Hok); [exact H1|exact Hj|congruence|done].
  - eapply bounds_terminal; [done|done|by apply viewOk_bounds].
Qed.

(** A change of the artifacts of a running job. *)
Lemma viewOk_artifacts v v' id owner j :
  viewOk v -> held v id owner j -> vx v' = vx v -> (forall id', id' <> id -> sameAt v v' id') -> is_Some (vl v' !! id) ->
  (vc v' !! id = None \/ vp v' !! id = None) -> viewOk v'.
Proof.
  intros Hok (Hj & Hid & Hs & Hf & _) Hx Hsame Hl Hcp. destruct (ok_job _ Hok _ _ Hj) as (J1 & J2 & J3 & _).
  eapply (viewOk_update v _ id j Hok Hsame); [rewrite Hx; by rewrite insert_id| | |].
  - split; [done|]. split; [done|]. split; [done|]. right; left. done.
  - intros id1 j1 H1 Hne Hr Heq. apply Hne. eapply (ok_retry _ Hok); [exact H1|exact Hj|congruence|done].
  - rewrite insert_id by done. by apply viewOk_bounds.
Qed.

Lemma running_artifacts v id owner j : viewOk v -> held v id owner j -> is_Some (vl v !! id) /\ (vc v !! id = None \/ vp v !! id = None).
Proof.
  intros Hok (Hj & _ & Hs & _). destruct (ok_job _ Hok _ _ Hj) as (_ & _ & _ & [(H & _)|[(_ & _ & Hl & Hcp)|(H & _)]]); [congruence|done|].
  rewrite Hs in H. by destruct H as [|[|]].
Qed.

Lemma effect_ok by_ v v' : effect by_ v v' -> viewOk v -> viewOk v'.
Proof.
  intros He Hok.
  destruct He as [v id j Hn Hfresh Hcap Hretry|v id j owner now Hj Hid Ht Hs Hf Hl Hc Hp Hcap|v id j owner now lease Hj Hid Hs Hf Hl _
    |v id owner j lease Hh _|v id owner j plan Hh Hc|v id owner j cp Hh|v id owner j j' Hh He|v id j j' Hj He _].
  - destruct Hfresh as (F1 & F2 & F3 & F4 & _ & F5 & _).
    eapply (viewOk_update v _ id j Hok); [same_elsewhere|done| |intros id1 j1 H1 _ Hr; by eapply Hretry|].
    + split; [done|]. split; [done|]. split; [done|]. left. split; [done|]. split; [done|]. by apply (ok_none _ Hok).
    + apply bounds_create; [done|done|done|by apply viewOk_bounds].
  - destruct (ok_job _ Hok _ _ Hj) as (_ & J2 & J3 & _).
    eapply (viewOk_update v _ id (startJob j now) Hok); [same_elsewhere|done| | |].
    + split; [done|]. split; [done|]. split; [done|]. right; left. split; [done|]. split; [done|]. cbn. rewrite lookup_insert_eq. split; [done|]. by left.
    + intros id1 j1 H1 Hne Hr Heq. apply Hne. eapply (ok_retry _ Hok); [exact H1|exact Hj|by rewrite Heq|done].
    + apply bounds_start; [done|done|done|by apply viewOk_bounds].
  - assert (held v id (xl_Owner lease) j) as Hh by (repeat split; try done; by exists lease).
    eapply (viewOk_artifacts v _ id _ j Hok Hh); [done|same_elsewhere|cbn; by rewrite lookup_insert_eq|]. apply (running_artifacts _ _ _ _ Hok Hh).
  - eapply (viewOk_artifacts v _ id _ j Hok Hh); [done|same_elsewhere|cbn; by rewrite lookup_insert_eq|]. apply (running_artifacts _ _ _ _ Hok Hh).
  - eapply (viewOk_artifacts v _ id _ j Hok Hh); [done|same_elsewhere|cbn; apply (running_artifacts _ _ _ _ Hok Hh)|by left].
  - eapply (viewOk_artifacts v _ id _ j Hok Hh); [done|same_elsewhere|cbn; apply (running_artifacts _ _ _ _ Hok Hh)|right; cbn; apply lookup_delete_eq].
  - destruct Hh as [Hj _]. by eapply viewOk_finished.
  - by eapply viewOk_finished.
Qed.

(** ** The theorems over the system *)

Section system.
Context {cfg : ExportConfig} {crypto : FieldCrypto}.
Context (SearchDigest : value -> result string) (legacyDigest : Event -> result string).
Context (decodeIdentity : string -> option lineIdentity) (legacyOpen : string -> result string).
Context (reencode : option (gmap string value) -> result (option (gmap string value))) (maxAdminActions : Z).
Context (errorText : error -> string).

Notation exec := (execStep SearchDigest legacyDigest decodeIdentity legacyOpen reencode maxAdminActions errorText).
Notation step := (step SearchDigest legacyDigest decodeIdentity legacyOpen reencode maxAdminActions errorText).
Notation reachable := (reachable SearchDigest legacyDigest decodeIdentity legacyOpen reencode maxAdminActions errorText).
Notation exports s := (sn_Exports (sy_control s)).

Lemma reachable_ok s : reachable s -> viewOk (viewOf (sy_control s)).
Proof. apply reachable_view; [apply viewOk_empty|intros by_ a b; apply effect_ok]. Qed.

Lemma lifecycle_active id j o : lifecycle id (Some j) o -> ~ terminalStatus (ej_Status j).
Proof.
  inversion 1 as [|j0 at_ Hs|j0 j' He]; subst; intros Ht; [rewrite Hs in Ht; by destruct Ht as [|[|]]|].
  destruct (ends_status _ _ He) as [[Hs|Hs] _]; rewrite Hs in Ht; by destruct Ht as [|[|]].
Qed.

(** C19: every job follows the lifecycle, under every interleaving of executors,
    heartbeats, creations, retries, cancellations, recoveries and other
    writes, with failed and unknown saves.  Between any two reachable states
    a job is created pending, started once, and ended once as completed,
    failed or cancelled, its identity, owner, query and lineage never change,
    and once it has ended its record stays as it is. *)
Theorem export_job_lifecycle s s' :
  reachable s -> rtc step s s' ->
  (forall id, rtc (lifecycle id) (exports s !! id) (exports s' !! id)) /\
  (forall id j, exports s !! id = Some j -> terminalStatus (ej_Status j) -> exports s' !! id = Some j).
Proof.
  intros Hr Hsteps. assert (forall id, rtc (lifecycle id) (exports s !! id) (exports s' !! id)) as Hl.
  { intros id. eapply steps_effects in Hsteps as [_ He]; [|by eapply reachable_execs].
    change (rtc (lifecycle id) (vx (viewOf (sy_control s)) !! id) (vx (viewOf (sy_control s')) !! id)).
    induction He as [|a b c [by_ He] _ IH]; [apply rtc_refl|]. eapply transitivity; [by eapply effect_lifecycle|exact IH]. }
  split; [exact Hl|]. intros id j Hj Ht. specialize (Hl id). rewrite Hj in Hl.
  inversion Hl as [|? ? ? Hfirst]; subst; [done|]. by destruct (lifecycle_active _ _ _ Hfirst).
Qed.

(** C25: the ceilings of the queue hold in every reachable state: at most two
    running exports and one per tenant, at most 128 pending or running ones
    and 32 per tenant, although creation, claiming and takeover run
    concurrently on several replicas. *)
Theorem export_slots_bounded s :
  reachable s ->
  (length (runningJobs (exports s)) <= ExportConcurrency)%nat /\
  (forall tenant, length (ofTenant tenant (runningJobs (exports s))) <= ExportTenantConcurrency)%nat /\
  (length (activeJobs (exports s)) <= MaxPendingExports)%nat /\
  (forall tenant, length (ofTenant tenant (activeJobs (exports s))) <= MaxPendingExportsPerTenant)%nat.
Proof.
  intros Hr%reachable_ok. destruct (viewOk_bounds _ Hr) as (B1 & B2 & B3 & B4). split_and!; [exact B1| |exact B3|].
  - intros t. rewrite running_tenant. apply B2.
  - intros t. rewrite active_tenant. apply B4.
Qed.

(** Execution metadata is exact in every reachable state.  A running job
    has a lease and not both a plan and a sealed checkpoint; a pending or
    ended job, and an unknown one, has none of the three; and a job is the
    source of at most one retry. *)
Theorem execution_metadata_exact s :
  reachable s ->
  (forall id, (exists j, exports s !! id = Some j /\ ej_Status j = "running") <-> is_Some (sn_ExportLeases (sy_control s) !! id)) /\
  (forall id, is_Some (sn_ExportPlans (sy_control s) !! id) \/ is_Some (sn_ExportCheckpoints (sy_control s) !! id) ->
     is_Some (sn_ExportLeases (sy_control s) !! id)) /\
  (forall id, sn_ExportPlans (sy_control s) !! id = None \/ sn_ExportCheckpoints (sy_control s) !! id = None) /\
  (forall id id' j j', exports s !! id = Some j -> exports s !! id' = Some j' ->
     ej_RetryOf j <> "" -> ej_RetryOf j = ej_RetryOf j' -> id = id').
Proof.
  intros Hok%reachable_ok.
  assert (forall id, noArtifacts (viewOf (sy_control s)) id \/
    (exists j, exports s !! id = Some j /\ ej_Status j = "running" /\ is_Some (sn_ExportLeases (sy_control s) !! id) /\
       (sn_ExportCheckpoints (sy_control s) !! id = None \/ sn_ExportPlans (sy_control s) !! id = None))) as Hcases.
  { intros id. destruct (exports s !! id) as [j|] eqn:Hj; [|left; by apply (ok_none _ Hok)].
    destruct (ok_job _ Hok id j Hj) as (_ & _ & _ & [(_ & _ & H)|[(H1 & H2 & H3 & H4)|(_ & _ & H)]]); [by left| |by left].
    right. exists j. by split_and!. }
  split_and!; [| | |apply (ok_retry _ Hok)].
  - intros id. destruct (Hcases id) as [(Hl & _)|(j & Hj & Hs & Hl & _)]; split; try done; [|cbn in Hl; rewrite Hl; by inversion 1|by exists j].
    intros (j & Hj & Hs). destruct (ok_job _ Hok id j Hj) as (_ & _ & _ & [(H & _)|[(_ & _ & H & _)|(H & _)]]); [congruence|done|].
    rewrite Hs in H. by destruct H as [|[|]].
  - intros id. destruct (Hcases id) as [(_ & Hc & Hp)|(j & _ & _ & Hl & _)]; [|done]. cbn in Hc, Hp. rewrite Hc, Hp. intros [H|H]; by inversion H.
  - intros id. destruct (Hcases id) as [(_ & Hc & Hp)|(j & _ & _ & _ & [H|H])]; [by left|by right|by left].
Qed.

(** ** Fencing *)

Notation leases s := (sn_ExportLeases (sy_control s)).

(** No lease of the job carries the owner token. *)
Definition lost (s : system) (id owner : string) : Prop := forall lease, leases s !! id = Some lease -> xl_Owner lease <> owner.

Record ownersOk (s : system) : Prop := {
  ow_known : forall n p id o, sy_execs s !! n = Some p -> pcKey p = Some (id, o) -> o ∈ sy_owners s;
  ow_unique : forall n m p q id id' o, sy_execs s !! n = Some p -> sy_execs s !! m = Some q ->
    pcKey p = Some (id, o) -> pcKey q = Some (id', o) -> n = m;
  ow_lease : forall id lease, leases s !! id = Some lease -> xl_Owner lease ∈ sy_owners s
}.

(** A token appears in a lease by claiming only. *)
Lemma effect_lease a v v' id lease :
  effect a v v' -> vl v' !! id = Some lease ->
  (exists lease0, vl v !! id = Some lease0 /\ xl_Owner lease0 = xl_Owner lease) \/ a = Claimer id (xl_Owner lease).
Proof.
  destruct 1 as [v id0 j|v id0 j owner now|v id0 j owner now lease0 ? ? ? ? Hl|v id0 owner j lease0 Hh Ho|v id0|v id0|v id0 owner j j'|v id0 j j'];
    cbn; try (intros Hl'; left; by exists lease).
  - intros [[<- <-]|[Hne Hl']]%lookup_insert_Some; [by right|left; by exists lease].
  - intros [[<- <-]|[Hne Hl']]%lookup_insert_Some; [by right|left; by exists lease].
  - intros [[<- <-]|[Hne Hl']]%lookup_insert_Some; [|left; by exists lease]. destruct Hh as (_ & _ & _ & _ & lease1 & Hl & Ho'). left. exists lease1. by rewrite Ho'.
  - intros [Hne Hl']%lookup_delete_Some. left. by exists lease.
  - intros [Hne Hl']%lookup_delete_Some. left. by exists lease.
Qed.

(** The claimers among the effects of a step. *)
Lemma step_lease s s' id lease :
  step s s' -> execsOk s -> leases s' !! id = Some lease ->
  (exists lease0, leases s !! id = Some lease0 /\ xl_Owner lease0 = xl_Owner lease) \/
  exists n, sy_execs s !! n = Some (XClaim id (xl_Owner lease)).
Proof.
  intros Hstep Hok Hl. destruct (step_actor _ _ _ _ _ _ _ _ _ Hstep Hok) as [He|(n & p & Hp & He)].
  - left. change (vl (viewOf (sy_control s')) !! id = Some lease) in Hl. change (exists lease0, vl (viewOf (sy_control s)) !! id = Some lease0 /\ xl_Owner lease0 = xl_Owner lease).
    revert lease Hl. induction He as [|a b c He _ IH]; intros lease Hl; [by exists lease|].
    destruct (IH lease Hl) as (lease1 & Hl1 & Ho1). destruct (effect_lease _ _ _ _ _ He Hl1) as [(lease0 & Hl0 & Ho0)|]; [|done].
    exists lease0. split; [done|congruence].
  - destruct (effect_lease _ _ _ _ _ He Hl) as [?|Ha]; [by left|right]. exists n. rewrite Hp.
    destruct p; cbn in Ha; try discriminate Ha; by injection Ha as -> ->.
Qed.

Lemma step_ownersOk s s' : step s s' -> execsOk s -> ownersOk s -> ownersOk s'.
Proof.
  intros Hstep Hok Hown.
  assert (sy_owners s ⊆ sy_owners s') as Hgrow by (destruct Hstep; cbn; set_solver).
  assert (forall id lease, leases s' !! id = Some lease -> xl_Owner lease ∈ sy_owners s') as Hlease.
  { intros id lease Hl. apply Hgrow. destruct (step_lease _ _ _ _ Hstep Hok Hl) as [(lease0 & Hl0 & <-)|(n & Hn)]; [by eapply ow_lease|].
    by eapply ow_known. }
  split; [| |exact Hlease]; clear Hlease.
  - destruct Hstep as [s n p i w p' Hn He|s n id owner Hn Ho Hne| | | | | |]; cbn; try apply Hown.
    + intros m q id o [[<- <-]|[Hne Hm]]%lookup_insert_Some Hk; [|by eapply ow_known].
      apply exec_key in He as [_ [->|[Hkey _]]]; [done| |by eapply Hok]. eapply ow_known; [done|exact Hn|]. by rewrite <- Hkey.
    + intros m q id' o [[<- <-]|[Hne' Hm]]%lookup_insert_Some Hk; [injection Hk as <- <-; set_solver|].
      apply elem_of_union_r. by eapply ow_known.
  - destruct Hstep as [s n p i w p' Hn He|s n id owner Hn Ho Hne| | | | | |]; cbn; try apply Hown.
    + apply exec_key in He as [_ Hkey]; [|by eapply Hok].
      assert (forall id o, pcKey p' = Some (id, o) -> pcKey p = Some (id, o)) as Hback.
      { intros id o Hk. destruct Hkey as [->|[Hkey _]]; [done|congruence]. }
      intros m1 m2 q1 q2 id1 id2 o [[<- <-]|[H1 H1']]%lookup_insert_Some [[<- <-]|[H2 H2']]%lookup_insert_Some K1 K2; try done;
        eapply (ow_unique _ Hown); eauto.
    + intros m1 m2 q1 q2 id1 id2 o [[<- <-]|[H1 H1']]%lookup_insert_Some [[<- <-]|[H2 H2']]%lookup_insert_Some K1 K2; try done.
      * injection K1 as <- <-. destruct Ho. by eapply ow_known.
      * injection K2 as <- <-. destruct Ho. by eapply ow_known.
      * by eapply (ow_unique _ Hown).
Qed.

Lemma reachable_owners s : reachable s -> ownersOk s.
Proof.
  intros (s0 & [Hv He] & Hsteps). assert (ownersOk s0) as H0.
  { split; rewrite ?He; try (intros *; rewrite lookup_empty; done). intros id lease.
    change (vl (viewOf (sy_control s0)) !! id = Some lease -> xl_Owner lease ∈ sy_owners s0). by rewrite Hv. }
  assert (execsOk s0) as Hok by (unfold execsOk; rewrite He; apply map_Forall_empty). clear Hv He.
  induction Hsteps as [|a b c Hstep _ IH]; [done|]. apply IH; [by eapply step_ownersOk|by eapply step_execsOk].
Qed.

(** An executor past its claim that lost the lease does not get it back. *)
Lemma lost_stable s s' n p c :
  step s s' -> execsOk s -> ownersOk s -> sy_execs s !! n = Some p -> pcClaim p = Some c -> lost s (cl_ID c) (cl_Owner c) ->
  lost s' (cl_ID c) (cl_Owner c) /\
  exists p', sy_execs s' !! n = Some p' /\ (p' = XDone \/ exists c', pcClaim p' = Some c' /\ cl_ID c' = cl_ID c /\ cl_Owner c' = cl_Owner c).
Proof.
  intros Hstep Hok Hown Hn Hc Hlost. split.
  - intros lease Hl Ho. destruct (step_lease _ _ _ _ Hstep Hok Hl) as [(lease0 & Hl0 & Ho0)|(m & Hm)].
    + apply (Hlost lease0 Hl0). congruence.
    + rewrite Ho in Hm. assert (n = m) as <-.
      { eapply (ow_unique _ Hown); [exact Hn|exact Hm| |reflexivity]. destruct p; cbn in Hc |- *; try discriminate Hc; by injection Hc as ->. }
      rewrite Hn in Hm. injection Hm as ->. done.
  - destruct Hstep as [s m q i w q' Hm He|s m id owner Hm| | | | | |]; cbn; try (exists p; split; [done|right; by exists c]).
    + destruct (decide (m = n)) as [->|Hne]; [|rewrite lookup_insert_ne by done; exists p; split; [done|right; by exists c]].
      rewrite lookup_insert_eq. replace q with p in * by congruence. exists q'. split; [done|].
      assert (follows c q') as [_ [->|(c' & Hc' & Hj & Ho)]] by (eapply exec_follows; [exact He|done|by eapply Hok]); [by left|].
      right. exists c'. unfold cl_ID. by rewrite Hj, Ho.
    + rewrite lookup_insert_ne by congruence. exists p. split; [done|right; by exists c].
Qed.

Lemma done_stays s s' n : rtc step s s' -> sy_execs s !! n = Some XDone -> sy_execs s' !! n = Some XDone.
Proof.
  induction 1 as [|s s1 s' Hstep _ IH]; [done|]. intros Hn. apply IH. clear IH.
  destruct Hstep as [s m q i w q' Hm He|s m id owner Hm| | | | | |]; cbn; try done.
  - destruct (decide (m = n)) as [->|Hne]; [|by rewrite lookup_insert_ne].
    rewrite Hn in Hm. injection Hm as <-. injection He as <- <-. by rewrite lookup_insert_eq.
  - rewrite lookup_insert_ne; [done|congruence].
Qed.

(** C6: fencing.  An executor whose job's lease no longer carries its token,
    because the lease expired and was taken over, or the job was cancelled,
    recovered or finished, never changes the control document again, however
    it is scheduled and whatever its clock says, and its heartbeats report the
    lease as lost. *)
Theorem superseded_executor_is_fenced s s' n p c p' :
  reachable s -> sy_execs s !! n = Some p -> pcClaim p = Some c -> lost s (cl_ID c) (cl_Owner c) ->
  rtc step s s' -> sy_execs s' !! n = Some p' ->
  (forall i w q, exec i (sy_world s') p' = (w, q) -> w_control w = sy_control s') /\
  (forall c' clk, pcClaim p' = Some c' -> renewExportLease c' clk (sy_control s') = Err errExportLeaseLost).
Proof.
  intros Hr Hn Hc Hlost Hsteps. pose proof (reachable_execs _ _ _ _ _ _ _ _ Hr) as Hok. pose proof (reachable_owners _ Hr) as Hown. clear Hr.
  revert p c Hn Hc Hlost Hok Hown. induction Hsteps as [s|s s1 s' Hstep Hrest IH]; intros p c Hn Hc Hlost Hok Hown Hn'.
  - replace p' with p in * by congruence.
    assert (forall j, ~ held (viewOf (sy_control s)) (cl_ID c) (cl_Owner c) j) as Hnh.
    { intros j (_ & _ & _ & _ & lease & Hl & Ho). by apply (Hlost lease). }
    split.
    + intros i w q He. apply exec_effect in He as [He|He]; [done| |by eapply Hok]. exfalso. rewrite (pcClaim_actor p c Hc) in He.
      inversion He; subst; by eapply Hnh.
    + intros c' clk [= <-]%(eq_trans (eq_sym Hc)). unfold renewExportLease. destruct (ownsExportLease _ _ _ _) eqn:Ho; [|done].
      apply owns_held in Ho. by destruct (Hnh _ Ho).
  - destruct (lost_stable _ _ _ _ _ Hstep Hok Hown Hn Hc Hlost) as (Hlost' & p1 & Hp1 & [->|(c1 & Hc1 & Hid & Ho)]).
    + rewrite (done_stays _ _ _ Hrest Hp1) in Hn'. injection Hn' as <-. split; [|done]. by intros i w q [= <- _].
    + eapply IH; [exact Hp1|exact Hc1|by rewrite Hid, Ho|by eapply step_execsOk|by eapply step_ownersOk|done].
Qed.

End system.

End ExportProps.
