(* ===== verification/ExportComplete.v ===== *)
(** * What a completed export is

    [completed_export_is_gated]: in every run, the object of a completed job is
    in the archive, opens under the job's binding to bytes with the recorded
    digest and number of lines, which the download gate serves, and the hold
    gate passed for the job's query against a set of active holds that was
    still the current one when the completion was committed. *)

From Stdlib Require Import Ascii String.
From stdpp Require Import relations.
From S2P Require Import Prelude GoStr Sha256 Signer Domain Keys Store Evidence Integrity TenantIngest Governance Holds ExportJobs ExportRun ExportSystem ExportProps.
Open Scope string_scope.
Open Scope Z_scope.
Import Domain Keys Store Sha256 Signer Evidence Integrity TenantIngest Governance Holds ExportJobs ExportRun ExportSystem ExportProps.

Module ExportComplete.

Section system.
Context {cfg : ExportConfig} {crypto : FieldCrypto}.
Context (SearchDigest : value -> result string) (legacyDigest : Event -> result string).
Context (decodeIdentity : string -> option lineIdentity) (legacyOpen : string -> result string).
Context (reencode : option (gmap string value) -> result (option (gmap string value))) (maxAdminActions : Z).
Context (errorText : error -> string).

Notation exec := (execStep SearchDigest legacyDigest decodeIdentity legacyOpen reencode maxAdminActions errorText).
Notation step := (step SearchDigest legacyDigest decodeIdentity legacyOpen reencode maxAdminActions errorText).
Notation exports s := (sn_Exports (sy_control s)).
Notation objects s := (w_objects (sy_world s)).
Notation gate := (gate SearchDigest legacyDigest).
Notation authenticate := (authenticateExportCheckpoint decodeIdentity legacyOpen).

(** A run with the control documents it went through. *)
Inductive run : list Snapshot -> system -> Prop :=
  | run_init s : initial s -> run [sy_control s] s
  | run_step h s s' : run h s -> step s s' -> run (sy_control s' :: h) s'.

Lemma run_reachable h s :
  run h s -> reachable SearchDigest legacyDigest decodeIdentity legacyOpen reencode maxAdminActions errorText s.
Proof.
  induction 1 as [s Hi|h s s' _ (s0 & Hi & Hsteps) Hstep]; [exists s; split; [done|apply rtc_refl]|].
  exists s0. split; [done|]. by eapply rtc_r.
Qed.

(** ** What an executor knows at its program points *)

Definition authed (objs : gmap string string) (c : exportClaim) : Prop :=
  xc_Version (cl_Checkpoint c) <> 0 /\
  exists sealed references, objs !! xc_ObjectPath (cl_Checkpoint c) = Some sealed /\ authenticate c sealed = Ok references.

Definition passed (h : list Snapshot) (c : exportClaim) : Prop :=
  exists archive d, d ∈ h /\ gate archive d (cl_TenantID c) (ej_Query (cl_Job c)) = Ok None /\ cl_HoldBinding c = exportHoldBinding d (cl_TenantID c).

Definition pcKnows (h : list Snapshot) (objs : gmap string string) (p : pc) : Prop :=
  match p with
  | XSaveCheckpoint c sealed plain => objs !! exportObjectKey c = Some sealed
  | XFinalLease c (Some sealed) => xc_Version (cl_Checkpoint c) <> 0 /\ objs !! xc_ObjectPath (cl_Checkpoint c) = Some sealed
  | XFinalLease c None | XFinalGet c => xc_Version (cl_Checkpoint c) <> 0
  | XFinalRefs c _ | XFinalGate c => authed objs c
  | XFinalFact c => authed objs c /\ passed h c
  | XTerminal _ c tw =>
      tw_status tw = "completed" ->
      authed objs c /\ passed h c /\ tw_path tw = xc_ObjectPath (cl_Checkpoint c) /\ tw_digest tw = xc_Digest (cl_Checkpoint c) /\
      tw_count tw = xc_EventCount (cl_Checkpoint c)
  | _ => True
  end.

Lemma passed_mono h h' c : h ⊆ h' -> passed h c -> passed h' c.
Proof. intros Hh (a & d & Hd & H). exists a, d. split; [by apply Hh|done]. Qed.
Lemma authed_mono objs objs' c : objs ⊆ objs' -> authed objs c -> authed objs' c.
Proof. intros Ho (Hv & sealed & refs & H1 & H2). split; [done|]. exists sealed, refs. split; [by eapply lookup_weaken|done]. Qed.
Lemma pcKnows_mono h h' objs objs' p : h ⊆ h' -> objs ⊆ objs' -> pcKnows h objs p -> pcKnows h' objs' p.
Proof.
  intros Hh Ho. destruct p; cbn; try done; try apply authed_mono; try done.
  - by intros H; eapply lookup_weaken.
  - destruct sealed; [|done]. intros [Hv H]. split; [done|by eapply lookup_weaken].
  - intros [H1 H2]. split; [by eapply authed_mono|by eapply passed_mono].
  - intros H Hs. destruct (H Hs) as (H1 & H2 & H3). split; [by eapply authed_mono|]. split; [by eapply passed_mono|done].
Qed.

Lemma put_objects i path bytes w w' r :
  putObject i path bytes w = (w', r) -> w_objects w ⊆ w_objects w' /\ (r = Ok tt -> w_objects w' !! path = Some bytes).
Proof.
  unfold putObject. destruct (in_io i), (w_objects w !! path) as [present|] eqn:Hp; intros [= <- <-]; cbn; try (split; done).
  - split; [done|]. destruct (bool_decide_reflect (present = bytes)) as [->|]; done.
  - split; [by apply insert_subseteq|]. intros _. apply lookup_insert_eq.
  - split; [done|]. by destruct (bool_decide (present = bytes)).
  - split; [by apply insert_subseteq|done].
Qed.

Lemma update_objects i f w w' r : updateControl i f w = (w', r) -> w_objects w' = w_objects w.
Proof. intros H. by apply updateControl_cases in H as [? _]. Qed.

Lemma exec_objects i w p w' p' : exec i w p = (w', p') -> w_objects w ⊆ w_objects w'.
Proof.
  intros H. destruct p; unfold_exec H;
    try (injection H as <- <-; done);
    try (destruct (updateControl _ _ _) as [? ?] eqn:Hu; injection H as <- <-; by rewrite (update_objects _ _ _ _ _ Hu));
    try (destruct (putObject _ _ _ _) as [? ?] eqn:Hu; injection H as <- <-; by apply put_objects in Hu as [? _]).
  - destruct (claimExport _ _ _ _ _ _ _) as [[[d c]|]|]; [destruct (in_io i)|..]; injection H as <- <-; done.
  - destruct (checkpointRequest _ _ _ _); [|injection H as <- <-; done].
    destruct (updateControl _ _ _) as [? ?] eqn:Hu; injection H as <- <-; by rewrite (update_objects _ _ _ _ _ Hu).
  - destruct attempts; [injection H as <- <-; done|].
    destruct (updateControl _ _ _) as [? ?] eqn:Hu; injection H as <- <-; by rewrite (update_objects _ _ _ _ _ Hu).
Qed.

(** Helpers that end a program point knowing nothing but a failed write. *)
Lemma knows_fail h objs c text : pcKnows h objs (failWith c text).
Proof. unfold failWith, terminate. by destruct (validClaim c). Qed.
Lemma knows_blocked h objs c hold : pcKnows h objs (terminate c (failExportBlocked hold)).
Proof. unfold terminate. by destruct (validClaim c). Qed.
Lemma knows_reject h objs c : pcKnows h objs (terminate c rejectExportCheckpoint).
Proof. unfold terminate. by destruct (validClaim c). Qed.
Lemma knows_orDone h objs r p : (r = Ok tt -> pcKnows h objs p) -> pcKnows h objs (orDone r p).
Proof. destruct r as [[]|]; [auto|done]. Qed.
Lemma knows_page h objs i c plain : pcKnows h objs (nextPage i c plain).
Proof. unfold nextPage. by destruct (_ <? _). Qed.
Lemma knows_pages h objs i c : pcKnows h objs (startPages i c).
Proof. unfold startPages. destruct (bool_decide _); [apply knows_page|done]. Qed.
Lemma knows_encode h objs i c events : pcKnows h objs (encodeAndSeal reencode errorText i c events).
Proof. unfold encodeAndSeal. destruct (encodeExportEvents _ _); [done|apply knows_fail]. Qed.
Lemma knows_dispatch h objs i c : pcKnows h objs (dispatchClaim i c).
Proof.
  unfold dispatchClaim. destruct (Z.eqb_spec (xc_Version (cl_Checkpoint c)) 0); [|done]. cbn [negb].
  destruct (_ =? _); [apply knows_pages|]. by destruct (negb _).
Qed.
Lemma knows_authenticated h objs c sealed :
  xc_Version (cl_Checkpoint c) <> 0 -> objs !! xc_ObjectPath (cl_Checkpoint c) = Some sealed ->
  pcKnows h objs (authenticated decodeIdentity legacyOpen c sealed).
Proof.
  intros Hv Ho. unfold authenticated. destruct (authenticate c sealed) as [refs|] eqn:Ha; [|apply knows_reject].
  split; [done|]. by exists sealed, refs.
Qed.
Lemma knows_gated h objs i w c next :
  (forall b, passed (w_control w :: h) (set_cl_HoldBinding c b) -> pcKnows h objs (next (set_cl_HoldBinding c b))) ->
  pcKnows h objs (gated SearchDigest legacyDigest i w c next).
Proof.
  intros H. unfold gated, readStore. destruct (in_io i); [|done..].
  destruct (ExportRun.gate _ _ _ _ _ _) as [[hold|]|] eqn:Hg; cbn [result_bind]; [apply knows_blocked| |done].
  apply H. exists (in_archive i), (w_control w). split; [apply elem_of_cons; by left|done].
Qed.

Lemma exec_knows h i w p w' p' :
  w_control w ∈ h -> pcKnows h (w_objects w) p -> exec i w p = (w', p') -> pcKnows h (w_objects w') p'.
Proof.
  intros Hin Hk H.
  assert (forall c, passed (w_control w :: h) c -> passed h c) as Hpast.
  { intros c (a & d & [->|Hd]%elem_of_cons & Hp); [by exists a, (w_control w)|by exists a, d]. }
  destruct p; unfold_exec H.
  all: repeat match type of H with context [let '(_, _) := ?x in _] => destruct x as [? ?] eqn:?; cbv beta iota in H end.
  - injection H as <- <-. by destruct (readStore _ _ _) as [[]|].
  - destruct (claimExport _ _ _ _ _ _ _) as [[[d c]|]|]; [destruct (in_io i)|..]; injection H as <- <-; try done. apply knows_dispatch.
  - injection H as <- <-. cbv zeta. assert (forall events schemas, pcKnows h (w_objects w)
      match newExportPlan (cl_Job c) events schemas (in_clk i) with Ok plan => XSelectFact c plan events | Err e => failWith c (errorText e) end) as Hplan.
    { intros events schemas. destruct (newExportPlan _ _ _ _); [done|apply knows_fail]. }
    destruct (readStore _ _ _) as [[[hold|events] schemas]|]; [|apply Hplan|apply knows_fail].
    destruct (bool_decide _); [apply Hplan|apply knows_blocked].
  - injection H as <- <-. destruct (recordFact i); [done|apply knows_fail].
  - injection H as <- <-. apply knows_orDone. intros _. destruct (_ =? _); [apply knows_pages|apply knows_encode].
  - injection H as <- <-. by apply knows_orDone.
  - injection H as <- <-. by destruct (readStore _ _ _).
  - injection H as <- <-. destruct (readStore _ _ _); [|done]. destruct (bool_decide _); [done|apply knows_blocked].
  - injection H as <- <-. by apply knows_orDone.
  - injection H as <- <-. apply knows_orDone. intros _. apply knows_encode.
  - injection H as <- <-. by apply knows_orDone.
  - injection H as <- <-. by apply knows_orDone.
  - injection H as <- <-. by apply knows_gated.
  - injection H as <- <-. by apply knows_orDone.
  - injection H as <- <-. destruct (xp_Chunks _ !! _); [|done]. destruct (getObject _ _ _); [|done]. by destruct (authenticateExportChunk _ _ _ _ _ _).
  - injection H as <- <-. apply knows_orDone. intros _. apply knows_page.
  - injection H as <- <-. apply knows_orDone. intros _. by destruct (_ && _).
  - injection H as <- <-. by destruct (readStore _ _ _).
  - injection H as <- <-. by apply knows_gated.
  - injection H as <- <-. apply knows_orDone. intros _. by destruct (encodeExportEvents _ _).
  - injection H as <- <-. by apply knows_orDone.
  - injection H as <- <-. destruct r; [done|apply knows_fail].
  - injection H as <- <-. apply knows_orDone. intros _. apply knows_page.
  - injection H as <- <-. by apply knows_orDone.
  - injection H as <- <-. destruct r as [[]|]; [|apply knows_fail]. cbn. by apply put_objects in Heqp as [_ ->].
  - destruct (checkpointRequest _ _ _ _); [|injection H as <- <-; done]. injection H as <- <-.
    apply knows_orDone. intros _. split; [done|]. rewrite (update_objects _ _ _ _ _ Heqp). exact Hk.
  - injection H as <- <-. apply knows_orDone. intros _. destruct sealed; [|exact Hk]. destruct Hk as [Hv Ho]. by apply knows_authenticated.
  - injection H as <- <-. unfold getObject. destruct (in_io i); [|done..]. destruct (w_objects w !! _) eqn:Ho; [|done]. by apply knows_authenticated.
  - injection H as <- <-. destruct (readStore _ _ _); [exact Hk|]. destruct (permanent _); [apply knows_reject|done].
  - injection H as <- <-. apply knows_gated. intros b Hb. split; [exact Hk|by apply Hpast].
  - injection H as <- <-. apply knows_orDone. intros _. unfold terminate. destruct (validClaim c); [|done]. intros _. destruct Hk. by split_and!.
  - destruct attempts; [injection H as <- <-; done|]. injection H as <- <-.
    destruct r; [done|]. rewrite (update_objects _ _ _ _ _ Heqp). exact Hk.
  - injection H as <- <-. done.
Qed.

(** ** Which step completes a job *)

Lemma plan_exports capN st c plan clk d d' b : saveExportPlan capN st c plan clk d = Ok (d', b) -> sn_Exports d' = sn_Exports d.
Proof.
  unfold saveExportPlan. destruct (guard_err _ _); [|done]. cbn [result_bind]. destruct (guard_err _ _); [|done]. cbn [result_bind].
  destruct (sn_ExportPlans d !! _); [destruct (guard_err _ _); [|done]|]; by intros [= <- _].
Qed.
Lemma chunk_exports capN st c chunk clk d d' b : saveExportChunk capN st c chunk clk d = Ok (d', b) -> sn_Exports d' = sn_Exports d.
Proof.
  unfold saveExportChunk. destruct (guard_err _ _); [|done]. cbn [result_bind]. destruct (guard_err _ _); [|done]. by intros [= <- _].
Qed.
Lemma checkpoint_exports capN st c cp clk d d' b : saveExportCheckpoint capN st c cp clk d = Ok (d', b) -> sn_Exports d' = sn_Exports d.
Proof.
  unfold saveExportCheckpoint. destruct (guard_err _ _); [|done]. cbn [result_bind]. destruct (guard_err _ _); [|done]. cbn [result_bind].
  destruct (sn_ExportCheckpoints d !! _); [destruct (guard_err _ _); [|done]; by intros [= <- _]|].
  destruct (guard_err _ _); [|done]. by intros [= <- _].
Qed.

Definition isCompleted (jobs : gmap string ExportJob) (id : string) (j : ExportJob) : Prop := jobs !! id = Some j /\ ej_Status j = "completed".

Lemma claim_completed a v v' id j :
  effect a v v' -> (a = Nobody \/ exists id' o, a = Claimer id' o) -> isCompleted (vx v') id j -> isCompleted (vx v) id j.
Proof.
  destruct 1 as [v id0 j0 Hn Hf|v id0 j0 owner now Hj|v id0 j0 owner now lease| | | | |v id0 j0 j' Hj He Hne];
    intros [|(? & ? & ?)]; try discriminate; cbn; try done; intros [[[<- <-]|[_ Hl]]%lookup_insert_Some Hs]; try done.
  destruct Hf as (_ & _ & _ & Hp & _). congruence.
Qed.

Lemma exec_completed i w p w' p' id j :
  exec i w p = (w', p') -> isCompleted (sn_Exports (w_control w')) id j ->
  isCompleted (sn_Exports (w_control w)) id j \/
  exists n c tw, p = XTerminal (S n) c tw /\
    persistTerminalExport maxAdminActions (in_stamp i) (in_stamp' i) c tw (in_clk i) (w_control w) = Ok (w_control w', true).
Proof.
  assert (forall f w1 r, updateControl i f w = (w1, r) -> (forall d, f (w_control w) = Ok (d, true) -> sn_Exports d = sn_Exports (w_control w)) ->
    isCompleted (sn_Exports (w_control w1)) id j -> isCompleted (sn_Exports (w_control w)) id j) as Hkeep.
  { intros f w1 r (_ & [->|Hf] & _)%updateControl_cases Hex; [done|]. by rewrite (Hex _ Hf). }
  intros H Hc. destruct p; unfold_exec H;
    try (injection H as <- <-; by left);
    try (destruct (putObject _ _ _ _) as [? ?] eqn:Hu; injection H as <- <-; left; by rewrite <- (put_control _ _ _ _ _ _ Hu)).
  - destruct (claimExport _ _ _ _ _ _ _) as [[[d c]|]|] eqn:Hcl; [|injection H as <- <-; by left..].
    apply claim_effect in Hcl as (_ & _ & He). left. destruct (in_io i); injection H as <- <-; [|done|];
      (eapply (claim_completed _ _ _ id j He); [right; eauto|exact Hc]).
  - destruct (updateControl _ _ _) as [w1 r] eqn:Hu. injection H as <- <-. left. eapply Hkeep; [exact Hu|intros d; apply plan_exports|done].
  - destruct (updateControl _ _ _) as [w1 r] eqn:Hu. injection H as <- <-. left. eapply Hkeep; [exact Hu|intros d; apply chunk_exports|done].
  - destruct (checkpointRequest _ _ _ _); [|injection H as <- <-; by left].
    destruct (updateControl _ _ _) as [w1 r] eqn:Hu. injection H as <- <-. left. eapply Hkeep; [exact Hu|intros d; apply checkpoint_exports|done].
  - destruct attempts; [injection H as <- <-; by left|]. destruct (updateControl _ _ _) as [w1 r] eqn:Hu. injection H as <- <-.
    apply updateControl_cases in Hu as (_ & [E|Hf] & _); [left; by rewrite <- E|right]. by exists attempts, c, tw.
Qed.

(** ** The invariant of a run *)

(** Two distinct values with the same keyed binding. *)
Definition macCollision : Prop :=
  exists label v v', v <> v' /\ queryMAC label v = queryMAC label v' /\ queryMAC label v <> "".

Lemma binding_same d d' t :
  exportHoldBinding d t = exportHoldBinding d' t -> exportHoldBinding d t <> "" ->
  activeHoldMap d t = activeHoldMap d' t \/ macCollision.
Proof.
  intros H Hne. destruct (decide (activeHoldMap d t = activeHoldMap d' t)) as [|Hd]; [by left|right].
  exists "export.checkpoint.holds.v1", (MacHolds (activeHoldMap d t)), (MacHolds (activeHoldMap d' t)).
  split; [congruence|done].
Qed.

(** The number of lines that [EventCount] stands for. *)
Definition linesOk (plain : string) (count : Z) : Prop :=
  (count = 0 /\ plain = "") \/ (Z.of_nat (length (splitLines plain)) = count + 1 /\ last (splitLines plain) = Some "").

Definition completedGood (h : list Snapshot) (objs : gmap string string) (id : string) (j : ExportJob) : Prop :=
  (exists sealed plain, objs !! ej_ObjectPath j = Some sealed /\
     DecryptExport legacyOpen sealed (ExportBinding (ej_TenantID j) id) = Ok plain /\ HashBytes plain = ej_Digest j /\
     linesOk plain (ej_EventCount j) /\ isDigest (ej_Digest j) = true /\ ej_ObjectPath j <> "") /\
  (exists archive d d', d ∈ h /\ d' ∈ h /\ gate archive d (ej_TenantID j) (ej_Query j) = Ok None /\
     (exists j0, sn_Exports d' !! id = Some j0 /\ ej_Status j0 = "running") /\
     (activeHoldMap d (ej_TenantID j) = activeHoldMap d' (ej_TenantID j) \/ macCollision)).

Lemma completedGood_mono h h' objs objs' id j : h ⊆ h' -> objs ⊆ objs' -> completedGood h objs id j -> completedGood h' objs' id j.
Proof.
  intros Hh Ho [(sealed & plain & H1 & H2) (archive & d & d' & H3 & H4 & H5)]. split.
  - exists sealed, plain. split; [by eapply lookup_weaken|done].
  - exists archive, d, d'. split; [by apply Hh|]. split; [by apply Hh|done].
Qed.

Lemma authenticate_spec c sealed refs :
  authenticate c sealed = Ok refs ->
  exists plain, DecryptExport legacyOpen sealed (ExportBinding (cl_TenantID c) (cl_ID c)) = Ok plain /\
    HashBytes plain = xc_Digest (cl_Checkpoint c) /\ linesOk plain (xc_EventCount (cl_Checkpoint c)).
Proof.
  unfold authenticateExportCheckpoint. destruct (negb _ || _); [done|]. destruct (DecryptExport _ _ _) as [plain|]; [|done].
  destruct (bool_decide_reflect (HashBytes plain = xc_Digest (cl_Checkpoint c))) as [Hd|]; [|done]. cbn [negb].
  intros H. exists plain. split; [done|]. split; [done|]. unfold linesOk.
  destruct ((xc_EventCount (cl_Checkpoint c) =? 0) && bool_decide (plain = "")) eqn:He.
  - apply andb_true_iff in He as [He1 He2]. apply bool_decide_eq_true in He2. left. split; [lia|done].
  - right. destruct (negb _ || negb _) eqn:Hl; [done|]. apply orb_false_iff in Hl as [Hl1 Hl2].
    apply negb_false_iff in Hl1, Hl2. apply bool_decide_eq_true in Hl2. split; [lia|done].
Qed.

(** The claim of an executor is about the durable job. *)
Definition claimJob (jobs : gmap string ExportJob) (c : exportClaim) : Prop :=
  exists j, jobs !! cl_ID c = Some j /\ ej_Query j = ej_Query (cl_Job c) /\ ej_TenantID j = cl_TenantID c.

Lemma lifecycle_frozen id j o :
  rtc (lifecycle id) (Some j) o -> exists j', o = Some j' /\ ej_Query j' = ej_Query j /\ ej_TenantID j' = ej_TenantID j.
Proof.
  remember (Some j) as o0 eqn:E. intros H. revert j E. induction H as [o|o o1 o2 Hl _ IH]; intros j ->; [by exists j|].
  inversion Hl as [|j0 at_ Hs|j0 j' He]; subst.
  - destruct (IH _ eq_refl) as (j' & -> & E1 & E2). exists j'. by rewrite E1, E2.
  - destruct (IH _ eq_refl) as (j2 & -> & E1 & E2). exists j2. rewrite E1, E2. by destruct He.
Qed.

Record good (h : list Snapshot) (s : system) : Prop := {
  g_now : sy_control s ∈ h;
  g_pc : forall n p, sy_execs s !! n = Some p -> pcKnows h (objects s) p;
  g_claim : forall n p c, sy_execs s !! n = Some p -> pcClaim p = Some c -> claimJob (exports s) c;
  g_done : forall id j, isCompleted (exports s) id j -> completedGood h (objects s) id j
}.

(** A committed completion of a knowing executor. *)
Lemma terminal_completes h c tw i w d id j :
  w_control w ∈ h -> pcKnows h (w_objects w) (XTerminal 0 c tw) -> writeOk tw -> claimJob (sn_Exports (w_control w)) c ->
  persistTerminalExport maxAdminActions (in_stamp i) (in_stamp' i) c tw (in_clk i) (w_control w) = Ok (d, true) ->
  isCompleted (sn_Exports d) id j -> isCompleted (sn_Exports (w_control w)) id j \/ completedGood h (w_objects w) id j.
Proof.
  intros Hin Hk Hw (j0' & Hj0 & Hq & Ht) Hp [Hj Hs]. destruct (terminal_effect _ _ _ _ _ _ _ _ Hw Hp) as [_ (j0 & Hj0' & Hd)].
  rewrite Hj0 in Hj0'. injection Hj0' as ->. rewrite Hd in Hj. apply lookup_insert_Some in Hj as [[<- <-]|[Hne Hj]]; [|by left]. right.
  cbn in Hs. destruct (Hk Hs) as ((Hv & sealed & refs & Ho & Ha) & (archive & d0 & Hd0 & Hg & Hb) & Epath & Edig & Ecount).
  unfold persistTerminalExport in Hp. rewrite Hj0 in Hp. destruct (ownsExportLease _ _ _ _) eqn:Hown; [|done]. cbn [negb] in Hp.
  destruct (guard_err _ _); [|done]. cbn [result_bind] in Hp. destruct (guard_err _ errExportCheckpointInvalid) eqn:Hcp; [|done]. clear Hp.
  apply guard_err_Ok in Hcp. unfold terminalExportCheckpointMatches in Hcp.
  assert (claimedJob (w_control w) c = j0) as Ej by (unfold claimedJob, map_get; by rewrite Hj0).
  rewrite <- Ej in Hown. apply owns_held in Hown. rewrite Ej in Hown. rewrite (held_id _ _ _ _ Hown) in Hcp.
  destruct (sn_ExportCheckpoints (w_control w) !! cl_ID c) as [cp|]; [|lia].
  rewrite !andb_true_iff in Hcp. destruct Hcp as [[->%bool_decide_eq_true Hvalid] Hcp].
  rewrite Hs in Hcp. cbn [bool_decide] in Hcp. rewrite bool_decide_eq_true_2 in Hcp by done. cbn [negb orb] in Hcp.
  rewrite !andb_true_iff in Hcp. destruct Hcp as [[[[_ _] _] Hne%negb_true_iff%bool_decide_eq_false] Hbind%bool_decide_eq_true].
  destruct (authenticate_spec _ _ _ Ha) as (plain & P1 & P2 & P3).
  unfold validExportCheckpoint in Hvalid. rewrite !andb_true_iff in Hvalid.
  split.
  - exists sealed, plain. cbn. rewrite Epath, Edig, Ecount. rewrite Ht. split; [done|]. split; [done|]. split; [done|]. split; [done|].
    split; [tauto|]. destruct Hvalid as [[[[[[[[_ Hpre] _] _] _] _] _] _] _]. intros Hpath. rewrite Hpath in Hpre. done.
  - exists archive, d0, (w_control w). cbn. rewrite Hq, Ht. split; [done|]. split; [done|]. split; [done|]. split.
    + exists j0. split; [done|]. apply Hown.
    + apply binding_same; [congruence|]. rewrite <- Hb. done.
Qed.

(** ** The invariant along a run *)

Lemma step_objects s s' : step s s' -> objects s ⊆ objects s'.
Proof.
  intros H. step_cases H; cbn; try done; [by eapply exec_objects|by rewrite (update_objects _ _ _ _ _ Hu)].
Qed.

Lemma claimJob_life jobs jobs' c :
  (forall id, rtc (lifecycle id) (jobs !! id) (jobs' !! id)) -> claimJob jobs c -> claimJob jobs' c.
Proof.
  intros Hl (j & Hj & Hq & Ht). specialize (Hl (cl_ID c)). rewrite Hj in Hl.
  apply lifecycle_frozen in Hl as (j' & Hj' & Hq' & Ht'). exists j'. split; [done|]. by rewrite Hq', Ht'.
Qed.

Lemma step_life s s' id : step s s' -> execsOk s -> rtc (lifecycle id) (exports s !! id) (exports s' !! id).
Proof.
  intros Hstep Hok. pose proof (step_effects _ _ _ _ _ _ _ _ _ Hstep Hok) as He.
  change (rtc (lifecycle id) (vx (viewOf (sy_control s)) !! id) (vx (viewOf (sy_control s')) !! id)).
  induction He as [|a b c [by_ He] _ IH]; [apply rtc_refl|]. eapply transitivity; [by eapply effect_lifecycle|exact IH].
Qed.

Lemma claim_job capN st id owner allow clk d d' c : claimExport capN st id owner allow clk d = Ok (Some (d', c)) -> claimJob (sn_Exports d') c.
Proof.
  unfold claimExport. destruct (sn_Exports d !! id) as [j|]; [|done]. destruct (negb _ && _); [done|].
  destruct (guard_err _ _) eqn:Hg; [|done]. cbn [result_bind]. apply guard_err_Ok in Hg. rewrite !andb_true_iff, bool_decide_eq_true in Hg.
  destruct Hg as [[<- _] _]. destruct (bool_decide _).
  - destruct (isNone (sn_ExportCheckpoints d !! _) && _); [done|]. destruct (guard_err _ _); [|done]. cbn [result_bind].
    destruct (validExportArtifacts _ _ _); [|done]. cbn [result_bind]. destruct (time_After _ _ || _); [done|]. intros [= <- <-].
    exists j. split; [apply lookup_insert_eq|done].
  - destruct (guard_err _ _); [|done]. cbn [result_bind]. destruct (negb _); [done|]. intros [= <- <-].
    exists (startJob j (clk 0%nat)). split; [apply lookup_insert_eq|done].
Qed.

Lemma follows_claimJob jobs c p c' : follows c p -> pcClaim p = Some c' -> claimJob jobs c -> claimJob jobs c'.
Proof.
  intros [_ [->|(c1 & Hc1 & Hj & _)]] Hc'; [done|]. rewrite Hc' in Hc1. injection Hc1 as <-. unfold claimJob, cl_ID, cl_TenantID. by rewrite Hj.
Qed.

Lemma exec_claimJob i w p w' p' c' :
  exec i w p = (w', p') -> pcOk p -> (forall c, pcClaim p = Some c -> claimJob (sn_Exports (w_control w')) c) ->
  pcClaim p' = Some c' -> claimJob (sn_Exports (w_control w')) c'.
Proof.
  intros He Hok Hold Hc'. destruct (pcClaim p) as [c|] eqn:Hc.
  { eapply follows_claimJob; [by eapply exec_follows|exact Hc'|by apply Hold]. }
  destruct p; try discriminate Hc; unfold_exec He.
  - injection He as <- <-. by destruct (readStore _ _ _) as [[|]|].
  - destruct (claimExport _ _ _ _ _ _ _) as [[[d c]|]|] eqn:Hcl; [|injection He as <- <-; done..].
    apply claim_job in Hcl. destruct (in_io i); injection He as <- <-; [|done|done].
    eapply follows_claimJob; [apply follows_dispatch|exact Hc'|done].
  - injection He as <- <-. done.
Qed.

Lemma nobody_completed v v' id j : rtc (effect Nobody) v v' -> isCompleted (vx v') id j -> isCompleted (vx v) id j.
Proof. induction 1 as [|a b c He _ IH]; [done|]. intros H%IH. eapply claim_completed; [exact He|by left|done]. Qed.

Lemma unclaimed_completed d d' id j :
  rtc (effect Nobody) (viewOf d) (viewOf d') -> isCompleted (sn_Exports d') id j -> isCompleted (sn_Exports d) id j.
Proof. apply nobody_completed. Qed.

(** Completing a job is the work of an executor at its terminal write. *)
Lemma step_completed s s' job j :
  step s s' -> execsOk s -> isCompleted (exports s') job j ->
  isCompleted (exports s) job j \/
  exists n k c tw i, sy_execs s !! n = Some (XTerminal (S k) c tw) /\
    persistTerminalExport maxAdminActions (in_stamp i) (in_stamp' i) c tw (in_clk i) (sy_control s) = Ok (sy_control s', true).
Proof.
  intros H Hok Hj. step_cases H; unfold sy_control in *; cbn in Hj; try (by left).
  - apply (exec_completed _ _ _ _ _ job j) in He as [He|(k & c & tw & -> & He)]; [by left| |done]. right. by exists n, k, c, tw, i.
  - left. apply updateControl_cases in Hu as (_ & [E|Hf] & _); [by rewrite <- E|].
    unfold renewExportLease in Hf. destruct (negb _); [done|]. destruct (negb _); [done|].
    injection Hf as Hf. by rewrite <- Hf in Hj.
  - left. eapply unclaimed_completed; [apply rtc_once; eapply create_effect; [exact Hid|exact Ht|exact Hf|exact Hc]|exact Hj].
  - left. eapply unclaimed_completed; [apply rtc_once; eapply retry_effect; [exact Hid|exact Ht|exact Hc]|exact Hj].
  - left. eapply unclaimed_completed; [apply rtc_once; eapply cancel_effect; exact Hc|exact Hj].
  - left. eapply unclaimed_completed; [eapply recover_effects; [exact Hperm|exact Hc]|exact Hj].
  - left. change (isCompleted (vx (viewOf d)) job j) in Hj. by rewrite Hv in Hj.
Qed.

Lemma step_good h s s' : good h s -> execsOk s -> step s s' -> good (sy_control s' :: h) s'.
Proof.
  intros Hg Hok Hstep. assert (h ⊆ sy_control s' :: h) as Hh by (intros d ?; apply elem_of_cons; by right).
  pose proof (step_objects _ _ Hstep) as Hobj.
  assert (forall c, claimJob (exports s) c -> claimJob (exports s') c) as Hclaim.
  { intros c. apply claimJob_life. intros id. by apply step_life. }
  split.
  - apply elem_of_cons. by left.
  - assert (forall n p, sy_execs s !! n = Some p -> pcKnows (sy_control s' :: h) (objects s') p) as Hold.
    { intros n p Hn. eapply pcKnows_mono; [exact Hh|exact Hobj|by eapply g_pc]. }
    destruct Hstep as [s n p i w p' Hn He|s n id owner Hn Ho Hne| | | | | |]; cbn in *; try exact Hold.
    + intros m q [[<- <-]|[_ Hm]]%lookup_insert_Some; [|by eapply Hold].
      eapply pcKnows_mono; [exact Hh|reflexivity|]. eapply exec_knows; [by apply (g_now _ _ Hg)|by eapply g_pc|exact He].
    + intros m q [[<- <-]|[_ Hm]]%lookup_insert_Some; [done|by eapply Hold].
  - assert (forall n p c, sy_execs s !! n = Some p -> pcClaim p = Some c -> claimJob (exports s') c) as Hold.
    { intros n p c Hn Hc. eapply Hclaim, g_claim; eauto. }
    destruct Hstep as [s n p i w p' Hn He|s n id owner Hn Ho Hne| | | | | |]; cbn in *; try exact Hold.
    + intros m q c [[<- <-]|[_ Hm]]%lookup_insert_Some Hc; [|by eapply Hold].
      eapply exec_claimJob; [exact He|by eapply Hok|intros c0 Hc0; by eapply Hold|exact Hc].
    + intros m q c [[<- <-]|[_ Hm]]%lookup_insert_Some Hc; [done|by eapply Hold].
  - intros id j Hj. eapply completedGood_mono; [exact Hh|exact Hobj|].
    destruct (step_completed _ _ _ _ Hstep Hok Hj) as [H|(n & k & c & tw & i & Hn & Hp)]; [by apply (g_done _ _ Hg)|].
    destruct (terminal_completes h c tw i (sy_world s) (sy_control s') id j) as [H|H]; [..|by apply (g_done _ _ Hg)|exact H].
    + apply (g_now _ _ Hg).
    + exact (g_pc _ _ Hg n _ Hn).
    + apply (Hok n _ Hn).
    + apply (g_claim _ _ Hg n _ c Hn). done.
    + exact Hp.
    + exact Hj.
Qed.

Lemma run_good h s : run h s -> good h s.
Proof.
  induction 1 as [s [Hv He]|h s s' Hr IH Hstep].
  - split; [apply elem_of_cons; by left|intros n p; by rewrite He|intros n p c; by rewrite He|].
    intros id j [Hj _]. change (vx (viewOf (sy_control s)) !! id = Some j) in Hj. by rewrite Hv in Hj.
  - apply (step_good h s); [done| |done]. eapply reachable_execs, run_reachable, Hr.
Qed.


End system.

End ExportComplete.
