(* ===== verification/ExportDemo.v ===== *)
(** * A concrete run of the export system

    A configuration, a control document with no jobs, and the run in which one
    job is created, claimed, planned, sealed and completed; it shows that the
    theorems of ExportProps and ExportComplete apply. *)

From Stdlib Require Import Ascii String.
From stdpp Require Import relations.
From S2P Require Import Prelude GoStr Sha256 Signer Domain Keys Store Evidence Integrity ChainProps TenantIngest Governance Holds ExportJobs ExportRun ExportSystem ExportProps ExportComplete.
Open Scope string_scope.
Open Scope Z_scope.
Import Domain Keys Store Sha256 Signer Evidence Integrity TenantIngest Governance Holds ExportJobs ExportRun ExportSystem ExportProps ExportComplete.

Module ExportDemo.

(** ** Collaborators of the run *)

Definition demoTag (nonce aad : string) : string := HashBytes (nonce ++ aad).
Definition demoConfig : ExportConfig :=
  mkExportConfig "0123456789abcdef0123456789abcdef"
    (fun v => Some match v with
                   | MacScope id tenant _ _ _ _ _ => id ++ "/" ++ tenant
                   | MacText s => s
                   | MacPlan plan => xp_JobID plan
                   | MacCheckpoint cp => xc_Digest cp
                   | _ => "-"
                   end)
    (fun nonce plain aad => demoTag nonce aad ++ plain)
    (fun nonce body aad => if String.prefix (demoTag nonce aad) body
       then Some (substring (String.length (demoTag nonce aad)) (String.length body - String.length (demoTag nonce aad)) body) else None).
#[local] Existing Instance demoConfig.
#[local] Existing Instance ChainProps.plainCrypto.

Definition demoDigest (v : value) : result string := Ok "".
Definition demoLegacyDigest (e : Event) : result string := Ok "".
Definition demoIdentity (line : string) : option lineIdentity := None.
Definition demoLegacyOpen (sealed : string) : result string := Err (NewErr "invalid encrypted export").
Definition demoReencode (p : option (gmap string value)) : result (option (gmap string value)) := Ok p.
Definition demoErrorText (e : error) : string := "".

Notation demoExec := (execStep demoDigest demoLegacyDigest demoIdentity demoLegacyOpen demoReencode 500 demoErrorText).
Notation demoRun := (run demoDigest demoLegacyDigest demoIdentity demoLegacyOpen demoReencode 500 demoErrorText).
Notation demoStep := (step demoDigest demoLegacyDigest demoIdentity demoLegacyOpen demoReencode 500 demoErrorText).

(** ** The script *)

Definition stampAt (t : Z) : stamp := mkstamp t t "e1" "a1".
Definition inputAt (t : Z) : input :=
  mkinput (fun _ => t) (stampAt t) (stampAt t) IoOk (NewErr "unavailable") (fun _ => Err (Sentinel ErrNotFound)) "nonce-0000-1".

Definition s0 : system := mksystem (mkworld NewSnapshot ∅) ∅ ∅.
Definition q0 : Query := zero_Query.

Definition created : system :=
  match createExportClosure 500 (stampAt 1000) (newExportJob (stampAt 1000) "t1" "u1" q0 "") (exportHoldBinding NewSnapshot "t1") NewSnapshot with
  | Ok (d, true) => commit s0 d
  | _ => s0
  end.
Definition spawned : system := mksystem (sy_world created) (<[0%nat := XLookup "e1" "o1"]> (sy_execs created)) ({["o1"]} ∪ sy_owners created).

Definition execAt (i : input) (n : nat) (s : system) : system :=
  match sy_execs s !! n with
  | None => s
  | Some p => let '(w, p') := demoExec i (sy_world s) p in mksystem w (<[n := p']> (sy_execs s)) (sy_owners s)
  end.
Definition after (k : nat) : system := Nat.iter k (execAt (inputAt 2000) 0) spawned.

(** The requester cancels the job while its executor selects evidence. *)
Definition cancelled : system :=
  match cancelExportClosure 500 (stampAt 3000) "t1" "u1" "e1" (fun _ => 3000) (sy_control (after 2)) with
  | Ok (d, true) => commit (after 2) d
  | _ => after 2
  end.

(** ** Its steps *)

Lemma demo_created : demoStep s0 created.
Proof.
  unfold created. destruct (createExportClosure _ _ _ _ _) as [[d []]|] eqn:Hc; [|vm_compute in Hc; discriminate Hc..].
  eapply step_create; [| | |exact Hc]; [done|done|reflexivity].
Qed.

Lemma demo_spawned : demoStep created spawned.
Proof. apply step_spawn; [vm_compute; reflexivity|apply (bool_decide_unpack _); vm_compute; exact I|done]. Qed.

Lemma demo_execAt i n s : rtc demoStep s (execAt i n s).
Proof.
  unfold execAt. destruct (sy_execs s !! n) as [p|] eqn:Hn; [|apply rtc_refl].
  destruct (demoExec i (sy_world s) p) as [w p'] eqn:He. apply rtc_once. by eapply step_exec.
Qed.

Lemma demo_after k : rtc demoStep s0 (after k).
Proof.
  induction k as [|k IH]; cbn; [|eapply transitivity; [exact IH|apply demo_execAt]].
  eapply rtc_l; [apply demo_created|]. apply rtc_once, demo_spawned.
Qed.

Lemma demo_more k m : rtc demoStep (after k) (after (m + k)).
Proof. induction m as [|m IH]; [apply rtc_refl|]. eapply transitivity; [exact IH|apply demo_execAt]. Qed.

Lemma demo_cancelled : demoStep (after 2) cancelled.
Proof.
  unfold cancelled. destruct (cancelExportClosure _ _ _ _ _ _ _) as [[d []]|] eqn:Hc; [|vm_compute in Hc; discriminate Hc..].
  eapply step_cancel. exact Hc.
Qed.

Lemma run_extend h s s' : demoRun h s -> rtc demoStep s s' -> exists h', demoRun h' s'.
Proof. intros Hr H. revert h Hr. induction H as [s|s s1 s' Hstep _ IH]; intros h Hr; [by exists h|]. eapply IH. by eapply run_step. Qed.

Lemma demo_initial : initial s0.
Proof. done. Qed.

Notation demoReachable := (reachable demoDigest demoLegacyDigest demoIdentity demoLegacyOpen demoReencode 500 demoErrorText).
Lemma demo_reachable k : demoReachable (after k).
Proof. exists s0. split; [apply demo_initial|apply demo_after]. Qed.
Lemma cancelled_reachable : demoReachable cancelled.
Proof. exists s0. split; [apply demo_initial|]. eapply rtc_r; [apply demo_after|apply demo_cancelled]. Qed.
Lemma demo_runs k : exists h, demoRun h (after k).
Proof. eapply run_extend; [apply run_init, demo_initial|apply demo_after]. Qed.

Definition statusOf (s : system) : option string := ej_Status <$> sn_Exports (sy_control s) !! "e1".
Lemma after_running : statusOf (after 2) = Some "running".
Proof. vm_compute. reflexivity. Qed.
Lemma after_completed : statusOf (after 13) = Some "completed".
Proof. vm_compute. reflexivity. Qed.

Lemma status_job s st : statusOf s = Some st -> exists j, sn_Exports (sy_control s) !! "e1" = Some j /\ ej_Status j = st.
Proof. unfold statusOf. destruct (sn_Exports (sy_control s) !! "e1") as [j|]; [|done]. intros [= <-]. by exists j. Qed.

Definition claimOf (s : system) : option exportClaim := sy_execs s !! 0%nat ≫= pcClaim.
Lemma cancelled_claim : ((fun c => (cl_ID c, cl_Owner c)) <$> claimOf cancelled) = Some ("e1", "o1").
Proof. vm_compute. reflexivity. Qed.
Lemma cancelled_lease : sn_ExportLeases (sy_control cancelled) !! "e1" = None.
Proof. vm_compute. reflexivity. Qed.
Lemma claimOf_inv s id o :
  ((fun c => (cl_ID c, cl_Owner c)) <$> claimOf s) = Some (id, o) ->
  exists p c, sy_execs s !! 0%nat = Some p /\ pcClaim p = Some c /\ cl_ID c = id /\ cl_Owner c = o.
Proof.
  unfold claimOf. destruct (sy_execs s !! 0%nat) as [p|]; [|done]. cbn. destruct (pcClaim p) as [c|] eqn:Hc; [|done].
  intros [= <- <-]. by exists p, c.
Qed.
Lemma execAt_some i n s p : sy_execs s !! n = Some p -> is_Some (sy_execs (execAt i n s) !! n).
Proof. intros H. unfold execAt. rewrite H. destruct (demoExec _ _ _). cbn. by rewrite lookup_insert_eq. Qed.

#[local] Opaque after cancelled.

(** ** The theorems apply *)

Lemma export_job_lifecycle_witness :
  exists j, sn_Exports (sy_control (after 13)) !! "e1" = Some j /\ ej_Status j = "completed" /\
    rtc (lifecycle "e1") (sn_Exports (sy_control s0) !! "e1") (Some j) /\
    sn_Exports (sy_control (after (2 + 13))) !! "e1" = Some j.
Proof.
  destruct (status_job _ _ after_completed) as (j & Hj & Hs). exists j. split; [done|]. split; [done|]. rewrite <- Hj at 1. split.
  - apply (export_job_lifecycle demoDigest demoLegacyDigest demoIdentity demoLegacyOpen demoReencode 500 demoErrorText s0 (after 13));
      [exists s0; split; [apply demo_initial|apply rtc_refl]|apply demo_after].
  - apply (export_job_lifecycle demoDigest demoLegacyDigest demoIdentity demoLegacyOpen demoReencode 500 demoErrorText (after 13) (after (2 + 13)));
      [apply demo_reachable|apply (demo_more 13 2)|exact Hj|left; exact Hs].
Defined.

Lemma export_slots_bounded_witness :
  statusOf (after 2) = Some "running" /\ (length (runningJobs (sn_Exports (sy_control (after 2)))) <= ExportConcurrency)%nat.
Proof.
  split; [apply after_running|].
  destruct (export_slots_bounded demoDigest demoLegacyDigest demoIdentity demoLegacyOpen demoReencode 500 demoErrorText (after 2)
    (demo_reachable 2)) as [H _]. exact H.
Defined.

Lemma execution_metadata_exact_witness :
  statusOf (after 2) = Some "running" /\ is_Some (sn_ExportLeases (sy_control (after 2)) !! "e1").
Proof.
  split; [apply after_running|].
  destruct (execution_metadata_exact demoDigest demoLegacyDigest demoIdentity demoLegacyOpen demoReencode 500 demoErrorText (after 2)
    (demo_reachable 2)) as [H _]. apply (proj1 (H "e1")). apply status_job, after_running.
Defined.

Lemma superseded_executor_is_fenced_witness :
  exists p, sy_execs (execAt (inputAt 4000) 0 cancelled) !! 0%nat = Some p /\
    forall i w q, demoExec i (sy_world (execAt (inputAt 4000) 0 cancelled)) p = (w, q) ->
      w_control w = sy_control (execAt (inputAt 4000) 0 cancelled).
Proof.
  destruct (claimOf_inv _ _ _ cancelled_claim) as (p0 & c & Hp0 & Hc & Hid & Ho).
  destruct (execAt_some (inputAt 4000) 0 cancelled p0 Hp0) as [p Hp]. exists p. split; [exact Hp|].
  apply (superseded_executor_is_fenced demoDigest demoLegacyDigest demoIdentity demoLegacyOpen demoReencode 500 demoErrorText
    cancelled (execAt (inputAt 4000) 0 cancelled) 0 p0 c p cancelled_reachable Hp0 Hc); [|apply demo_execAt|exact Hp].
  intros lease Hl. rewrite Hid, cancelled_lease in Hl. discriminate Hl.
Defined.


End ExportDemo.
