(* ===== verification/ExportDispatch.v ===== *)
(** * The export dispatcher

    The choice of the next job (nextExport, nextRunnableExport) is exact and
    fair; the dispatcher goroutine with its wake generation, reservations and
    executors is a state machine of its own, which runs any number of wakes,
    completions and store reads interleaved. *)

From Stdlib Require Import Ascii String Sorting.Sorted.
From stdpp Require Import relations.
From S2P Require Import Prelude GoStr Domain Keys Store Governance ExportJobs ExportSystem ExportProps.
Open Scope string_scope.
Open Scope Z_scope.
Import Domain Keys Store Governance ExportJobs ExportSystem ExportProps.

Module ExportDispatch.

(** ** The order of tenant names *)

Lemma ltb_leb a b : str_ltb a b = negb (str_leb b a).
Proof. unfold str_ltb, str_leb, String.ltb, String.leb. rewrite (String.compare_antisym a b). by destruct (String.compare b a). Qed.
Lemma leb_cases a b : str_leb a b = true -> a = b \/ str_ltb a b = true.
Proof.
  intros H. destruct (str_leb b a) eqn:E; [left; by apply str_leb_antisym|right]. by rewrite ltb_leb, E.
Qed.
Lemma ltb_leb_trans a b c : str_ltb a b = true -> str_leb b c = true -> str_ltb a c = true.
Proof.
  rewrite !ltb_leb, !negb_true_iff. intros H1 H2. destruct (str_leb c a) eqn:E; [|done].
  by rewrite (str_leb_trans b c a H2 E) in H1.
Qed.
Lemma leb_ltb_trans a b c : str_leb a b = true -> str_ltb b c = true -> str_ltb a c = true.
Proof.
  rewrite !ltb_leb, !negb_true_iff. intros H1 H2. destruct (str_leb c a) eqn:E; [|done].
  by rewrite (str_leb_trans c a b E H1) in H2.
Qed.
Lemma ltb_leb_incl a b : str_ltb a b = true -> str_leb a b = true.
Proof. rewrite ltb_leb, negb_true_iff. destruct (str_leb_total a b) as [?|H]; [done|]. by rewrite H. Qed.
Lemma ltb_trans a b c : str_ltb a b = true -> str_ltb b c = true -> str_ltb a c = true.
Proof. intros H1 H2%ltb_leb_incl. by eapply ltb_leb_trans. Qed.
Lemma ltb_irrefl a : str_ltb a a = false.
Proof. rewrite ltb_leb. destruct (str_leb_total a a) as [H|H]; by rewrite H. Qed.
Lemma ltb_false a b : str_ltb a b = false <-> str_leb b a = true.
Proof. rewrite ltb_leb. destruct (str_leb b a); done. Qed.

(** ** Round robin *)

(** [u] is the successor of [after] in the circle of the strings in [P]. *)
Definition cyclicNext (after : string) (P : string -> Prop) (u : string) : Prop :=
  P u /\
  ((str_ltb after u = true /\ forall v, P v -> str_ltb after v = true -> str_leb u v = true) \/
   ((forall v, P v -> str_ltb after v = false) /\ forall v, P v -> str_leb u v = true)).

Lemma find_first_sorted {A} (key : A -> string) after l x :
  StronglySorted (fun a b => str_leb (key a) (key b) = true) l -> find_first (fun x => str_ltb after (key x)) l = Some x ->
  forall y, y ∈ l -> str_ltb after (key y) = true -> str_leb (key x) (key y) = true.
Proof.
  induction 1 as [|a l Hs IH Ha]; simpl; [done|]. destruct (str_ltb after (key a)) eqn:E.
  - intros [= <-] y [->|Hy]%elem_of_cons _; [destruct (str_leb_total (key a) (key a)); done|]. rewrite Forall_forall in Ha. by apply Ha.
  - intros Hf y [->|Hy]%elem_of_cons Hlt; [congruence|]. by apply IH.
Qed.

Lemma roundRobin_spec {A} (key : A -> string) after l :
  StronglySorted (fun a b => str_leb (key a) (key b) = true) l ->
  match roundRobin key after l with
  | None => l = []
  | Some x => x ∈ l /\ cyclicNext after (fun t => exists y, y ∈ l /\ key y = t) (key x)
  end.
Proof.
  intros Hs. unfold roundRobin. destruct (find_first _ l) as [x|] eqn:Hf.
  - pose proof (find_first_sorted key after l x Hs Hf) as Hmin. apply find_first_Some in Hf as [Hx Hlt]. split; [done|].
    split; [by exists x|]. left. split; [done|]. intros v (y & Hy & <-). by apply Hmin.
  - destruct l as [|x l]; [done|]. cbn. rewrite find_first_None in Hf. split; [by left|]. split; [exists x; split; [by left|done]|]. right.
    split; [intros v (y & Hy & <-); by apply Hf|]. intros v (y & [->|Hy]%elem_of_cons & <-); [destruct (str_leb_total (key x) (key x)); done|].
    apply StronglySorted_inv in Hs as [_ Ha]. rewrite Forall_forall in Ha. by apply Ha.
Qed.

(** The tenants a round robin serves before [t]. *)
Definition between (after t v : string) : bool :=
  if str_ltb after t then str_ltb after v && str_ltb v t else str_ltb after v || str_ltb v t.
Definition distance (tenants : list string) (after t : string) : nat := length (List.filter (between after t) tenants).

Lemma filter_length_lt {A} (p q : A -> bool) l x :
  x ∈ l -> (forall y, p y = true -> q y = true) -> p x = false -> q x = true -> (length (List.filter p l) < length (List.filter q l))%nat.
Proof.
  intros Hx Hpq Hp Hq. assert (forall l, length (List.filter p l) <= length (List.filter q l))%nat as Hle.
  { clear -Hpq. induction l as [|y l IH]; simpl; [done|]. destruct (p y) eqn:E; [rewrite (Hpq _ E); simpl; lia|].
    destruct (q y); simpl; lia. }
  induction l as [|y l IH]; [inversion Hx|]. apply elem_of_cons in Hx as [<-|Hx]; simpl.
  - rewrite Hp, Hq. simpl. specialize (Hle l). lia.
  - specialize (IH Hx). destruct (p y) eqn:E; [rewrite (Hpq _ E); simpl; lia|]. destruct (q y); simpl; lia.
Qed.

Lemma distance_bound tenants after t : t ∈ tenants -> (distance tenants after t < length tenants)%nat.
Proof.
  intros Ht. unfold distance. replace (length tenants) with (length (List.filter (fun _ => true) tenants)).
  - eapply filter_length_lt; [exact Ht|done| |done]. unfold between. rewrite ltb_irrefl, andb_false_r, orb_false_r. by destruct (str_ltb after t).
  - clear. induction tenants; simpl; congruence.
Qed.

(** A choice that is not [t] brings [t] closer. *)
Lemma distance_decreases tenants after t P u :
  (forall v, P v -> v ∈ tenants) -> P t -> cyclicNext after P u -> u <> t -> (distance tenants u t < distance tenants after t)%nat.
Proof.
  intros HT Ht [Hu Hcyc] Hne. unfold distance. apply (filter_length_lt _ _ _ u); [by apply HT| | |].
  all: unfold between; destruct Hcyc as [[Hlt Hmin]|[Hnone Hmin]].
  - destruct (str_ltb after t) eqn:E.
    + destruct (leb_cases u t (Hmin t Ht E)) as [|Hut]; [done|]. rewrite Hut. intros y [H1 H2]%andb_true_iff.
      rewrite H2, andb_true_r. exact (ltb_trans _ _ _ Hlt H1).
    + apply ltb_false in E. assert (str_ltb t u = true) as Htu by (exact (leb_ltb_trans _ _ _ E Hlt)).
      assert (str_ltb u t = false) as -> by (apply ltb_false; by apply ltb_leb_incl).
      intros y [H|H]%orb_true_iff; apply orb_true_iff; [left; exact (ltb_trans _ _ _ Hlt H)|by right].
  - rewrite (Hnone t Ht). destruct (leb_cases u t (Hmin t Ht)) as [|Hut]; [done|]. rewrite Hut.
    intros y [_ H]%andb_true_iff. apply orb_true_iff. by right.
  - rewrite ltb_irrefl. destruct (str_ltb u t) eqn:E; [done|]. cbn. done.
  - rewrite ltb_irrefl. destruct (leb_cases u t (Hmin t Ht)) as [|Hut]; [done|]. by rewrite Hut.
  - destruct (str_ltb after t) eqn:E; [|by rewrite Hlt].
    destruct (leb_cases u t (Hmin t Ht E)) as [|Hut]; [done|]. by rewrite Hlt, Hut.
  - rewrite (Hnone t Ht). destruct (leb_cases u t (Hmin t Ht)) as [|Hut]; [done|]. by rewrite Hut, orb_true_r.
Qed.

(** ** The choice among pending jobs *)

Lemma olderJob_trans a b c : olderJob a b = true -> olderJob b c = true -> olderJob a c = true.
Proof.
  unfold olderJob, time_Before. rewrite !orb_true_iff, !andb_true_iff. intros [H1|[H1 H1']] [H2|[H2 H2']]; try (left; lia).
  right. split; [lia|]. by eapply ltb_trans.
Qed.
Lemma olderJob_irrefl a : olderJob a a = false.
Proof. unfold olderJob, time_Before. rewrite ltb_irrefl, andb_false_r, orb_false_r. lia. Qed.

Section choice.
Context (jobs : gmap string ExportJob) (active : gmap string string).

Notation elig := (eligible jobs active).

Definition picks (l : list (string * ExportJob)) (acc : gmap string ExportJob) : Prop :=
  (forall t j, acc !! t = Some j -> ej_TenantID j = t /\ exists id, (id, j) ∈ l /\ elig id j = true) /\
  (forall id j, (id, j) ∈ l -> elig id j = true -> exists j0, acc !! ej_TenantID j = Some j0 /\ olderJob j j0 = false).

Lemma picks_step l acc id j : picks l acc -> picks (l ++ [(id, j)])%list (byTenantStep jobs active acc (id, j)).
Proof.
  intros [H1 H2]. unfold byTenantStep.
  assert (forall t j0, acc !! t = Some j0 -> ej_TenantID j0 = t /\ exists id0, (id0, j0) ∈ (l ++ [(id, j)])%list /\ elig id0 j0 = true) as Hold.
  { intros t j0 Ht. destruct (H1 t j0 Ht) as (E & id0 & Hin & He). split; [done|]. exists id0. split; [|done]. apply elem_of_app. by left. }
  assert (forall j0, elig id j = true -> (forall j1, acc !! ej_TenantID j = Some j1 -> olderJob j j1 = true) -> j0 = j ->
    picks (l ++ [(id, j)])%list (<[ej_TenantID j := j0]> acc)) as Hput.
  { intros j0 He Hnew ->. split.
    - intros t j1 [[<- <-]|[_ Ht]]%lookup_insert_Some; [|by apply Hold]. split; [done|]. exists id. split; [|done]. apply elem_of_app. right. by left.
    - intros id' j' [Hin|Hin]%elem_of_app He'.
      + destruct (H2 id' j' Hin He') as (j1 & Hj1 & Ho). destruct (decide (ej_TenantID j' = ej_TenantID j)) as [E|Hne].
        * rewrite E, lookup_insert_eq. exists j. split; [done|]. destruct (olderJob j' j) eqn:Hc; [|done].
          rewrite E in Hj1. by rewrite (olderJob_trans _ _ _ Hc (Hnew _ Hj1)) in Ho.
        * rewrite lookup_insert_ne by congruence. by exists j1.
      + apply list_elem_of_singleton in Hin. injection Hin as -> ->. rewrite lookup_insert_eq. exists j. split; [done|apply olderJob_irrefl]. }
  assert (forall j1, acc !! ej_TenantID j = Some j1 -> elig id j = true -> olderJob j j1 = false -> picks (l ++ [(id, j)])%list acc) as Hkeep.
  { intros j1 Hj1 He Ho. split; [exact Hold|]. intros id' j' [Hin|Hin]%elem_of_app He'; [by eapply H2|].
    apply list_elem_of_singleton in Hin. injection Hin as -> ->. by exists j1. }
  destruct (elig id j) eqn:He; cbn [negb].
  - destruct (acc !! ej_TenantID j) as [j1|] eqn:Hj1; [|by apply Hput; [|intros ? [=]|]].
    destruct (olderJob j j1) eqn:Ho; [apply Hput; [done| |done]; by intros ? [= <-]|]. by eapply Hkeep.
  - split; [exact Hold|]. intros id' j' [Hin|Hin]%elem_of_app He'; [by eapply H2|].
    apply list_elem_of_singleton in Hin. injection Hin as -> ->. congruence.
Qed.

Lemma byTenant_picks : picks (map_to_list jobs) (byTenant jobs active).
Proof.
  unfold byTenant. induction (map_to_list jobs) as [|[id j] l IH] using rev_ind.
  - split; [intros t j H; cbn in H; by rewrite lookup_empty in H|intros id j H; inversion H].
  - rewrite foldl_app. cbn [foldl]. by apply picks_step.
Qed.

(** The tenants with a job that may be dispatched. *)
Definition waiting (t : string) : Prop := exists id j, jobs !! id = Some j /\ elig id j = true /\ ej_TenantID j = t.

Lemma byTenant_waiting t : waiting t <-> is_Some (byTenant jobs active !! t).
Proof.
  destruct byTenant_picks as [H1 H2]. split.
  - intros (id & j & Hj & He & <-). destruct (H2 id j) as (j0 & Hj0 & _); [by apply elem_of_map_to_list|done|by exists j0].
  - intros [j Hj]. destruct (H1 t j Hj) as (E & id & Hin & He). exists id, j. apply elem_of_map_to_list in Hin. done.
Qed.

Lemma sorted_keys (m : gmap string ExportJob) :
  StronglySorted (fun a b => str_leb a b = true) (sort_strings (map_to_list m).*1) /\
  forall t, t ∈ sort_strings (map_to_list m).*1 <-> is_Some (m !! t).
Proof.
  split; [apply stable_sort_sorted; [apply str_leb_total|apply str_leb_trans]|].
  intros t. rewrite sort_strings_perm, list_elem_of_fmap. split.
  - intros ([t' j] & -> & H%elem_of_map_to_list). by exists j.
  - intros [j Hj]. exists (t, j). split; [done|]. by apply elem_of_map_to_list.
Qed.

(** The oldest dispatchable job of its tenant. *)
Definition oldestOf (id : string) (j : ExportJob) : Prop :=
  jobs !! id = Some j /\ elig id j = true /\
  forall id' j', jobs !! id' = Some j' -> elig id' j' = true -> ej_TenantID j' = ej_TenantID j -> olderJob j' j = false.

Lemma cyclicNext_iff after P Q u : (forall t, P t <-> Q t) -> cyclicNext after P u -> cyclicNext after Q u.
Proof.
  intros H [Hu [[H1 H2]|[H1 H2]]]; (split; [by apply H|]); [left|right]; split; try done.
  - intros v Hv%H. by apply H2.
  - intros v Hv%H. by apply H1.
  - intros v Hv%H. by apply H2.
Qed.

Lemma nextExport_cases after :
  ((ExportConcurrency <= length (occupants jobs active))%nat /\ nextExport jobs active after = zero_ExportJob) \/
  ((length (occupants jobs active) < ExportConcurrency)%nat /\
   (((forall t, ~ waiting t) /\ nextExport jobs active after = zero_ExportJob) \/
    exists id, oldestOf id (nextExport jobs active after) /\ cyclicNext after waiting (ej_TenantID (nextExport jobs active after)))).
Proof.
  unfold nextExport. destruct (Nat.leb_spec ExportConcurrency (length (occupants jobs active))) as [Hle|Hlt]; [by left|right]. split; [done|].
  destruct (sorted_keys (byTenant jobs active)) as [Hs Hin]. pose proof (roundRobin_spec (fun t => t) after _ Hs) as Hr.
  destruct (roundRobin _ _ _) as [t|].
  - right. destruct Hr as [Ht Hc]. apply Hin in Ht as [j Hj]. unfold map_get. rewrite Hj. cbn.
    destruct byTenant_picks as [H1 H2]. destruct (H1 t j Hj) as (Et & id & Hid & He). apply elem_of_map_to_list in Hid. exists id. split.
    + split; [done|]. split; [done|]. intros id' j' Hj' He' E. destruct (H2 id' j') as (j0 & Hj0 & Ho); [by apply elem_of_map_to_list|done|].
      rewrite E, Et, Hj in Hj0. by injection Hj0 as <-.
    + rewrite Et. eapply cyclicNext_iff; [|exact Hc]. intros t'. rewrite byTenant_waiting, <- Hin. split.
      * by intros (y & Hy & <-).
      * intros Hy. by exists t'.
  - left. split; [|done]. intros t Ht%byTenant_waiting%Hin. rewrite Hr in Ht. inversion Ht.
Qed.

End choice.

(** ** Takeovers come first *)

Lemma jobBefore_tenant a b : jobBefore b a = false -> str_leb (ej_TenantID a) (ej_TenantID b) = true.
Proof.
  unfold jobBefore. destruct (bool_decide_reflect (ej_TenantID b = ej_TenantID a)) as [->|]; cbn [negb]; [|apply ltb_false].
  intros _. by destruct (str_leb_total (ej_TenantID a) (ej_TenantID a)).
Qed.

(** The order of the candidates as a chain of comparisons. *)
Lemma jobBefore_iff a b :
  jobBefore a b = true <->
  str_ltb (ej_TenantID a) (ej_TenantID b) = true \/
  (ej_TenantID a = ej_TenantID b /\ (ej_CreatedAt a < ej_CreatedAt b \/
     (ej_CreatedAt a = ej_CreatedAt b /\ str_ltb (ej_ID a) (ej_ID b) = true))).
Proof.
  unfold jobBefore, time_Before. destruct (bool_decide_reflect (ej_TenantID a = ej_TenantID b)) as [E|Hne]; cbn [negb].
  - rewrite E, ltb_irrefl. destruct (Z.eqb_spec (ej_CreatedAt a) (ej_CreatedAt b)) as [Ec|Hc]; cbn [negb].
    + split; [intros H; right; split; [done|right; done]|]. intros [H|[_ [H|[_ H]]]]; [done|lia|done].
    + rewrite Z.ltb_lt. split; [intros H; right; split; [done|by left]|]. intros [H|[_ [H|[H _]]]]; [done|done|lia].
  - split; [by left|]. intros [H|[H _]]; done.
Qed.

Lemma jobBefore_trans a b c : jobBefore a b = true -> jobBefore b c = true -> jobBefore a c = true.
Proof.
  rewrite !jobBefore_iff. intros [H1|(E1 & H1)] [H2|(E2 & H2)].
  - left. by eapply ltb_trans.
  - left. by rewrite <- E2.
  - left. by rewrite E1.
  - right. split; [congruence|]. destruct H1 as [H1|(C1 & H1)], H2 as [H2|(C2 & H2)]; [left; lia|left; lia|left; lia|].
    right. split; [congruence|]. by eapply ltb_trans.
Qed.
Lemma jobBefore_irrefl a : jobBefore a a = false.
Proof. destruct (jobBefore a a) eqn:H; [|done]. apply jobBefore_iff in H. rewrite !ltb_irrefl in H. destruct H as [|[_ [|[_ ?]]]]; [done|lia|done]. Qed.

Lemma ltb_total a b : str_ltb a b = true \/ a = b \/ str_ltb b a = true.
Proof. destruct (str_ltb a b) eqn:E; [by left|right]. apply ltb_false, leb_cases in E as [->|]; auto. Qed.

(** Two candidates that are not ordered are the same to the order. *)
Lemma jobBefore_weak a b c : jobBefore a b = true -> jobBefore a c = true \/ jobBefore c b = true.
Proof.
  rewrite !jobBefore_iff. intros Hab. destruct (ltb_total (ej_TenantID a) (ej_TenantID c)) as [|[Ea|Ha]]; [auto| |].
  - destruct Hab as [H|[E H]]; [right; left; by rewrite <- Ea|].
    destruct (Z.lt_trichotomy (ej_CreatedAt a) (ej_CreatedAt c)) as [|[Ec|Hc]]; [left; right; auto| |right; right; split; [congruence|left; lia]].
    destruct H as [H|[E' H]]; [right; right; split; [congruence|left; lia]|].
    destruct (ltb_total (ej_ID a) (ej_ID c)) as [|[Ei|Hi]]; [left; right; auto| |].
    + right; right. split; [congruence|]. right. split; [congruence|by rewrite <- Ei].
    + right; right. split; [congruence|]. right. split; [congruence|exact (ltb_trans _ _ _ Hi H)].
  - right. left. destruct Hab as [H|[<- _]]; [exact (ltb_trans _ _ _ Ha H)|done].
Qed.

Lemma candidates_sorted data active now :
  StronglySorted (fun a b => str_leb (ej_TenantID a) (ej_TenantID b) = true) (candidates data active now).
Proof.
  unfold candidates. set (l := (List.filter _ _).*2). set (le := fun a b => negb (jobBefore b a)).
  assert (StronglySorted (fun a b => le a b = true) (stable_sort le l)) as Hs.
  { apply stable_sort_sorted; unfold le.
    - intros a b. destruct (jobBefore b a) eqn:E; [right|by left]. destruct (jobBefore a b) eqn:E'; [|done].
      pose proof (jobBefore_trans _ _ _ E E') as H. by rewrite jobBefore_irrefl in H.
    - intros a b c Hab Hbc. destruct (jobBefore c a) eqn:E; [|done]. destruct (jobBefore_weak c a b E) as [H|H]; by rewrite H in *. }
  induction Hs as [|a s Hs IH Ha]; constructor; [done|]. eapply Forall_impl; [exact Ha|]. intros b H%negb_true_iff. by apply jobBefore_tenant.
Qed.

Lemma candidates_elem data active now j :
  j ∈ candidates data active now <-> exists id, sn_Exports data !! id = Some j /\ resumable data active now id j = true.
Proof.
  unfold candidates. rewrite stable_sort_perm, list_elem_of_fmap. split.
  - intros ([id j'] & -> & H). apply list_elem_of_In, filter_In in H as [H Hr]. apply list_elem_of_In, elem_of_map_to_list in H. by exists id.
  - intros (id & H & Hr). exists (id, j). split; [done|]. apply list_elem_of_In, filter_In. split; [|done].
    by apply list_elem_of_In, elem_of_map_to_list.
Qed.

(** The dispatcher's choice is exact.  An expired lease of a planned or
    sealed job is taken over first, round robin over the tenants with one.
    Otherwise, when a slot is free, the oldest dispatchable pending job of the
    tenant that follows the last served one in the circle of tenants with a
    dispatchable job is chosen; the empty job is returned exactly when the
    slots are used up or no tenant has such a job. *)
Theorem dispatch_choice_exact data active after now :
  let chosen := nextRunnableExport data active after now in
  ((exists id, sn_Exports data !! id = Some chosen /\ resumable data active now id chosen = true) /\
   cyclicNext after (fun t => exists id j, sn_Exports data !! id = Some j /\ resumable data active now id j = true /\ ej_TenantID j = t)
     (ej_TenantID chosen)) \/
  ((forall id j, sn_Exports data !! id = Some j -> resumable data active now id j = false) /\
   (((ExportConcurrency <= length (occupants (sn_Exports data) active))%nat /\ chosen = zero_ExportJob) \/
    ((length (occupants (sn_Exports data) active) < ExportConcurrency)%nat /\
     (((forall t, ~ waiting (sn_Exports data) active t) /\ chosen = zero_ExportJob) \/
      (exists id, oldestOf (sn_Exports data) active id chosen /\
         cyclicNext after (waiting (sn_Exports data) active) (ej_TenantID chosen)))))).
Proof.
  cbv zeta. unfold nextRunnableExport. pose proof (candidates_elem data active now) as Hin.
  pose proof (roundRobin_spec ej_TenantID after _ (candidates_sorted data active now)) as Hr.
  destruct (candidates data active now) as [|c l].
  - right. split; [|apply nextExport_cases]. intros id j Hj. destruct (resumable _ _ _ _ _) eqn:E; [|done].
    assert (j ∈ []) as H by (apply Hin; by exists id). inversion H.
  - left. destruct (roundRobin _ _ _) as [j|]; [|done]. cbn. destruct Hr as [Hj Hc]. apply Hin in Hj. split; [done|].
    eapply cyclicNext_iff; [|exact Hc]. intros t. split.
    + intros (y & (id & Hy & Hr)%Hin & <-). by exists id, y.
    + intros (id & y & Hy & Hr & <-). exists y. split; [|done]. apply Hin. by exists id.
Qed.

Lemma pending_choice data active after now t :
  candidates data active now = [] -> (length (occupants (sn_Exports data) active) < ExportConcurrency)%nat -> waiting (sn_Exports data) active t ->
  cyclicNext after (waiting (sn_Exports data) active) (ej_TenantID (nextRunnableExport data active after now)).
Proof.
  intros Hc Ho Ht. unfold nextRunnableExport. rewrite Hc.
  destruct (nextExport_cases (sn_Exports data) active after) as [[H _]|[_ [[H _]|(id & _ & H)]]]; [lia|by destruct (H t)|done].
Qed.

(** C26: no tenant starves.  While slots come free, no lease has to be taken
    over and a tenant keeps a dispatchable job, it is served within as many
    choices as there are tenants, whatever jobs are added, finished or
    reserved in between. *)
Theorem every_tenant_is_served (view : nat -> Snapshot) (active : nat -> gmap string string) (now : nat -> time) (after : nat -> string)
    (tenants : list string) (t : string) :
  t ∈ tenants ->
  (forall k, (k < length tenants)%nat ->
     candidates (view k) (active k) (now k) = [] /\ (length (occupants (sn_Exports (view k)) (active k)) < ExportConcurrency)%nat /\
     waiting (sn_Exports (view k)) (active k) t /\ forall u, waiting (sn_Exports (view k)) (active k) u -> u ∈ tenants) ->
  (forall k, after (S k) = ej_TenantID (nextRunnableExport (view k) (active k) (after k) (now k))) ->
  exists k, (k < length tenants)%nat /\ ej_TenantID (nextRunnableExport (view k) (active k) (after k) (now k)) = t.
Proof.
  intros Ht Hk Hafter.
  assert (forall n k, (distance tenants (after k) t < n)%nat -> (n + k <= length tenants)%nat ->
    exists m, (k <= m < n + k)%nat /\ ej_TenantID (nextRunnableExport (view m) (active m) (after m) (now m)) = t) as H.
  { induction n as [|n IH]; intros k Hd Hb; [lia|]. destruct (Hk k) as (Hc & Ho & Hw & HT); [lia|].
    pose proof (pending_choice _ _ (after k) _ t Hc Ho Hw) as Hnext.
    destruct (decide (ej_TenantID (nextRunnableExport (view k) (active k) (after k) (now k)) = t)) as [E|Hne]; [exists k; split; [lia|done]|].
    destruct (IH (S k)) as (m & Hm & E); [|lia|exists m; split; [lia|done]].
    rewrite Hafter. pose proof (distance_decreases tenants _ t _ _ HT Hw Hnext Hne). lia. }
  destruct (H (length tenants) 0%nat (distance_bound tenants (after 0%nat) t Ht)) as (m & Hm & E); [lia|]. exists m. split; [lia|done].
Qed.

(** ** The dispatcher as a state machine *)

(** A dispatchExports goroutine: at the loop head; with the reservations, the
    last tenant and the generation it copied under the lock; with the result of
    its store read. *)
Inductive pass : Type :=
  | DHead
  | DRead (active : gmap string string) (after : string) (generation : Z)
  | DChosen (active : gmap string string) (generation : Z) (r : result ExportJob).

(** The goroutine of a dispatched job: in runExport, before its final read, and
    before it gives its reservation back. *)
Inductive executor : Type :=
  | ERun (jobID : string)
  | ECheck (jobID : string)
  | EExit (jobID : string) (wake : bool).

Definition executorJob (e : executor) : string := match e with ERun id | ECheck id | EExit id _ => id end.

Record scheduler : Type := mkscheduler {
  ls_active : gmap string string;
  ls_last : string;
  ls_generation : Z;
  ls_dispatching : bool;
  ls_passes : gmap nat pass;
  ls_execs : gmap nat executor
}.

Definition wrapU64 (z : Z) : Z := z mod 2 ^ 64.

(** [g] is the new goroutine, when one is started. *)
Definition wakeExportsLocked (g : nat) (s : scheduler) : scheduler :=
  let s := mkscheduler (ls_active s) (ls_last s) (wrapU64 (ls_generation s + 1)) (ls_dispatching s) (ls_passes s) (ls_execs s) in
  if ls_dispatching s then s
  else mkscheduler (ls_active s) (ls_last s) (ls_generation s) true (<[g := DHead]> (ls_passes s)) (ls_execs s).

Definition setPass (s : scheduler) (g : nat) (p : pass) : scheduler :=
  mkscheduler (ls_active s) (ls_last s) (ls_generation s) (ls_dispatching s) (<[g := p]> (ls_passes s)) (ls_execs s).
Definition endPass (s : scheduler) (g : nat) : scheduler :=
  mkscheduler (ls_active s) (ls_last s) (ls_generation s) false (delete g (ls_passes s)) (ls_execs s).

(** What a step shows: a wake, a pass that starts a store read, and a pass that
    stops because the slots are taken, its context ended or its read failed. *)
Inductive label : Type := LWake | LRead | LStopped | LSilent.

(** One section of a pass between two lock operations. [cancelled] is
    ctx.Err() != nil, [read] what the store read returns, [e] the goroutine of
    the job that is started. *)
Definition dispatchExports (cancelled : bool) (read : result Snapshot) (now : time) (g e : nat) (s : scheduler) (p : pass) : scheduler * label :=
  match p with
  | DHead =>
      if (ExportConcurrency <=? size (ls_active s))%nat || cancelled then (endPass s g, LStopped)
      else (setPass s g (DRead (ls_active s) (ls_last s) (ls_generation s)), LRead)
  | DRead active after generation =>
      (setPass s g (DChosen active generation (let? data := read in Ok (nextRunnableExport data active after now))), LSilent)
  | DChosen active generation (Err _) => (endPass s g, LStopped)
  | DChosen active generation (Ok chosen) =>
      if bool_decide (ej_ID chosen = "") then
        if negb (generation =? ls_generation s) then (setPass s g DHead, LSilent) else (endPass s g, LSilent)
      else
        (mkscheduler (<[ej_ID chosen := ej_TenantID chosen]> (ls_active s)) (ej_TenantID chosen) (ls_generation s) (ls_dispatching s)
           (<[g := DHead]> (ls_passes s)) (<[e := ERun (ej_ID chosen)]> (ls_execs s)), LSilent)
  end.

Definition progressed (data : Snapshot) (jobID : string) : bool :=
  match sn_Exports data !! jobID with
  | None => true
  | Some job =>
      bool_decide (ej_Status job = "completed") || bool_decide (ej_Status job = "failed") || bool_decide (ej_Status job = ExportStatusCancelled)
  end.

(** The end of the job's goroutine. *)
Definition exitExecutor (g e : nat) (jobID : string) (wake : bool) (s : scheduler) : scheduler :=
  let s := mkscheduler (delete jobID (ls_active s)) (ls_last s) (ls_generation s) (ls_dispatching s) (ls_passes s) (delete e (ls_execs s)) in
  if wake then wakeExportsLocked g s else s.

(** The control document of the export system files every job under its
    identifier ([ok_job]). *)
Definition keyed (data : Snapshot) : Prop := forall id j, sn_Exports data !! id = Some j -> ej_ID j = id /\ id <> "".

Inductive dstep : label -> scheduler -> scheduler -> Prop :=
  | dstep_wake s g : ls_passes s !! g = None -> dstep LWake s (wakeExportsLocked g s)
  | dstep_pass s g e p cancelled read now s' l :
      ls_passes s !! g = Some p -> ls_execs s !! e = None -> (forall data, read = Ok data -> keyed data) ->
      dispatchExports cancelled read now g e s p = (s', l) -> dstep l s s'
  | dstep_run s e id : ls_execs s !! e = Some (ERun id) ->
      dstep LSilent s (mkscheduler (ls_active s) (ls_last s) (ls_generation s) (ls_dispatching s) (ls_passes s) (<[e := ECheck id]> (ls_execs s)))
  | dstep_check s e id (read : result Snapshot) : ls_execs s !! e = Some (ECheck id) ->
      dstep LSilent s (mkscheduler (ls_active s) (ls_last s) (ls_generation s) (ls_dispatching s) (ls_passes s)
        (<[e := EExit id (match read with Ok data => progressed data id | Err _ => false end)]> (ls_execs s)))
  | dstep_exit s g e id wake : ls_execs s !! e = Some (EExit id wake) -> ls_passes s !! g = None ->
      dstep (if wake then LWake else LSilent) s (exitExecutor g e id wake s).

Definition idle : scheduler := mkscheduler ∅ "" 0 false ∅ ∅.

Inductive druns : list label -> scheduler -> scheduler -> Prop :=
  | druns_nil s : druns [] s s
  | druns_cons l ls s1 s2 s3 : dstep l s1 s2 -> druns ls s2 s3 -> druns (l :: ls) s1 s3.

(** ** What every interleaving keeps *)

Lemma chosen_unreserved data active after now :
  keyed data -> ej_ID (nextRunnableExport data active after now) = "" \/ active !! ej_ID (nextRunnableExport data active after now) = None.
Proof.
  intros Hk. unfold nextRunnableExport. pose proof (candidates_elem data active now) as Hin.
  pose proof (roundRobin_spec ej_TenantID after _ (candidates_sorted data active now)) as Hr.
  destruct (candidates data active now) as [|c l].
  - destruct (nextExport_cases (sn_Exports data) active after) as [[_ ->]|[_ [[_ ->]|(id & (Hj & He & _) & _)]]]; [by left|by left|right].
    destruct (Hk _ _ Hj) as [-> _]. unfold eligible in He. rewrite !andb_true_iff in He. destruct He as [_ He]. by destruct (active !! id).
  - destruct (roundRobin _ _ _) as [j|]; [|done]. cbn. destruct Hr as [(id & Hj & He)%Hin _]. right. destruct (Hk _ _ Hj) as [-> _].
    unfold resumable in He. rewrite !andb_true_iff in He. destruct He as [[[[[[[_ He] _] _] _] _] _] _]. by destruct (active !! id).
Qed.

(** What a pass knows about the reservations it copied. *)
Definition passOk (s : scheduler) (p : pass) : Prop :=
  match p with
  | DHead => True
  | DRead active _ _ => ls_active s ⊆ active /\ (size active < ExportConcurrency)%nat
  | DChosen active _ r => ls_active s ⊆ active /\ (size active < ExportConcurrency)%nat /\
      (forall j, r = Ok j -> ej_ID j = "" \/ active !! ej_ID j = None)
  end.

Record schedulerOk (s : scheduler) : Prop := {
  so_single : ls_passes s = ∅ /\ ls_dispatching s = false \/ exists g p, ls_passes s = {[g := p]} /\ ls_dispatching s = true;
  so_pass : forall g p, ls_passes s !! g = Some p -> passOk s p;
  so_size : (size (ls_active s) <= ExportConcurrency)%nat;
  so_active : forall id, is_Some (ls_active s !! id) <-> exists e x, ls_execs s !! e = Some x /\ executorJob x = id;
  so_unique : forall e e' x x', ls_execs s !! e = Some x -> ls_execs s !! e' = Some x' -> executorJob x = executorJob x' -> e = e'
}.

Lemma passOk_shrink s s' p : ls_active s' ⊆ ls_active s -> passOk s p -> passOk s' p.
Proof.
  intros Hs. destruct p; cbn; [done| |].
  - intros [H1 H2]. split; [by etrans|done].
  - intros (H1 & H2 & H3). split; [by etrans|done].
Qed.

Lemma wake_ok g s : ls_passes s !! g = None -> schedulerOk s -> schedulerOk (wakeExportsLocked g s).
Proof.
  intros Hg [H1 H2 H3 H4 H5]. unfold wakeExportsLocked. cbn [ls_dispatching]. destruct (ls_dispatching s) eqn:Hd; split; cbn; try done.
  - right. destruct H1 as [[-> _]|(g' & p & _ & H)]; [|congruence]. exists g, DHead. by rewrite insert_empty.
  - intros g' p [[<- <-]|[_ Hp]]%lookup_insert_Some; [done|]. by eapply H2.
Qed.

(** A step of an executor that keeps its job. *)
Lemma exec_relabel_ok s e x x' :
  ls_execs s !! e = Some x -> executorJob x' = executorJob x -> schedulerOk s ->
  schedulerOk (mkscheduler (ls_active s) (ls_last s) (ls_generation s) (ls_dispatching s) (ls_passes s) (<[e := x']> (ls_execs s))).
Proof.
  intros He Hx [H1 H2 H3 H4 H5]. split; cbn; try done.
  - intros id. rewrite H4. split.
    + intros (e1 & x1 & He1 & Hid). destruct (decide (e1 = e)) as [->|Hne].
      * exists e, x'. rewrite lookup_insert_eq. split; [done|]. congruence.
      * exists e1, x1. by rewrite lookup_insert_ne.
    + intros (e1 & x1 & [[<- <-]|[Hne He1]]%lookup_insert_Some & Hid); [exists e, x|exists e1, x1]; (split; [done|congruence]).
  - intros e1 e2 x1 x2 [[<- <-]|[Hn1 He1]]%lookup_insert_Some [[<- <-]|[Hn2 He2]]%lookup_insert_Some Hj; [done| | |by eapply H5].
    + eapply H5; [exact He|exact He2|congruence].
    + eapply H5; [exact He1|exact He|congruence].
Qed.

Lemma exit_ok s e x : ls_execs s !! e = Some x -> schedulerOk s ->
  schedulerOk (mkscheduler (delete (executorJob x) (ls_active s)) (ls_last s) (ls_generation s) (ls_dispatching s) (ls_passes s) (delete e (ls_execs s))).
Proof.
  intros He [H1 H2 H3 H4 H5]. split; cbn; try done.
  - intros g p Hp. eapply (passOk_shrink s); [apply delete_subseteq|by eapply H2].
  - etrans; [|exact H3]. apply map_subseteq_size, delete_subseteq.
  - intros id. split.
    + intros [t [Hne Ht]%lookup_delete_Some]. destruct (proj1 (H4 id)) as (e1 & x1 & He1 & Hid); [by exists t|].
      exists e1, x1. split; [|done]. rewrite lookup_delete_ne; [done|]. intros ->. congruence.
    + intros (e1 & x1 & [Hne He1]%lookup_delete_Some & Hid). rewrite lookup_delete_ne; [apply H4; by exists e1, x1|].
      intros E. apply Hne. eapply H5; [exact He|exact He1|congruence].
  - intros e1 e2 x1 x2 [_ He1]%lookup_delete_Some [_ He2]%lookup_delete_Some. by eapply H5.
Qed.

Lemma single_pass s g p : schedulerOk s -> ls_passes s !! g = Some p -> ls_passes s = {[g := p]} /\ ls_dispatching s = true.
Proof.
  intros [[[E _]|(g' & p' & E & Hd)] _ _ _ _] Hg; rewrite E in Hg; [by rewrite lookup_empty in Hg|].
  apply lookup_singleton_Some in Hg as [<- <-]. done.
Qed.

Lemma setPass_ok s g p p' : schedulerOk s -> ls_passes s !! g = Some p -> passOk s p' -> schedulerOk (setPass s g p').
Proof.
  intros Hok Hg Hp. destruct (single_pass _ _ _ Hok Hg) as [E Hd]. destruct Hok as [H1 H2 H3 H4 H5].
  split; cbn; try done; rewrite E, insert_singleton_eq.
  - right. by exists g, p'.
  - intros g1 p1 [<- <-]%lookup_singleton_Some. by destruct p'.
Qed.

Lemma endPass_ok s g p : schedulerOk s -> ls_passes s !! g = Some p -> schedulerOk (endPass s g).
Proof.
  intros Hok Hg. destruct (single_pass _ _ _ Hok Hg) as [E Hd]. destruct Hok as [H1 H2 H3 H4 H5].
  split; cbn; try done; rewrite E, delete_singleton_eq; [by left|]. intros g1 p1 H. by rewrite lookup_empty in H.
Qed.

Lemma dispatched_ok s g p active generation j e :
  schedulerOk s -> ls_passes s !! g = Some p -> p = DChosen active generation (Ok j) -> ej_ID j <> "" -> ls_execs s !! e = None ->
  schedulerOk (mkscheduler (<[ej_ID j := ej_TenantID j]> (ls_active s)) (ej_TenantID j) (ls_generation s) (ls_dispatching s)
    (<[g := DHead]> (ls_passes s)) (<[e := ERun (ej_ID j)]> (ls_execs s))).
Proof.
  intros Hok Hg -> Hid He. destruct (single_pass _ _ _ Hok Hg) as [E Hd]. destruct (so_pass _ Hok _ _ Hg) as (Hsub & Hsize & Hfree).
  destruct (Hfree j eq_refl) as [|Hnone]; [done|]. assert (ls_active s !! ej_ID j = None) as Ha.
  { eapply lookup_weaken_None; [exact Hnone|exact Hsub]. }
  destruct Hok as [H1 H2 H3 H4 H5]. assert (forall e' x, ls_execs s !! e' = Some x -> executorJob x <> ej_ID j) as Hnew.
  { intros e' x Hx Hj. destruct (proj2 (H4 (ej_ID j))) as [t Ht]; [by exists e', x|congruence]. }
  split; cbn; rewrite ?E, ?insert_singleton_eq.
  - right. by exists g, DHead.
  - intros g1 p1 [<- <-]%lookup_singleton_Some. done.
  - rewrite map_size_insert_None by done. apply map_subseteq_size in Hsub. unfold ExportConcurrency in *. lia.
  - intros id. destruct (decide (id = ej_ID j)) as [->|Hne].
    + rewrite lookup_insert_eq. split; [intros _|done]. exists e, (ERun (ej_ID j)). by rewrite lookup_insert_eq.
    + rewrite lookup_insert_ne by done. rewrite H4. split.
      * intros (e1 & x & Hx & <-). exists e1, x. rewrite lookup_insert_ne; [done|]. congruence.
      * intros (e1 & x & [[<- <-]|[_ Hx]]%lookup_insert_Some & Hj); [cbn in Hj; congruence|by exists e1, x].
  - intros e1 e2 x1 x2 [[<- <-]|[_ Hx1]]%lookup_insert_Some [[<- <-]|[_ Hx2]]%lookup_insert_Some Hj; [done| | |by eapply H5].
    + destruct (Hnew _ _ Hx2). by rewrite <- Hj.
    + by destruct (Hnew _ _ Hx1).
Qed.

Lemma dstep_ok l s s' : dstep l s s' -> schedulerOk s -> schedulerOk s'.
Proof.
  destruct 1 as [s g Hg|s g e p cancelled read now s' l Hg He Hk Hd|s e id He|s e id read He|s g e id wake He Hg]; intros Hok.
  - by apply wake_ok.
  - pose proof (so_pass _ Hok _ _ Hg) as Hp. destruct p as [|active after generation|active generation [j|err]]; cbn [dispatchExports] in Hd.
    + destruct (Nat.leb_spec ExportConcurrency (size (ls_active s))); cbn [orb] in Hd; [|destruct cancelled]; injection Hd as <- <-;
        [by eapply endPass_ok..|]. by eapply setPass_ok.
    + injection Hd as <- <-. eapply setPass_ok; [done|exact Hg|]. destruct Hp as [H1 H2]. split; [done|]. split; [done|].
      intros j Hj. destruct read as [data|]; [|done]. cbn in Hj. injection Hj as <-. apply chosen_unreserved. by apply Hk.
    + destruct (bool_decide_reflect (ej_ID j = "")).
      * destruct (generation =? ls_generation s); cbn [negb] in Hd; injection Hd as <- <-; [by eapply endPass_ok|by eapply setPass_ok].
      * injection Hd as <- <-. by eapply dispatched_ok.
    + injection Hd as <- <-. by eapply endPass_ok.
  - by eapply exec_relabel_ok.
  - by eapply exec_relabel_ok.
  - unfold exitExecutor. pose proof (exit_ok s e (EExit id wake) He Hok) as Hx. cbn [executorJob] in Hx. destruct wake; [|exact Hx]. by apply wake_ok.
Qed.

Lemma druns_ok ls s s' : druns ls s s' -> schedulerOk s -> schedulerOk s'.
Proof. induction 1; [done|]. intros Hok. by eauto using dstep_ok. Qed.

Lemma idle_ok : schedulerOk idle.
Proof.
  split; cbn; try done; [by left|unfold ExportConcurrency; rewrite map_size_empty; lia|].
  intros id. rewrite lookup_empty. split; [by inversion 1|]. intros (e & x & H & _). by rewrite lookup_empty in H.
Qed.

(** The dispatcher is bounded and its reservations are exact, under every
    interleaving of wakes, passes, reads that fail, and executors that end: at
    most one pass runs, and only while the dispatching flag is set; at most
    [ExportConcurrency] jobs are reserved; and the reserved jobs are exactly
    the jobs of the live executors, each with one executor.  So an idle
    scheduler has no pass and no executor left. *)
Theorem dispatcher_bounded ls s :
  druns ls idle s ->
  (size (ls_passes s) <= 1)%nat /\ (ls_dispatching s = false <-> ls_passes s = ∅) /\
  (size (ls_active s) <= ExportConcurrency)%nat /\
  (forall id, is_Some (ls_active s !! id) <-> exists e x, ls_execs s !! e = Some x /\ executorJob x = id) /\
  (forall e e' x x', ls_execs s !! e = Some x -> ls_execs s !! e' = Some x' -> executorJob x = executorJob x' -> e = e').
Proof.
  intros Hr. destruct (druns_ok _ _ _ Hr idle_ok) as [H1 _ H3 H4 H5]. destruct H1 as [[E Hd]|(g & p & E & Hd)]; rewrite E, Hd.
  - rewrite map_size_empty. split; [lia|]. by split_and!.
  - rewrite map_size_singleton. split; [lia|]. split; [|by split_and!]. split; [done|]. intros H. by apply map_non_empty_singleton in H.
Qed.

(** ** Wakes are not lost *)

Definition wakes (ls : list label) : Z := Z.of_nat (length (List.filter (fun l => match l with LWake => true | _ => false end) ls)).
Definition capturedBelow (n : Z) (p : pass) : Prop :=
  match p with DHead => True | DRead _ _ generation | DChosen _ generation _ => generation < n end.
Definition counts (n : Z) (s : scheduler) : Prop := ls_generation s = n /\ map_Forall (fun _ p => capturedBelow (n + 1) p) (ls_passes s).
(** Every pass has to go around again before it may stop. *)
Definition stale (n : Z) (s : scheduler) : Prop :=
  ls_generation s = n /\ ls_dispatching s = true /\ map_Forall (fun _ p => capturedBelow n p) (ls_passes s).

Lemma captured_mono n m p : n <= m -> capturedBelow n p -> capturedBelow m p.
Proof. destruct p; cbn; lia. Qed.
Lemma captured_all n m (ps : gmap nat pass) : n <= m -> map_Forall (fun _ p => capturedBelow n p) ps -> map_Forall (fun _ p => capturedBelow m p) ps.
Proof. intros H Hp g p Hg. eapply captured_mono; [exact H|]. exact (Hp g p Hg). Qed.

Lemma wakes_cons l ls : wakes (l :: ls) = (match l with LWake => 1 | _ => 0 end) + wakes ls.
Proof. unfold wakes. destruct l; simpl; lia. Qed.
Lemma wakes_nonneg ls : 0 <= wakes ls.
Proof. unfold wakes. lia. Qed.

Lemma wake_counts g n s : 0 <= n -> n + 1 < 2 ^ 64 -> counts n s -> counts (n + 1) (wakeExportsLocked g s) /\ stale (n + 1) (wakeExportsLocked g s).
Proof.
  intros H0 Hn [Hg Hp]. unfold wakeExportsLocked. rewrite Hg. unfold wrapU64. rewrite Z.mod_small by lia. cbn [ls_dispatching].
  destruct (ls_dispatching s) eqn:Hd; split; split_and!; cbn; try done.
  - eapply captured_all; [|exact Hp]. lia.
  - apply map_Forall_insert_2; [done|]. eapply captured_all; [|exact Hp]. lia.
  - apply map_Forall_insert_2; [done|exact Hp].
Qed.

Lemma wake_stale g n s : 0 <= n -> n + 1 < 2 ^ 64 -> stale n s -> stale (n + 1) (wakeExportsLocked g s).
Proof.
  intros H0 Hn (Hg & Hd & Hp). apply wake_counts; [done|done|]. split; [done|]. eapply captured_all; [|exact Hp]. lia.
Qed.

Lemma pass_below cancelled read now g e s p s' l n :
  dispatchExports cancelled read now g e s p = (s', l) -> l <> LRead -> ls_passes s !! g = Some p ->
  map_Forall (fun _ p => capturedBelow n p) (ls_passes s) ->
  ls_generation s' = ls_generation s /\ map_Forall (fun _ p => capturedBelow n p) (ls_passes s').
Proof.
  intros H Hl Hg Hp. pose proof (Hp _ _ Hg) as Hc. cbn in Hc.
  assert (map_Forall (fun _ p => capturedBelow n p) (delete g (ls_passes s))) as Hdel by (by apply map_Forall_delete).
  destruct p as [|active after generation|active generation [j|err]]; cbn [dispatchExports] in H.
  - destruct ((_ <=? _)%nat || _); injection H as <- <-; [done|done].
  - injection H as <- <-. split; [done|]. by apply map_Forall_insert_2.
  - destruct (bool_decide _); [destruct (negb _)|]; injection H as <- <-; (split; [done|]); [by apply map_Forall_insert_2|done|by apply map_Forall_insert_2].
  - injection H as <- <-. done.
Qed.

Lemma dstep_counts l s s' n :
  dstep l s s' -> 0 <= n -> counts n s -> n + (match l with LWake => 1 | _ => 0 end) < 2 ^ 64 ->
  counts (n + (match l with LWake => 1 | _ => 0 end)) s'.
Proof.
  destruct 1 as [s g Hg|s g e p cancelled read now s' l Hg He Hk Hd|s e id He|s e id read He|s g e id wake He Hg]; intros H0 Hc Hn.
  - by apply wake_counts.
  - assert (n + (match l with LWake => 1 | _ => 0 end) = n) as ->.
    { destruct p as [|active after generation|active generation [j|err]]; cbn [dispatchExports] in Hd;
        repeat match type of Hd with context [if ?b then _ else _] => destruct b end; injection Hd as _ <-; lia. }
    destruct Hc as [Hgen Hp]. destruct l; try (destruct (pass_below _ _ _ _ _ _ _ _ _ _ Hd ltac:(done) Hg Hp) as [E Hp']; split; [congruence|done]).
    destruct p as [|active after generation|active generation [j|err]]; cbn [dispatchExports] in Hd;
      repeat match type of Hd with context [if ?b then _ else _] => destruct b end; try discriminate Hd. injection Hd as <-.
    split; [done|]. cbn. apply map_Forall_insert_2; [|exact Hp]. cbn. lia.
  - rewrite Z.add_0_r. exact Hc.
  - rewrite Z.add_0_r. exact Hc.
  - unfold exitExecutor. destruct wake; [apply wake_counts; [done|done|exact Hc]|rewrite Z.add_0_r; exact Hc].
Qed.

Lemma druns_counts ls s s' n : druns ls s s' -> 0 <= n -> counts n s -> n + wakes ls < 2 ^ 64 -> counts (n + wakes ls) s'.
Proof.
  intros H. revert n. induction H as [s|l ls s1 s2 s3 Hstep _ IH]; intros n H0 Hc Hn; [by rewrite Z.add_0_r|].
  rewrite wakes_cons in *. pose proof (wakes_nonneg ls). rewrite Z.add_assoc.
  apply IH; [destruct l; lia|eapply dstep_counts; [exact Hstep|done|done|lia]|lia].
Qed.

Lemma dstep_stale l s s' n :
  dstep l s s' -> l <> LRead -> l <> LStopped -> 0 <= n -> n + (match l with LWake => 1 | _ => 0 end) < 2 ^ 64 -> schedulerOk s -> stale n s ->
  stale (n + (match l with LWake => 1 | _ => 0 end)) s'.
Proof.
  destruct 1 as [s g Hg|s g e p cancelled read now s' l Hg He Hk Hd|s e id He|s e id read He|s g e id wake He Hg]; intros L1 L2 H0 Hn Hok Hs.
  - by apply wake_stale.
  - assert (n + (match l with LWake => 1 | _ => 0 end) = n) as ->.
    { destruct p as [|active after generation|active generation [j|err]]; cbn [dispatchExports] in Hd;
        repeat match type of Hd with context [if ?b then _ else _] => destruct b end; injection Hd as _ <-; lia. }
    destruct Hs as (Hgen & Hdis & Hp). destruct (pass_below _ _ _ _ _ _ _ _ _ _ Hd L1 Hg Hp) as [E Hp'].
    split; [congruence|]. split; [|done]. pose proof (Hp _ _ Hg) as Hc.
    destruct p as [|active after generation|active generation [j|err]]; cbn [dispatchExports] in Hd; cbn in Hc.
    + destruct ((_ <=? _)%nat || _); injection Hd as <- <-; done.
    + by injection Hd as <- <-.
    + destruct (bool_decide _); [|by injection Hd as <- <-]. rewrite Hgen in Hd. destruct (Z.eqb_spec generation n); [lia|]. by injection Hd as <- <-.
    + injection Hd as <- <-. done.
  - rewrite Z.add_0_r. exact Hs.
  - rewrite Z.add_0_r. exact Hs.
  - unfold exitExecutor. destruct wake; [apply wake_stale; [done|done|exact Hs]|rewrite Z.add_0_r; exact Hs].
Qed.

Lemma dstep_wakes l s s' : dstep l s s' -> l = LWake -> exists g s0, s' = wakeExportsLocked g s0 /\ ls_generation s0 = ls_generation s /\ ls_passes s0 = ls_passes s.
Proof.
  destruct 1 as [s g Hg|s g e p cancelled read now s' l Hg He Hk Hd|s e id He|s e id read He|s g e id wake He Hg]; intros Hl; try discriminate Hl.
  - by exists g, s.
  - subst. destruct p as [|active after generation|active generation [j|err]]; cbn [dispatchExports] in Hd;
      repeat match type of Hd with context [if ?b then _ else _] => destruct b end; discriminate Hd.
  - destruct wake; [|discriminate Hl]. unfold exitExecutor. eexists g, _. done.
Qed.

Lemma stale_runs ls s s' n :
  druns ls s s' -> 0 <= n -> n + wakes ls < 2 ^ 64 -> schedulerOk s -> stale n s -> LRead ∈ ls \/ LStopped ∈ ls \/ ls_dispatching s' = true.
Proof.
  intros H. revert n. induction H as [s|l ls s1 s2 s3 Hstep _ IH]; intros n H0 Hn Hok Hs.
  { right; right. by destruct Hs as (_ & Hd & _). }
  rewrite wakes_cons in Hn. pose proof (wakes_nonneg ls).
  assert (l <> LRead -> l <> LStopped -> LRead ∈ ls \/ LStopped ∈ ls \/ ls_dispatching s3 = true) as Hrest.
  { intros L1 L2. eapply IH; [|by rewrite <- Z.add_assoc|by eapply dstep_ok|eapply dstep_stale; eauto; lia]. destruct l; lia. }
  destruct l; [|left; by left|right; left; by left|]; (destruct Hrest as [?|[?|?]]; [done|done| | |]);
    [left; by right|right; left; by right|auto|left; by right|right; left; by right|auto].
Qed.

(** No wake is lost.  After any wake, in any interleaving, the dispatcher
    does not come to rest before a pass starts a store read that is younger
    than the wake, or a pass stops for one of its stated reasons: the slots
    are taken, its context has ended, or its read failed.  The wake generation
    is a 64-bit counter, so fewer than 2^64 wakes are assumed. *)
Theorem wakeup_not_lost before s s1 later s' :
  druns before idle s -> dstep LWake s s1 -> druns later s1 s' -> ls_dispatching s' = false ->
  wakes before + 1 + wakes later < 2 ^ 64 -> LRead ∈ later \/ LStopped ∈ later.
Proof.
  intros Hb Hw Hl Hd Hn. pose proof (wakes_nonneg before) as N1. pose proof (wakes_nonneg later) as N2.
  assert (counts (wakes before) s) as Hc.
  { rewrite <- (Z.add_0_l (wakes before)). eapply druns_counts; [exact Hb|lia|split; [done|apply map_Forall_empty]|lia]. }
  assert (stale (wakes before + 1) s1) as Hs.
  { destruct (dstep_wakes _ _ _ Hw eq_refl) as (g & s0 & -> & Eg & Ep). apply wake_counts; [lia|lia|]. unfold counts. by rewrite Eg, Ep. }
  assert (schedulerOk s1) as Hok by (eapply dstep_ok; [exact Hw|by eapply druns_ok, idle_ok]).
  destruct (stale_runs _ _ _ (wakes before + 1) Hl) as [?|[?|?]]; [lia|lia|done|done|by left|by right|congruence].
Qed.

(** ** Concrete runs *)

Definition pendingJob (id tenant : string) (at_ : time) : ExportJob :=
  mkExportJob id tenant "u1" zero_Query "pending" "" "" at_ None None "" "" 0 "".
Definition twoTenants : Snapshot :=
  set_sn_Exports NewSnapshot {["e1" := pendingJob "e1" "t1" 10; "e2" := pendingJob "e2" "t2" 20; "e3" := pendingJob "e3" "t1" 5]}.

Lemma twoTenants_jobs id j : sn_Exports twoTenants !! id = Some j -> ej_ID j = id /\ id <> "" /\ (ej_TenantID j = "t1" \/ ej_TenantID j = "t2").
Proof.
  unfold twoTenants. cbn. intros [[<- <-]|[_ [[<- <-]|[_ [<- <-]%lookup_singleton_Some]]%lookup_insert_Some]]%lookup_insert_Some; cbn; auto.
Qed.
Lemma twoTenants_keyed : keyed twoTenants.
Proof. intros id j H. destruct (twoTenants_jobs id j H) as (? & ? & _). done. Qed.

Fixpoint servedAfter (k : nat) : string :=
  match k with
  | O => ""
  | S k => ej_TenantID (nextRunnableExport twoTenants ∅ (servedAfter k) 30)
  end.

Lemma every_tenant_is_served_witness :
  exists k, (k < 2)%nat /\ ej_TenantID (nextRunnableExport twoTenants ∅ (servedAfter k) 30) = "t2".
Proof.
  apply (every_tenant_is_served (fun _ => twoTenants) (fun _ => ∅) (fun _ => 30) servedAfter ["t1"; "t2"] "t2").
  - right. left.
  - intros k _. split; [vm_compute; reflexivity|]. split; [vm_compute; lia|]. split.
    + exists "e2", (pendingJob "e2" "t2" 20). split; [reflexivity|]. split; [vm_compute; reflexivity|reflexivity].
    + intros u (id & j & Hj & _ & <-). destruct (twoTenants_jobs id j Hj) as (_ & _ & [-> | ->]); [left|right; left].
  - intros k. reflexivity.
Defined.

Definition passStep (s : scheduler) : scheduler :=
  match ls_passes s !! 0%nat with
  | Some p => fst (dispatchExports false (Ok twoTenants) 30 0 (size (ls_execs s)) s p)
  | None => s
  end.
Definition woken : scheduler := wakeExportsLocked 0 idle.
Definition dispatched (k : nat) : scheduler := Nat.iter k passStep woken.

Definition canPass (s : scheduler) : bool := isSet (ls_passes s !! 0%nat) && isNone (ls_execs s !! size (ls_execs s)).

Lemma pass_dstep s : canPass s = true -> exists l, dstep l s (passStep s).
Proof.
  unfold canPass. intros [Hp He]%andb_true_iff. destruct (ls_passes s !! 0%nat) as [p|] eqn:Ep; [|done].
  assert (ls_execs s !! size (ls_execs s) = None) as He' by (by destruct (ls_execs s !! _)). unfold passStep. rewrite Ep. destruct (dispatchExports _ _ _ _ _ _ _) as [s' l] eqn:Hd. exists l. cbn.
  eapply dstep_pass; [exact Ep|exact He'| |exact Hd]. intros data [= <-]. apply twoTenants_keyed.
Qed.

Lemma dispatched_runs k :
  forallb (fun i => canPass (dispatched i)) (seq 0 k) = true -> exists ls, druns ls idle (dispatched k).
Proof.
  assert (forall ls s1 s2 l s3, druns ls s1 s2 -> dstep l s2 s3 -> druns (ls ++ [l]) s1 s3) as Hsnoc.
  { clear. intros ls s1 s2 l s3 H Hs. induction H; simpl; [econstructor; [exact Hs|constructor]|]. econstructor; eauto. }
  induction k as [|k IH]; intros Hk.
  - exists [LWake]. econstructor; [|constructor]. by apply dstep_wake.
  - rewrite seq_S, forallb_app, andb_true_iff in Hk. destruct Hk as [Hk1 Hk2]. destruct (IH Hk1) as [ls Hls].
    cbn [forallb Nat.add] in Hk2. rewrite andb_true_r in Hk2. destruct (pass_dstep (dispatched k) Hk2) as [l Hl].
    exists (ls ++ [l])%list. by eapply Hsnoc.
Qed.

Lemma dispatcher_bounded_witness :
  exists ls, druns ls idle (dispatched 6) /\ size (ls_active (dispatched 6)) = 2%nat /\ (size (ls_active (dispatched 6)) <= ExportConcurrency)%nat.
Proof.
  destruct (dispatched_runs 6) as [ls Hls]; [vm_compute; reflexivity|]. exists ls. split; [exact Hls|]. split; [vm_compute; reflexivity|].
  apply (dispatcher_bounded ls (dispatched 6) Hls).
Defined.

Lemma wakeup_not_lost_witness : LRead ∈ [LStopped] \/ LStopped ∈ [LStopped].
Proof.
  apply (wakeup_not_lost [] idle woken [LStopped] (endPass woken 0)).
  - apply druns_nil.
  - apply dstep_wake. reflexivity.
  - eapply druns_cons; [|apply druns_nil]. apply (dstep_pass woken 0 0 DHead true (Err (Sentinel ErrNotFound)) 0); [reflexivity|reflexivity|discriminate|reflexivity].
  - reflexivity.
  - vm_compute. reflexivity.
Defined.

End ExportDispatch.
