(* ===== verification/ExportAccess.v ===== *)
(** * Requesting and downloading exports (internal/service: export.go,
    export_access.go, export_read.go, export_creation.go;
    internal/httpapi/handlers_governance.go downloadExport; the seal of
    internal/security/fieldcrypto.go)

    Every store read of a request is a control document of its own, so that
    other requests, workers and replicas may change the store between any two
    of them.  A request is a small writer over the admin facts it appends. *)

From Stdlib Require Import Ascii String.
From S2P Require Import Prelude GoStr Sha256 Signer Domain Keys Store Evidence Integrity ChainProps TenantIngest Governance Holds ExportJobs ExportSystem ExportProps ExportRun ExportComplete ExportDemo.
Open Scope string_scope.
Open Scope Z_scope.
Import Domain Keys Store Sha256 Signer Evidence Integrity TenantIngest Governance Holds ExportJobs ExportSystem ExportProps ExportComplete ExportDemo.

Module ExportAccess.

(** ** Requests *)

(** The facts a request appended, and its result. *)
Definition outcome (A : Type) : Type := (list AdminAction * result A)%type.
Definition oret {A} (a : A) : outcome A := ([], Ok a).
Definition ofail {A} (e : error) : outcome A := ([], Err e).
Definition olift {A} (r : result A) : outcome A := ([], r).
Definition obind {A B} (m : outcome A) (f : A -> outcome B) : outcome B :=
  match m with
  | (facts, Err e) => (facts, Err e)
  | (facts, Ok a) => let '(more, r) := f a in ((facts ++ more)%list, r)
  end.

Declare Scope outcome_scope.
Delimit Scope outcome_scope with outcome.
Notation "'let!' x := m 'in' k" := (obind m (fun x => k)) (at level 200, x name, m at level 100, k at level 200, right associativity) : outcome_scope.
Notation "m ;! k" := (obind m (fun _ => k)) (at level 100, k at level 200, right associativity) : outcome_scope.
Open Scope outcome_scope.

(** Store.AppendAdminFact with what the append answers. *)
Definition AppendAdminFact (fact : AdminAction) (answer : result unit) : outcome unit :=
  match answer with Ok _ => ([fact], Ok tt) | Err e => ([], Err e) end.

Definition recordReadAction (st : stamp) (tenantID actor action targetType targetID detail : string) (answer : result unit) : outcome unit :=
  if bool_decide (actor = "") then oret tt
  else AppendAdminFact (adminAction st tenantID actor action targetType targetID detail) answer.

Definition exportBlockedError (holdID : string) : error := Wrapf (Sentinel ErrForbidden) ("export blocked by active legal hold " ++ holdID).

Section service.
Context {cfg : ExportConfig} {crypto : FieldCrypto}.
Context (SearchDigest : value -> result string) (legacyDigest : Event -> result string) (legacyOpen : string -> result string).

Notation gate := (ExportRun.gate SearchDigest legacyDigest).

(** What the environment answers during GetExport. *)
Definition GetExport (archive : ArchiveReader) (captured checked : result Snapshot) (tenantID jobID : string) : outcome ExportJob :=
  olift (requireTenantScope tenantID) ;!
  let! data := olift captured in
  let! access := olift (captureExportAccess (gate archive) data tenantID jobID) in
  match xa_Hold access with
  | Some hold => ofail (exportBlockedError (lh_ID hold))
  | None => let! data := olift checked in olift (revalidateExportAccess access false data)
  end.

Record recording : Type := mkrecording {
  re_captured : result Snapshot;
  re_before : result Snapshot;
  re_after : result Snapshot;
  re_archive : ArchiveReader;
  re_stamp : stamp;
  re_answer : result unit
}.

Definition RecordExportDownload (r : recording) (tenantID actor jobID : string) : outcome unit :=
  olift (requireTenantScope tenantID) ;!
  olift (guard_err (negb (bool_decide (jobID = ""))) (Wrapf (Sentinel ErrInvalid) "job id is required")) ;!
  let! data := olift (re_captured r) in
  let! access := olift (captureExportAccess (gate (re_archive r)) data tenantID jobID) in
  match xa_Hold access with
  | Some hold =>
      (if bool_decide (actor = "") then oret tt
       else AppendAdminFact (adminAction (re_stamp r) tenantID actor "export.blocked" "legal_hold" (lh_ID hold)
                               ("export_blocked reason=" ++ lh_Reason hold)) (re_answer r)) ;!
      ofail (exportBlockedError (lh_ID hold))
  | None =>
      let! data := olift (re_before r) in
      olift (revalidateExportAccess access true data) ;!
      recordReadAction (re_stamp r) tenantID actor "audit.event.export" "export" jobID "download" (re_answer r) ;!
      let! data := olift (re_after r) in
      olift (revalidateExportAccess access true data) ;!
      oret tt
  end.

(** What Archive.Get answers. *)
Inductive objectRead : Type :=
  | ObjectBytes (bytes : string)
  | ObjectMissing
  | ObjectFailed (e : error).

Definition ReadExportObject (configured : bool) (control : result Snapshot) (get : string -> objectRead) (tenantID jobID : string) : outcome string :=
  olift (requireTenantScope tenantID) ;!
  olift (guard_err configured (NewErr ("export " ++ jobID ++ ": archive is not configured"))) ;!
  let! data := olift control in
  match sn_Exports data !! jobID with
  | None => ofail (Sentinel ErrNotFound)
  | Some job =>
      olift (guard_err (bool_decide (ej_TenantID job = tenantID)) (Sentinel ErrNotFound)) ;!
      olift (guard_err (bool_decide (ej_Status job = "completed") && negb (bool_decide (ej_ObjectPath job = "")))
               (exportConflict "export is not completed")) ;!
      match get (ej_ObjectPath job) with
      | ObjectBytes bytes => oret bytes
      | ObjectMissing => ofail (Wrapf (Sentinel ErrNotFound) "export object is missing")
      | ObjectFailed e => ofail (Wrapf e ("export " ++ jobID))
      end
  end.

(** VerifyExportDownload with its rejection fact, whose append may fail. *)
Definition verifyDownload (st : stamp) (answer : result unit) (data : result Snapshot) (tenantID jobID sealed : string) : outcome string :=
  match VerifyExportDownload legacyOpen data tenantID jobID sealed with
  | (r, true) =>
      let target := match data with Ok d => ej_ID (map_get zero_ExportJob (sn_Exports d) jobID) | Err _ => jobID end in
      ((AppendAdminFact (adminAction st tenantID "" "export.download_rejected" "export" target "download_verification_failed") answer).1, r)
  | (r, false) => ([], r)
  end.

(** What the environment answers during a download request. *)
Record downloadEnv : Type := mkdownloadEnv {
  de_captured : result Snapshot;
  de_checked : result Snapshot;
  de_archive : ArchiveReader;
  de_configured : bool;
  de_control : result Snapshot;
  de_get : string -> objectRead;
  de_verify : result Snapshot;
  de_verify_stamp : stamp;
  de_verify_answer : result unit;
  de_recording : recording
}.

(** The handler behind GET /api/v1/exports/{jobID}/download, after the caller
    is authenticated and its tenant resolved. *)
Definition downloadExport (env : downloadEnv) (tenantID subject jobID : string) : outcome string :=
  let! job := GetExport (de_archive env) (de_captured env) (de_checked env) tenantID jobID in
  olift (guard_err (bool_decide (ej_Status job = "completed") && negb (bool_decide (ej_ObjectPath job = "")))
           (exportConflict "export is not completed")) ;!
  let! data := ReadExportObject (de_configured env) (de_control env) (de_get env) (ej_TenantID job) (ej_ID job) in
  let! decrypted := verifyDownload (de_verify_stamp env) (de_verify_answer env) (de_verify env) (ej_TenantID job) (ej_ID job) data in
  RecordExportDownload (de_recording env) (ej_TenantID job) subject (ej_ID job) ;!
  oret decrypted.

(** prepareExport: the query with its self-audit, then the hold gate on a copy
    of the store.  [denied] is the control document its denial fact is added
    to. The result is the binding, or an error with the changed document. *)
Definition prepareExport (query : result unit) (archive : ArchiveReader) (copied : result Snapshot) (capN : Z) (st : stamp) (denied : result Snapshot)
    (tenantID actor : string) (q : Query) : option Snapshot * result string :=
  match query, copied with
  | Err e, _ | _, Err e => (None, Err e)
  | Ok _, Ok data =>
      match gate archive data tenantID q with
      | Err e => (None, Err e)
      | Ok None => (None, Ok (exportHoldBinding data tenantID))
      | Ok (Some hold) =>
          match denied with
          | Err e => (None, Err e)
          | Ok control =>
              (Some (appendAdminAction capN control
                       (adminAction st tenantID actor "export.blocked" "legal_hold" (lh_ID hold) ("export_blocked reason=" ++ lh_Reason hold))),
               Err (exportBlockedError (lh_ID hold)))
          end
      end
  end.

(** CreateExport up to its control update. *)
Definition CreateExport (query : result unit) (archive : ArchiveReader) (copied : result Snapshot) (capN : Z) (st st' : stamp)
    (denied control : result Snapshot) (tenantID requestedBy : string) (q : Query) : option Snapshot * result ExportJob :=
  match requireTenantScope tenantID with
  | Err e => (None, Err e)
  | Ok _ =>
      match prepareExport query archive copied capN st denied tenantID requestedBy q with
      | (d, Err e) => (d, Err e)
      | (_, Ok holdBinding) =>
          let job := newExportJob st' tenantID requestedBy q "" in
          match (let? data := control in createExportClosure capN st' job holdBinding data) with
          | Err e => (None, Err e)
          | Ok (data, _) => (Some data, Ok job)
          end
      end
  end.

(** ** What a request that succeeds has checked *)

Lemma obind_Ok {A B} (m : outcome A) (f : A -> outcome B) fs b :
  obind m f = (fs, Ok b) -> exists ma a gs, m = (ma, Ok a) /\ f a = (gs, Ok b) /\ fs = (ma ++ gs)%list.
Proof.
  unfold obind. destruct m as [ma [a|e]]; cbn; [|done]. destruct (f a) as [gs [b'|]] eqn:E; cbn; [|done]. intros [= <- <-]. by exists ma, a, gs.
Qed.
Lemma olift_Ok {A} (r : result A) fs a : olift r = (fs, Ok a) -> fs = [] /\ r = Ok a.
Proof. by intros [= <- ->]. Qed.

Ltac obind_inv H :=
  let m := fresh "m" in let x := fresh "x" in let gs := fresh "gs" in let E := fresh "E" in let F := fresh "F" in
  apply obind_Ok in H as (m & x & gs & E & H & F).

Lemma accessJob_spec data tenantID jobID job :
  exportAccessJob data tenantID jobID = Ok job -> sn_Exports data !! jobID = Some job /\ ej_TenantID job = tenantID /\ ej_ID job = jobID.
Proof.
  unfold exportAccessJob. destruct (sn_Exports data !! jobID) as [j|]; [|done].
  destruct (guard_err _ (Sentinel ErrNotFound)) eqn:E1; [|done]. apply guard_err_Ok, bool_decide_eq_true in E1. cbn [result_bind].
  destruct (guard_err _ _) eqn:E2; [|done]. apply guard_err_Ok, bool_decide_eq_true in E2. cbn. by intros [= <-].
Qed.

Lemma capture_spec archive data tenantID jobID access :
  captureExportAccess (gate archive) data tenantID jobID = Ok access ->
  sn_Exports data !! jobID = Some (xa_Job access) /\ ej_TenantID (xa_Job access) = tenantID /\ ej_ID (xa_Job access) = jobID /\
  gate archive data tenantID (ej_Query (xa_Job access)) = Ok (xa_Hold access) /\ xa_HoldBinding access = exportHoldBinding data tenantID.
Proof.
  unfold captureExportAccess. destruct (exportAccessJob _ _ _) as [job|] eqn:Hj; [|done]. cbn [result_bind].
  apply accessJob_spec in Hj as (H1 & H2 & H3). destruct (gate archive data (ej_TenantID job) (ej_Query job)) as [hold|] eqn:Hg; [|done].
  cbn [result_bind]. intros [= <-]. cbn. rewrite H2 in Hg. done.
Qed.

Lemma revalidate_spec access exact data job :
  revalidateExportAccess access exact data = Ok job ->
  sn_Exports data !! ej_ID (xa_Job access) = Some job /\ ej_TenantID job = ej_TenantID (xa_Job access) /\ ej_ID job = ej_ID (xa_Job access) /\
  ej_Query job = ej_Query (xa_Job access) /\ exportHoldBinding data (ej_TenantID job) = xa_HoldBinding access /\ (exact = true -> job = xa_Job access).
Proof.
  unfold revalidateExportAccess. destruct (exportAccessJob _ _ _) as [j|] eqn:Hj; [|done]. cbn [result_bind].
  apply accessJob_spec in Hj as (H1 & H2 & H3). destruct (guard_err _ _) eqn:Hg; [|done]. apply guard_err_Ok in Hg. cbn [result_bind].
  intros [= <-]. rewrite negb_true_iff, !orb_false_iff, !negb_false_iff, !bool_decide_eq_true in Hg.
  destruct Hg as [[[[[[_ _] _] Hq] _] He] Hb]. split_and!; try done. intros ->. cbn in He. by apply negb_false_iff, bool_decide_eq_true in He.
Qed.

Lemma get_spec archive captured checked tenantID jobID fs job :
  GetExport archive captured checked tenantID jobID = (fs, Ok job) -> ej_TenantID job = tenantID /\ ej_ID job = jobID /\ requireTenantScope tenantID = Ok tt.
Proof.
  unfold GetExport. intros H. obind_inv H. apply olift_Ok in E as [_ E]. obind_inv H. obind_inv H. apply olift_Ok in E1 as [_ E1].
  apply capture_spec in E1 as (_ & Ht & Hid & _). destruct (xa_Hold x1); [done|]. obind_inv H. apply olift_Ok in H as [_ H].
  apply revalidate_spec in H as (_ & H1 & H2 & _). split; [congruence|]. split; [congruence|]. by destruct x.
Qed.

(** RecordExportDownload accepts a download. *)
Lemma record_spec r tenantID actor jobID fs :
  RecordExportDownload r tenantID actor jobID = (fs, Ok tt) ->
  exists d d' job, re_captured r = Ok d /\ re_after r = Ok d' /\ sn_Exports d !! jobID = Some job /\ sn_Exports d' !! jobID = Some job /\
    ej_TenantID job = tenantID /\ gate (re_archive r) d tenantID (ej_Query job) = Ok None /\
    exportHoldBinding d tenantID = exportHoldBinding d' tenantID /\
    (actor <> "" -> fs = [adminAction (re_stamp r) tenantID actor "audit.event.export" "export" jobID "download"]).
Proof.
  unfold RecordExportDownload. intros H. obind_inv H. apply olift_Ok in E as [-> _]. obind_inv H. apply olift_Ok in E as [-> _].
  obind_inv H. apply olift_Ok in E as [-> Hd]. obind_inv H. apply olift_Ok in E as [-> Ha]. apply capture_spec in Ha as (Hj & Ht & Hid & Hg & Hb).
  destruct (xa_Hold x2) as [hold|]. { obind_inv H. done. }
  obind_inv H. apply olift_Ok in E as [-> _]. obind_inv H. apply olift_Ok in E as [-> _]. obind_inv H. rename E into Hrec.
  obind_inv H. apply olift_Ok in E as [-> Hd']. obind_inv H. apply olift_Ok in E as [-> Hv]. injection H as <-.
  apply revalidate_spec in Hv as (Hj' & _ & _ & _ & Hb' & Hex). specialize (Hex eq_refl). subst x7. rewrite Ht in Hb'. rewrite Hid in Hj'.
  exists x1, x6, (xa_Job x2). split_and!; try done; [congruence|]. intros Hne. subst. cbn. rewrite !app_nil_r.
  unfold recordReadAction in Hrec. rewrite bool_decide_eq_false_2 in Hrec by done. unfold AppendAdminFact in Hrec.
  destruct (re_answer r); [|done]. by injection Hrec as <- _.
Qed.

Lemma guard_conflict_inv b e fs (x : unit) : olift (guard_err b e) = (fs, Ok x) -> b = true.
Proof. intros [_ H]%olift_Ok. destruct b; [done|discriminate H]. Qed.

Lemma verify_spec st answer data tenantID jobID sealed fs plain :
  verifyDownload st answer data tenantID jobID sealed = (fs, Ok plain) ->
  exists d job, data = Ok d /\ sn_Exports d !! jobID = Some job /\ ej_TenantID job = tenantID /\ ej_Status job = "completed" /\
    DecryptExport legacyOpen sealed (ExportBinding tenantID (ej_ID job)) = Ok plain /\ HashBytes plain = ej_Digest job /\ fs = [].
Proof.
  unfold verifyDownload, VerifyExportDownload. destruct (requireTenantScope tenantID); [|done]. destruct data as [d|]; [|done].
  destruct (sn_Exports d !! jobID) as [job|] eqn:Hj; [|done].
  destruct (bool_decide_reflect (ej_TenantID job = tenantID)) as [Ht|]; cbn [negb]; [|done].
  destruct (bool_decide_reflect (ej_Status job = "completed")) as [Hs|]; cbn [negb orb]; [|done].
  destruct (bool_decide (ej_ObjectPath job = "")); [done|]. rewrite Ht. destruct (DecryptExport _ _ _) as [p|] eqn:Hdec; [|done].
  destruct (isDigest (ej_Digest job)); cbn [negb]; [|done].
  destruct (bool_decide_reflect (HashBytes p = ej_Digest job)); cbn [negb]; [|done]. intros [= <- <-]. by exists d, job.
Qed.

Lemma read_spec configured control get tenantID jobID fs sealed :
  ReadExportObject configured control get tenantID jobID = (fs, Ok sealed) ->
  exists d job, control = Ok d /\ sn_Exports d !! jobID = Some job /\ ej_TenantID job = tenantID /\ get (ej_ObjectPath job) = ObjectBytes sealed /\ fs = [].
Proof.
  unfold ReadExportObject. intros H. obind_inv H. apply olift_Ok in E as [-> _]. obind_inv H. apply olift_Ok in E as [-> _].
  obind_inv H. apply olift_Ok in E as [-> Hd]. destruct (sn_Exports x1 !! jobID) as [job|] eqn:Hj; [|done].
  obind_inv H. pose proof (guard_conflict_inv _ _ _ _ E) as Ht%bool_decide_eq_true. apply olift_Ok in E as [-> _].
  obind_inv H. apply olift_Ok in E as [-> _]. destruct (get (ej_ObjectPath job)) as [bytes| |] eqn:Hget; [|done..]. injection H as <- <-.
  exists x1, job. split_and!; try done. by subst.
Qed.

(** C13: a served download was authenticated, gated and recorded, whatever other
    requests, workers and replicas do between its store reads.  The bytes are
    what the archived object of the job opens to under the binding of this
    tenant and job, and have the digest of a completed job of the tenant; when
    the request was recorded the hold gate passed for the job on one control
    document, and the job record and the tenant's active holds (up to a
    collision or failure of their keyed binding) were still the same on the
    document read after the fact was appended; and for a named subject the
    download fact is the one fact of the request. *)
Theorem served_download_is_gated env tenantID subject jobID facts plain :
  downloadExport env tenantID subject jobID = (facts, Ok plain) ->
  (exists dc jobc d job sealed, de_control env = Ok dc /\ sn_Exports dc !! jobID = Some jobc /\ ej_TenantID jobc = tenantID /\
     de_get env (ej_ObjectPath jobc) = ObjectBytes sealed /\
     de_verify env = Ok d /\ sn_Exports d !! jobID = Some job /\ ej_TenantID job = tenantID /\ ej_Status job = "completed" /\
     DecryptExport legacyOpen sealed (ExportBinding tenantID (ej_ID job)) = Ok plain /\ HashBytes plain = ej_Digest job) /\
  (exists d d' job, re_captured (de_recording env) = Ok d /\ re_after (de_recording env) = Ok d' /\
     sn_Exports d !! jobID = Some job /\ sn_Exports d' !! jobID = Some job /\ ej_TenantID job = tenantID /\
     gate (re_archive (de_recording env)) d tenantID (ej_Query job) = Ok None /\
     (activeHoldMap d tenantID = activeHoldMap d' tenantID \/ exportHoldBinding d tenantID = "" \/ ExportComplete.macCollision)) /\
  (subject <> "" -> facts = [adminAction (re_stamp (de_recording env)) tenantID subject "audit.event.export" "export" jobID "download"]).
Proof.
  unfold downloadExport. intros H. obind_inv H. destruct (get_spec _ _ _ _ _ _ _ E) as (Ht & Hid & _). rewrite Ht, Hid in H.
  assert (m = []) as Em.
  { clear -E. unfold GetExport in E. obind_inv E. apply olift_Ok in E0 as [-> _]. obind_inv E. apply olift_Ok in E0 as [-> _]. obind_inv E.
    apply olift_Ok in E0 as [-> _]. destruct (xa_Hold x2); [done|]. obind_inv E. apply olift_Ok in E0 as [-> _]. apply olift_Ok in E as [-> _]. by subst. }
  obind_inv H. apply olift_Ok in E0 as [Em0 _]. obind_inv H. apply read_spec in E0 as (dc & jobc & R1 & R2 & R3 & R4 & Em1).
  obind_inv H. apply verify_spec in E0 as (d & job & V1 & V2 & V3 & V4 & V5 & V6 & Em2).
  obind_inv H. injection H as Egs Ex. subst x2. destruct x3. apply record_spec in E0 as (d1 & d2 & job1 & C1 & C2 & C3 & C4 & C5 & C6 & C7 & C8).
  split_and!.
  - exists dc, jobc, d, job, x1. by split_and!.
  - exists d1, d2, job1. split_and!; try done. destruct (decide (exportHoldBinding d1 tenantID = "")); [by right; left|].
    destruct (ExportComplete.binding_same d1 d2 tenantID C7) as [|]; [done|by left|by right; right].
  - intros Hs. subst. rewrite (C8 Hs). reflexivity.
Qed.

(** Another tenant's export looks like one that does not exist: status,
    object read, verification and recording answer not-found, append no fact
    and read no object, whether the job is unknown or belongs to someone else. *)
Theorem foreign_export_is_masked d tenantID jobID actor :
  requireTenantScope tenantID = Ok tt -> jobID <> "" ->
  (forall job, sn_Exports d !! jobID = Some job -> ej_TenantID job <> tenantID) ->
  (forall archive checked, GetExport archive (Ok d) checked tenantID jobID = ([], Err (Sentinel ErrNotFound))) /\
  (forall get, ReadExportObject true (Ok d) get tenantID jobID = ([], Err (Sentinel ErrNotFound))) /\
  (forall st answer sealed, verifyDownload st answer (Ok d) tenantID jobID sealed = ([], Err (Sentinel ErrNotFound))) /\
  (forall before after archive st answer,
     RecordExportDownload (mkrecording (Ok d) before after archive st answer) tenantID actor jobID = ([], Err (Sentinel ErrNotFound))).
Proof.
  intros Hs Hid Hf. assert (exportAccessJob d tenantID jobID = Err (Sentinel ErrNotFound)) as Ha.
  { unfold exportAccessJob. destruct (sn_Exports d !! jobID) as [job|] eqn:Hj; [|done]. by rewrite bool_decide_eq_false_2 by (by apply Hf). }
  split_and!.
  - intros. unfold GetExport. rewrite Hs. unfold obind, olift. cbn. unfold captureExportAccess. by rewrite Ha.
  - intros. unfold ReadExportObject. rewrite Hs. unfold obind, olift. cbn. destruct (sn_Exports d !! jobID) as [job|] eqn:Hj; [|done].
    by rewrite bool_decide_eq_false_2 by (by apply Hf).
  - intros. unfold verifyDownload, VerifyExportDownload. rewrite Hs. destruct (sn_Exports d !! jobID) as [job|] eqn:Hj; [|done].
    by rewrite bool_decide_eq_false_2 by (by apply Hf).
  - intros. unfold RecordExportDownload. rewrite Hs. unfold obind, olift. cbn. rewrite bool_decide_eq_false_2 by done. cbn.
    unfold captureExportAccess. by rewrite Ha.
Qed.

(** Admission.  A created export passed the hold gate for its query on a
    copy of the store, the tenant's active holds were still the same on the
    control document it was added to (up to a collision of their keyed
    binding), the queue had room, and the update adds exactly one job, pending
    and owned by the requester. *)
Theorem created_export_was_admitted query archive copied capN st st' denied control tenantID actor q d' job :
  CreateExport query archive copied capN st st' denied control tenantID actor q = (Some d', Ok job) ->
  exists data d, copied = Ok data /\ control = Ok d /\ gate archive data tenantID q = Ok None /\
    (activeHoldMap data tenantID = activeHoldMap d tenantID \/ ExportComplete.macCollision) /\
    exportQueueHasCapacity (sn_Exports d) tenantID = true /\ job = newExportJob st' tenantID actor q "" /\
    sn_Exports d' = <[at_id st' := job]> (sn_Exports d).
Proof.
  unfold CreateExport. destruct (requireTenantScope tenantID); [|done]. destruct (prepareExport _ _ _ _ _ _ _ _ _) as [dd [binding|]] eqn:Hp; [|done].
  destruct control as [d|]; [|done]. cbn [result_bind]. destruct (createExportClosure _ _ _ _ _) as [[data' b]|] eqn:Hc; [|done]. intros [= <- <-].
  unfold prepareExport in Hp. destruct query; [|done]. destruct copied as [data|]; [|done].
  destruct (gate archive data tenantID q) as [[hold|]|] eqn:Hg; [by destruct denied| |done]. injection Hp as _ <-.
  unfold createExportClosure in Hc. cbn [ej_TenantID newExportJob] in Hc. destruct (checkExportPreflight _ _ _) eqn:Hpre; [|done]. cbn [result_bind] in Hc.
  unfold checkExportPreflight in Hpre. apply guard_err_Ok, andb_true_iff in Hpre as [Hne%negb_true_iff%bool_decide_eq_false Heq%bool_decide_eq_true].
  destruct (exportQueueHasCapacity _ _) eqn:Hcap; [|done]. cbn [guard_err result_bind] in Hc. injection Hc as <- _.
  exists data, d. split_and!; try done. by apply ExportComplete.binding_same.
Qed.

End service.

(** ** The seal *)

(** C27: the seal is bound to one export.  A sealed object opens, under the
    binding it was sealed with, to the bytes that were sealed; and two
    bindings are equal only for the same tenant and the same job, so no other
    export's binding is ever the one it opens under. *)
Theorem sealed_export_is_bound {cfg : ExportConfig} {cfg_ok : ExportConfigOk cfg} legacyOpen nonce plain tenant job :
  String.length nonce = nonceSize ->
  DecryptExport legacyOpen (EncryptBytesBound nonce plain (ExportBinding tenant job)) (ExportBinding tenant job) = Ok plain /\
  (forall tenant' job', ExportBinding tenant' job' = ExportBinding tenant job -> tenant' = tenant /\ job' = job).
Proof.
  intros Hn. split.
  - unfold DecryptExport, EncryptBytesBound. rewrite prefix_append. set (body := nonce ++ _).
    assert (String.length (exportV2Prefix ++ body) - String.length exportV2Prefix = String.length body)%nat as -> by (rewrite length_append; lia).
    rewrite substring_tail. unfold body. rewrite length_append, Hn. replace (nonceSize + _ - nonceSize)%nat with (String.length (gcmSeal nonce plain (ExportBinding tenant job))) by lia.
    rewrite <- Hn, substring_head, substring_tail. destruct (Nat.ltb_spec (String.length nonce + String.length (gcmSeal nonce plain (ExportBinding tenant job))) (String.length nonce)); [lia|].
    by rewrite gcm_opens.
  - intros t' j' H. unfold ExportBinding in H. apply string_app_cancel_l in H.
    apply framed_inj in H as [-> H]. apply string_app_cancel_l in H.
    split; [done|]. destruct (framed_inj j' job "" "") as [E _]; [by rewrite !string_app_nil_r|exact E].
Qed.

(** ** Concrete requests, on the completed export of the demonstration run *)

#[local] Existing Instance ExportDemo.demoConfig.
#[local] Existing Instance ChainProps.plainCrypto.

#[export] Instance demoConfig_ok : ExportConfigOk ExportDemo.demoConfig.
Proof.
  intros nonce plain aad. cbn. rewrite prefix_append, length_append.
  replace (_ + _ - _)%nat with (String.length plain) by lia. by rewrite substring_tail.
Qed.

Definition doneControl : result Snapshot := Ok (sy_control (ExportDemo.after 13)).
Definition doneArchive : ArchiveReader := fun _ => Err (Sentinel ErrNotFound).
Definition doneEnv : downloadEnv :=
  mkdownloadEnv doneControl doneControl doneArchive true doneControl
    (fun path => match ExportRun.w_objects (sy_world (ExportDemo.after 13)) !! path with Some bytes => ObjectBytes bytes | None => ObjectMissing end)
    doneControl (ExportDemo.stampAt 5000) (Ok tt)
    (mkrecording doneControl doneControl doneControl doneArchive (ExportDemo.stampAt 5000) (Ok tt)).

Notation demoDownload := (downloadExport ExportDemo.demoDigest ExportDemo.demoLegacyDigest ExportDemo.demoLegacyOpen).

Definition served {A} (o : outcome A) : bool := match o.2 with Ok _ => true | Err _ => false end.
Lemma served_inv {A} (o : outcome A) : served o = true -> exists facts a, o = (facts, Ok a).
Proof. destruct o as [facts [a|]]; [by exists facts, a|done]. Qed.
Lemma demo_served : served (demoDownload doneEnv "t1" "u1" "e1") = true.
Proof. vm_compute. reflexivity. Qed.

Lemma served_download_is_gated_witness :
  exists facts plain, demoDownload doneEnv "t1" "u1" "e1" = (facts, Ok plain) /\
    facts = [adminAction (ExportDemo.stampAt 5000) "t1" "u1" "audit.event.export" "export" "e1" "download"].
Proof.
  destruct (served_inv _ demo_served) as (facts & plain & E). exists facts, plain. split; [exact E|].
  apply (served_download_is_gated ExportDemo.demoDigest ExportDemo.demoLegacyDigest ExportDemo.demoLegacyOpen doneEnv "t1" "u1" "e1" facts plain E).
  discriminate.
Defined.

Lemma foreign_export_is_masked_witness :
  GetExport ExportDemo.demoDigest ExportDemo.demoLegacyDigest doneArchive (Ok (sy_control ExportDemo.created)) doneControl "t2" "e1"
    = ([], Err (Sentinel ErrNotFound)).
Proof.
  apply (foreign_export_is_masked ExportDemo.demoDigest ExportDemo.demoLegacyDigest ExportDemo.demoLegacyOpen (sy_control ExportDemo.created) "t2" "e1" "u1").
  - reflexivity.
  - discriminate.
  - intros job Hj. assert (ej_TenantID <$> sn_Exports (sy_control ExportDemo.created) !! "e1" = Some "t1") as Ht by (vm_compute; reflexivity).
    rewrite Hj in Ht. injection Ht as ->. discriminate.
Defined.

Definition demoCreate : option Snapshot * result ExportJob :=
  CreateExport ExportDemo.demoDigest ExportDemo.demoLegacyDigest (Ok tt) doneArchive (Ok NewSnapshot) 500 (ExportDemo.stampAt 1) (ExportDemo.stampAt 2)
    (Ok NewSnapshot) (Ok NewSnapshot) "t1" "u1" zero_Query.

Lemma created_export_was_admitted_witness :
  exists d job, demoCreate = (Some d, Ok job) /\ job = newExportJob (ExportDemo.stampAt 2) "t1" "u1" zero_Query "".
Proof.
  destruct demoCreate as [[d|] [job|e]] eqn:E; [|vm_compute in E; discriminate E..]. exists d, job. split; [reflexivity|].
  destruct (created_export_was_admitted ExportDemo.demoDigest ExportDemo.demoLegacyDigest (Ok tt) doneArchive (Ok NewSnapshot) 500 (ExportDemo.stampAt 1)
    (ExportDemo.stampAt 2) (Ok NewSnapshot) (Ok NewSnapshot) "t1" "u1" zero_Query d job E) as (data & d0 & _ & _ & _ & _ & _ & Hj & _). exact Hj.
Defined.

Lemma sealed_export_is_bound_witness :
  DecryptExport ExportDemo.demoLegacyOpen (EncryptBytesBound "nonce-0000-1" "line" (ExportBinding "t1" "e1")) (ExportBinding "t1" "e1") = Ok "line".
Proof. apply (sealed_export_is_bound ExportDemo.demoLegacyOpen "nonce-0000-1" "line" "t1" "e1"). reflexivity. Defined.

End ExportAccess.
