(* ===== verification/ReplayState.v ===== *)
(** * The replay mark log (internal/kafka: replay_state.go,
    replay_state_tenant.go, replay_state_file.go)

    The persisted set of dead-letter events that were replayed: a log of JSON
    lines behind a header, appended under a file lock, repaired after torn
    appends, and rewritten through a renamed temporary file when its format
    changes.  File contents are byte lists; [MarkCodec] is encoding/json's
    decoder, of which the code uses the fields of one line, the format probe of
    a header and the legacy object. *)

From Stdlib Require Import Ascii String.
From S2P Require Import Prelude GoStr Json.
Open Scope string_scope.
Open Scope Z_scope.
Import Json.

Module ReplayState.

Notation bytes := (list ascii).

Inductive stateKind : Type := stateAbsent | stateEmpty | stateLog | stateTorn | stateLegacy | stateTenantLog.

(** ** The format *)

Definition nl : ascii := ascii_of_nat 10.
Definition cr : ascii := ascii_of_nat 13.
Definition qt : string := String quote EmptyString.

Definition replayLogFormat : string := "replay-log-v1".
Definition replayLogHeaderLine : bytes := chars ("{" ++ qt ++ "format" ++ qt ++ ":" ++ qt ++ "replay-log-v1" ++ qt ++ "}").
Definition replayLogHeader : bytes := (replayLogHeaderLine ++ [nl])%list.
Definition replayLogPrefix : bytes := chars ("{" ++ qt ++ "format" ++ qt ++ ":" ++ qt ++ "replay-log-v1").
Definition replayTenantLogFormat : string := "replay-log-tenant-v1".
Definition replayTenantLogHeaderLine : bytes := chars ("{" ++ qt ++ "format" ++ qt ++ ":" ++ qt ++ "replay-log-tenant-v1" ++ qt ++ "}").
Definition replayTenantLogHeader : bytes := (replayTenantLogHeaderLine ++ [nl])%list.
Definition replayTenantLogPrefix : bytes := chars ("{" ++ qt ++ "format" ++ qt ++ ":" ++ qt ++ "replay-log-v2").
Definition classifyReadCap : nat := 512.
Definition tailCheckWindow : nat := 4096.

(** What json.Unmarshal finds: the event of a line; the tenant, empty when
    absent, and event of a line; the format member, empty when absent; and the
    entries of a legacy object, if it has any. *)
Class MarkCodec : Type := mkMarkCodec {
  decodeMark : bytes -> option string;
  decodeTenantMark : bytes -> option (string * string);
  probeFormat : bytes -> option string;
  decodeLegacy : bytes -> option (option (gmap string bool))
}.

Definition markText (eventID : string) : bytes := chars ("{" ++ qt ++ "event_id" ++ qt ++ ":" ++ writeString eventID ++ "}").
Definition markLine (eventID : string) : bytes := (markText eventID ++ [nl])%list.
(** [omitempty] drops an empty tenant. *)
Definition tenantMarkText (tenantID eventID : string) : bytes :=
  if bool_decide (tenantID = "") then markText eventID
  else chars ("{" ++ qt ++ "tenant_id" ++ qt ++ ":" ++ writeString tenantID ++ "," ++ qt ++ "event_id" ++ qt ++ ":" ++ writeString eventID ++ "}").
Definition tenantMarkLine (tenantID eventID : string) : bytes := (tenantMarkText tenantID eventID ++ [nl])%list.

(** [bytes.Split(content, "\n")] *)
Fixpoint splitNL (content : bytes) : list bytes :=
  match content with
  | [] => [[]]
  | c :: rest =>
      if bool_decide (c = nl) then [] :: splitNL rest
      else match splitNL rest with
           | [] => [[c]]
           | l :: ls => (c :: l) :: ls
           end
  end.

(** [bytes.TrimRight(line, "\r")] *)
Fixpoint trimCR (line : bytes) : bytes :=
  match line with
  | [] => []
  | c :: rest => match trimCR rest with
                 | [] => if bool_decide (c = cr) then [] else [c]
                 | rest => c :: rest
                 end
  end.

Definition isPrefix (p b : bytes) : bool := bool_decide (take (length p) b = p).
(** [len(bytes.TrimSpace(encoded)) == 0] *)
Definition blank (encoded : bytes) : bool := forallb IsSpace (runes (string_of_list_ascii encoded)).
Definition endsNL (encoded : bytes) : bool := bool_decide (last encoded = Some nl).

(** ** Classification *)

(** The bytes before the first newline. *)
Fixpoint upToNL (b : bytes) : bytes :=
  match b with
  | [] => []
  | c :: rest => if bool_decide (c = nl) then [] else c :: upToNL rest
  end.

Definition firstLine (encoded : bytes) : bytes :=
  let line := upToNL encoded in
  if (length line <? length encoded)%nat && (length line <? classifyReadCap)%nat then line else take classifyReadCap encoded.

Section codec.
Context {codec : MarkCodec}.

Definition classifyFirstLine (first : bytes) : result stateKind :=
  let line := trimCR (upToNL first) in
  if bool_decide (line = replayLogHeaderLine) then Ok stateLog
  else if bool_decide (line = replayTenantLogHeaderLine) then Ok stateTenantLog
  else
    match probeFormat line with
    | Some format =>
        if bool_decide (format = "") then
          if isPrefix replayLogPrefix line || isPrefix replayTenantLogPrefix line then Ok stateTorn else Ok stateLegacy
        else if negb (bool_decide (format = replayLogFormat)) && negb (bool_decide (format = replayTenantLogFormat))
        then Err (NewErr "unknown replay state format")
        else Err (NewErr "invalid replay state header")
    | None => if isPrefix replayLogPrefix line || isPrefix replayTenantLogPrefix line then Ok stateTorn else Ok stateLegacy
    end.

(** [None] is a file that does not exist. *)
Definition classifyStateFile (file : option bytes) : result stateKind :=
  match file with
  | None => Ok stateAbsent
  | Some [] => Ok stateEmpty
  | Some content => classifyFirstLine (take classifyReadCap content)
  end.

(** ** Parsing *)

Fixpoint parseLines (header : bytes) (decode : bool -> bytes -> result (list (string * string))) (tornTail : bool) (index : nat)
    (segments : list bytes) : result (list (string * string)) :=
  match segments with
  | [] => Ok []
  | segment :: segments =>
      let last := match segments with [] => true | _ => false end in
      if last && tornTail then parseLines header decode tornTail (S index) segments
      else
        let trimmed := trimCR segment in
        if ((index =? 0)%nat && bool_decide (trimmed = header)) || bool_decide (trimmed = [])
        then parseLines header decode tornTail (S index) segments
        else
          let? marks := decode last segment in
          let? rest := parseLines header decode tornTail (S index) segments in
          Ok (marks ++ rest)%list
  end.

Definition malformed : error := NewErr "malformed replay log line".

(** A mark is a tenant, empty for a mark of an event identifier only, and an
    event. *)
Definition decodeLog (last : bool) (segment : bytes) : result (list (string * string)) :=
  match decodeMark segment with
  | Some eventID => if bool_decide (eventID = "") then (if last then Ok [] else Err malformed) else Ok [("", eventID)]
  | None => if last then Ok [] else Err malformed
  end.
Definition decodeTenantLog (last : bool) (segment : bytes) : result (list (string * string)) :=
  match decodeTenantMark segment with
  | Some (tenantID, eventID) => if bool_decide (eventID = "") then Err malformed else Ok [(tenantID, eventID)]
  | None => Err malformed
  end.

Definition tornTail (encoded : bytes) : bool := negb (bool_decide (encoded = [])) && negb (endsNL encoded).

Definition parseLogMarks (encoded : bytes) : result (gset string) :=
  let? marks := parseLines replayLogHeaderLine decodeLog (tornTail encoded) 0 (splitNL encoded) in
  Ok (list_to_set marks.*2).

(** The in-memory key of a tenant's mark, and what it is made of. *)
Definition replayIdentityKey (tenantID eventID : string) : string := Itoa (Zlen tenantID) ++ ":" ++ tenantID ++ eventID.

(** The scoped keys and the marks without a tenant. *)
Definition scopedOf (marks : list (string * string)) : gset string :=
  list_to_set (map (fun m => replayIdentityKey m.1 m.2) (List.filter (fun m => negb (bool_decide (m.1 = ""))) marks)).
Definition legacyOf (marks : list (string * string)) : gset string :=
  list_to_set (List.filter (fun m => bool_decide (m.1 = "")) marks).*2.

Definition parseTenantLogMarks (encoded : bytes) : result (gset string * gset string) :=
  let? marks := parseLines replayTenantLogHeaderLine decodeTenantLog (tornTail encoded) 0 (splitNL encoded) in
  Ok (scopedOf marks, legacyOf marks).

(** strconv.Atoi of a key's length field; the field is what Itoa wrote, and the
    key is cut at its first colon. *)
Fixpoint decimal (acc : Z) (l : list ascii) : option Z :=
  match l with
  | [] => Some acc
  | c :: l => if (48 <=? byteZ c) && (byteZ c <=? 57) then decimal (10 * acc + (byteZ c - 48)) l else None
  end.
Definition Atoi (s : string) : option Z :=
  match chars s with
  | [] => None
  | c :: l => if (byteZ c =? 45) then (match l with [] => None | _ => Z.opp <$> decimal 0 l end)
              else if (byteZ c =? 43) then (match l with [] => None | _ => decimal 0 l end)
              else decimal 0 (c :: l)
  end.

Fixpoint cutColon (l : list ascii) : option (list ascii * list ascii) :=
  match l with
  | [] => None
  | c :: l => if bool_decide (c = ":"%char) then Some ([], l)
              else (fun p => (c :: p.1, p.2)) <$> cutColon l
  end.

Definition replayTenantFromIdentity (identity : string) : option string :=
  match cutColon (chars identity) with
  | None | Some ([], _) => None
  | Some (digits, rest) =>
      match Atoi (string_of_list_ascii digits) with
      | None => None
      | Some n => if (n <? 1) || (Z.of_nat (length rest) <? n) then None else Some (string_of_list_ascii (take (Z.to_nat n) rest))
      end
  end.

Definition replayEventIDFromIdentity (identity : string) : string :=
  match replayTenantFromIdentity identity with
  | None => ""
  | Some tenantID =>
      let prefix := Itoa (Zlen tenantID) ++ ":" ++ tenantID in
      if negb (String.prefix prefix identity) || (String.length identity =? String.length prefix)%nat then ""
      else substring (String.length prefix) (String.length identity - String.length prefix) identity
  end.

(** ** Rendering *)

Definition appendLogBytes (marks : gset string) (newLine : bytes) : bytes :=
  (replayLogHeader ++ concat (map markLine (sort_strings (elements marks))) ++ newLine)%list.

Definition identityLine (identity : string) : bytes :=
  match replayTenantFromIdentity identity with
  | Some tenantID =>
      let eventID := replayEventIDFromIdentity identity in
      if bool_decide (eventID = "") then [] else tenantMarkLine tenantID eventID
  | None => []
  end.

Definition tenantLogBytes (scoped legacy : gset string) (newLine : bytes) : bytes :=
  (replayTenantLogHeader ++ concat (map identityLine (sort_strings (elements scoped))) ++
   concat (map markLine (sort_strings (elements legacy))) ++ newLine)%list.

(** The keys of a legacy object. *)
Definition loadLegacyMarks (file : option bytes) : result (gset string) :=
  match file with
  | None => Ok ∅
  | Some encoded =>
      if blank encoded then Ok ∅
      else match decodeLegacy encoded with
           | None => Err (NewErr "decode replay state")
           | Some None => Ok ∅
           | Some (Some replayed) => Ok (dom replayed)
           end
  end.

(** ** Loading *)

Record replayState : Type := mkreplayState {
  rs_Replayed : gmap string bool;
  rs_scopedMarks : gset string;
  rs_legacyMarks : gset string;
  rs_legacyTenantScope : string
}.

Definition emptyState : replayState := mkreplayState ∅ ∅ ∅ "".
Definition allTrue (ids : gset string) : gmap string bool := gset_to_gmap true ids.

Definition LoadReplayState (file : option bytes) : result replayState :=
  match file with
  | None => Ok emptyState
  | Some encoded =>
      if blank encoded then Ok emptyState
      else
        let? kind := classifyFirstLine (firstLine encoded) in
        match kind with
        | stateLog =>
            let? marks := parseLogMarks encoded in
            Ok (mkreplayState (allTrue marks) ∅ marks "")
        | stateTenantLog =>
            let? marks := parseTenantLogMarks encoded in
            let events := list_to_set (List.filter (fun e => negb (bool_decide (e = ""))) (map replayEventIDFromIdentity (elements marks.1))) in
            Ok (mkreplayState (allTrue (events ∪ marks.2)) marks.1 marks.2 "")
        | _ =>
            match decodeLegacy encoded with
            | None => Err (NewErr "decode replay state")
            | Some replayed => let replayed := default ∅ replayed in Ok (mkreplayState replayed ∅ (dom replayed) "")
            end
        end
  end.

Definition SetLegacyTenantScope (tenantID : string) (s : replayState) : replayState :=
  mkreplayState (rs_Replayed s) (rs_scopedMarks s) (rs_legacyMarks s) (TrimSpace tenantID).

Definition marked (s : replayState) (eventID : string) : bool := default false (rs_Replayed s !! eventID).

Definition Marked (s : replayState) (tenantID eventID : string) : bool :=
  negb (bool_decide (tenantID = "")) && negb (bool_decide (eventID = "")) &&
  (bool_decide (replayIdentityKey tenantID eventID ∈ rs_scopedMarks s) ||
   (negb (bool_decide (rs_legacyTenantScope s = "")) && bool_decide (rs_legacyTenantScope s = tenantID) && bool_decide (eventID ∈ rs_legacyMarks s))).

(** ** Repair and append *)

(** The bytes up to and with the last newline. *)
Fixpoint completePart (b : bytes) : bytes :=
  match b with
  | [] => []
  | c :: rest =>
      match completePart rest with
      | [] => if bool_decide (c = nl) then [c] else []
      | part => c :: part
      end
  end.

(** What the repair does: nothing, a truncation, or a rewrite through a
    temporary file. *)
Inductive repair : Type := Clean | Truncated (content : bytes) | Rebuilt (content : bytes).

Definition rebuildLog (content : bytes) : result bytes :=
  match classifyStateFile (Some content) with
  | Ok stateTenantLog => let? marks := parseTenantLogMarks content in Ok (tenantLogBytes marks.1 marks.2 [])
  | _ => let? marks := parseLogMarks content in Ok (appendLogBytes marks [])
  end.

Definition repairTornTail (content : bytes) : result repair :=
  if bool_decide (content = []) || endsNL content then Ok Clean
  else
    let window := Nat.min (length content) tailCheckWindow in
    let tail := drop (length content - window) content in
    let part := completePart (take (window - 1) tail) in
    if bool_decide (part = []) then let? rebuilt := rebuildLog content in Ok (Rebuilt rebuilt)
    else Ok (Truncated (take (length content - window + length part) content)).

Definition rewriteFull (kind : stateKind) (file : option bytes) (newLine : bytes) : result bytes :=
  match kind with
  | stateAbsent | stateEmpty | stateTorn => Ok (appendLogBytes ∅ newLine)
  | stateLegacy => let? marks := loadLegacyMarks file in Ok (appendLogBytes marks newLine)
  | _ => Err (NewErr "rewrite replay state: unexpected state kind")
  end.

Definition tenantRewriteContent (s : replayState) (kind : stateKind) (file : option bytes) (newLine : bytes) : result bytes :=
  match kind with
  | stateLog =>
      let? marks := parseLogMarks (default [] file) in
      Ok (tenantLogBytes (rs_scopedMarks s) (rs_legacyMarks s ∪ marks) newLine)
  | stateLegacy =>
      let? marks := loadLegacyMarks file in
      Ok (tenantLogBytes (rs_scopedMarks s) (rs_legacyMarks s ∪ marks) newLine)
  | _ => Ok (tenantLogBytes (rs_scopedMarks s) (rs_legacyMarks s) newLine)
  end.

(** ** Mark and MarkTenant *)

(** How a mark reaches the file: one line appended to the content the repair
    leaves, or a whole new file. *)
Inductive plan : Type :=
  | Append (fix_ : repair) (line : bytes)
  | Rewrite (content : bytes).

Definition markPlan (eventID : string) (file : option bytes) : result plan :=
  let? kind := classifyStateFile file in
  match kind with
  | stateLog | stateTenantLog => let? fix_ := repairTornTail (default [] file) in Ok (Append fix_ (markLine eventID))
  | _ => let? content := rewriteFull kind file (markLine eventID) in Ok (Rewrite content)
  end.

Definition markTenantPlan (s : replayState) (tenantID eventID : string) (file : option bytes) : result plan :=
  guard_err (negb (bool_decide (tenantID = "")) && negb (bool_decide (eventID = "")))
    (NewErr "tenant-aware replay mark requires non-empty tenant_id and event_id") ;?
  let? kind := classifyStateFile file in
  match kind with
  | stateTenantLog => let? fix_ := repairTornTail (default [] file) in Ok (Append fix_ (tenantMarkLine tenantID eventID))
  | _ => let? content := tenantRewriteContent s kind file (tenantMarkLine tenantID eventID) in Ok (Rewrite content)
  end.

(** The in-memory sets after a persisted mark. *)
Definition rememberMark (eventID : string) (s : replayState) : replayState :=
  mkreplayState (<[eventID := true]> (rs_Replayed s)) (rs_scopedMarks s) ({[eventID]} ∪ rs_legacyMarks s) (rs_legacyTenantScope s).
Definition rememberTenant (tenantID eventID : string) (s : replayState) : replayState :=
  mkreplayState (<[eventID := true]> (rs_Replayed s)) ({[replayIdentityKey tenantID eventID]} ∪ rs_scopedMarks s) (rs_legacyMarks s)
    (rs_legacyTenantScope s).

End codec.

End ReplayState.
