(* ===== verification/ReplayProps.v ===== *)
(** * The replay log as a set of marks

    A log of internal/kafka/replay_state.go is its header, one line for each
    mark and what is left of a torn append ([logBytes]).  The lemmas here read
    such a log with every operation of the code: its marks are what the parsers
    find, the classification is its header's, the torn-tail repair leaves the
    lines, and rebuilding or converting it keeps the marks.  The system in
    ReplaySystem.v is proved with them. *)

From Stdlib Require Import Ascii String.
From stdpp Require Import pretty.
From S2P Require Import Prelude GoStr Json ReplayState.
Open Scope string_scope.
Open Scope Z_scope.
Import Json ReplayState.

Module ReplayProps.

(** ** Lines *)

Lemma splitNL_line (l rest : bytes) : nl ∉ l -> splitNL (l ++ nl :: rest)%list = l :: splitNL rest.
Proof.
  induction l as [|c l IH]; intros H; cbn; [done|]. apply not_elem_of_cons in H as [Hc Hl].
  rewrite bool_decide_eq_false_2 by congruence. by rewrite IH.
Qed.
Lemma splitNL_single (l : bytes) : nl ∉ l -> splitNL l = [l].
Proof.
  induction l as [|c l IH]; intros H; cbn; [done|]. apply not_elem_of_cons in H as [Hc Hl].
  rewrite bool_decide_eq_false_2 by congruence. by rewrite IH.
Qed.
Lemma upToNL_line (l rest : bytes) : nl ∉ l -> upToNL (l ++ nl :: rest)%list = l.
Proof.
  induction l as [|c l IH]; intros H; cbn; [done|]. apply not_elem_of_cons in H as [Hc Hl].
  rewrite bool_decide_eq_false_2 by congruence. by rewrite IH.
Qed.

Definition asLine (l : bytes) : bytes := (l ++ [nl])%list.
Definition asLines (ls : list bytes) : bytes := concat (map asLine ls).

Lemma asLines_app a b : asLines (a ++ b)%list = (asLines a ++ asLines b)%list.
Proof. unfold asLines. by rewrite map_app, concat_app. Qed.

Lemma splitNL_lines (ls : list bytes) frag :
  Forall (fun l => nl ∉ l) ls -> nl ∉ frag -> splitNL (asLines ls ++ frag)%list = (ls ++ [frag])%list.
Proof.
  induction 1 as [|l ls Hl _ IH]; intros Hf; cbn; [by apply splitNL_single|].
  unfold asLine at 1. rewrite <- !app_assoc. cbn. rewrite splitNL_line by done. by rewrite <- IH.
Qed.

Lemma not_elem_take (c : ascii) n l : c ∉ l -> c ∉ take n l.
Proof. intros Hl H. apply Hl. apply elem_of_take in H as (i & Hi & _). by eapply list_elem_of_lookup_2. Qed.

(** A prefix of lines is lines and a fragment. *)
Lemma take_lines (ls : list bytes) frag n :
  Forall (fun l => nl ∉ l) ls -> nl ∉ frag ->
  exists k frag', take n (asLines ls ++ frag)%list = (asLines (take k ls) ++ frag')%list /\ nl ∉ frag'.
Proof.
  intros Hls Hf. revert n. induction Hls as [|l ls Hl _ IH]; intros n.
  - exists 0%nat, (take n frag). split; [done|]. by apply not_elem_take.
  - change (asLines (l :: ls)) with (asLine l ++ asLines ls)%list. rewrite <- app_assoc.
    destruct (decide (n <= length l)%nat) as [Hn|Hn].
    + exists 0%nat, (take n l). split; [|by apply not_elem_take]. unfold asLine. rewrite <- app_assoc.
      cbn. by rewrite take_app_le.
    + destruct (IH (n - length (asLine l))%nat) as (k & frag' & E & Hf'). exists (S k), frag'. split; [|done].
      rewrite take_app, take_ge by (unfold asLine; rewrite length_app; cbn; lia).
      rewrite E. cbn [take]. change (asLines (l :: take k ls)) with (asLine l ++ asLines (take k ls))%list. by rewrite <- app_assoc.
Qed.

(** *** The bytes up to the last newline *)

Lemma completePart_cons c b : completePart (c :: b) = (match completePart b with [] => if bool_decide (c = nl) then [c] else [] | part => c :: part end).
Proof. done. Qed.

Lemma completePart_none (b : bytes) : nl ∉ b -> completePart b = [].
Proof.
  induction b as [|c b IH]; intros H; [done|]. apply not_elem_of_cons in H as [Hc Hb].
  rewrite completePart_cons, IH by done. by rewrite bool_decide_eq_false_2 by congruence.
Qed.

Lemma completePart_app (a b : bytes) : nl ∉ b -> completePart (a ++ nl :: b)%list = (a ++ [nl])%list.
Proof.
  intros Hb. induction a as [|c a IH]; cbn -[completePart]; rewrite completePart_cons.
  - rewrite completePart_none by done. by rewrite bool_decide_eq_true_2.
  - rewrite IH. by destruct a.
Qed.

Lemma asLines_end (ls : list bytes) : ls <> [] -> exists a, asLines ls = (a ++ [nl])%list.
Proof.
  induction ls as [|l ls IH]; [done|]. intros _. change (asLines (l :: ls)) with (asLine l ++ asLines ls)%list.
  destruct ls as [|l' ls]; [exists l; by rewrite app_nil_r|].
  destruct IH as [a ->]; [done|]. exists (asLine l ++ a)%list. by rewrite app_assoc.
Qed.

Lemma endsNL_app (a : bytes) : endsNL (a ++ [nl])%list = true.
Proof. unfold endsNL. by rewrite last_snoc, bool_decide_eq_true_2. Qed.
Lemma endsNL_not (a b : bytes) : nl ∉ b -> b <> [] -> endsNL (a ++ b)%list = false.
Proof.
  intros Hb Hn. unfold endsNL. apply bool_decide_eq_false_2. destruct (exists_last Hn) as (b' & x & ->).
  rewrite app_assoc, last_snoc. intros [= ->]. apply Hb. set_solver.
Qed.

(** ** Identity keys *)

Lemma pretty_N_char_value n : (n < 10)%N -> byteZ (pretty_N_char n) = 48 + Z.of_N n.
Proof.
  destruct n as [|p]; [done|]. do 4 (destruct p as [p|p|]; try done; try lia).
Qed.

Lemma decimal_go x s : decimal 0 (chars (pretty_N_go x s)) = decimal (Z.of_N x) (chars s).
Proof.
  revert s. induction (N.lt_wf_0 x) as [x _ IH]; intros s.
  destruct (decide (x = 0)%N) as [->|Hx]; [done|].
  rewrite pretty_N_go_step by lia. rewrite IH by (apply N.div_lt; lia).
  unfold chars. cbn. pose proof (N.mod_lt x 10 ltac:(done)) as Hlt. rewrite (pretty_N_char_value _ Hlt).
  pose proof (N.div_mod x 10 ltac:(done)) as Hdiv. revert Hlt Hdiv. generalize (x `mod` 10)%N, (x `div` 10)%N. intros d q Hlt Hdiv.
  replace ((48 <=? 48 + Z.of_N d) && (48 + Z.of_N d <=? 57)) with true by (symmetry; apply andb_true_iff; split; apply Z.leb_le; lia).
  f_equal. lia.
Qed.

Lemma pretty_N_go_head x s : (0 < x)%N -> exists c l, chars (pretty_N_go x s) = c :: l /\ 48 <= byteZ c <= 57.
Proof.
  revert s. induction (N.lt_wf_0 x) as [x _ IH]; intros s Hx. rewrite pretty_N_go_step by lia.
  destruct (decide (x / 10 = 0)%N) as [E|E].
  - rewrite E. exists (pretty_N_char (x `mod` 10)), (chars s). split; [done|apply pretty_N_char_digit].
  - apply IH; [apply N.div_lt; lia|]. by apply N.neq_0_lt_0.
Qed.

Lemma Atoi_Itoa n : 0 < n -> Atoi (Itoa n) = Some n.
Proof.
  intros Hn. destruct n as [|p|p]; try lia. unfold Atoi, Itoa.
  change (pretty (Z.pos p)) with (pretty_N_go (N.pos p) "").
  destruct (pretty_N_go_head (N.pos p) "") as (c & l & E & Hc); [done|].
  pose proof (decimal_go (N.pos p) "") as Hd. rewrite E in *.
  rewrite (proj2 (Z.eqb_neq (byteZ c) 45)), (proj2 (Z.eqb_neq (byteZ c) 43)) by lia. exact Hd.
Qed.

Lemma cutColon_app a b : ":"%char ∉ a -> cutColon (a ++ ":"%char :: b)%list = Some (a, b).
Proof.
  induction a as [|c a IH]; intros H; cbn; [done|]. apply not_elem_of_cons in H as [Hc Ha].
  rewrite bool_decide_eq_false_2 by congruence. by rewrite IH.
Qed.

Lemma of_chars s : string_of_list_ascii (chars s) = s.
Proof. apply string_of_list_ascii_of_string. Qed.

Lemma tenant_of_key t e : t <> "" -> replayTenantFromIdentity (replayIdentityKey t e) = Some t.
Proof.
  intros Ht. assert (0 < Zlen t) as Hl. { destruct t; [done|]. unfold Zlen. cbn. lia. }
  unfold replayTenantFromIdentity, replayIdentityKey. rewrite !chars_app. change (chars ":") with [":"%char]. cbn [app].
  rewrite cutColon_app by apply Itoa_no_char, colon_not_digit.
  pose proof (Atoi_Itoa _ Hl) as HA. destruct (chars (Itoa (Zlen t))) as [|c l] eqn:E.
  { rewrite <- (of_chars (Itoa _)), E in HA. done. }
  rewrite <- E, of_chars, HA, length_app, Zlen_chars.
  rewrite (proj2 (Z.ltb_ge _ 1)) by (rewrite Zlen_chars in Hl; lia).
  rewrite (proj2 (Z.ltb_ge _ _)) by lia. cbn [orb].
  by rewrite Nat2Z.id, take_app_length, of_chars.
Qed.

Lemma event_of_key t e : t <> "" -> replayEventIDFromIdentity (replayIdentityKey t e) = e.
Proof.
  intros Ht. unfold replayEventIDFromIdentity. rewrite tenant_of_key by done. cbn zeta. unfold replayIdentityKey.
  set (p := Itoa (Zlen t) ++ ":" ++ t). replace (Itoa (Zlen t) ++ ":" ++ t ++ e) with (p ++ e).
  2: { unfold p. apply chars_inj. by rewrite !chars_app, <- !app_assoc. }
  rewrite prefix_append. cbn [negb orb]. rewrite length_append.
  case_match eqn:E; [apply Nat.eqb_eq in E; destruct e; [done|cbn in E; lia]|].
  replace (String.length p + String.length e - String.length p)%nat with (String.length e) by lia.
  apply substring_tail.
Qed.

Lemma key_inj t e t' e' : replayIdentityKey t e = replayIdentityKey t' e' -> (t, e) = (t', e').
Proof. unfold replayIdentityKey. by intros [-> ->]%framed_inj. Qed.

(** ** Mark lines *)

Lemma escape_no_nl r bs : utf8_shape r bs -> nl ∉ escapeRune (r, bs).
Proof.
  intros H. unfold escapeRune. destruct (r <? 128) eqn:E.
  - assert (forallb (fun i => forallb (fun c => negb (bool_decide (c = nl))) (escapeByte (Z.of_nat i))) (seq 0 128) = true) as Hall by (by vm_compute).
    rewrite forallb_forall in Hall. specialize (Hall (Z.to_nat r)). pose proof (utf8_shape_nonneg _ _ H). apply Z.ltb_lt in E.
    rewrite Z2Nat.id, forallb_forall in Hall by done. intros Hin%list_elem_of_In. apply Hall in Hin; [by vm_compute in Hin|].
    apply in_seq. lia.
  - apply Z.ltb_ge in E. repeat case_match; try (by vm_compute; intros; set_solver).
    inversion H; subst; [lia|..]; rewrite ?not_elem_of_cons; repeat (split; [intros <-; change (byteZ nl) with 10 in *; lia|]); apply not_elem_of_nil.
Qed.

Lemma writeString_no_nl s : valid_utf8 s = true -> nl ∉ chars (writeString s).
Proof.
  intros Hv%valid_utf8_shapes. unfold writeString, str, chars. rewrite list_ascii_of_string_of_list_ascii.
  rewrite not_elem_of_cons, not_elem_of_app, list_elem_of_singleton. split; [done|]. split; [|done].
  intros (x & Hx & Hin)%list_elem_of_In%in_concat. apply in_map_iff in Hx as ([r bs] & <- & Hx).
  rewrite Forall_forall in Hv. apply list_elem_of_In in Hx, Hin. by apply Hv, escape_no_nl in Hx.
Qed.

Lemma trimCR_head c l : c <> cr -> trimCR (c :: l) <> [].
Proof. intros Hc. cbn. rewrite bool_decide_eq_false_2 by done. by destruct (trimCR l). Qed.

Notation mark := (string * string)%type.

Definition entryText (m : mark) : bytes := tenantMarkText m.1 m.2.

Lemma markText_cons e : exists l, markText e = "{"%char :: l.
Proof. unfold markText. by eexists. Qed.
Lemma entryText_cons m : exists l, entryText m = "{"%char :: l.
Proof. unfold entryText, tenantMarkText. case_bool_decide; [apply markText_cons|by eexists]. Qed.

Lemma entryText_no_nl m : valid_utf8 m.1 = true -> valid_utf8 m.2 = true -> nl ∉ entryText m.
Proof.
  intros H1%writeString_no_nl H2%writeString_no_nl. unfold entryText, tenantMarkText, markText.
  case_bool_decide; rewrite !chars_app, ?not_elem_of_app; split_and!; try done;
    refine (bool_decide_unpack _ _); vm_compute; exact I.
Qed.

(** ** Logs *)

Definition header (v2 : bool) : bytes := if v2 then replayTenantLogHeaderLine else replayLogHeaderLine.
Definition logBytes (v2 : bool) (es : list mark) (frag : bytes) : bytes := (asLines (header v2 :: map entryText es) ++ frag)%list.

Lemma header_no_nl v2 : nl ∉ header v2.
Proof. destruct v2; refine (bool_decide_unpack _ _); vm_compute; exact I. Qed.
Lemma header_cons v2 : exists l, header v2 = "{"%char :: l.
Proof. destruct v2; by eexists. Qed.
Lemma header_trim v2 : trimCR (header v2) = header v2.
Proof. by destruct v2. Qed.
Lemma header_length v2 : (length (header v2) < 64)%nat.
Proof. destruct v2; vm_compute; lia. Qed.

Lemma logBytes_app v2 es frag l : logBytes v2 es frag = (logBytes v2 es [] ++ frag)%list /\ logBytes v2 (es ++ l) [] = (logBytes v2 es [] ++ asLines (map entryText l))%list.
Proof. unfold logBytes. rewrite !app_nil_r. split; [done|]. by rewrite map_app, app_comm_cons, asLines_app. Qed.

Lemma logBytes_cons v2 es frag : logBytes v2 es frag = (header v2 ++ nl :: (asLines (map entryText es) ++ frag))%list.
Proof. unfold logBytes. change (asLines (header v2 :: map entryText es)) with (asLine (header v2) ++ asLines (map entryText es))%list. unfold asLine. by rewrite <- !app_assoc. Qed.

Lemma logBytes_end v2 es : exists a, logBytes v2 es [] = (a ++ [nl])%list.
Proof. unfold logBytes. rewrite app_nil_r. by apply asLines_end. Qed.

Section codec.
Context {codec : MarkCodec}.

(** What the code relies on for one mark: its identifiers are UTF-8, the
    event's is not empty, and encoding/json reads back the line it wrote. *)
Definition markOk (m : mark) : Prop :=
  m.2 <> "" /\ valid_utf8 m.1 = true /\ valid_utf8 m.2 = true /\
  decodeTenantMark (entryText m) = Some m /\ (m.1 = "" -> decodeMark (markText m.2) = Some m.2).

Definition logOk (v2 : bool) (es : list mark) (frag : bytes) : Prop :=
  nl ∉ frag /\ Forall markOk es /\ (v2 = false -> Forall (fun m => m.1 = "") es).

Lemma markOk_text es : Forall markOk es -> Forall (fun l => nl ∉ l) (map entryText es).
Proof.
  intros H. apply Forall_map. eapply Forall_impl; [exact H|]. intros m (_ & ? & ? & _). by apply entryText_no_nl.
Qed.

Lemma log_segments v2 es frag : logOk v2 es frag -> splitNL (logBytes v2 es frag) = (header v2 :: map entryText es ++ [frag])%list.
Proof.
  intros (Hf & Hes & _). apply (splitNL_lines (header v2 :: map entryText es)); [|done].
  constructor; [apply header_no_nl|by apply markOk_text].
Qed.

Lemma log_torn v2 es frag : nl ∉ frag -> tornTail (logBytes v2 es frag) = negb (bool_decide (frag = [])).
Proof.
  intros Hf. unfold tornTail. rewrite (proj1 (logBytes_app v2 es frag [])).
  assert (logBytes v2 es [] ++ frag <> [])%list as Hn. { rewrite logBytes_cons. by destruct (header_cons v2) as [l ->]. }
  rewrite bool_decide_eq_false_2 by done. cbn [negb andb]. f_equal. destruct (logBytes_end v2 es) as [a Ha]. case_bool_decide as E.
  - subst. rewrite app_nil_r, Ha. apply endsNL_app.
  - by apply endsNL_not.
Qed.

(** *** Parsing *)

Lemma parse_entries hdr decode torn i es frag marks :
  (forall m, m ∈ es -> decode false (entryText m) = Ok (marks m)) -> torn = negb (bool_decide (frag = [])) ->
  parseLines hdr decode torn (S i) (map entryText es ++ [frag]) = Ok (concat (map marks es)).
Proof.
  intros Hdec Ht. revert i. induction es as [|m es IH]; intros i; cbn [map app parseLines concat].
  - subst torn. case_bool_decide as E; [by subst|done].
  - assert ((match map entryText es ++ [frag] with [] => true | _ :: _ => false end)%list = false) as -> by (by destruct es).
    cbn [andb Nat.eqb orb]. destruct (entryText_cons m) as [l El].
    rewrite bool_decide_eq_false_2 by (rewrite El; by apply trimCR_head).
    rewrite Hdec by left. cbn [result_bind]. rewrite IH by (intros; apply Hdec; by right). done.
Qed.

Lemma parse_log v2 hdr decode es frag marks : logOk v2 es frag -> hdr = header v2 ->
  (forall m, m ∈ es -> decode false (entryText m) = Ok (marks m)) ->
  parseLines hdr decode (tornTail (logBytes v2 es frag)) 0 (splitNL (logBytes v2 es frag)) = Ok (concat (map marks es)).
Proof.
  intros Hok -> Hdec. rewrite (log_segments v2) by done. rewrite log_torn by apply Hok. cbn [parseLines].
  assert ((match map entryText es ++ [frag] with [] => true | _ :: _ => false end)%list = false) as -> by (by destruct es).
  rewrite header_trim. rewrite (bool_decide_eq_true_2 (header v2 = header v2)) by done. cbn [andb Nat.eqb orb].
  by apply parse_entries.
Qed.

Lemma concat_singletons {A B} (f : A -> B) l : concat (map (fun x => [f x]) l) = map f l.
Proof. induction l as [|x l IH]; cbn; [done|]. by rewrite IH. Qed.

Lemma parseLog_marks es frag : logOk false es frag -> parseLogMarks (logBytes false es frag) = Ok (list_to_set es.*2).
Proof.
  intros Hok. unfold parseLogMarks. rewrite (parse_log false _ _ es frag (fun m => [("", m.2)])); [|done..|].
  - cbn [result_bind]. rewrite (concat_singletons (fun m : mark => ("", m.2))). do 2 f_equal. rewrite <- list_fmap_compose. done.
  - intros m Hm. destruct Hok as (_ & Hes & Hv1). rewrite Forall_forall in Hes. specialize (Hv1 eq_refl). rewrite Forall_forall in Hv1.
    destruct (Hes m Hm) as (Hne & _ & _ & _ & Hd). specialize (Hv1 m Hm). unfold decodeLog, entryText, tenantMarkText.
    rewrite (bool_decide_eq_true_2 (m.1 = "")), Hd by done. by rewrite bool_decide_eq_false_2.
Qed.

Lemma parseTenant_marks es frag : logOk true es frag -> parseTenantLogMarks (logBytes true es frag) = Ok (scopedOf es, legacyOf es).
Proof.
  intros Hok. unfold parseTenantLogMarks. rewrite (parse_log true _ _ es frag (fun m => [m])); [|done..|].
  - cbn [result_bind]. by rewrite (concat_singletons (fun m : mark => m)), map_id.
  - intros [t e] Hm. destruct Hok as (_ & Hes & _). rewrite Forall_forall in Hes.
    destruct (Hes _ Hm) as (Hne & _ & _ & Hd & _). unfold decodeTenantLog. rewrite Hd. by rewrite bool_decide_eq_false_2.
Qed.

(** *** Classification *)

Definition kindOf (v2 : bool) : stateKind := if v2 then stateTenantLog else stateLog.

Lemma classify_header v2 rest : classifyFirstLine (header v2 ++ nl :: rest) = Ok (kindOf v2) /\ classifyFirstLine (header v2) = Ok (kindOf v2).
Proof.
  unfold classifyFirstLine. rewrite upToNL_line by apply header_no_nl. by destruct v2.
Qed.

Lemma classify_log v2 es frag : classifyStateFile (Some (logBytes v2 es frag)) = Ok (kindOf v2).
Proof.
  unfold classifyStateFile. destruct (logBytes v2 es frag) as [|c l] eqn:E.
  { rewrite logBytes_cons in E. by destruct (header_cons v2) as [x Hx]; rewrite Hx in E. }
  rewrite <- E, logBytes_cons. pose proof (header_length v2).
  rewrite take_app_ge by (unfold classifyReadCap; lia). destruct (classifyReadCap - length (header v2))%nat eqn:En; [unfold classifyReadCap in En; lia|].
  apply classify_header.
Qed.

Lemma firstLine_log v2 es frag : firstLine (logBytes v2 es frag) = header v2.
Proof.
  unfold firstLine. rewrite logBytes_cons, upToNL_line by apply header_no_nl. cbn zeta. pose proof (header_length v2).
  rewrite (proj2 (Nat.ltb_lt _ _)) by (rewrite length_app; cbn; lia). by rewrite (proj2 (Nat.ltb_lt _ _)) by (unfold classifyReadCap; lia).
Qed.

Lemma log_not_blank v2 es frag : blank (logBytes v2 es frag) = false.
Proof.
  unfold blank. apply not_true_iff_false. rewrite forallb_forall. intros H. specialize (H (byteZ "{"%char)).
  assert (In (byteZ "{"%char) (runes (string_of_list_ascii (logBytes v2 es frag)))) as Hin; [|by apply H in Hin; vm_compute in Hin].
  apply list_elem_of_In, ascii_in_runes; [done|]. unfold chars. rewrite list_ascii_of_string_of_list_ascii, logBytes_cons.
  destruct (header_cons v2) as [l ->]. left.
Qed.

(** *** Rendering *)

Lemma elem_scopedOf es k : k ∈ scopedOf es <-> exists t e, (t, e) ∈ es /\ t <> "" /\ k = replayIdentityKey t e.
Proof.
  unfold scopedOf. rewrite elem_of_list_to_set, list_elem_of_In, in_map_iff. split.
  - intros ([t e] & <- & [Hin Hf]%filter_In). cbn in Hf. apply negb_true_iff, bool_decide_eq_false in Hf. exists t, e. by rewrite list_elem_of_In.
  - intros (t & e & Hin & Ht & ->). exists (t, e). split; [done|]. apply filter_In. rewrite <- list_elem_of_In. split; [done|]. cbn. by rewrite bool_decide_eq_false_2.
Qed.

Lemma elem_legacyOf es e : e ∈ legacyOf es <-> ("", e) ∈ es.
Proof.
  unfold legacyOf. rewrite elem_of_list_to_set, list_elem_of_fmap. split.
  - intros ([t x] & -> & [Hin Hf]%list_elem_of_In%filter_In). cbn in *. apply bool_decide_eq_true in Hf as ->. by apply list_elem_of_In.
  - intros Hin. exists ("", e). split; [done|]. apply list_elem_of_In, filter_In. by rewrite <- list_elem_of_In.
Qed.

Definition unscoped (ids : gset string) : list mark := map (pair "") (sort_strings (elements ids)).

Lemma elem_unscoped ids m : m ∈ unscoped ids <-> m.1 = "" /\ m.2 ∈ ids.
Proof.
  unfold unscoped. rewrite list_elem_of_In, in_map_iff. setoid_rewrite <- list_elem_of_In. setoid_rewrite sort_strings_perm. setoid_rewrite elem_of_elements.
  destruct m as [t e]; cbn. split; [intros (x & [= <- <-] & ?); done|]. intros [-> ?]. by exists e.
Qed.

Lemma asLines_marks l : concat (map markLine l) = asLines (map entryText (map (pair "") l)).
Proof. induction l as [|e l IH]; [done|]. cbn. by rewrite IH. Qed.

Lemma appendLogBytes_log ids line : appendLogBytes ids line = logBytes false (unscoped ids) line.
Proof.
  unfold appendLogBytes. rewrite logBytes_cons, asLines_marks. unfold replayLogHeader. by rewrite <- app_assoc.
Qed.

Definition keyMark (k : string) : mark := (default "" (replayTenantFromIdentity k), replayEventIDFromIdentity k).
Definition scopedMarksOf (scoped : gset string) : list mark := map keyMark (sort_strings (elements scoped)).

(** The keys of a scoped set come from marks. *)
Definition keysOk (P : mark -> Prop) (scoped : gset string) : Prop :=
  forall k, k ∈ scoped -> exists t e, t <> "" /\ e <> "" /\ k = replayIdentityKey t e /\ P (t, e).

Lemma elem_scopedMarks P scoped t e : keysOk P scoped ->
  ((t, e) ∈ scopedMarksOf scoped <-> t <> "" /\ e <> "" /\ replayIdentityKey t e ∈ scoped).
Proof.
  intros Hk. unfold scopedMarksOf. rewrite list_elem_of_In, in_map_iff. setoid_rewrite <- list_elem_of_In. setoid_rewrite sort_strings_perm. setoid_rewrite elem_of_elements.
  split.
  - intros (k & Hkm & Hin). destruct (Hk k Hin) as (t' & e' & Ht & He & -> & _). unfold keyMark in Hkm.
    rewrite tenant_of_key, event_of_key in Hkm by done. injection Hkm as <- <-. done.
  - intros (Ht & He & Hin). eexists. split; [|exact Hin]. unfold keyMark. by rewrite tenant_of_key, event_of_key.
Qed.

Lemma tenantLogBytes_log P scoped legacy line : keysOk P scoped ->
  tenantLogBytes scoped legacy line = logBytes true (scopedMarksOf scoped ++ unscoped legacy) line.
Proof.
  intros Hk. unfold tenantLogBytes, unscoped, scopedMarksOf. rewrite logBytes_cons, asLines_marks. unfold replayTenantLogHeader.
  rewrite <- app_assoc. cbn [app]. unfold header. do 2 f_equal. rewrite map_app, asLines_app, <- app_assoc. f_equal.
  assert (forall k, k ∈ sort_strings (elements scoped) -> exists t e, t <> "" /\ e <> "" /\ k = replayIdentityKey t e) as Hl.
  { intros k. rewrite sort_strings_perm, elem_of_elements. intros (t & e & ? & ? & ? & _)%Hk. eauto. }
  induction (sort_strings (elements scoped)) as [|k l IH]; [done|]. cbn [map concat].
  rewrite IH by (intros; apply Hl; by right). destruct (Hl k) as (t & e & Ht & He & ->); [left|].
  unfold identityLine, keyMark. rewrite tenant_of_key, event_of_key by done. by rewrite bool_decide_eq_false_2.
Qed.

(** *** Repair *)

Definition repaired (content : bytes) (fix_ : repair) : bytes :=
  match fix_ with Clean => content | Truncated c | Rebuilt c => c end.

Lemma truncate_tail (a f : bytes) k : nl ∉ f -> f <> [] ->
  let c := (a ++ nl :: f)%list in
  let part := completePart (take (length c - k - 1) (drop k c)) in
  (k < length c)%nat -> part <> [] -> take (k + length part) c = (a ++ [nl])%list.
Proof.
  intros Hf Hne c part Hk Hpn. destruct (exists_last Hne) as (f0 & x & ->). apply not_elem_of_app in Hf as [Hf0 _].
  set (b := (a ++ nl :: f0)%list). assert (c = b ++ [x])%list as Hc by (unfold c, b; by rewrite <- app_assoc).
  assert (length c = length b + 1)%nat as Hl by (rewrite Hc, length_app; done).
  assert (take (length c - k - 1) (drop k c) = drop k b) as E.
  { rewrite Hl, Hc, drop_app_le by lia. rewrite take_app_le by (rewrite length_drop; lia). apply take_ge. rewrite length_drop. lia. }
  subst part. rewrite E in *. unfold b in Hpn |- *. destruct (decide (k <= length a)%nat) as [Hka|Hka].
  - rewrite drop_app_le by done. rewrite completePart_app by done. rewrite length_app, length_drop. cbn [length].
    replace (k + (length a - k + 1))%nat with (length a + 1)%nat by lia. unfold c.
    rewrite take_app_ge by lia. by replace (length a + 1 - length a)%nat with 1%nat by lia.
  - destruct Hpn. apply completePart_none. rewrite drop_app_ge by lia. intros Hin. apply Hf0.
    destruct (k - length a)%nat eqn:Ek; [lia|]. cbn in Hin. rewrite <- (take_drop n f0). apply elem_of_app. by right.
Qed.

Lemma logBytes_split v2 es frag : exists a, logBytes v2 es frag = (a ++ nl :: frag)%list /\ logBytes v2 es [] = (a ++ [nl])%list.
Proof.
  destruct (logBytes_end v2 es) as [a Ha]. exists a. split; [|done]. rewrite (proj1 (logBytes_app v2 es frag [])), Ha. by rewrite <- app_assoc.
Qed.

Lemma rebuild_log v2 es frag : logOk v2 es frag ->
  exists es', rebuildLog (logBytes v2 es frag) = Ok (logBytes v2 es' []) /\ (forall m, m ∈ es' <-> m ∈ es).
Proof.
  intros Hok. unfold rebuildLog. rewrite classify_log. pose proof Hok as (_ & Hes & Hv). rewrite Forall_forall in Hes. destruct v2; cbn [kindOf].
  - rewrite parseTenant_marks by done. cbn [result_bind fst snd].
    assert (keysOk markOk (scopedOf es)) as Hk.
    { intros k (t & e & Hin & Ht & ->)%elem_scopedOf. exists t, e. pose proof (Hes _ Hin) as Hm. split_and!; [done|exact (proj1 Hm)|done..]. }
    rewrite (tenantLogBytes_log markOk) by done. eexists. split; [done|]. intros [t e].
    rewrite elem_of_app, (elem_scopedMarks markOk), elem_scopedOf, elem_unscoped by done. cbn [fst snd]. rewrite elem_legacyOf. split.
    + intros [(Ht & He & t' & e' & Hin & Ht' & E)|[-> ?]]; [|done]. apply key_inj in E. by rewrite E.
    + intros Hin. destruct (decide (t = "")) as [->|Ht]; [by right|]. left. destruct (Hes _ Hin) as [He _]. split_and!; [done..|]. by exists t, e.
  - rewrite parseLog_marks by done. cbn [result_bind]. rewrite appendLogBytes_log. eexists. split; [done|].
    specialize (Hv eq_refl). rewrite Forall_forall in Hv. intros [t e]. rewrite elem_unscoped. cbn [fst snd]. rewrite elem_of_list_to_set, list_elem_of_fmap. split.
    + intros (-> & [t' e'] & -> & Hin). pose proof (Hv _ Hin) as E. cbn in E. by subst.
    + intros Hin. pose proof (Hv _ Hin) as E. cbn in E. subst. split; [done|]. by exists ("", e).
Qed.

Lemma logOk_same v2 es es' : Forall markOk es -> (v2 = false -> Forall (fun m => m.1 = "") es) ->
  (forall m, m ∈ es' -> m ∈ es) -> logOk v2 es' [].
Proof.
  intros H1 H2 H. split_and!; [apply not_elem_of_nil|rewrite Forall_forall in *; auto|].
  intros E. specialize (H2 E). rewrite Forall_forall in *. auto.
Qed.

(** The repair leaves the complete lines, or a log of the same marks. *)
Lemma repair_log v2 es frag : logOk v2 es frag ->
  exists fix_ es', repairTornTail (logBytes v2 es frag) = Ok fix_ /\ repaired (logBytes v2 es frag) fix_ = logBytes v2 es' [] /\
    logOk v2 es' [] /\ (forall m, m ∈ es' <-> m ∈ es) /\ (es' = es \/ exists c, fix_ = Rebuilt c).
Proof.
  intros Hok. assert (logOk v2 es []) as Hok0 by (apply (logOk_same v2 es es); [apply Hok..|done]).
  unfold repairTornTail. destruct (logBytes_split v2 es frag) as (a & Hl & Hl0).
  destruct (decide (frag = [])) as [->|Hne].
  { assert (endsNL (logBytes v2 es []) = true) as -> by (rewrite Hl0; apply endsNL_app). rewrite orb_true_r. exists Clean, es. split_and!; try done. by left. }
  assert (endsNL (logBytes v2 es frag) = false) as ->.
  { rewrite (proj1 (logBytes_app v2 es frag [])). apply endsNL_not; [apply Hok|done]. }
  rewrite bool_decide_eq_false_2 by (rewrite Hl; by destruct a).
  cbn [orb]. cbn zeta. set (k := (length (logBytes v2 es frag) - Nat.min (length (logBytes v2 es frag)) tailCheckWindow)%nat).
  assert (k < length (logBytes v2 es frag))%nat as Hk.
  { rewrite Hl, length_app. unfold k. rewrite Hl, length_app. cbn [length]. unfold tailCheckWindow. lia. }
  replace (Nat.min _ _ - 1)%nat with (length (logBytes v2 es frag) - k - 1)%nat by (unfold k; lia).
  case_bool_decide as Hp.
  - destruct (rebuild_log v2 es frag Hok) as (es' & -> & Hin). cbn [result_bind]. eexists _, es'. split; [done|]. split_and!; [done| |done|right; eauto].
    apply (logOk_same v2 es es'); [apply Hok..|]. intros m. apply Hin.
  - eexists _, es. split; [done|]. split_and!; [|done..|by left]. cbn [repaired]. rewrite Hl0. rewrite Hl in Hk, Hp |- *.
    apply (truncate_tail a frag k); try done. apply Hok.
Qed.

(** *** Loading *)

Lemma scoped_v1 es : Forall (fun m : mark => m.1 = "") es -> scopedOf es = ∅.
Proof.
  intros H. apply set_eq. intros k. rewrite elem_scopedOf. split; [|set_solver].
  intros (t & e & Hin & Ht & _). rewrite Forall_forall in H. by specialize (H _ Hin).
Qed.

Lemma allTrue_lookup ids e b : allTrue ids !! e = Some b <-> e ∈ ids /\ b = true.
Proof. unfold allTrue. rewrite lookup_gset_to_gmap_Some. naive_solver. Qed.

(** What a process knows after reading a file with marks [es]. *)
Definition knows (s : replayState) (es : list mark) : Prop :=
  rs_scopedMarks s = scopedOf es /\ (forall e, e ∈ rs_legacyMarks s <-> ("", e) ∈ es) /\
  (forall e b, rs_Replayed s !! e = Some b <-> b = true /\ exists t, (t, e) ∈ es) /\ rs_legacyTenantScope s = "".

Lemma load_log v2 es frag : logOk v2 es frag -> exists s, LoadReplayState (Some (logBytes v2 es frag)) = Ok s /\ knows s es.
Proof.
  intros Hok. pose proof Hok as (_ & Hes & Hv). unfold LoadReplayState. rewrite log_not_blank, firstLine_log. rewrite (proj2 (classify_header v2 [])). cbn [result_bind].
  rewrite Forall_forall in Hes. destruct v2; cbn [kindOf].
  - rewrite parseTenant_marks by done. cbn [result_bind fst snd]. eexists. split; [done|]. unfold knows. cbn. split_and!; [done|apply elem_legacyOf| |done].
    intros e b. rewrite allTrue_lookup, elem_of_union, elem_legacyOf, elem_of_list_to_set, list_elem_of_In, filter_In, in_map_iff.
    setoid_rewrite <- list_elem_of_In. setoid_rewrite elem_of_elements. setoid_rewrite elem_scopedOf. split.
    + intros [[[(k & <- & t & e' & Hin & Ht & ->) _]|Hin] ->]; (split; [done|]); [|eauto]. rewrite event_of_key by done. eauto.
    + intros (-> & t & Hin). split; [|done]. destruct (decide (t = "")) as [->|Ht]; [by right|left].
      split; [exists (replayIdentityKey t e); rewrite event_of_key by done; eauto 6|]. by rewrite bool_decide_eq_false_2 by apply (Hes _ Hin).
  - rewrite parseLog_marks by done. cbn [result_bind]. eexists. split; [done|]. specialize (Hv eq_refl). unfold knows. cbn. rewrite scoped_v1 by done.
    rewrite Forall_forall in Hv. assert (forall e, e ∈ (list_to_set es.*2 : gset string) <-> exists t, (t, e) ∈ es) as Hl.
    { intros e. rewrite elem_of_list_to_set, list_elem_of_fmap. split; [intros ([t e'] & -> & ?); eauto|]. intros [t ?]. by exists (t, e). }
    split_and!; [done| |intros e b; rewrite allTrue_lookup, Hl; naive_solver|done].
    intros e. rewrite Hl. split; [|eauto]. intros [t Hin]. pose proof (Hv _ Hin) as E. cbn in E. by subst.
Qed.

Lemma load_absent : exists s, LoadReplayState None = Ok s /\ knows s [].
Proof.
  exists emptyState. split; [done|]. unfold knows. cbn. split_and!; [done|set_solver| |done]. intros e b. rewrite lookup_empty. set_solver.
Qed.

Lemma knows_Marked s es t e : knows s es -> Forall markOk es -> (Marked s t e = true <-> t <> "" /\ (t, e) ∈ es).
Proof.
  intros (Hs & _ & _ & Hsc) Hes. rewrite Forall_forall in Hes. unfold Marked. rewrite Hsc, Hs. cbn. rewrite orb_false_r, !andb_true_iff, !negb_true_iff, !bool_decide_eq_false, bool_decide_eq_true, elem_scopedOf. split.
  - intros [[Ht He] (t' & e' & Hin & Ht' & E)]. apply key_inj in E. by rewrite E.
  - intros [Ht Hin]. split_and!; [done|apply (Hes _ Hin)|]. by exists t, e.
Qed.

Lemma knows_marked s es e : knows s es -> (marked s e = true <-> exists t, (t, e) ∈ es).
Proof.
  intros (_ & _ & Hr & _). unfold marked. destruct (rs_Replayed s !! e) as [b|] eqn:E; cbn.
  - apply Hr in E. naive_solver.
  - split; [done|]. intros H. assert (rs_Replayed s !! e = Some true) by (by apply Hr). congruence.
Qed.

(** ** Planning a mark *)

(** A mark of the world's: its tenant is empty for [Mark]. *)
Definition planOf (s : replayState) (m : mark) (file : option bytes) : result plan :=
  if bool_decide (m.1 = "") then markPlan m.2 file else markTenantPlan s m.1 m.2 file.

Definition memOk (A : gset mark) (s : replayState) : Prop :=
  keysOk (fun m => m ∈ A /\ markOk m) (rs_scopedMarks s) /\ forall e, e ∈ rs_legacyMarks s -> ("", e) ∈ A /\ markOk ("", e).

Lemma append_entry v2 es m : logBytes v2 es (asLine (entryText m)) = logBytes v2 (es ++ [m]) [].
Proof. rewrite (proj1 (logBytes_app v2 es _ [])), (proj2 (logBytes_app v2 es [] [m])). f_equal. cbn. by rewrite app_nil_r. Qed.

(** The whole file a rewrite writes. *)
Definition rewrites (F : list mark) (A : gset mark) (m : mark) (c : bytes) : Prop :=
  exists v2 es, c = logBytes v2 es [] /\ logOk v2 es [] /\ m ∈ es /\ (forall x, x ∈ F -> x ∈ es) /\ (forall x, x ∈ es -> x ∈ A \/ x = m).

Lemma tenant_rewrite (F : list mark) A s m legacy : memOk A s -> markOk m ->
  (forall x, x ∈ F -> x.1 = "" /\ x.2 ∈ legacy) -> (forall e, e ∈ legacy -> ("", e) ∈ A /\ markOk ("", e)) ->
  rewrites F A m (tenantLogBytes (rs_scopedMarks s) legacy (asLine (entryText m))).
Proof.
  intros [Hk _] Hm HF Hl. rewrite (tenantLogBytes_log _ _ _ _ Hk), append_entry. eexists true, _. split; [done|].
  assert (forall x, x ∈ (scopedMarksOf (rs_scopedMarks s) ++ unscoped legacy)%list -> x ∈ A /\ markOk x) as Hall.
  { intros [t e]. rewrite elem_of_app, elem_unscoped, (elem_scopedMarks _ _ _ _ Hk). intros [(Ht & _ & (t' & e' & Ht' & _ & E & H)%Hk)|[Et Hin]].
    - apply key_inj in E. by rewrite E.
    - cbn in Et, Hin. subst. by apply Hl. }
  split_and!.
  - split_and!; [apply not_elem_of_nil| |done]. apply Forall_app. split; [|by constructor]. rewrite Forall_forall. intros x Hx. by apply Hall.
  - apply elem_of_app. right. left.
  - intros x Hx. apply elem_of_app. left. apply elem_of_app. right. rewrite elem_unscoped. by apply HF.
  - intros x [Hx|Hx]%elem_of_app; [left; by apply Hall|]. apply list_elem_of_singleton in Hx. by right.
Qed.

End codec.

End ReplayProps.
