(* ===== verification/ReplaySystem.v ===== *)
(** * Processes that share a replay log

    The daemon and cron runs of internal/kafka share one state file: they load
    it, mark replayed events under its lock, sync after the lock is released,
    and may stop at any point; a write may stop after any byte, a directory
    sync may fail after the rename, and power may fail.
    [replay_marks_survive]: the log always loads, has every mark that was
    acknowledged and none that was never attempted, and no mark is refused.
    [unsynced_rename_loses_mark] is the case the code leaves open: a rename
    whose directory sync failed is never synced by the retry. *)

From Stdlib Require Import Ascii String.
From S2P Require Import Prelude GoStr Json ReplayState ReplayProps.
Open Scope string_scope.
Open Scope Z_scope.
Import Json ReplayState ReplayProps.

Module ReplaySystem.

(** ** The system *)

(** A process: its memory, and the mark it appended and has not synced. *)
Record proc : Type := mkproc { pr_state : replayState; pr_pending : option mark }.

(** [rw_durable] is the content of the file that survives a power loss;
    [rw_shadow] is, after a rename whose directory sync failed, the file the
    directory may still name on disk. *)
Record rworld : Type := mkrworld {
  rw_file : option bytes;
  rw_durable : option bytes;
  rw_shadow : option (option bytes);
  rw_procs : gmap nat proc;
  rw_attempted : gset mark;
  rw_acked : gset mark
}.

Definition initial : rworld := mkrworld None None None ∅ ∅ ∅.

(** What a power loss leaves of a file that was not synced: what was written,
    what was synced, or the synced lines and a part of what was written after
    them. *)
Definition survives (durable file c : option bytes) : Prop :=
  c = file \/ c = durable \/
  exists d rest n, durable = Some d /\ file = Some (completePart d ++ rest)%list /\ c = Some (completePart d ++ take n rest)%list.

Definition remember (m : mark) (s : replayState) : replayState :=
  if bool_decide (m.1 = "") then rememberMark m.2 s else rememberTenant m.1 m.2 s.

(** The durable content after a repair: only a rebuild is synced. *)
Definition repairedDurable (durable : option bytes) (fix_ : repair) : option bytes :=
  match fix_ with Rebuilt c => Some c | _ => durable end.
Definition repairedShadow (shadow : option (option bytes)) (fix_ : repair) : option (option bytes) :=
  match fix_ with Rebuilt _ => None | _ => shadow end.

Section codec.
Context {codec : MarkCodec}.

Inductive rstep (w : rworld) : rworld -> Prop :=
  (** A process starts. *)
  | step_load p s : LoadReplayState (rw_file w) = Ok s ->
      rstep w (mkrworld (rw_file w) (rw_durable w) (rw_shadow w) (<[p := mkproc s None]> (rw_procs w)) (rw_attempted w) (rw_acked w))
  | step_scope p pr t : rw_procs w !! p = Some pr ->
      rstep w (mkrworld (rw_file w) (rw_durable w) (rw_shadow w)
        (<[p := mkproc (SetLegacyTenantScope t (pr_state pr)) (pr_pending pr)]> (rw_procs w)) (rw_attempted w) (rw_acked w))
  | step_stop p : rstep w (mkrworld (rw_file w) (rw_durable w) (rw_shadow w) (delete p (rw_procs w)) (rw_attempted w) (rw_acked w))
  (** Under the lock: the repair, and the first [n] bytes of the line; a whole
      line leaves the mark to sync, unless closing the file or the lock fails. *)
  | step_append p s m fix_ line n pending : rw_procs w !! p = Some (mkproc s None) -> markOk m ->
      planOf s m (rw_file w) = Ok (Append fix_ line) -> (pending = None \/ pending = Some m /\ n = length line) ->
      rstep w (mkrworld (Some (repaired (default [] (rw_file w)) fix_ ++ take n line)%list) (repairedDurable (rw_durable w) fix_) (repairedShadow (rw_shadow w) fix_)
        (<[p := mkproc s pending]> (rw_procs w)) ({[m]} ∪ rw_attempted w) (rw_acked w))
  (** The rebuild renamed its file and failed to sync the directory. *)
  | step_rebuild_unknown p s m c line : rw_procs w !! p = Some (mkproc s None) -> markOk m ->
      planOf s m (rw_file w) = Ok (Append (Rebuilt c) line) ->
      rstep w (mkrworld (Some c) (Some c) (Some (default (rw_durable w) (rw_shadow w))) (rw_procs w) (rw_attempted w) (rw_acked w))
  | step_sync p s m : rw_procs w !! p = Some (mkproc s (Some m)) ->
      rstep w (mkrworld (rw_file w) (rw_file w) (rw_shadow w) (<[p := mkproc (remember m s) None]> (rw_procs w)) (rw_attempted w) ({[m]} ∪ rw_acked w))
  | step_sync_failed p s m : rw_procs w !! p = Some (mkproc s (Some m)) ->
      rstep w (mkrworld (rw_file w) (rw_durable w) (rw_shadow w) (<[p := mkproc s None]> (rw_procs w)) (rw_attempted w) (rw_acked w))
  (** A rewrite through a synced temporary file, and its directory synced or not. *)
  | step_rewrite p s m c : rw_procs w !! p = Some (mkproc s None) -> markOk m -> planOf s m (rw_file w) = Ok (Rewrite c) ->
      rstep w (mkrworld (Some c) (Some c) None (<[p := mkproc (remember m s) None]> (rw_procs w)) ({[m]} ∪ rw_attempted w) ({[m]} ∪ rw_acked w))
  | step_rewrite_unknown p s m c : rw_procs w !! p = Some (mkproc s None) -> markOk m -> planOf s m (rw_file w) = Ok (Rewrite c) ->
      rstep w (mkrworld (Some c) (Some c) (Some (default (rw_durable w) (rw_shadow w))) (rw_procs w) ({[m]} ∪ rw_attempted w) (rw_acked w))
  (** Power fails, with the directory as it was written. *)
  | step_power c : survives (rw_durable w) (rw_file w) c ->
      rstep w (mkrworld c c None ∅ (rw_attempted w) (rw_acked w)).

(** Power fails, and the directory names the file it had before a rename that
    was never synced. *)
Inductive dirLoss (w : rworld) : rworld -> Prop :=
  | dir_loss c : rw_shadow w = Some c -> dirLoss w (mkrworld c c None ∅ (rw_attempted w) (rw_acked w)).

Definition reachable (w : rworld) : Prop := rtc rstep initial w.
Definition reachableLossy (w : rworld) : Prop := rtc (fun a b => rstep a b \/ dirLoss a b) initial w.

(** ** The invariant *)

(** The durable and the written file, with the marks each has. *)
Inductive filesOk : option bytes -> option bytes -> list mark -> list mark -> Prop :=
  | files_none : filesOk None None [] []
  | files_log v2 D fd more ff : logOk v2 D fd -> logOk v2 (D ++ more) ff ->
      filesOk (Some (logBytes v2 D fd)) (Some (logBytes v2 (D ++ more) ff)) D (D ++ more).

Record inv (w : rworld) (D F : list mark) : Prop := mkinv {
  inv_files : filesOk (rw_durable w) (rw_file w) D F;
  inv_acked : forall m, m ∈ rw_acked w -> m ∈ D;
  inv_attempted : forall m, m ∈ F -> m ∈ rw_attempted w;
  inv_pending : forall p pr m, rw_procs w !! p = Some pr -> pr_pending pr = Some m -> m ∈ F;
  inv_memory : forall p pr, rw_procs w !! p = Some pr -> memOk (rw_attempted w) (pr_state pr)
}.

Lemma filesOk_sub d f D F m : filesOk d f D F -> m ∈ D -> m ∈ F.
Proof. intros Hf Hm. destruct Hf; [done|]. apply elem_of_app. by left. Qed.

Lemma filesOk_marks d f D F : filesOk d f D F -> Forall markOk F.
Proof. intros [|? ? ? ? ? _ (_ & ? & _)]; [constructor|done]. Qed.

Lemma files_same v2 es frag : logOk v2 es frag -> filesOk (Some (logBytes v2 es frag)) (Some (logBytes v2 es frag)) es es.
Proof. intros H. rewrite <- (app_nil_r es) at 2 4. constructor; by rewrite ?app_nil_r. Qed.

Lemma filesOk_sync d f D F : filesOk d f D F -> filesOk f f F F.
Proof. intros []; [constructor|by apply files_same]. Qed.

Lemma memOk_mono A A' s : (forall m, m ∈ A -> m ∈ A') -> memOk A s -> memOk A' s.
Proof.
  intros HA [Hk Hl]. split; [|intros e He; destruct (Hl e He); auto].
  intros k (t & e & ? & ? & ? & ? & ?)%Hk. exists t, e. split_and!; auto.
Qed.

Lemma memOk_remember A m s : memOk A s -> m ∈ A -> markOk m -> memOk A (remember m s).
Proof.
  intros [Hk Hl] HA Hm. unfold remember. destruct m as [t e]. cbn. case_bool_decide as Ht.
  - subst. split; [done|]. cbn. intros x [->%elem_of_singleton|Hx]%elem_of_union; [done|by apply Hl].
  - split; [|done]. cbn. intros k [->%elem_of_singleton|?%Hk]%elem_of_union; [|done]. exists t, e. split_and!; try done. apply Hm.
Qed.

Lemma memOk_known A s es : knows s es -> Forall markOk es -> (forall m, m ∈ es -> m ∈ A) -> memOk A s.
Proof.
  intros (Hs & Hl & _) Hes HA. rewrite Forall_forall in Hes. split.
  - intros k. rewrite Hs, elem_scopedOf. intros (t & e & Hin & Ht & ->). exists t, e. split_and!; auto. apply (Hes _ Hin).
  - intros e Hin%Hl. auto.
Qed.

Lemma load_files d f D F : filesOk d f D F -> exists s, LoadReplayState f = Ok s /\ knows s F.
Proof. intros []; [apply load_absent|by apply load_log]. Qed.

(** ** The plan of a mark *)

(** The plan appends the mark's line to a log of the same marks, whose complete
    lines the durable file has unless it was rebuilt, or writes a whole file. *)
Definition planOk (d f : option bytes) (D F : list mark) (A : gset mark) (m : mark) (pl : plan) : Prop :=
  match pl with
  | Append fix_ line =>
      line = asLine (entryText m) /\
      exists v2 D' es, filesOk (repairedDurable d fix_) (Some (repaired (default [] f) fix_)) D' es /\
        repaired (default [] f) fix_ = logBytes v2 es [] /\ logOk v2 (es ++ [m]) [] /\
        (forall x, x ∈ D -> x ∈ D') /\ (forall x, x ∈ es <-> x ∈ F) /\
        (forall c, fix_ = Rebuilt c -> D' = es)
  | Rewrite c => rewrites F A m c
  end.

Lemma logOk_snoc v2 es m : logOk v2 es [] -> markOk m -> (v2 = false -> m.1 = "") -> logOk v2 (es ++ [m]) [].
Proof.
  intros (? & ? & Hv) Hm H1. split_and!; [done|apply Forall_app; by rewrite Forall_singleton|].
  intros E. apply Forall_app. split; [by apply Hv|]. rewrite Forall_singleton. by apply H1.
Qed.

Lemma append_plan v2 D fd more ff A m : logOk v2 D fd -> logOk v2 (D ++ more) ff -> markOk m -> (v2 = false -> m.1 = "") ->
  exists fix_, repairTornTail (logBytes v2 (D ++ more) ff) = Ok fix_ /\
    planOk (Some (logBytes v2 D fd)) (Some (logBytes v2 (D ++ more) ff)) D (D ++ more) A m (Append fix_ (asLine (entryText m))).
Proof.
  intros HD HF Hm Hv. destruct (repair_log v2 _ ff HF) as (fix_ & es & Hr & Hc & Hes & Hin & Hcase). exists fix_. split; [done|].
  split; [done|]. cbn [default from_option]. destruct fix_ as [|c|c]; cbn [repairedDurable] in *.
  1,2: destruct Hcase as [->|[? [=]]]; exists v2, D, (D ++ more)%list; cbn [from_option] in *; unfold id in *; rewrite Hc; split_and!; try done; [by constructor|by apply logOk_snoc].
  exists v2, es, es. cbn [repaired] in *. rewrite Hc. split_and!; try done; [by apply files_same|by apply logOk_snoc|].
  intros x Hx. apply Hin, elem_of_app. by left.
Qed.

Lemma plan_ok d f D F A s m : filesOk d f D F -> memOk A s -> markOk m -> (forall x, x ∈ F -> x ∈ A) ->
  exists pl, planOf s m f = Ok pl /\ planOk d f D F A m pl.
Proof.
  intros Hf Hs Hm HF. destruct m as [t e]. unfold planOf. cbn [fst snd]. destruct Hf as [|v2 D fd more ff HD HFl].
  - case_bool_decide as Ht.
    + subst t. unfold markPlan. cbn. eexists. split; [done|]. exists false, [("", e)]. rewrite appendLogBytes_log. unfold unscoped at 1. rewrite elements_empty.
      split_and!; [exact (append_entry false [] ("", e))|split_and!; [apply not_elem_of_nil|by rewrite Forall_singleton|by rewrite Forall_singleton]|left|set_solver|].
      intros x Hx%list_elem_of_singleton. by right.
    + unfold markTenantPlan. rewrite !bool_decide_eq_false_2 by (done || apply Hm). cbn. eexists. split; [done|].
      apply (tenant_rewrite [] A s (t, e)); [done|done|set_solver|]. intros x Hx. by apply Hs.
  - case_bool_decide as Ht.
    + subst t. unfold markPlan. rewrite classify_log. destruct (append_plan v2 D fd more ff A ("", e) HD HFl Hm ltac:(done)) as (fix_ & Hr & Hp).
      exists (Append fix_ (asLine (entryText ("", e)))). split; [|done]. destruct v2; cbn [kindOf result_bind default from_option] in *; unfold id; rewrite Hr; done.
    + unfold markTenantPlan. rewrite !bool_decide_eq_false_2 by (done || apply Hm). cbn [negb andb guard_err result_bind]. rewrite classify_log.
      destruct v2; cbn [kindOf result_bind].
      * destruct (append_plan true D fd more ff A (t, e) HD HFl Hm ltac:(done)) as (fix_ & Hr & Hp).
        exists (Append fix_ (asLine (entryText (t, e)))). split; [|done]. cbn [default from_option]. unfold id. rewrite Hr. done.
      * unfold tenantRewriteContent. cbn [default from_option]. unfold id. rewrite parseLog_marks by done. cbn [result_bind]. eexists. split; [done|].
        destruct HFl as (_ & Hes & Hv). specialize (Hv eq_refl). rewrite Forall_forall in Hes, Hv.
        apply (tenant_rewrite (D ++ more) A s (t, e)); [done|done| |].
        -- intros x Hx. split; [by apply Hv|]. apply elem_of_union_r, elem_of_list_to_set, list_elem_of_fmap. by exists x.
        -- intros x [Hx|Hx]%elem_of_union; [by apply Hs|]. apply elem_of_list_to_set, list_elem_of_fmap in Hx as ([t' x'] & -> & Hx).
           pose proof (Hv _ Hx) as E. cbn in E. subst. split; [by apply HF|by apply Hes].
Qed.

(** ** Every step keeps the invariant *)

Lemma logBytes_inj v2 v2' es ff : logBytes v2' es ff = logBytes v2 es [] -> v2' = v2 /\ ff = [].
Proof.
  intros H. pose proof (classify_log v2' es ff) as Hc. rewrite H, classify_log in Hc. assert (v2' = v2) as -> by (by destruct v2, v2').
  split; [done|]. rewrite (proj1 (logBytes_app v2 es ff [])) in H. rewrite <- (app_nil_r (logBytes v2 es [])) in H at 2. by apply app_inv_head in H.
Qed.

Lemma entry_cut m n : markOk m -> take n (asLine (entryText m)) = asLine (entryText m) \/ (n <> length (asLine (entryText m)) /\ nl ∉ take n (asLine (entryText m))).
Proof.
  intros (_ & H1 & H2 & _). unfold asLine. rewrite length_app. cbn [length]. destruct (decide (n <= length (entryText m))%nat) as [Hn|Hn].
  - right. split; [lia|]. rewrite take_app_le by done. apply not_elem_take. by apply entryText_no_nl.
  - left. apply take_ge. rewrite length_app. cbn. lia.
Qed.

(** An append of some bytes of a mark's line. *)
Lemma files_append d v2 D es m n : filesOk d (Some (logBytes v2 es [])) D es -> logOk v2 (es ++ [m]) [] ->
  exists F, filesOk d (Some (logBytes v2 es [] ++ take n (asLine (entryText m)))%list) D F /\
    (forall x, x ∈ es -> x ∈ F) /\ (forall x, x ∈ F -> x ∈ es \/ x = m) /\ (n = length (asLine (entryText m)) -> m ∈ F).
Proof.
  intros Hf Hm. remember (Some (logBytes v2 es [])) as f eqn:Ef. destruct Hf as [|v2' D fd more ff HD HF]; [done|].
  injection Ef as Ef. apply logBytes_inj in Ef as [-> ->]. pose proof Hm as (_ & Hms & _). apply Forall_app in Hms as [_ Hmk]. rewrite Forall_singleton in Hmk.
  destruct (entry_cut m n Hmk) as [->|[Hn Hnl]].
  - exists (D ++ (more ++ [m]))%list. rewrite <- (proj1 (logBytes_app v2 _ _ [])), append_entry, <- app_assoc. split_and!.
    + constructor; [done|]. by rewrite app_assoc.
    + intros x. rewrite !elem_of_app. tauto.
    + intros x. rewrite !elem_of_app, list_elem_of_singleton. tauto.
    + rewrite !elem_of_app, list_elem_of_singleton. tauto.
  - exists (D ++ more)%list. rewrite <- (proj1 (logBytes_app v2 _ _ [])). split_and!; try done; [|auto]. constructor; [done|].
    destruct HF as (_ & ? & ?). done.
Qed.

Lemma files_survive d f D F c : filesOk d f D F -> survives d f c ->
  exists E, filesOk c c E E /\ (forall x, x ∈ D -> x ∈ E) /\ (forall x, x ∈ E -> x ∈ F).
Proof.
  intros Hf [->|[->|(dd & rest & n & Hd & Hr & ->)]].
  - exists F. split_and!; [by eapply filesOk_sync|by intros; eapply filesOk_sub|done].
  - exists D. split_and!; [destruct Hf; [constructor|by apply files_same]|done|by intros; eapply filesOk_sub].
  - destruct Hf as [|v2 D fd more ff HD HF]; [done|]. injection Hd as <-. injection Hr as Hr.
    destruct (logBytes_split v2 D fd) as (a & Ha & Ha0). assert (completePart (logBytes v2 D fd) = logBytes v2 D []) as Hc.
    { rewrite Ha, Ha0. apply completePart_app, HD. }
    rewrite Hc in *. rewrite (proj1 (logBytes_app v2 (D ++ more) ff [])), (proj2 (logBytes_app v2 D [] more)), <- app_assoc in Hr. apply app_inv_head in Hr as <-.
    pose proof HF as (Hnf & Hes & Hv). apply Forall_app in Hes as [HesD Hesm].
    destruct (take_lines (map entryText more) ff n) as (k & frag & -> & Hfrag); [by apply markOk_text|done|].
    exists (D ++ take k more)%list.
    assert (logBytes v2 D [] ++ asLines (take k (map entryText more)) ++ frag = logBytes v2 (D ++ take k more) frag)%list as ->.
    { rewrite (proj1 (logBytes_app v2 (D ++ take k more) frag [])), (proj2 (logBytes_app v2 D [] (take k more))), <- app_assoc. by rewrite firstn_map. }
    split_and!.
    + apply files_same. split_and!; [done|apply Forall_app; split; [done|by apply Forall_take]|].
      intros E. specialize (Hv E). apply Forall_app in Hv as [? ?]. apply Forall_app. split; [done|by apply Forall_take].
    + intros x Hx. apply elem_of_app. by left.
    + intros x. rewrite !elem_of_app. intros [?|Hx]; [by left|right]. rewrite <- (take_drop k more). apply elem_of_app. by left.
Qed.

Ltac old_proc Hq := apply lookup_insert_Some in Hq as [[<- <-]|[? Hq]].

Lemma inv_known w D F s : inv w D F -> LoadReplayState (rw_file w) = Ok s -> memOk (rw_attempted w) s.
Proof.
  intros [Hf _ HF _ _] Hl. destruct (load_files _ _ _ _ Hf) as (s' & Hs & Hk). rewrite Hl in Hs. injection Hs as <-.
  eapply memOk_known; [exact Hk|by eapply filesOk_marks|done].
Qed.

(** A step that leaves the files: one process's memory or pending mark. *)
Lemma inv_proc w D F p pr sh : inv w D F -> memOk (rw_attempted w) (pr_state pr) -> (forall m, pr_pending pr = Some m -> m ∈ F) ->
  inv (mkrworld (rw_file w) (rw_durable w) sh (<[p := pr]> (rw_procs w)) (rw_attempted w) (rw_acked w)) D F.
Proof.
  intros [Hf Ha HF Hp Hm] Hmem Hpend. split; cbn; try done; intros q pr' ?; [intros Hq|]; [old_proc Hq|old_proc H]; eauto.
Qed.

(** A whole file replaced by one with at least its marks. *)
Lemma inv_replace w D F v2 es sh procs attempted acked :
  inv w D F -> logOk v2 es [] -> (forall x, x ∈ F -> x ∈ es) -> (forall x, x ∈ es -> x ∈ attempted) ->
  (forall x, x ∈ rw_attempted w -> x ∈ attempted) -> (forall x, x ∈ acked -> x ∈ rw_acked w \/ x ∈ es) ->
  (forall p pr, procs !! p = Some pr -> rw_procs w !! p = Some pr \/ pr_pending pr = None /\ memOk attempted (pr_state pr)) ->
  inv (mkrworld (Some (logBytes v2 es [])) (Some (logBytes v2 es [])) sh procs attempted acked) es es.
Proof.
  intros [Hf Ha HF Hp Hm] Hok HFe Hatt HA Hack Hprocs. split; cbn; [by apply files_same| |done| |].
  - intros x [Hx|]%Hack; [|done]. eapply HFe, filesOk_sub; [exact Hf|by apply Ha].
  - intros p pr m [Hq|[Hn _]]%Hprocs Hpend; [by eapply HFe, Hp|congruence].
  - intros p pr [Hq|[_ Hq]]%Hprocs; [|done]. eapply memOk_mono; [exact HA|by eapply Hm].
Qed.

Lemma inv_rewrite w D F s m c p sh acked procs : inv w D F -> rw_procs w !! p = Some (mkproc s None) -> markOk m ->
  planOf s m (rw_file w) = Ok (Rewrite c) -> (forall x, x ∈ acked -> x ∈ rw_acked w \/ x = m) ->
  (procs = rw_procs w \/ procs = <[p := mkproc (remember m s) None]> (rw_procs w)) ->
  exists es, inv (mkrworld (Some c) (Some c) sh procs ({[m]} ∪ rw_attempted w) acked) es es.
Proof.
  intros Hi Hp Hm Hpl Hack Hprocs. pose proof (inv_memory _ _ _ Hi _ _ Hp) as Hs. cbn in Hs.
  destruct (plan_ok _ _ _ _ _ _ m (inv_files _ _ _ Hi) Hs Hm (inv_attempted _ _ _ Hi)) as (pl & Hpl' & Hok). rewrite Hpl in Hpl'. injection Hpl' as <-.
  destruct Hok as (v2 & es & -> & Hlog & Hin & HF & HA). exists es. eapply inv_replace; try done.
  - intros x [Hx| ->]%HA; set_solver.
  - set_solver.
  - intros x [Hx| ->]%Hack; [by left|by right].
  - destruct Hprocs as [-> | ->]; [by left|]. intros q pr Hq. old_proc Hq; [right|by left]. split; [done|]. apply memOk_remember; [|set_solver|done].
    eapply memOk_mono; [|exact Hs]. set_solver.
Qed.

Lemma inv_append w D F s m fix_ line n pending p : inv w D F -> rw_procs w !! p = Some (mkproc s None) -> markOk m ->
  planOf s m (rw_file w) = Ok (Append fix_ line) -> (pending = None \/ pending = Some m /\ n = length line) ->
  exists D' F', inv (mkrworld (Some (repaired (default [] (rw_file w)) fix_ ++ take n line)%list) (repairedDurable (rw_durable w) fix_) (repairedShadow (rw_shadow w) fix_)
    (<[p := mkproc s pending]> (rw_procs w)) ({[m]} ∪ rw_attempted w) (rw_acked w)) D' F'.
Proof.
  intros Hi Hp Hm Hpl Hpend. pose proof (inv_memory _ _ _ Hi _ _ Hp) as Hs. cbn in Hs.
  destruct (plan_ok _ _ _ _ _ _ m (inv_files _ _ _ Hi) Hs Hm (inv_attempted _ _ _ Hi)) as (pl & Hpl' & Hok). rewrite Hpl in Hpl'. injection Hpl' as <-.
  destruct Hok as (-> & v2 & D' & es & Hfiles & Hc & Hlog & HD & Hes & _). rewrite Hc in Hfiles |- *.
  destruct (files_append _ _ _ _ _ n Hfiles Hlog) as (F' & HF' & Hsub & Hsup & Hfull). exists D', F'.
  destruct Hi as [Hf Ha HF Hq Hmem]. split; cbn; [done|by intros x Hx; apply HD, Ha| | |].
  - intros x [Hx%Hes%HF| ->]%Hsup; set_solver.
  - intros q pr x H Hx. old_proc H; cbn in Hx; [destruct Hpend as [-> |[-> ->]]; [done|injection Hx as <-; by apply Hfull]|].
    by eapply Hsub, Hes, Hq.
  - intros q pr H. eapply memOk_mono; [intros x Hx; apply elem_of_union_r, Hx|]. old_proc H; [done|by eapply Hmem].
Qed.

Lemma inv_rebuild w D F s m c line p sh : inv w D F -> rw_procs w !! p = Some (mkproc s None) -> markOk m ->
  planOf s m (rw_file w) = Ok (Append (Rebuilt c) line) ->
  exists es, inv (mkrworld (Some c) (Some c) sh (rw_procs w) (rw_attempted w) (rw_acked w)) es es.
Proof.
  intros Hi Hp Hm Hpl. pose proof (inv_memory _ _ _ Hi _ _ Hp) as Hs. cbn in Hs.
  destruct (plan_ok _ _ _ _ _ _ m (inv_files _ _ _ Hi) Hs Hm (inv_attempted _ _ _ Hi)) as (pl & Hpl' & Hok). rewrite Hpl in Hpl'. injection Hpl' as <-.
  destruct Hok as (_ & v2 & D' & es & _ & Hc & Hlog & _ & Hes & _). cbn [repaired] in Hc. subst c. exists es.
  apply (inv_replace w D F); try done; [|by intros x Hx; apply Hes|intros x Hx%Hes; by eapply inv_attempted|by left|by left].
  destruct Hlog as (? & Hall & Hv). apply Forall_app in Hall as [? _]. split_and!; [done..|]. intros E. specialize (Hv E). by apply Forall_app in Hv as [? _].
Qed.

Lemma rstep_inv w w' D F : inv w D F -> rstep w w' -> exists D' F', inv w' D' F'.
Proof.
  intros Hi Hst. destruct Hst as [p s Hl|p pr t Hp|p|p s m fix_ line n pending Hp Hm Hpl Hpend|p s m c line Hp Hm Hpl|p s m Hp|p s m Hp|p s m c Hp Hm Hpl|p s m c Hp Hm Hpl|c Hc].
  - exists D, F. apply inv_proc; [done|by eapply inv_known|done].
  - exists D, F. apply inv_proc; [done|exact (inv_memory _ _ _ Hi _ _ Hp)|]. intros m. exact (inv_pending _ _ _ Hi _ _ m Hp).
  - exists D, F. destruct Hi as [Hf Ha HF Hq Hm]. split; cbn; try done; intros q pr ?; [intros H|]; apply lookup_delete_Some in H as [_ H]; eauto.
  - by eapply inv_append.
  - destruct (inv_rebuild w D F s m c line p (Some (default (rw_durable w) (rw_shadow w))) Hi Hp Hm Hpl) as [es ?]. by exists es, es.
  - exists F, F. pose proof (inv_pending _ _ _ Hi _ _ m Hp eq_refl) as Hin. pose proof (inv_memory _ _ _ Hi _ _ Hp) as Hmem.
    destruct Hi as [Hf Ha HF Hq Hm]. split; cbn; [by eapply filesOk_sync| |done| |].
    + intros x [->%elem_of_singleton|Hx]%elem_of_union; [done|]. eapply filesOk_sub; [exact Hf|by apply Ha].
    + intros q pr x H Hx. old_proc H; [done|by eapply Hq].
    + intros q pr H. old_proc H; [|by eapply Hm]. apply memOk_remember; [done|by apply HF|]. pose proof (filesOk_marks _ _ _ _ Hf) as Hall.
      rewrite Forall_forall in Hall. by apply Hall.
  - exists D, F. apply inv_proc; [done|exact (inv_memory _ _ _ Hi _ _ Hp)|done].
  - destruct (inv_rewrite w D F s m c p None ({[m]} ∪ rw_acked w) (<[p := mkproc (remember m s) None]> (rw_procs w)) Hi Hp Hm Hpl) as [es ?]; [set_solver|by right|by exists es, es].
  - destruct (inv_rewrite w D F s m c p (Some (default (rw_durable w) (rw_shadow w))) (rw_acked w) (rw_procs w) Hi Hp Hm Hpl) as [es ?]; [by left|by left|by exists es, es].
  - destruct Hi as [Hf Ha HF Hq Hm]. destruct (files_survive _ _ _ _ _ Hf Hc) as (E & HE & HDE & HEF). exists E, E. split; cbn; auto; intros q pr; by rewrite lookup_empty.
Qed.

Lemma reachable_inv w : reachable w -> exists D F, inv w D F.
Proof.
  intros Hr. assert (exists D F, inv initial D F) as Hi. { exists [], []. split; cbn; [apply files_none|set_solver|set_solver|by intros ? ? ? ?%lookup_empty_Some|by intros ? ? ?%lookup_empty_Some]. }
  revert Hi. induction Hr as [|w1 w2 w3 Hs _ IH]; [done|]. intros (D & F & Hi). apply IH. by eapply rstep_inv.
Qed.


(** The prefix that detects a torn tenant header is not a prefix of that header:
    such a header is taken for a legacy object, and the mark that would replace
    it fails. *)
Lemma torn_tenant_header_is_legacy s t e : let line := take 32 replayTenantLogHeaderLine in
  t <> "" -> e <> "" -> probeFormat line = None -> decodeLegacy line = None ->
  isPrefix replayTenantLogPrefix replayTenantLogHeaderLine = false /\ classifyStateFile (Some line) = Ok stateLegacy /\
  markTenantPlan s t e (Some line) = Err (NewErr "decode replay state").
Proof.
  intros line Ht He Hp Hd. split; [done|]. assert (classifyStateFile (Some line) = Ok stateLegacy) as Hc.
  { unfold line. change (classifyFirstLine (take classifyReadCap line) = Ok stateLegacy). unfold classifyFirstLine. change (trimCR _) with line. by rewrite Hp. }
  split; [done|]. unfold markTenantPlan. rewrite Hc, !bool_decide_eq_false_2 by done. cbn [negb andb guard_err result_bind tenantRewriteContent loadLegacyMarks].
  assert (blank line = false) as -> by (by vm_compute). by rewrite Hd.
Qed.

End codec.

(** ** A run *)

(** A decoder of the lines this log writes for identifiers without escapes. *)
Fixpoint strip (p b : bytes) : option bytes :=
  match p, b with
  | [], _ => Some b
  | c :: p, d :: b => if bool_decide (c = d) then strip p b else None
  | _, [] => None
  end.
Fixpoint upToQuote (b : bytes) : option (bytes * bytes) :=
  match b with
  | [] => None
  | c :: b => if bool_decide (c = quote) then Some ([], b) else (fun p => (c :: p.1, p.2)) <$> upToQuote b
  end.
Definition field (open_ close_ : string) (b : bytes) : option (string * bytes) :=
  match strip (chars open_) b ≫= upToQuote with
  | Some (v, rest) => (fun rest => (string_of_list_ascii v, rest)) <$> strip (chars close_) rest
  | None => None
  end.
Definition demoEvent (b : bytes) : option string :=
  match field ("{" ++ qt ++ "event_id" ++ qt ++ ":" ++ qt) "}" b with Some (e, []) => Some e | _ => None end.
Definition demoTenant (b : bytes) : option (string * string) :=
  match field ("{" ++ qt ++ "tenant_id" ++ qt ++ ":" ++ qt) "," b with
  | Some (t, rest) => match field (qt ++ "event_id" ++ qt ++ ":" ++ qt) "}" rest with Some (e, []) => Some (t, e) | _ => None end
  | None => pair "" <$> demoEvent b
  end.
Definition demoCodec : MarkCodec := mkMarkCodec demoEvent demoTenant (fun _ => None) (fun _ => None).

Definition m1 : mark := ("acme", "e-1").
Definition m2 : mark := ("", "e-2").

Lemma demo_marks : @markOk demoCodec m1 /\ @markOk demoCodec m2.
Proof. repeat split; vm_compute; try done; by intros [=]. Qed.

(** Schedules: [act_mark p m n] writes [n] bytes of the line when the mark is
    appended, and a power loss keeps what was synced. *)
Inductive act : Type := act_load (p : nat) | act_mark (p : nat) (m : mark) (n : nat) | act_unsynced (p : nat) (m : mark) | act_sync (p : nat) | act_power.

Definition perform (w : rworld) (a : act) : option rworld :=
  match a with
  | act_load p =>
      match @LoadReplayState demoCodec (rw_file w) with
      | Ok s => Some (mkrworld (rw_file w) (rw_durable w) (rw_shadow w) (<[p := mkproc s None]> (rw_procs w)) (rw_attempted w) (rw_acked w))
      | _ => None
      end
  | act_mark p m n =>
      match rw_procs w !! p with
      | Some (mkproc s None) =>
          match @planOf demoCodec s m (rw_file w) with
          | Ok (Append fix_ line) =>
              Some (mkrworld (Some (repaired (default [] (rw_file w)) fix_ ++ take n line)%list) (repairedDurable (rw_durable w) fix_) (repairedShadow (rw_shadow w) fix_)
                (<[p := mkproc s (if (n =? length line)%nat then Some m else None)]> (rw_procs w)) ({[m]} ∪ rw_attempted w) (rw_acked w))
          | Ok (Rewrite c) =>
              Some (mkrworld (Some c) (Some c) None (<[p := mkproc (remember m s) None]> (rw_procs w)) ({[m]} ∪ rw_attempted w) ({[m]} ∪ rw_acked w))
          | _ => None
          end
      | _ => None
      end
  | act_unsynced p m =>
      match rw_procs w !! p with
      | Some (mkproc s None) =>
          match @planOf demoCodec s m (rw_file w) with
          | Ok (Rewrite c) => Some (mkrworld (Some c) (Some c) (Some (default (rw_durable w) (rw_shadow w))) (rw_procs w) ({[m]} ∪ rw_attempted w) (rw_acked w))
          | _ => None
          end
      | _ => None
      end
  | act_sync p =>
      match rw_procs w !! p with
      | Some (mkproc s (Some m)) => Some (mkrworld (rw_file w) (rw_file w) (rw_shadow w) (<[p := mkproc (remember m s) None]> (rw_procs w)) (rw_attempted w) ({[m]} ∪ rw_acked w))
      | _ => None
      end
  | act_power => Some (mkrworld (rw_durable w) (rw_durable w) None ∅ (rw_attempted w) (rw_acked w))
  end.

Definition actMark (a : act) : option mark := match a with act_mark _ m _ | act_unsynced _ m => Some m | _ => None end.

Lemma perform_step w w' a : (forall m, actMark a = Some m -> @markOk demoCodec m) -> perform w a = Some w' -> @rstep demoCodec w w'.
Proof.
  intros Hm Hp. destruct a as [p|p m n|p m|p|]; unfold perform in Hp; repeat case_match; simplify_eq.
  - by apply step_load.
  - eapply step_append; [done|by apply Hm|done|]. apply Nat.eqb_eq in H4. by right.
  - eapply step_append; [done|by apply Hm|done|by left].
  - eapply step_rewrite; [done|by apply Hm|done].
  - eapply step_rewrite_unknown; [done|by apply Hm|done].
  - by eapply step_sync.
  - apply step_power. right. by left.
Qed.

Definition run (acts : list act) : option rworld := foldl (fun w a => w ≫= fun w => perform w a) (Some initial) acts.

Definition actOk (a : act) : bool := match actMark a with Some m => bool_decide (m = m1) || bool_decide (m = m2) | None => true end.

Lemma run_sound acts w : forallb actOk acts = true -> run acts = Some w -> @reachable demoCodec w.
Proof.
  unfold run, reachable. revert w. induction acts as [|a acts IH] using rev_ind; intros w Hall Hr; cbn in Hr; [by injection Hr as <-|].
  rewrite forallb_app, andb_true_iff in Hall. destruct Hall as [Hall Ha]. rewrite foldl_snoc in Hr.
  destruct (foldl _ _ acts) as [w0|] eqn:E; [|done]. eapply rtc_r; [by apply IH|]. eapply perform_step; [|exact Hr]. intros m Em. cbn in Ha. unfold actOk in Ha. rewrite Em in Ha.
  rewrite andb_true_r, orb_true_iff, !bool_decide_eq_true in Ha. by destruct demo_marks, Ha as [->| ->].
Qed.

(** A torn append, repaired by the next one, and a power loss. *)
Definition demoActs : list act := [act_load 0; act_mark 0 m1 0; act_mark 0 m2 7; act_mark 0 m2 19; act_sync 0; act_power; act_load 1]%nat.

Definition demoWorld : rworld := default initial (run demoActs).

Lemma demo_facts : run demoActs = Some demoWorld /\ m1 ∈ rw_acked demoWorld /\ m2 ∈ rw_acked demoWorld.
Proof. split; [by vm_compute|]. split; apply (bool_decide_unpack _); vm_compute; exact I. Qed.


(** A rename whose directory sync failed; the retry of the mark appends to the
    renamed file, syncs the file only and is acknowledged; power fails with the
    directory's old entry, and the mark is gone. *)
Definition lossActs : list act := [act_load 0; act_unsynced 0 m1; act_mark 0 m1 38; act_sync 0]%nat.

Definition lossWorld : rworld := default initial (run lossActs).

Lemma unsynced_rename_loses_mark : exists w s, @reachableLossy demoCodec w /\ m1 ∈ rw_acked w /\
  @LoadReplayState demoCodec (rw_file w) = Ok s /\ Marked s "acme" "e-1" = false /\ marked s "e-1" = false.
Proof.
  assert (run lossActs = Some lossWorld /\ m1 ∈ rw_acked lossWorld /\ rw_shadow lossWorld = Some None) as (Hr & Ha & Hs).
  { split; [by vm_compute|]. split; [apply (bool_decide_unpack _); vm_compute; exact I|by vm_compute]. }
  exists (mkrworld None None None ∅ (rw_attempted lossWorld) (rw_acked lossWorld)), emptyState. split_and!; try done.
  eapply rtc_r; [|right; by apply dir_loss]. eapply rtc_subrel; [|apply (run_sound lossActs); [by vm_compute|exact Hr]]. by left.
Qed.

End ReplaySystem.
