(* ===== verification/Outbox.v ===== *)
(** * The outbox and its relay (internal/outbox)

    Business transactions write events into the audit_outbox table with
    [Insert] (sdk.go); relays poll the table, deliver each due event to the
    audit API and record the outcome (relay.go, postgres.go, identity.go,
    http.go).  The table is a map of rows; [OutboxCodec] is encoding/json on
    events and PostgreSQL's jsonb equality.  A stored error is the error value,
    not its text. *)

From Stdlib Require Import Ascii String.
From S2P Require Import Prelude GoStr Domain Canonical Holds.
Open Scope string_scope.
Open Scope Z_scope.
Import Domain Canonical.

Module Outbox.

Definition StatusPending : string := "pending".
Definition StatusDelivered : string := "delivered".
Definition StatusFailed : string := "failed".

Class OutboxCodec : Type := mkOutboxCodec {
  encodeEvent : Event -> result string;
  decodeEvent : string -> result Event;
  jsonbEqual : string -> string -> bool
}.

(** ** Rows *)

Record rowIdentity : Type := mkrowIdentity {
  ri_EventID : string; ri_EventIDValid : bool;
  ri_TenantID : string; ri_TenantIDValid : bool;
  ri_IdempotencyKey : string; ri_IdemKeyValid : bool;
  ri_OccurredAt : time; ri_OccurredValid : bool
}.

Record row : Type := mkrow {
  ro_Identity : rowIdentity;
  ro_Payload : string;
  ro_Status : string;
  ro_Attempts : Z;
  ro_NextAttemptAt : time;
  ro_LastError : option error;
  ro_CreatedAt : time;
  ro_DeliveredAt : option time;
  ro_DeliveredEventID : option string;
  ro_APIStatus : option string
}.

Notation table := (gmap Z row).

(** The fields of a row that disagree with its payload. *)
Definition mismatchFields (row : rowIdentity) (payload : Event) : list string :=
  ((if negb (ri_EventIDValid row) || bool_decide (ri_EventID row = "") || bool_decide (ev_EventID payload = "") ||
       negb (bool_decide (ri_EventID row = ev_EventID payload)) then ["event_id"] else []) ++
   (if negb (ri_TenantIDValid row) || bool_decide (ri_TenantID row = "") || bool_decide (ev_TenantID payload = "") ||
       negb (bool_decide (ri_TenantID row = ev_TenantID payload)) then ["tenant_id"] else []) ++
   (if negb (ri_IdemKeyValid row) || bool_decide (ri_IdempotencyKey row = "") || bool_decide (ev_IdempotencyKey payload = "") ||
       negb (bool_decide (ri_IdempotencyKey row = ev_IdempotencyKey payload)) then ["idempotency_key"] else []) ++
   (if negb (ri_OccurredValid row) || time_IsZero (ri_OccurredAt row) || time_IsZero (ev_OccurredAt payload) ||
       negb (bool_decide (ri_OccurredAt row = ev_OccurredAt payload)) then ["occurred_at"] else []))%list.

Definition identityMismatch (id : Z) (row : rowIdentity) (payload : Event) : option error :=
  match mismatchFields row payload with
  | [] => None
  | fields => Some (NewErr ("outbox identity mismatch id=" ++ Itoa id ++ ": " ++ String.concat "; " fields))
  end.

Record outboxRecord : Type := mkoutboxRecord {
  or_ID : Z; or_Event : Event; or_Status : string; or_Attempts : Z;
  or_NextAttemptAt : time; or_LastError : option error; or_CreatedAt : time
}.

Record CorruptRecord : Type := mkCorruptRecord { cr_ID : Z; cr_Attempts : Z; cr_Err : option error }.

Record Update : Type := mkUpdate {
  up_Status : string; up_Attempts : Z; up_NextAttemptAt : time; up_LastError : option error;
  up_DeliveredAt : time; up_DeliveredEventID : string; up_APIStatus : string
}.

Definition nullableString (value : string) : option string := if bool_decide (value = "") then None else Some value.
Definition nullableTime (value : time) : option time := if time_IsZero value then None else Some value.

(** ** The PostgreSQL store *)

(** [WHERE status = 'pending' AND next_attempt_at <= now()] *)
Definition due (now : time) (r : row) : bool := bool_decide (ro_Status r = StatusPending) && (ro_NextAttemptAt r <=? now).

(** [ORDER BY next_attempt_at, id] *)
Definition retry_leb (a b : Z * row) : bool :=
  (ro_NextAttemptAt a.2 <? ro_NextAttemptAt b.2) || ((ro_NextAttemptAt a.2 =? ro_NextAttemptAt b.2) && (a.1 <=? b.1)).

Definition listPendingQuery (now : time) (limit : nat) (t : table) : list (Z * row) :=
  take limit (stable_sort retry_leb (List.filter (fun x => due now x.2) (map_to_list t))).

Section codec.
Context {codec : OutboxCodec}.

(** One scanned row. *)
Definition scanRow (id : Z) (r : row) : outboxRecord + CorruptRecord :=
  match decodeEvent (ro_Payload r) with
  | Err e => inr (mkCorruptRecord id (ro_Attempts r) (Some (Wrapf e "decode outbox payload")))
  | Ok event =>
      match identityMismatch id (ro_Identity r) event with
      | Some e => inr (mkCorruptRecord id (ro_Attempts r) (Some e))
      | None => inl (mkoutboxRecord id event (ro_Status r) (ro_Attempts r) (ro_NextAttemptAt r) (ro_LastError r) (ro_CreatedAt r))
      end
  end.

Definition records (l : list (Z * row)) : list outboxRecord := omap (fun x => match scanRow x.1 x.2 with inl r => Some r | inr _ => None end) l.
Definition corrupts (l : list (Z * row)) : list CorruptRecord := omap (fun x => match scanRow x.1 x.2 with inl _ => None | inr c => Some c end) l.

Definition ListPending (now : time) (limit : nat) (t : table) : list outboxRecord * list CorruptRecord :=
  let rows := listPendingQuery now limit t in (records rows, corrupts rows).

Definition patchRow (patch : Update) (r : row) : row :=
  mkrow (ro_Identity r) (ro_Payload r) (up_Status patch) (up_Attempts patch) (up_NextAttemptAt patch) (up_LastError patch) (ro_CreatedAt r)
    (nullableTime (up_DeliveredAt patch)) (nullableString (up_DeliveredEventID patch)) (nullableString (up_APIStatus patch)).

(** [UPDATE ... WHERE id = $8 AND status = 'pending'], and whether a row was. *)
Definition UpdateRow (id : Z) (patch : Update) (t : table) : table * bool :=
  match t !! id with
  | Some r => if bool_decide (ro_Status r = StatusPending) then (<[id := patchRow patch r]> t, true) else (t, false)
  | None => (t, false)
  end.

(** ** The relay *)

Record Relay : Type := mkRelay { re_BatchSize : Z; re_MaxAttempts : Z; re_BaseBackoff : Z; re_MaxBackoff : Z }.

Definition batchSize (r : Relay) : Z := if re_BatchSize r <=? 0 then 100 else re_BatchSize r.
Definition maxAttempts (r : Relay) : Z := if re_MaxAttempts r <=? 0 then 8 else re_MaxAttempts r.
Definition baseBackoff (r : Relay) : Z := if re_BaseBackoff r <=? 0 then Second else re_BaseBackoff r.
Definition maxBackoff (r : Relay) : Z := if re_MaxBackoff r <=? 0 then 5 * Minute else re_MaxBackoff r.

Fixpoint backoffLoop (n : nat) (backoff max : Z) : Z :=
  match n with
  | O => backoff
  | S n =>
      if backoff <? max then
        let doubled := Holds.wrap64 (backoff * 2) in
        if max <? doubled then max else backoffLoop n doubled max
      else backoff
  end.
Definition backoff (r : Relay) (attempt : Z) : Z := backoffLoop (Z.to_nat (attempt - 1)) (baseBackoff r) (maxBackoff r).

(** What a delivery returns: the verified receipt, if the transport has one, or
    an error with its [Permanent] flag. *)
Inductive delivery : Type :=
  | Delivered (receipt : option EventReceipt)
  | Undelivered (permanent : bool) (cause : error).

Definition quarantineUpdate (now : time) (corrupt : CorruptRecord) : Update :=
  let cause := default (NewErr ("outbox corrupt record id=" ++ Itoa (cr_ID corrupt) ++ " has no diagnostic")) (cr_Err corrupt) in
  mkUpdate StatusFailed (cr_Attempts corrupt + 1) now (Some cause) 0 "" "".

Definition succeedUpdate (now : time) (record : outboxRecord) (receipt : option EventReceipt) : Update :=
  mkUpdate StatusDelivered (or_Attempts record + 1) now None now
    (match receipt with Some r => rc_EventID r | None => "" end) (match receipt with Some r => rc_Status r | None => "" end).

Definition failUpdate (r : Relay) (now : time) (record : outboxRecord) (permanent : bool) (cause : error) : Update :=
  let attempts := or_Attempts record + 1 in
  if permanent || (maxAttempts r <=? attempts)
  then mkUpdate StatusFailed attempts now (Some cause) 0 "" ""
  else mkUpdate StatusPending attempts (now + backoff r attempts) (Some cause) 0 "" "".

Definition settleUpdate (r : Relay) (now : time) (record : outboxRecord) (d : delivery) : Update :=
  match d with
  | Delivered receipt => succeedUpdate now record receipt
  | Undelivered permanent cause => failUpdate r now record permanent cause
  end.

(** One round over a store that answers, with the transport as a function. *)
Definition quarantine (now : time) (t : table) (c : CorruptRecord) : table := (UpdateRow (cr_ID c) (quarantineUpdate now c) t).1.
Definition settle (r : Relay) (deliver : Event -> delivery) (now : time) (t : table) (record : outboxRecord) : table :=
  (UpdateRow (or_ID record) (settleUpdate r now record (deliver (or_Event record))) t).1.
Definition RunOnce (r : Relay) (deliver : Event -> delivery) (now : time) (t : table) : table * Z :=
  let '(recs, corrupt) := ListPending now (Z.to_nat (batchSize r)) t in
  (foldl (settle r deliver now) (foldl (quarantine now) t corrupt) recs, Z.of_nat (length corrupt + length recs)).

(** ** The HTTP transport's classification *)

Definition provesLedgering (status : string) : bool :=
  bool_decide (status = StatusLedgered) || bool_decide (status = StatusIndexed) || bool_decide (status = StatusArchived).

Definition verifyReceipt (event : Event) (receipt : EventReceipt) : result unit :=
  guard_err (bool_decide (rc_EventID receipt = ev_EventID event)) (NewErr "receipt event_id does not match payload event_id") ;?
  guard_err (provesLedgering (rc_Status receipt)) (NewErr "receipt status does not prove ledgering") ;?
  guard_err (negb (time_IsZero (rc_LedgeredAt receipt))) (NewErr "receipt ledgered_at is zero") ;?
  guard_err (negb (bool_decide (rc_Hash receipt = ""))) (NewErr "receipt hash is empty").

(** A response: its status, its error code, and the receipt its body decodes to. *)
Record response : Type := mkresponse { rp_StatusCode : Z; rp_ErrorCode : string; rp_Receipt : option EventReceipt }.

Definition classifyResponse (event : Event) (resp : response) : delivery :=
  let code := rp_StatusCode resp in
  if (200 <=? code) && (code <? 300) then
    match rp_Receipt resp with
    | None => Undelivered false (NewErr "receipt body decode failed")
    | Some receipt => match verifyReceipt event receipt with Ok _ => Delivered (Some receipt) | Err e => Undelivered false e end
    end
  else
    let tenantMismatch := (code =? 422) && bool_decide (rp_ErrorCode resp = "tenant_mismatch") in
    let permanent := (400 <=? code) && (code <? 500) && negb (code =? 401) && negb (code =? 429) && negb tenantMismatch in
    Undelivered permanent (NewErr "audit api returned an error").

(** ** The SDK *)

(** Whole microseconds. *)
Definition normalizePostgresTimestamp (value : time) : time := value - value mod 1000.

Definition set_occurredAt (e : Event) (v : time) : Event :=
  mkEvent (ev_EventID e) (ev_TenantID e) (ev_SourceSystem e) (ev_EventType e) (ev_SchemaID e) (ev_SchemaVersion e) v (ev_ReceivedAt e) (ev_OperationID e)
    (ev_CausationID e) (ev_CorrelationID e) (ev_TraceID e) (ev_SpanID e) (ev_Actor e) (ev_Targets e) (ev_AggregateType e) (ev_AggregateID e)
    (ev_AggregateVersion e) (ev_WorkflowInstanceID e) (ev_ExecutionRunID e) (ev_Action e) (ev_Outcome e) (ev_Reason e) (ev_ChangedFields e)
    (ev_Payload e) (ev_PayloadRef e) (ev_SourceDigest e) (ev_DataClassification e) (ev_RetentionClass e) (ev_IdempotencyKey e) (ev_StreamID e)
    (ev_Sequence e) (ev_PrevHash e) (ev_Hash e) (ev_ServerVersion e).

Definition storedEvent (e : Event) : Event := set_occurredAt e (normalizePostgresTimestamp (ev_OccurredAt e)).

Definition columnsOf (e : Event) : rowIdentity :=
  mkrowIdentity (ev_EventID e) true (ev_TenantID e) true (ev_IdempotencyKey e) true (ev_OccurredAt e) true.

Definition newRow (e : Event) (encoded : string) (now : time) : row :=
  mkrow (columnsOf e) encoded StatusPending 0 now None now None None None.

(** The unique indexes: event_id, and (tenant_id, idempotency_key). *)
Definition sameEventID (e : Event) (r : row) : bool := ri_EventIDValid (ro_Identity r) && bool_decide (ri_EventID (ro_Identity r) = ev_EventID e).
Definition sameIdemKey (e : Event) (r : row) : bool :=
  ri_TenantIDValid (ro_Identity r) && ri_IdemKeyValid (ro_Identity r) &&
  bool_decide (ri_TenantID (ro_Identity r) = ev_TenantID e) && bool_decide (ri_IdempotencyKey (ro_Identity r) = ev_IdempotencyKey e).

Definition rowWhere (p : row -> bool) (t : table) : option row := (fun x : Z * row => x.2) <$> List.find (fun x => p x.2) (map_to_list t).

Definition conflict (msg : string) : error := Wrapf (Sentinel ErrConflict) msg.

Definition duplicateOutcome (status : string) : result unit :=
  guard_err (negb (bool_decide (status = StatusFailed))) (conflict "event already dead-lettered").

Definition classifyContentConflict (t : table) (event : Event) (status : string) : result unit :=
  match rowWhere (sameEventID event) t with
  | None => Err (conflict "unable to classify outbox insert outcome")
  | Some r =>
      let? stored := decodeEvent (ro_Payload r) in
      let? candidateDigest := EventContentDigest event in
      let? storedDigest := EventContentDigest stored in
      guard_err (bool_decide (candidateDigest = storedDigest)) (conflict "event_id already exists with different canonical content") ;?
      duplicateOutcome status
  end.

Definition classifyZeroRows (t : table) (event : Event) (encoded : string) : result unit :=
  match rowWhere (sameEventID event) t with
  | Some r =>
      if jsonbEqual (ro_Payload r) encoded then duplicateOutcome (ro_Status r)
      else classifyContentConflict t event (ro_Status r)
  | None =>
      match rowWhere (sameIdemKey event) t with
      | None => Err (conflict "unable to classify outbox insert outcome")
      | Some _ => Err (conflict "idempotency_key is already associated with another event")
      end
  end.

(** [Insert] in a transaction that answers; [id] is the sequence's next value. *)
Definition Insert (id : Z) (now : time) (event : Event) (t : table) : result table :=
  guard_err (negb (bool_decide (ev_TenantID event = ""))) (invalid "tenant_id is required for outbox") ;?
  ValidateBasic event ;?
  let? original := encodeEvent event in
  guard_err (Zlen original <=? MaxEventBytes) (invalid "payload exceeds the limit") ;?
  let stored := storedEvent event in
  let? encoded := encodeEvent stored in
  guard_err (Zlen encoded <=? MaxEventBytes) (invalid "payload exceeds the limit") ;?
  match rowWhere (fun r => sameEventID stored r || sameIdemKey stored r) t with
  | None => Ok (<[id := newRow stored encoded now]> t)
  | Some _ => let? _ := classifyZeroRows t stored encoded in Ok t
  end.

End codec.

End Outbox.
