(* ===== verification/OutboxProps.v ===== *)
(** * What the outbox promises

    Any number of relays poll one outbox table, with deliveries, updates and
    processes that fail at any point.  [outbox_outcomes_justified]: what a row
    says happened did happen, and a settled row never changes.
    [relay_drains]: over a transport that answers every delivery, enough rounds
    settle every due row.  [inserted_row_is_deliverable] and
    [insert_is_idempotent] are the contract of the SDK, and [backoff_exact] the
    retry schedule. *)

From Stdlib Require Import Ascii String.
From S2P Require Import Prelude GoStr Domain Keys Canonical Holds Outbox.
Open Scope string_scope.
Open Scope Z_scope.
Import Domain Canonical Outbox.

Module OutboxProps.

(** ** The system *)

(** A relay: what it listed and has not handled, and the delivery it has an
    outcome of. *)
Record relayState : Type := mkrelayState {
  rl_corrupt : list CorruptRecord;
  rl_records : list outboxRecord;
  rl_outcome : option (outboxRecord * delivery)
}.

(** [ow_sent] has the deliveries the transport reported done, with their row,
    [ow_failures] the ones it reported failed. *)
Record oworld : Type := mkoworld {
  ow_table : gmap Z row;
  ow_sent : list (Z * Event * option EventReceipt);
  ow_failures : list (Z * bool);
  ow_relays : gmap nat relayState
}.

Definition idle : relayState := mkrelayState [] [] None.

Section codec.
Context {codec : OutboxCodec} (cfg : Relay).

(** A row as the SDK or another writer commits it: pending, never attempted. *)
Definition fresh (r : row) : Prop := ro_Status r = StatusPending /\ ro_Attempts r = 0.

Inductive ostep (w : oworld) : oworld -> Prop :=
  | step_write id r : ow_table w !! id = None -> fresh r ->
      ostep w (mkoworld (<[id := r]> (ow_table w)) (ow_sent w) (ow_failures w) (ow_relays w))
  | step_start p : ostep w (mkoworld (ow_table w) (ow_sent w) (ow_failures w) (<[p := idle]> (ow_relays w)))
  | step_crash p : ostep w (mkoworld (ow_table w) (ow_sent w) (ow_failures w) (delete p (ow_relays w)))
  | step_list p now : ow_relays w !! p = Some idle ->
      let listed := ListPending now (Z.to_nat (batchSize cfg)) (ow_table w) in
      ostep w (mkoworld (ow_table w) (ow_sent w) (ow_failures w) (<[p := mkrelayState listed.2 listed.1 None]> (ow_relays w)))
  (** The update of a corrupt row is applied, or fails without effect. *)
  | step_quarantine p c corrupt recs now (applied : bool) : ow_relays w !! p = Some (mkrelayState (c :: corrupt) recs None) ->
      ostep w (mkoworld (if applied then quarantine now (ow_table w) c else ow_table w) (ow_sent w) (ow_failures w)
        (<[p := mkrelayState corrupt recs None]> (ow_relays w)))
  | step_deliver p r recs d : ow_relays w !! p = Some (mkrelayState [] (r :: recs) None) ->
      ostep w (mkoworld (ow_table w)
        (match d with Delivered receipt => (or_ID r, or_Event r, receipt) :: ow_sent w | _ => ow_sent w end)
        (match d with Undelivered permanent _ => (or_ID r, permanent) :: ow_failures w | _ => ow_failures w end)
        (<[p := mkrelayState [] recs (Some (r, d))]> (ow_relays w)))
  | step_settle p r recs d now (applied : bool) : ow_relays w !! p = Some (mkrelayState [] recs (Some (r, d))) ->
      ostep w (mkoworld (if applied then (UpdateRow (or_ID r) (settleUpdate cfg now r d) (ow_table w)).1 else ow_table w) (ow_sent w) (ow_failures w)
        (<[p := mkrelayState [] recs None]> (ow_relays w))).

Definition oinitial : oworld := mkoworld ∅ [] [] ∅.
Definition oreachable (w : oworld) : Prop := rtc ostep oinitial w.

(** ** The invariant *)

Definition deliverable (r : row) (id : Z) (e : Event) : Prop := decodeEvent (ro_Payload r) = Ok e /\ identityMismatch id (ro_Identity r) e = None.
Definition corruptRow (r : row) (id : Z) : Prop := forall e, ~ deliverable r id e.

Definition failuresOf (w : oworld) (id : Z) : Z := Z.of_nat (length (filter (fun x => x.1 = id) (ow_failures w))).

(** Why a row has its status. *)
Definition justified (w : oworld) (id : Z) (r : row) : Prop :=
  (ro_Status r = StatusPending /\ 0 <= ro_Attempts r <= failuresOf w id /\ ro_Attempts r < maxAttempts cfg) \/
  (ro_Status r = StatusDelivered /\ exists e receipt, deliverable r id e /\ (id, e, receipt) ∈ ow_sent w /\
     ro_DeliveredEventID r = nullableString (match receipt with Some rc => rc_EventID rc | None => "" end) /\
     ro_APIStatus r = nullableString (match receipt with Some rc => rc_Status rc | None => "" end)) \/
  (ro_Status r = StatusFailed /\ (corruptRow r id \/ (id, true) ∈ ow_failures w \/ maxAttempts cfg <= failuresOf w id)).

(** What a relay holds comes from a row. *)
Definition listed (w : oworld) (r : outboxRecord) : Prop :=
  exists row, ow_table w !! or_ID r = Some row /\ deliverable row (or_ID r) (or_Event r) /\ 0 <= or_Attempts r <= failuresOf w (or_ID r).
Definition listedCorrupt (w : oworld) (c : CorruptRecord) : Prop := exists row, ow_table w !! cr_ID c = Some row /\ corruptRow row (cr_ID c).
Definition outcomeOk (w : oworld) (r : outboxRecord) (d : delivery) : Prop :=
  listed w r /\
  match d with
  | Delivered receipt => (or_ID r, or_Event r, receipt) ∈ ow_sent w
  | Undelivered permanent _ => (or_ID r, permanent) ∈ ow_failures w /\ or_Attempts r + 1 <= failuresOf w (or_ID r)
  end.

Record oinv (w : oworld) : Prop := mkoinv {
  oi_rows : forall id r, ow_table w !! id = Some r -> justified w id r;
  oi_sent : forall id e receipt, (id, e, receipt) ∈ ow_sent w -> exists r, ow_table w !! id = Some r /\ deliverable r id e;
  oi_records : forall p s r, ow_relays w !! p = Some s -> r ∈ rl_records s -> listed w r;
  oi_corrupt : forall p s c, ow_relays w !! p = Some s -> c ∈ rl_corrupt s -> listedCorrupt w c;
  oi_outcome : forall p s r d, ow_relays w !! p = Some s -> rl_outcome s = Some (r, d) -> outcomeOk w r d
}.

(** ** Growth: what a step keeps *)

(** Rows keep their identity and payload; the logs grow. *)
Definition grows (w w' : oworld) : Prop :=
  (forall id r, ow_table w !! id = Some r -> exists r', ow_table w' !! id = Some r' /\ ro_Payload r' = ro_Payload r /\ ro_Identity r' = ro_Identity r) /\
  (forall x, x ∈ ow_sent w -> x ∈ ow_sent w') /\ (forall x, x ∈ ow_failures w -> x ∈ ow_failures w') /\
  (forall id, failuresOf w id <= failuresOf w' id).

Lemma grows_listed w w' r : grows w w' -> listed w r -> listed w' r.
Proof.
  intros (Hrow & _ & _ & Hf) (row & Hl & [Hd Hi] & Ha). destruct (Hrow _ _ Hl) as (row' & Hl' & Hp & Hid). exists row'. split; [done|].
  unfold deliverable. rewrite Hp, Hid. pose proof (Hf (or_ID r)). split_and!; try done; lia.
Qed.
Lemma grows_corrupt w w' c : grows w w' -> listedCorrupt w c -> listedCorrupt w' c.
Proof.
  intros (Hrow & _) (row & Hl & Hc). destruct (Hrow _ _ Hl) as (row' & Hl' & Hp & Hid). exists row'. split; [done|].
  intros e [Hd Hi]. apply (Hc e). unfold deliverable. by rewrite <- Hp, <- Hid.
Qed.
Lemma grows_outcome w w' r d : grows w w' -> outcomeOk w r d -> outcomeOk w' r d.
Proof.
  intros Hg [Hl Hd]. split; [by eapply grows_listed|]. destruct Hg as (_ & Hs & Hf & Hn). destruct d; [auto|].
  destruct Hd. pose proof (Hn (or_ID r)). split; [auto|lia].
Qed.
Lemma grows_justified w w' id r : grows w w' -> justified w id r -> justified w' id r.
Proof.
  intros (_ & Hs & Hf & Hn) [(? & ? & ?)|[(? & e & rc & ? & ? & ?)|(? & Hc)]]; [left|right; left|right; right]; pose proof (Hn id).
  - split_and!; try done; lia.
  - split; [done|]. exists e, rc. auto.
  - split; [done|]. destruct Hc as [?|[?|?]]; [by left|right; left; auto|right; right; lia].
Qed.

Lemma grows_same_table w sent failures relays :
  (forall x, x ∈ ow_sent w -> x ∈ sent) -> (forall x, x ∈ ow_failures w -> x ∈ failures) ->
  (forall id, failuresOf w id <= Z.of_nat (length (filter (fun x => x.1 = id) failures))) ->
  grows w (mkoworld (ow_table w) sent failures relays).
Proof. intros. split_and!; try done. intros id r Hr. exists r. auto. Qed.

Lemma UpdateRow_lookup id patch (t : gmap Z row) id' r' : (UpdateRow id patch t).1 !! id' = Some r' ->
  t !! id' = Some r' \/ id' = id /\ exists r, t !! id = Some r /\ ro_Status r = StatusPending /\ r' = patchRow patch r.
Proof.
  unfold UpdateRow. destruct (t !! id) as [r|] eqn:E; [|by left]. case_bool_decide; [|by left]. cbn.
  intros [[<- <-]|[? ?]]%lookup_insert_Some; [right|by left]. eauto.
Qed.
Lemma UpdateRow_keeps id patch (t : gmap Z row) id' r : t !! id' = Some r ->
  exists r', (UpdateRow id patch t).1 !! id' = Some r' /\ ro_Payload r' = ro_Payload r /\ ro_Identity r' = ro_Identity r /\
    (ro_Status r <> StatusPending -> r' = r).
Proof.
  intros Hr. unfold UpdateRow. destruct (t !! id) as [r0|] eqn:E; [|by exists r]. case_bool_decide; [|by exists r]. cbn.
  destruct (decide (id' = id)) as [->|Hne]; [|rewrite lookup_insert_ne by done; by exists r].
  rewrite E in Hr. injection Hr as ->. rewrite lookup_insert_eq. eexists. by split_and!.
Qed.

Lemma grows_update w id patch relays : grows w (mkoworld (UpdateRow id patch (ow_table w)).1 (ow_sent w) (ow_failures w) relays).
Proof. split_and!; try done. intros id' r Hr. destruct (UpdateRow_keeps id patch _ _ _ Hr) as (r' & ? & ? & ? & _). eauto. Qed.

(** ** Listing *)

Lemma elem_query now limit (t : gmap Z row) id r : (id, r) ∈ listPendingQuery now limit t -> t !! id = Some r /\ due now r = true.
Proof.
  unfold listPendingQuery. intros H. apply elem_of_take in H as (i & Hi & _). apply list_elem_of_lookup_2 in Hi. rewrite stable_sort_perm in Hi.
  apply list_elem_of_In, filter_In in Hi as [Hi Hd]. split; [|done]. by apply elem_of_map_to_list, list_elem_of_In.
Qed.

Lemma scanRow_record id r rec : scanRow id r = inl rec -> or_ID rec = id /\ deliverable r id (or_Event rec) /\ or_Attempts rec = ro_Attempts r.
Proof. unfold scanRow, deliverable. repeat case_match; intros; simplify_eq. by cbn. Qed.
Lemma scanRow_corrupt id r c : scanRow id r = inr c -> cr_ID c = id /\ corruptRow r id.
Proof.
  unfold scanRow, corruptRow, deliverable. intros H. repeat case_match; simplify_eq; (split; [done|]); intros e' [E Hm]; congruence.
Qed.

Lemma elem_records (l : list (Z * row)) rec : rec ∈ records l -> exists id r, (id, r) ∈ l /\ scanRow id r = inl rec.
Proof. unfold records. rewrite list_elem_of_omap. intros ([id r] & Hin & H). cbn in H. case_match; simplify_eq. eauto. Qed.
Lemma elem_corrupts (l : list (Z * row)) c : c ∈ corrupts l -> exists id r, (id, r) ∈ l /\ scanRow id r = inr c.
Proof. unfold corrupts. rewrite list_elem_of_omap. intros ([id r] & Hin & H). cbn in H. case_match; simplify_eq. eauto. Qed.

(** ** Steps keep the invariant *)

(** What is left to check when a step grows the world: the changed rows, the new
    deliveries and the relay that moved. *)
Lemma oinv_grow w w' : oinv w -> grows w w' ->
  (forall id r, ow_table w' !! id = Some r -> justified w id r \/ justified w' id r) ->
  (forall x, x ∈ ow_sent w' -> x ∈ ow_sent w \/ exists rec, listed w rec /\ x.1 = (or_ID rec, or_Event rec)) ->
  (forall p s, ow_relays w' !! p = Some s -> ow_relays w !! p = Some s \/
     (forall r, r ∈ rl_records s -> listed w r \/ listed w' r) /\ (forall c, c ∈ rl_corrupt s -> listedCorrupt w c \/ listedCorrupt w' c) /\
     (forall r d, rl_outcome s = Some (r, d) -> outcomeOk w' r d)) ->
  oinv w'.
Proof.
  intros [Hr Hs Hrec Hc Ho] Hg Hrows Hsent Hrel. split.
  - intros id r [H|H]%Hrows; [by eapply grows_justified|done].
  - intros id e receipt H. destruct (Hsent _ H) as [Hold|(rec & (row & Hl & Hd & _) & E)].
    + destruct (Hs _ _ _ Hold) as (r & Hl & [Hd Hi]). destruct Hg as (Hrow & _). destruct (Hrow _ _ Hl) as (r' & ? & Hp & Hid). exists r'. unfold deliverable. by rewrite Hp, Hid.
    + cbn in E. injection E as -> ->. destruct Hg as (Hrow & _). destruct (Hrow _ _ Hl) as (r' & ? & Hp & Hid). exists r'. unfold deliverable in *. by rewrite Hp, Hid.
  - intros p s r Hp Hin. destruct (Hrel _ _ Hp) as [H|(H & _)]; [eapply grows_listed; eauto|]. destruct (H _ Hin); [by eapply grows_listed|done].
  - intros p s c Hp Hin. destruct (Hrel _ _ Hp) as [H|(_ & H & _)]; [eapply grows_corrupt; eauto|]. destruct (H _ Hin); [by eapply grows_corrupt|done].
  - intros p s r d Hp Hin. destruct (Hrel _ _ Hp) as [H|(_ & _ & H)]; [eapply grows_outcome; eauto|auto].
Qed.

Lemma pending_attempts w id r : justified w id r -> ro_Status r = StatusPending -> 0 <= ro_Attempts r <= failuresOf w id.
Proof. intros Hj Hp. destruct Hj as [(_ & ? & _)|[(E & _)|(E & _)]]; [done|rewrite E in Hp; by vm_compute in Hp..]. Qed.

Lemma list_oinv w p now : oinv w -> ow_relays w !! p = Some idle ->
  oinv (mkoworld (ow_table w) (ow_sent w) (ow_failures w)
    (<[p := mkrelayState (ListPending now (Z.to_nat (batchSize cfg)) (ow_table w)).2 (ListPending now (Z.to_nat (batchSize cfg)) (ow_table w)).1 None]> (ow_relays w))).
Proof.
  intros Hi Hp. apply (oinv_grow w); [done|by apply grows_same_table|by intros id r Hr; left; apply (oi_rows w Hi)|by left|].
  cbn [ow_relays]. intros q s [[<- <-]|[_ ?]]%lookup_insert_Some; [right|by left]. cbn [rl_records rl_corrupt rl_outcome ListPending fst snd]. split_and!; [| |done].
  - intros rec (id & r & [Hl Hd]%elem_query & (<- & Hdel & Ha)%scanRow_record)%elem_records. left. exists r. split_and!; [done..| |];
      unfold due in Hd; apply andb_true_iff in Hd as [Hst%bool_decide_eq_true _]; pose proof (pending_attempts _ _ _ (oi_rows w Hi _ _ Hl) Hst); lia.
  - intros c (id & r & [Hl Hd]%elem_query & (<- & Hc)%scanRow_corrupt)%elem_corrupts. left. by exists r.
Qed.

Lemma settle_justified w rec d now row : outcomeOk w rec d -> ow_table w !! or_ID rec = Some row ->
  justified w (or_ID rec) (patchRow (settleUpdate cfg now rec d) row).
Proof.
  intros [(row' & Hl & Hd & Ha) Ho] Hr. rewrite Hr in Hl. injection Hl as <-. destruct d as [receipt|permanent cause]; cbn [settleUpdate].
  - right. left. split; [done|]. exists (or_Event rec), receipt. split; [exact Hd|]. by cbn.
  - unfold failUpdate. destruct Ho as [Hf Hn]. destruct permanent; cbn [orb].
    + right. right. cbn. split; [done|]. auto.
    + destruct (maxAttempts cfg <=? or_Attempts rec + 1) eqn:E; [right; right; cbn; split; [done|]; right; right; apply Z.leb_le in E; lia|].
      left. cbn. apply Z.leb_gt in E. split_and!; [done|lia..].
Qed.

Lemma ostep_inv w w' : oinv w -> ostep w w' -> oinv w'.
Proof.
  intros Hi Hst. destruct Hst as [id r Hn [Hs Ha]|p|p|p now Hp|p c corrupt recs now applied Hp|p r recs d Hp|p r recs d now applied Hp].
  - assert (grows w (mkoworld (<[id := r]> (ow_table w)) (ow_sent w) (ow_failures w) (ow_relays w))) as Hg.
    { split_and!; try done. intros id' r' Hr'. exists r'. cbn. rewrite lookup_insert_ne by congruence. done. }
    apply (oinv_grow w); [done|done| |by left|by left].
    cbn. intros id' r' [[<- <-]|[_ ?]]%lookup_insert_Some; [right|left; by apply (oi_rows w Hi)]. left. rewrite Ha. split_and!; [done|lia|unfold failuresOf; lia|].
    unfold maxAttempts. case_match; [done|]. apply Z.leb_gt in H. lia.
  - apply (oinv_grow w); [done|by apply grows_same_table|by intros id r Hr; left; apply (oi_rows w Hi)|by left|].
    cbn [ow_relays]. intros q s [[<- <-]|[_ ?]]%lookup_insert_Some; [right; set_solver|by left].
  - apply (oinv_grow w); [done|by apply grows_same_table|by intros id r Hr; left; apply (oi_rows w Hi)|by left|].
    cbn [ow_relays]. intros q s [_ ?]%lookup_delete_Some. by left.
  - by apply list_oinv.
  - pose proof (oi_corrupt w Hi p _ c Hp ltac:(left)) as Hc. apply (oinv_grow w); [done| | |by left|].
    + destruct applied; [apply grows_update|by apply grows_same_table].
    + cbn. intros id r Hr. left. destruct applied; [|by apply (oi_rows w Hi)]. unfold quarantine in Hr. apply UpdateRow_lookup in Hr as [Hr|(-> & r0 & Hr0 & _ & ->)]; [by apply (oi_rows w Hi)|].
      right. right. cbn. split; [done|]. left. destruct Hc as (row & Hl & Hc). rewrite Hr0 in Hl. injection Hl as <-. exact Hc.
    + cbn [ow_relays]. intros q s [[<- <-]|[_ ?]]%lookup_insert_Some; [right|by left]. cbn. split_and!; [| |done]; intros x Hx; left;
        [exact (oi_records w Hi p _ x Hp Hx)|exact (oi_corrupt w Hi p _ x Hp ltac:(by right))].
  - pose proof (oi_records w Hi p _ r Hp ltac:(left)) as Hr. set (w' := mkoworld _ _ _ _).
    assert (grows w w') as Hg. { apply grows_same_table; [destruct d; set_solver..|]. intros id. unfold failuresOf. destruct d; [lia|]. rewrite filter_cons. case_decide; cbn; lia. }
    apply (oinv_grow w); [done|done|by intros id x Hx; left; apply (oi_rows w Hi)| |].
    + intros x Hx. unfold w' in Hx. cbn in Hx. destruct d as [receipt|]; [|by left]. apply elem_of_cons in Hx as [->|Hx]; [right; by exists r|by left].
    + unfold w' at 1. cbn [ow_relays]. intros q s [[<- <-]|[_ ?]]%lookup_insert_Some; [right|by left]. cbn. split_and!; [|set_solver|].
      * intros x Hx. left. exact (oi_records w Hi p _ x Hp ltac:(by right)).
      * intros x d' [= <- <-]. split; [by eapply grows_listed|]. destruct d as [|permanent cause]; unfold w'; cbn; [left|]. split; [left|].
        destruct Hr as (_ & _ & _ & Ha). unfold failuresOf in *. cbn [ow_failures]. rewrite filter_cons_True by done. cbn [length]. lia.
  - pose proof (oi_outcome w Hi p _ r d Hp eq_refl) as Ho. apply (oinv_grow w); [done| | |by left|].
    + destruct applied; [apply grows_update|by apply grows_same_table].
    + cbn. intros id x Hx. left. destruct applied; [|by apply (oi_rows w Hi)]. apply UpdateRow_lookup in Hx as [Hx|(-> & r0 & Hr0 & _ & ->)]; [by apply (oi_rows w Hi)|].
      by apply settle_justified.
    + cbn [ow_relays]. intros q s [[<- <-]|[_ ?]]%lookup_insert_Some; [right|by left]. cbn. split_and!; [|set_solver|done]. intros x Hx. left. exact (oi_records w Hi p _ x Hp Hx).
Qed.

Lemma ostep_keeps w w' id r : ostep w w' -> ow_table w !! id = Some r ->
  exists r', ow_table w' !! id = Some r' /\ ro_Payload r' = ro_Payload r /\ ro_Identity r' = ro_Identity r /\ (ro_Status r <> StatusPending -> r' = r).
Proof.
  intros Hst Hr. destruct Hst as [id' r' Hn _|p|p|p now Hp|p c corrupt recs now applied Hp|p x recs d Hp|p x recs d now applied Hp]; cbn; try (by exists r).
  - exists r. rewrite lookup_insert_ne by congruence. done.
  - destruct applied; [by apply UpdateRow_keeps|by exists r].
  - destruct applied; [by apply UpdateRow_keeps|by exists r].
Qed.

Lemma oreachable_inv w : oreachable w -> oinv w.
Proof.
  intros Hr. assert (oinv oinitial) as Hi. { split; cbn; [by intros ? ? ?%lookup_empty_Some|set_solver|by intros ? ? ? ?%lookup_empty_Some..|by intros ? ? ? ? ?%lookup_empty_Some]. }
  revert Hi. induction Hr as [|w1 w2 w3 Hs _ IH]; [done|]. intros Hi. apply IH. by eapply ostep_inv.
Qed.

Lemma steps_keep w w' id r : rtc ostep w w' -> ow_table w !! id = Some r ->
  exists r', ow_table w' !! id = Some r' /\ ro_Payload r' = ro_Payload r /\ ro_Identity r' = ro_Identity r /\ (ro_Status r <> StatusPending -> r' = r).
Proof.
  intros Hr. revert r. induction Hr as [|w1 w2 w3 Hs _ IH]; intros r Hl; [by exists r|].
  destruct (ostep_keeps _ _ _ _ Hs Hl) as (r2 & Hl2 & Hp2 & Hi2 & Hf2). destruct (IH _ Hl2) as (r3 & Hl3 & Hp3 & Hi3 & Hf3).
  exists r3. split_and!; [done|congruence..|]. intros Hne. rewrite <- (Hf2 Hne). apply Hf3. by rewrite Hf2.
Qed.

(** C16: any number of relays poll the outbox while business transactions write
    to it; a delivery may fail, an update may be lost, a relay may stop at any
    point.  A row that says delivered was delivered: the transport took exactly
    the event its payload decodes to, whose identity the row's columns have, and
    the row carries that receipt.  A row is dead-lettered only when it is corrupt,
    a delivery of it failed permanently, or deliveries of it failed as many times
    as the relay allows.  Nothing else is ever sent: what was sent is the payload
    of a row.  No row disappears or changes its payload, and a settled row never
    changes again. *)
Theorem outbox_outcomes_justified (w w' : oworld) : oreachable w -> rtc ostep w w' ->
  (forall id r, ow_table w !! id = Some r ->
     ro_Status r = StatusPending /\ ro_Attempts r < maxAttempts cfg \/
     ro_Status r = StatusDelivered /\ (exists e receipt, decodeEvent (ro_Payload r) = Ok e /\ identityMismatch id (ro_Identity r) e = None /\
       (id, e, receipt) ∈ ow_sent w /\ ro_DeliveredEventID r = nullableString (match receipt with Some rc => rc_EventID rc | None => "" end)) \/
     ro_Status r = StatusFailed /\ ((forall e, decodeEvent (ro_Payload r) = Ok e -> identityMismatch id (ro_Identity r) e <> None) \/
       (id, true) ∈ ow_failures w \/ maxAttempts cfg <= failuresOf w id)) /\
  (forall id e receipt, (id, e, receipt) ∈ ow_sent w -> exists r, ow_table w !! id = Some r /\ decodeEvent (ro_Payload r) = Ok e) /\
  (forall id r, ow_table w !! id = Some r -> exists r', ow_table w' !! id = Some r' /\ ro_Payload r' = ro_Payload r /\
     (ro_Status r <> StatusPending -> r' = r)).
Proof.
  intros Hi%oreachable_inv Hsteps. split_and!.
  - intros id r Hl. destruct (oi_rows w Hi id r Hl) as [(? & _ & ?)|[(? & e & rc & [? ?] & ? & ? & _)|(? & Hc)]]; [by left|right; left; eauto 8|right; right].
    split; [done|]. destruct Hc as [Hc|?]; [left|by right]. intros e He Hm. by apply (Hc e).
  - intros id e rc Hin. destruct (oi_sent w Hi _ _ _ Hin) as (r & ? & ? & _). eauto.
  - intros id r Hl. destruct (steps_keep _ _ _ _ Hsteps Hl) as (r' & ? & ? & _ & ?). eauto.
Qed.

(** ** A healthy transport drains the table *)

Definition answers (deliver : Event -> delivery) : Prop := forall e cause, deliver e <> Undelivered false cause.

(** What a round makes of a row it lists. *)
Definition patchOf (deliver : Event -> delivery) (now : time) (id : Z) (r : row) : Update :=
  match scanRow id r with
  | inl rec => settleUpdate cfg now rec (deliver (or_Event rec))
  | inr c => quarantineUpdate now c
  end.

Definition updateAll (us : list (Z * Update)) (t : gmap Z row) : gmap Z row := foldl (fun t u => (UpdateRow u.1 u.2 t).1) t us.

Lemma UpdateRow_ne id patch (t : gmap Z row) id' : id' <> id -> (UpdateRow id patch t).1 !! id' = t !! id'.
Proof. intros Hne. unfold UpdateRow. repeat case_match; cbn; try done. by rewrite lookup_insert_ne. Qed.
Lemma UpdateRow_eq id patch (t : gmap Z row) r : t !! id = Some r -> ro_Status r = StatusPending -> (UpdateRow id patch t).1 !! id = Some (patchRow patch r).
Proof. intros Hr Hp. unfold UpdateRow. rewrite Hr, bool_decide_eq_true_2 by done. cbn. apply lookup_insert_eq. Qed.

Lemma updateAll_other us (t : gmap Z row) id : id ∉ us.*1 -> updateAll us t !! id = t !! id.
Proof.
  revert t. induction us as [|[i p] us IH]; intros t H; [done|]. cbn in *. apply not_elem_of_cons in H as [Hi Hus].
  unfold updateAll in *. cbn. rewrite IH by done. by apply UpdateRow_ne.
Qed.
Lemma updateAll_one us (t : gmap Z row) id patch r : NoDup us.*1 -> (id, patch) ∈ us -> t !! id = Some r -> ro_Status r = StatusPending ->
  updateAll us t !! id = Some (patchRow patch r).
Proof.
  revert t. induction us as [|[i p] us IH]; intros t Hnd Hin Hr Hp; [by apply elem_of_nil in Hin|]. cbn in Hnd. apply NoDup_cons in Hnd as [Hi Hnd].
  apply elem_of_cons in Hin as [[= <- <-]|Hin].
  - unfold updateAll. cbn. change (foldl _ _ us) with (updateAll us (UpdateRow id patch t).1). rewrite updateAll_other by done. by apply UpdateRow_eq.
  - unfold updateAll in *. cbn. apply IH; [done..| |done]. rewrite UpdateRow_ne; [done|]. intros ->. apply Hi. by apply (list_elem_of_fmap_2 fst _ (i, patch)).
Qed.

Definition roundUpdates (deliver : Event -> delivery) (now : time) (l : list (Z * row)) : list (Z * Update) :=
  (map (fun c => (cr_ID c, quarantineUpdate now c)) (corrupts l) ++
   map (fun rec => (or_ID rec, settleUpdate cfg now rec (deliver (or_Event rec)))) (records l))%list.

Lemma RunOnce_updates deliver now (t : gmap Z row) :
  (RunOnce cfg deliver now t).1 = updateAll (roundUpdates deliver now (listPendingQuery now (Z.to_nat (batchSize cfg)) t)) t.
Proof.
  unfold RunOnce, ListPending, updateAll, roundUpdates. cbn. rewrite foldl_app. set (l := listPendingQuery _ _ _).
  assert (forall A (f : A -> Z * Update) xs (t : gmap Z row), foldl (fun t u => (UpdateRow u.1 u.2 t).1) t (map f xs) = foldl (fun t x => (UpdateRow (f x).1 (f x).2 t).1) t xs) as Hm.
  { intros A f xs. induction xs as [|x xs IH]; intros t0; [done|]. cbn. apply IH. }
  by rewrite !Hm.
Qed.

Lemma roundUpdates_perm deliver now l : roundUpdates deliver now l ≡ₚ map (fun x => (x.1, patchOf deliver now x.1 x.2)) l.
Proof.
  induction l as [|[id r] l IH]; [done|]. unfold roundUpdates, records, corrupts in *. cbn [omap list_omap map fst snd]. unfold patchOf at 1.
  destruct (scanRow id r) as [rec|c] eqn:E.
  - destruct (scanRow_record _ _ _ E) as (Hid & _). cbn [map]. rewrite <- Permutation_middle, IH. by rewrite Hid.
  - destruct (scanRow_corrupt _ _ _ E) as (Hid & _). cbn [map app]. by rewrite IH, Hid.
Qed.

Definition dueRows (now : time) (t : gmap Z row) : list (Z * row) := List.filter (fun x => due now x.2) (map_to_list t).

Lemma due_nodup now (t : gmap Z row) : NoDup (dueRows now t).*1.
Proof.
  unfold dueRows. pose proof (NoDup_fst_map_to_list t) as Hnd. induction (map_to_list t) as [|[i x] l IH]; [constructor|]. cbn in *. apply NoDup_cons in Hnd as [Hi Hnd].
  destruct (due now x); [|by apply IH]. cbn. constructor; [|by apply IH]. intros Hin. apply Hi. apply list_elem_of_fmap in Hin as (y & -> & Hy).
  apply list_elem_of_In, filter_In in Hy as [Hy _]. apply list_elem_of_fmap. exists y. by rewrite list_elem_of_In.
Qed.

Lemma query_take now limit (t : gmap Z row) : exists ids, ids ≡ₚ (dueRows now t).*1 /\ (listPendingQuery now limit t).*1 = take limit ids.
Proof.
  exists (stable_sort retry_leb (dueRows now t)).*1. unfold listPendingQuery. rewrite fmap_take. split; [|done]. by rewrite stable_sort_perm.
Qed.

Lemma query_nodup now limit (t : gmap Z row) : NoDup (listPendingQuery now limit t).*1.
Proof.
  destruct (query_take now limit t) as (ids & Hp & ->). eapply sublist_NoDup; [|apply sublist_take]. rewrite Hp. apply due_nodup.
Qed.

(** A round settles what it lists and leaves the rest. *)
Lemma RunOnce_lookup deliver now (t : gmap Z row) id :
  let l := listPendingQuery now (Z.to_nat (batchSize cfg)) t in
  (RunOnce cfg deliver now t).1 !! id = if decide (id ∈ l.*1) then (fun r => patchRow (patchOf deliver now id r) r) <$> t !! id else t !! id.
Proof.
  intros l. rewrite RunOnce_updates. fold l. assert ((roundUpdates deliver now l).*1 ≡ₚ l.*1) as Hp.
  { rewrite roundUpdates_perm. rewrite <- list_fmap_compose. done. }
  case_decide as Hin.
  - apply list_elem_of_fmap in Hin as ([i r] & -> & Hin). cbn [fst]. pose proof Hin as [Hr Hd]%elem_query. rewrite Hr. cbn [fmap option_fmap option_map].
    apply updateAll_one; [rewrite Hp; apply query_nodup| |done|by unfold due in Hd; apply andb_true_iff in Hd as [?%bool_decide_eq_true _]].
    rewrite roundUpdates_perm. apply list_elem_of_fmap. by exists (i, r).
  - apply updateAll_other. by rewrite Hp.
Qed.

Definition dueIds (now : time) (t : gmap Z row) : gset Z := list_to_set (dueRows now t).*1.

Lemma elem_dueIds now (t : gmap Z row) id : id ∈ dueIds now t <-> exists r, t !! id = Some r /\ due now r = true.
Proof.
  unfold dueIds, dueRows. rewrite elem_of_list_to_set, list_elem_of_fmap. split.
  - intros ([i r] & -> & [Hin Hd]%list_elem_of_In%filter_In). exists r. split; [|done]. by apply elem_of_map_to_list, list_elem_of_In.
  - intros (r & Hr & Hd). exists (id, r). split; [done|]. apply list_elem_of_In, filter_In. split; [|done]. by apply list_elem_of_In, elem_of_map_to_list.
Qed.

Lemma size_dueIds now (t : gmap Z row) : (size (dueIds now t) <= size t)%nat.
Proof.
  unfold dueIds. rewrite size_list_to_set by apply due_nodup. unfold dueRows. rewrite length_fmap, <- length_map_to_list.
  apply List.filter_length_le.
Qed.

(** A row after a round that listed it. *)
Definition settledRow (deliver : Event -> delivery) (id : Z) (r r' : row) : Prop :=
  (exists e receipt, deliverable r id e /\ deliver e = Delivered receipt /\ ro_Status r' = StatusDelivered) \/
  (ro_Status r' = StatusFailed /\ forall e, deliverable r id e -> exists cause, deliver e = Undelivered true cause).

Lemma patch_settles deliver now id r : answers deliver -> settledRow deliver id r (patchRow (patchOf deliver now id r) r).
Proof.
  intros Ha. unfold patchOf. destruct (scanRow id r) as [rec|c] eqn:E.
  - destruct (scanRow_record _ _ _ E) as (_ & Hd & _). destruct (deliver (or_Event rec)) as [receipt|[] cause] eqn:Ed; [left; eauto|right|by apply Ha in Ed].
    split; [done|]. intros e [He _]. destruct Hd as [He' _]. rewrite He in He'. injection He' as ->. eauto.
  - destruct (scanRow_corrupt _ _ _ E) as (_ & Hc). right. split; [done|]. intros e He. by apply Hc in He.
Qed.

Lemma settled_not_pending deliver id r r' : settledRow deliver id r r' -> ro_Status r' <> StatusPending.
Proof. intros [(? & ? & _ & _ & ->)|[-> _]]; by vm_compute. Qed.

Lemma round_due deliver now (t : gmap Z row) : answers deliver ->
  Z.of_nat (size (dueIds now (RunOnce cfg deliver now t).1)) <= Z.max 0 (Z.of_nat (size (dueIds now t)) - batchSize cfg).
Proof.
  intros Ha. set (l := (listPendingQuery now (Z.to_nat (batchSize cfg)) t).*1). assert (0 < batchSize cfg) as Hb by (unfold batchSize; case_match eqn:E; [done|apply Z.leb_gt in E; lia]).
  destruct (query_take now (Z.to_nat (batchSize cfg)) t) as (ids & Hp & Hl). fold l in Hl.
  assert (dueIds now (RunOnce cfg deliver now t).1 ⊆ dueIds now t ∖ list_to_set l) as Hsub.
  { intros id. rewrite elem_of_difference, !elem_dueIds, elem_of_list_to_set. intros (r & Hr & Hd). rewrite RunOnce_lookup in Hr. fold l in Hr. case_decide as Hin; [|eauto].
    apply fmap_Some in Hr as (r0 & _ & ->). exfalso. apply (settled_not_pending deliver id r0 (patchRow (patchOf deliver now id r0) r0)); [by apply patch_settles|].
    unfold due in Hd. by apply andb_true_iff in Hd as [?%bool_decide_eq_true _]. }
  apply subseteq_size in Hsub. rewrite size_difference in Hsub.
  - rewrite size_list_to_set in Hsub by apply query_nodup. rewrite Hl, length_take, Hp in Hsub. assert (size (dueIds now t) = length (dueRows now t).*1) as Hs by (unfold dueIds; by rewrite size_list_to_set by apply due_nodup). lia.
  - intros id. rewrite elem_of_list_to_set, Hl. intros Hin. apply elem_of_take in Hin as (i & Hi & _). apply list_elem_of_lookup_2 in Hi. rewrite Hp in Hi. unfold dueIds. by rewrite elem_of_list_to_set.
Qed.

Definition rounds (deliver : Event -> delivery) (now : time) (k : nat) (t : gmap Z row) : gmap Z row :=
  Nat.iter k (fun t => (RunOnce cfg deliver now t).1) t.

Lemma rounds_due deliver now k (t : gmap Z row) : answers deliver ->
  Z.of_nat (size (dueIds now (rounds deliver now k t))) <= Z.max 0 (Z.of_nat (size (dueIds now t)) - Z.of_nat k * batchSize cfg).
Proof.
  intros Ha. induction k as [|k IH]; [cbn; lia|]. change (rounds deliver now (S k) t) with (RunOnce cfg deliver now (rounds deliver now k t)).1.
  pose proof (round_due deliver now (rounds deliver now k t) Ha). assert (0 < batchSize cfg) by (unfold batchSize; case_match eqn:E; [done|apply Z.leb_gt in E; lia]). lia.
Qed.

(** Along the rounds a row is as it was, or settled from what it was. *)
Lemma rounds_lookup deliver now k (t : gmap Z row) id r : answers deliver -> t !! id = Some r ->
  exists r', rounds deliver now k t !! id = Some r' /\ (r' = r \/ ro_Status r = StatusPending /\ settledRow deliver id r r').
Proof.
  intros Ha Hr. induction k as [|k (r1 & Hr1 & IH)]; [by exists r; auto|].
  change (rounds deliver now (S k) t) with (RunOnce cfg deliver now (rounds deliver now k t)).1. rewrite RunOnce_lookup, Hr1. case_decide as Hin; [|by exists r1].
  apply list_elem_of_fmap in Hin as ([i x] & -> & [Hx Hd]%elem_query). cbn [fst] in *. rewrite Hx in Hr1. injection Hr1 as ->.
  unfold due in Hd. apply andb_true_iff in Hd as [Hst%bool_decide_eq_true _]. eexists. split; [done|].
  destruct IH as [->|[_ Hs]]; [right; split; [done|by apply patch_settles]|by apply settled_not_pending in Hs].
Qed.

(** C18: a relay over a store and a transport that answer drains the outbox.  Let
    every pending row be due, and let the transport deliver or reject each event.
    After any number of rounds whose batches add up to the size of the table, no
    row is pending: each pending row is delivered, when its payload decodes to an
    event with the row's identity that the transport took, or dead-lettered, when
    it has no such event or the transport rejected it; corrupt rows block nothing,
    and settled rows are as they were. *)
Theorem relay_drains deliver now k (t : gmap Z row) : answers deliver ->
  (forall id r, t !! id = Some r -> ro_Status r = StatusPending -> ro_NextAttemptAt r <= now) ->
  Z.of_nat (size t) <= Z.of_nat k * batchSize cfg ->
  forall id r, t !! id = Some r -> exists r', rounds deliver now k t !! id = Some r' /\
    (ro_Status r <> StatusPending -> r' = r) /\
    (ro_Status r = StatusPending ->
       (exists e receipt, deliverable r id e /\ deliver e = Delivered receipt /\ ro_Status r' = StatusDelivered) \/
       (ro_Status r' = StatusFailed /\ forall e, deliverable r id e -> exists cause, deliver e = Undelivered true cause)).
Proof.
  intros Ha Hdue Hk id r Hr. destruct (rounds_lookup deliver now k t id r Ha Hr) as (r' & Hr' & Hcase). exists r'. split; [done|].
  destruct Hcase as [->|[Hst Hs]]; [|by split]. split; [done|]. intros Hst. exfalso.
  pose proof (rounds_due deliver now k t Ha). pose proof (size_dueIds now t).
  assert (dueIds now (rounds deliver now k t) = ∅) as He by (apply leibniz_equiv, size_empty_inv; lia).
  assert (id ∈ dueIds now (rounds deliver now k t)) as Hin; [|set_solver].
  apply elem_dueIds. exists r. split; [done|]. unfold due. rewrite bool_decide_eq_true_2 by done. by apply Z.leb_le, (Hdue id).
Qed.

(** ** The SDK *)

(** What encoding/json and jsonb keep of an event: its text decodes to an event
    of the same identity and digest, and equals itself. *)
Definition codecKeeps (e : Event) : Prop :=
  forall text, encodeEvent e = Ok text -> jsonbEqual text text = true /\
    exists e', decodeEvent text = Ok e' /\ ev_EventID e' = ev_EventID e /\ ev_TenantID e' = ev_TenantID e /\
      ev_IdempotencyKey e' = ev_IdempotencyKey e /\ ev_OccurredAt e' = ev_OccurredAt e /\ EventContentDigest e' = EventContentDigest e.

Lemma rowWhere_Some p (t : gmap Z row) r : rowWhere p t = Some r -> p r = true /\ exists id, t !! id = Some r.
Proof.
  unfold rowWhere. intros ([id x] & Hf & ->)%fmap_Some. apply find_some in Hf as [Hin Hp]. split; [done|]. exists id.
  by apply elem_of_map_to_list, list_elem_of_In.
Qed.
Lemma rowWhere_None p (t : gmap Z row) : rowWhere p t = None -> forall id r, t !! id = Some r -> p r = false.
Proof.
  unfold rowWhere. intros Hf%fmap_None id r Hr. apply (find_none _ _ Hf (id, r)). by apply list_elem_of_In, elem_of_map_to_list.
Qed.
Lemma rowWhere_exists p (t : gmap Z row) id r : t !! id = Some r -> p r = true -> exists x, rowWhere p t = Some x.
Proof.
  intros Hr Hp. destruct (rowWhere p t) eqn:E; [eauto|]. by rewrite (rowWhere_None _ _ E _ _ Hr) in Hp.
Qed.

Lemma normalize_nonzero z : MinOccurredAt <= z -> normalizePostgresTimestamp z <> 0.
Proof. intros H. unfold normalizePostgresTimestamp. pose proof (Z.mod_pos_bound z 1000). assert (1000 < MinOccurredAt) by (by vm_compute). lia. Qed.

Lemma columns_match id e e' : ev_EventID e <> "" -> ev_TenantID e <> "" -> ev_IdempotencyKey e <> "" -> ev_OccurredAt e <> 0 ->
  ev_EventID e' = ev_EventID e -> ev_TenantID e' = ev_TenantID e -> ev_IdempotencyKey e' = ev_IdempotencyKey e -> ev_OccurredAt e' = ev_OccurredAt e ->
  identityMismatch id (columnsOf e) e' = None.
Proof.
  intros H1 H2 H3 H4 E1 E2 E3 E4. unfold identityMismatch, mismatchFields, columnsOf. cbn. rewrite E1, E2, E3, E4. unfold time_IsZero.
  rewrite !(bool_decide_eq_false_2 (_ = "")) by done. rewrite !bool_decide_eq_true_2 by done. by rewrite (proj2 (Z.eqb_neq _ 0)) by done.
Qed.

(** The unique index on event_id. *)
Definition uniqueEvents (t : gmap Z row) : Prop :=
  forall i j r r', t !! i = Some r -> t !! j = Some r' -> ri_EventIDValid (ro_Identity r) = true -> ri_EventIDValid (ro_Identity r') = true ->
    ri_EventID (ro_Identity r) = ri_EventID (ro_Identity r') -> i = j.

Lemma insert_inv id now e (t t' : gmap Z row) : Insert id now e t = Ok t' ->
  exists encoded, encodeEvent (storedEvent e) = Ok encoded /\ ev_TenantID e <> "" /\ ev_EventID e <> "" /\ ev_IdempotencyKey e <> "" /\ MinOccurredAt <= ev_OccurredAt e /\
    (forall id' now' t2, Insert id' now' e t2 = match rowWhere (fun r => sameEventID (storedEvent e) r || sameIdemKey (storedEvent e) r) t2 with
       | None => Ok (<[id' := newRow (storedEvent e) encoded now']> t2) | Some _ => let? _ := classifyZeroRows t2 (storedEvent e) encoded in Ok t2 end) /\
    (rowWhere (fun r => sameEventID (storedEvent e) r || sameIdemKey (storedEvent e) r) t = None /\ t' = <[id := newRow (storedEvent e) encoded now]> t \/
     (exists r, rowWhere (fun r => sameEventID (storedEvent e) r || sameIdemKey (storedEvent e) r) t = Some r) /\ classifyZeroRows t (storedEvent e) encoded = Ok tt /\ t' = t).
Proof.
  intros H. unfold Insert in H |- *. destruct (bool_decide (ev_TenantID e = "")) eqn:Ht; [done|]. cbn [negb guard_err result_bind] in H |- *.
  destruct (ValidateBasic e) as [u|] eqn:Hv; [|done]. cbn [result_bind] in H |- *. destruct (encodeEvent e) as [o|]; [|done]. cbn [result_bind] in H |- *.
  destruct (Zlen o <=? MaxEventBytes); [|done]. cbn [guard_err result_bind] in H |- *. destruct (encodeEvent (storedEvent e)) as [encoded|] eqn:He; [|done]. cbn [result_bind] in H |- *.
  destruct (Zlen encoded <=? MaxEventBytes) eqn:Hl; [|done]. cbn [guard_err result_bind] in H |- *. exists encoded. split; [done|]. apply bool_decide_eq_false in Ht.
  pose proof (Keys.ValidateBasic_components e u Hv) as (_ & _ & _ & _ & _ & [Hmin _] & _).
  unfold ValidateBasic in Hv. destruct (forallb _ _) eqn:Hf; [|done]. clear Hv.
  assert (forall v, v ∈ requiredFields e -> v <> "") as Hne.
  { intros v Hv' ->. rewrite forallb_forall in Hf. apply list_elem_of_In, Hf in Hv'. by vm_compute in Hv'. }
  split_and!; [done|apply Hne; left|apply Hne; do 8 right; left|done|done|].
  destruct (rowWhere _ t) as [r|] eqn:Hw; [right|left; by injection H as <-]. split; [eauto|].
  destruct (classifyZeroRows t (storedEvent e) encoded) as [[]|]; [|done]. by injection H as <-.
Qed.

Lemma newRow_deliverable id now e encoded : codecKeeps (storedEvent e) -> encodeEvent (storedEvent e) = Ok encoded ->
  ev_TenantID e <> "" -> ev_EventID e <> "" -> ev_IdempotencyKey e <> "" -> MinOccurredAt <= ev_OccurredAt e ->
  exists e', deliverable (newRow (storedEvent e) encoded now) id e' /\ EventContentDigest e' = EventContentDigest (storedEvent e).
Proof.
  intros Hk He Ht Hid Hidem Hmin. destruct (Hk _ He) as (_ & e' & Hd & H1 & H2 & H3 & H4 & H5). exists e'. split; [split; [done|]|done].
  apply columns_match; try done. by apply normalize_nonzero.
Qed.

Lemma unique_row (t : gmap Z row) e i r x : uniqueEvents t -> t !! i = Some r -> sameEventID e r = true -> rowWhere (sameEventID e) t = Some x -> x = r.
Proof.
  intros Hu Hr He (Hx & j & Hj)%rowWhere_Some. unfold sameEventID in He, Hx. apply andb_true_iff in He as [? ?%bool_decide_eq_true], Hx as [? ?%bool_decide_eq_true].
  assert (i = j) as <- by (apply (Hu i j r x); try done; congruence). congruence.
Qed.

(** C28: the contract of Insert.  A successful Insert adds one pending row and
    changes no other, or finds the event recorded already and changes nothing.
    The row it adds passes the relay's identity check whatever the precision of
    the event's time, and what a relay will deliver has the content digest of the
    stored event; event identifiers stay unique.  Inserting the event again, at
    any later time, succeeds and changes nothing; once the row of the event is
    dead-lettered, an insert that finds the same text is refused as a conflict
    instead of resurrecting it. *)
Theorem insert_contract id now e (t t' : gmap Z row) : uniqueEvents t -> t !! id = None -> codecKeeps (storedEvent e) -> Insert id now e t = Ok t' ->
  (t' = t \/ exists r e', t' = <[id := r]> t /\ fresh r /\ ro_NextAttemptAt r = now /\ deliverable r id e' /\ EventContentDigest e' = EventContentDigest (storedEvent e)) /\
  uniqueEvents t' /\
  (forall id' now', Insert id' now' e t' = Ok t') /\
  (forall id' now' t2 i r encoded, uniqueEvents t2 -> t2 !! i = Some r -> sameEventID (storedEvent e) r = true -> ro_Status r = StatusFailed ->
     encodeEvent (storedEvent e) = Ok encoded -> jsonbEqual (ro_Payload r) encoded = true ->
     exists err, Insert id' now' e t2 = Err err).
Proof.
  intros Hu Hfresh Hk Hins. pose proof Hins as (encoded & He & Ht & Hid & Hidem & Hmin & Hagain & Hcase)%insert_inv.
  assert (uniqueEvents t') as Hu'.
  { destruct Hcase as [[Hnone ->]|(_ & _ & ->)]; [|done]. intros i j r r' Hi Hj Hv Hv' Heq. pose proof (rowWhere_None _ _ Hnone) as Hno.
    assert (forall k x, t !! k = Some x -> ri_EventIDValid (ro_Identity x) = true -> ri_EventID (ro_Identity x) <> ev_EventID e) as Hne.
    { intros k x Hx Hvx E. specialize (Hno _ _ Hx). apply orb_false_iff in Hno as [Hno _]. unfold sameEventID in Hno. rewrite Hvx, bool_decide_eq_true_2 in Hno by done. done. }
    apply lookup_insert_Some in Hi as [[<- <-]|[? Hi]], Hj as [[<- <-]|[? Hj]]; [done| | |by eapply Hu].
    - by apply (Hne _ _ Hj) in Hv'.
    - symmetry in Heq. by apply (Hne _ _ Hi) in Hv. }
  split_and!; [| |..].
  - destruct Hcase as [[_ ->]|(_ & _ & ->)]; [right|by left]. destruct (newRow_deliverable id now e encoded Hk He Ht Hid Hidem Hmin) as (e' & Hd & Hdig).
    eexists _, e'. split; [done|]. by split_and!.
  - done.
  - intros id' now'. rewrite Hagain. destruct Hcase as [[Hnone ->]|((r & Hw) & Hc & ->)]; [|by rewrite Hw, Hc].
    set (row0 := newRow (storedEvent e) encoded now) in *.
    assert (sameEventID (storedEvent e) row0 = true) as Hs by (unfold sameEventID, row0; cbn; by rewrite bool_decide_eq_true_2).
    destruct (rowWhere_exists (fun r => sameEventID (storedEvent e) r || sameIdemKey (storedEvent e) r) (<[id := row0]> t) id row0) as [x ->]; [apply lookup_insert_eq|by rewrite Hs|].
    unfold classifyZeroRows. destruct (rowWhere_exists (sameEventID (storedEvent e)) (<[id := row0]> t) id row0) as [y Hy]; [apply lookup_insert_eq|done|].
    rewrite Hy. apply (unique_row _ _ id row0) in Hy as ->; [|done|apply lookup_insert_eq|done]. destruct (Hk _ He) as (Hj & _). cbn [ro_Payload row0 newRow]. by rewrite Hj.
  - intros id' now' t2 i r enc2 Hu2 Hr Hs Hst Henc Hj. rewrite He in Henc. injection Henc as <-. destruct (Insert id' now' e t2) as [t3|err] eqn:Hi2; [|eauto]. exfalso.
    apply insert_inv in Hi2 as (enc & He2 & _ & _ & _ & _ & _ & Hcase2). rewrite He in He2. injection He2 as <-.
    destruct Hcase2 as [[Hn _]|(_ & Hc & _)]; [by pose proof (rowWhere_None _ _ Hn _ _ Hr) as Hno; cbn beta in Hno; rewrite Hs in Hno|].
    unfold classifyZeroRows in Hc. destruct (rowWhere_exists (sameEventID (storedEvent e)) t2 i r Hr Hs) as [y Hy]. rewrite Hy in Hc.
    apply (unique_row _ _ i r) in Hy as ->; [|done..]. rewrite Hj, Hst in Hc. by vm_compute in Hc.
Qed.

(** ** The retry schedule *)

Lemma backoffLoop_exact n b m : 0 < b -> m <= 2 ^ 62 -> (b <= m -> backoffLoop n b m = Z.min (b * 2 ^ Z.of_nat n) m) /\ (m < b -> backoffLoop n b m = b).
Proof.
  intros Hb Hm. split.
  - revert b Hb. induction n as [|n IH]; intros b Hb Hle; [cbn; lia|]. cbn [backoffLoop]. assert (0 < 2 ^ Z.of_nat n) by (by apply Z.pow_pos_nonneg; lia).
    assert (2 ^ Z.of_nat (S n) = 2 * 2 ^ Z.of_nat n) as -> by (rewrite Nat2Z.inj_succ, Z.pow_succ_r; lia).
    destruct (Z.ltb_spec b m) as [Hlt|Hge]; [|nia]. assert (Holds.wrap64 (b * 2) = b * 2) as -> by (unfold Holds.wrap64; rewrite Z.mod_small; lia).
    destruct (Z.ltb_spec m (b * 2)); [nia|]. rewrite IH by lia. f_equal. lia.
  - intros Hlt. destruct n; cbn; [done|]. by rewrite (proj2 (Z.ltb_ge _ _)) by lia.
Qed.

(** The wait before attempt [n] of a delivery is the base wait doubled [n - 1]
    times and capped at the configured maximum, exactly, for every attempt number,
    when the base is within the maximum and the maximum within 2^62 ns; so the
    doubling never overflows, and the waits never exceed the maximum. *)
Theorem backoff_exact n : 1 <= n -> baseBackoff cfg <= maxBackoff cfg -> maxBackoff cfg <= 2 ^ 62 ->
  backoff cfg n = Z.min (baseBackoff cfg * 2 ^ (n - 1)) (maxBackoff cfg) /\ 0 < backoff cfg n <= maxBackoff cfg.
Proof.
  intros Hn Hbm Hm. assert (0 < baseBackoff cfg) as Hb by (unfold baseBackoff; case_match eqn:E; [done|apply Z.leb_gt in E; lia]).
  unfold backoff. destruct (backoffLoop_exact (Z.to_nat (n - 1)) (baseBackoff cfg) (maxBackoff cfg) Hb Hm) as [H _]. rewrite H, Z2Nat.id by lia.
  split; [done|]. assert (0 < 2 ^ (n - 1)) by (apply Z.pow_pos_nonneg; lia). nia.
Qed.

End codec.

(** ** A run *)

(** An event with a sub-microsecond time, and a codec that knows it. *)
Definition demoEvent : Event :=
  mkEvent "e1" "t1" "billing" "invoice.paid" "sch" 1 (693595 * Day + 1234567) 0 "op1" "" "" "" ""
    (mkActor "a" "" "" "" []) [] "" "" 0 "" "" "create" "success" "" ∅ (Some ∅) "" "" "internal" "std" "k1" "" 0 "" "" "".
Definition demoCodec : OutboxCodec :=
  mkOutboxCodec (fun e => Ok (ev_EventID e)) (fun text => if bool_decide (text = "e1") then Ok (storedEvent demoEvent) else Err (NewErr "decode")) String.eqb.
Definition demoRelay : Relay := mkRelay 1 3 0 0.

Lemma demo_keeps : @codecKeeps demoCodec (storedEvent demoEvent).
Proof. intros text [= <-]. split; [done|]. exists (storedEvent demoEvent). by split_and!. Qed.

Definition insertedRow : row := newRow (storedEvent demoEvent) "e1" 10.
Definition corruptDemo : row := mkrow (columnsOf demoEvent) "?" StatusPending 0 5 None 5 None None None.
Definition demoReceipt (e : Event) : EventReceipt := mkEventReceipt (ev_EventID e) "t1" "k1" StatusLedgered 20 20 0 0 "s" 1 "h" false false "" "".
Definition demoDeliver (e : Event) : delivery := classifyResponse e (mkresponse 202 "" (Some (demoReceipt e))).

Lemma demo_insert : @Insert demoCodec 1 10 demoEvent ∅ = Ok {[1 := insertedRow]}.
Proof. by vm_compute. Qed.

Lemma insert_contract_witness : @Insert demoCodec 2 20 demoEvent {[1 := insertedRow]} = Ok {[1 := insertedRow]}.
Proof.
  destruct (@insert_contract demoCodec 1 10 demoEvent ∅ {[1 := insertedRow]}) as (_ & _ & H & _).
  - intros i j r r' Hi. by rewrite lookup_empty in Hi.
  - done.
  - exact demo_keeps.
  - exact demo_insert.
  - exact (H 2 20).
Defined.

Definition demoTable : gmap Z row := {[1 := insertedRow; 2 := corruptDemo]}.

(** Two rounds of one row each deliver the event and dead-letter the other row. *)
Lemma relay_drains_witness : exists r', @rounds demoCodec demoRelay demoDeliver 10 2 demoTable !! 2 = Some r' /\ ro_Status r' <> StatusPending.
Proof.
  destruct (@relay_drains demoCodec demoRelay demoDeliver 10 2 demoTable) with (id := 2) (r := corruptDemo) as (r' & Hr & _ & Hs).
  - intros e cause. unfold demoDeliver, classifyResponse, verifyReceipt. cbn. by rewrite bool_decide_eq_true_2.
  - intros id r Hr _. unfold demoTable in Hr. apply lookup_insert_Some in Hr as [[<- <-]|[_ Hr]]; [done|]. by apply lookup_singleton_Some in Hr as [<- <-].
  - by vm_compute.
  - by vm_compute.
  - exists r'. split; [exact Hr|]. destruct (Hs eq_refl) as [(e & rc & _ & _ & ->)|[-> _]]; by vm_compute.
Defined.

Lemma backoff_exact_witness : backoff demoRelay 5 = 16 * Second.
Proof. rewrite (proj1 (backoff_exact demoRelay 5 ltac:(done) ltac:(done) ltac:(done))). reflexivity. Defined.

(** The same rows handled by a relay of the system, one delivery at a time. *)
Definition demoRecord : outboxRecord := mkoutboxRecord 1 (storedEvent demoEvent) StatusPending 0 10 None 10.
Definition demoOutcome : delivery := demoDeliver (storedEvent demoEvent).
Definition deliveredRow : row := patchRow (settleUpdate demoRelay 11 demoRecord demoOutcome) insertedRow.
Definition demoSent : list (Z * Event * option EventReceipt) := [(1, storedEvent demoEvent, Some (demoReceipt (storedEvent demoEvent)))].
Definition demoWorld (table : gmap Z row) sent (s : relayState) : oworld := mkoworld table sent [] {[0%nat := s]}.

Lemma demo_run : @oreachable demoCodec demoRelay (demoWorld {[1 := deliveredRow]} demoSent idle).
Proof.
  unfold oreachable. apply rtc_l with (mkoworld {[1 := insertedRow]} [] [] ∅); [exact (step_write demoRelay oinitial 1 insertedRow eq_refl (conj eq_refl eq_refl))|].
  apply rtc_l with (demoWorld {[1 := insertedRow]} [] idle); [exact (step_start demoRelay _ 0%nat)|].
  apply rtc_l with (demoWorld {[1 := insertedRow]} [] (mkrelayState [] [demoRecord] None)).
  { pose proof (step_list (codec := demoCodec) demoRelay (demoWorld {[1 := insertedRow]} [] idle) 0%nat 10 eq_refl) as H.
    assert (ListPending (codec := demoCodec) 10 (Z.to_nat (batchSize demoRelay)) (ow_table (demoWorld {[1 := insertedRow]} [] idle)) = ([demoRecord], [])) as E by (by vm_compute).
    rewrite E in H. cbn zeta in H. unfold demoWorld in *. cbn [ow_table ow_sent ow_failures ow_relays fst snd] in H. by rewrite insert_singleton_eq in H. }
  apply rtc_l with (demoWorld {[1 := insertedRow]} demoSent (mkrelayState [] [] (Some (demoRecord, demoOutcome)))).
  { pose proof (step_deliver (codec := demoCodec) demoRelay (demoWorld {[1 := insertedRow]} [] (mkrelayState [] [demoRecord] None)) 0%nat demoRecord [] demoOutcome eq_refl) as H.
    unfold demoWorld in *. cbn [ow_relays] in H. rewrite insert_singleton_eq in H. exact H. }
  apply rtc_once. pose proof (step_settle (codec := demoCodec) demoRelay (demoWorld {[1 := insertedRow]} demoSent (mkrelayState [] [] (Some (demoRecord, demoOutcome)))) 0%nat demoRecord [] demoOutcome 11 true eq_refl) as H.
  unfold demoWorld in *. cbn [ow_relays] in H. rewrite insert_singleton_eq in H. exact H.
Qed.

Lemma outbox_outcomes_justified_witness : exists e receipt, (1, e, receipt) ∈ demoSent /\ ro_DeliveredEventID deliveredRow = Some "e1".
Proof.
  destruct (@outbox_outcomes_justified demoCodec demoRelay (demoWorld {[1 := deliveredRow]} demoSent idle) (demoWorld {[1 := deliveredRow]} demoSent idle)) as (Hrows & _).
  - exact demo_run.
  - apply rtc_refl.
  - destruct (Hrows 1 deliveredRow) as [[H _]|[(_ & e & rc & _ & _ & Hin & _)|[H _]]]; [reflexivity|by vm_compute in H|by exists e, rc|by vm_compute in H].
Defined.

End OutboxProps.
