(* ===== verification/Auth.v ===== *)
(** * Tokens and tenant scope (internal/auth: auth.go, verifier.go;
    internal/httpapi: authz.go, scope.go)

    From the Authorization header to the tenant an operation may touch: the
    development and JWT claims, permissions of roles, the permission check every
    handler makes, the resolution of the tenant scope, and the error contract of
    a refused request.  What verifies a signature and parses keys is an interface
    ([TokenVerifier], which Jwt.v implements); a request carries its parsed query. *)

From Stdlib Require Import Ascii String.
From S2P Require Import Prelude GoStr Domain Keys Holds.
Open Scope string_scope.
Open Scope Z_scope.
Import Domain Keys.

Module Auth.

(** ** Text *)

(** [strings.Split(s, c)] *)
Fixpoint splitChars (c : ascii) (l : list ascii) : list (list ascii) :=
  match l with
  | [] => [[]]
  | d :: l => if bool_decide (d = c) then [] :: splitChars c l
              else match splitChars c l with [] => [[d]] | x :: xs => (d :: x) :: xs end
  end.
Definition Split (c : ascii) (s : string) : list string := map string_of_list_ascii (splitChars c (chars s)).

(** [strings.Fields] *)
Fixpoint fieldRunes (acc : list ascii) (l : list (Z * list ascii)) : list (list ascii) :=
  match l with
  | [] => if bool_decide (acc = []) then [] else [acc]
  | (r, bs) :: l => if IsSpace r then (if bool_decide (acc = []) then fieldRunes [] l else acc :: fieldRunes [] l) else fieldRunes (acc ++ bs) l
  end.
Definition Fields (s : string) : list string := map string_of_list_ascii (fieldRunes [] (rune_segments s)).

(** ** Claims *)

(** A JSON value of the payload; a number by its integer part. *)
Inductive claim : Type := CStr (s : string) | CNum (seconds : Z) | CArr (items : list claim) | COther.

Notation payloadMap := (gmap string claim).

Record Claims : Type := mkClaims {
  cl_Subject : string;
  cl_ClientID : string;
  cl_TenantID : string;
  cl_Roles : list string;
  cl_Permissions : gset string;
  cl_Platform : bool;
  cl_effectiveExpiry : option Z;
  cl_Service : bool;
  cl_ConsoleAuditRead : bool;
  cl_CrossTenantAuditRead : bool
}.

Record Authenticator : Type := mkAuthenticator {
  au_JWTSecret : string;
  au_JWTPublicKeyPEM : string;
  au_JWTPublicKeyAlgorithm : string;
  au_JWKSURL : string;
  au_Issuer : string;
  au_Audience : string;
  au_AllowDev : bool;
  au_AllowLocalHS256 : bool;
  au_AllowInsecureJWKSLoopback : bool;
  au_ClockSkew : Z
}.

(** Verification of tokens (Jwt.v): whether the key sources are usable, and the
    payload of a token whose signature verified.  [convertFloat] is what
    the platform's float to int64 conversion gives outside the range. *)
Class TokenVerifier : Type := mkTokenVerifier {
  validateJWKSURL : string -> bool -> result unit;
  localPublicKey : Authenticator -> result unit;
  verifyJWT : Authenticator -> string -> result payloadMap;
  convertFloat : Z -> Z
}.

Definition minJWTSecretBytes : Z := 32.

Definition rolePermissions (role : string) : list string :=
  if bool_decide (role = "service") || bool_decide (role = "event-writer") then ["audit:event:write"]
  else if bool_decide (role = "auditor") || bool_decide (role = "tenant-auditor") then ["audit:event:read"; "audit:operation:read"]
  else if bool_decide (role = "compliance") then
    ["audit:event:read"; "audit:operation:read"; "audit:export:create"; "audit:integrity:verify"; "audit:legal_hold:manage"]
  else if bool_decide (role = "tenant-admin") then
    ["audit:event:read"; "audit:operation:read"; "audit:export:create"; "audit:integrity:verify"; "audit:legal_hold:manage"; "audit:policy:read"; "audit:policy:write"]
  else if bool_decide (role = "platform-admin") then
    ["audit:platform:cross_tenant"; "audit:event:read"; "audit:event:write"; "audit:export:create"; "audit:integrity:verify"; "audit:legal_hold:manage";
     "audit:policy:read"; "audit:policy:write"]
  else [].

Definition permissionsForRoles (roles : list string) : gset string := foldl (fun permissions role => permissions ∪ list_to_set (rolePermissions role)) ∅ roles.

Definition contains (values : list string) (wanted : string) : bool := existsb (String.eqb wanted) values.

Definition Allows (c : Claims) (permission : string) : bool :=
  bool_decide (permission ∈ cl_Permissions c) || cl_Platform c || (bool_decide (permission = "audit:event:read") && cl_ConsoleAuditRead c).

Definition stringClaim (values : payloadMap) (name : string) : string := match values !! name with Some (CStr s) => s | _ => "" end.
Definition stringSliceClaim (values : payloadMap) (name : string) : list string :=
  match values !! name with
  | Some (CArr items) => omap (fun item => match item with CStr s => Some s | _ => None end) items
  | Some (CStr s) => Fields s
  | _ => []
  end.
Definition numericClaim (values : payloadMap) (name : string) : option Z := match values !! name with Some (CNum z) => Some z | _ => None end.
Definition audienceClaim (values : payloadMap) (wanted : string) : bool :=
  match values !! "aud" with
  | Some (CStr s) => bool_decide (s = wanted)
  | Some (CArr items) => existsb (fun item => match item with CStr s => bool_decide (s = wanted) | _ => false end) items
  | _ => false
  end.

(** The value and whether the claim is present. *)
Definition strictIdentityClaim (payload : payloadMap) (name : string) : result (option string) :=
  match payload !! name with
  | None => Ok None
  | Some (CStr identity) =>
      guard_err (negb (bool_decide (identity = "")) && bool_decide (identity = TrimSpace identity)) (NewErr "token claim is invalid") ;?
      Ok (Some identity)
  | Some _ => Err (NewErr "token claim is invalid")
  end.

Definition clientIdentity (payload : payloadMap) : result string :=
  let? clientID := strictIdentityClaim payload "client_id" in
  let? authorizedParty := strictIdentityClaim payload "azp" in
  match clientID, authorizedParty with
  | Some c, Some a => if bool_decide (c = a) then Ok c else Err (NewErr "token client identity mismatch")
  | Some c, None => Ok c
  | None, a => Ok (default "" a)
  end.

(** An empty tenant is an absent one. *)
Definition tenantClaim (payload : payloadMap) (name : string) : result (option string) :=
  match payload !! name with
  | None => Ok None
  | Some (CStr identity) =>
      if bool_decide (identity = "") then Ok None
      else match ValidTenantIDComponent identity with Ok _ => Ok (Some identity) | Err _ => Err (NewErr "token claim is invalid") end
  | Some _ => Err (NewErr "token claim is invalid")
  end.

Definition signedTenant (payload : payloadMap) : result string :=
  let? tenant := tenantClaim payload "tenant_id" in
  match tenant with
  | Some t => Ok t
  | None => let? tenant := tenantClaim payload "tenant" in Ok (default "" tenant)
  end.

Definition badDevToken : error := NewErr "invalid development token".

Definition parseDevToken (token : string) : result Claims :=
  match Split ":" token with
  | _ :: subject :: roleText :: rest =>
      guard_err ((length rest <=? 1)%nat && negb (bool_decide (subject = "")) && negb (bool_decide (roleText = ""))) badDevToken ;?
      match ValidTenantIDComponent subject with
      | Err _ => Err badDevToken
      | Ok _ =>
          let roles := Split "," roleText in
          let clientID := match rest with [c] => c | _ => subject end in
          guard_err (negb (bool_decide (clientID = ""))) badDevToken ;?
          let permissions := permissionsForRoles roles in
          Ok (mkClaims subject clientID subject roles permissions
                (bool_decide ("audit:platform:cross_tenant" ∈ permissions) || contains roles "platform-admin") None
                (contains roles "service" || contains roles "event-writer") false false)
      end
  | _ => Err badDevToken
  end.

Section verifier.
Context {verifier : TokenVerifier}.

Definition int64Of (z : Z) : Z := if (- 2 ^ 63 <=? z) && (z <? 2 ^ 63) then z else convertFloat z.

Definition requiresIssuerAudience (a : Authenticator) : bool :=
  negb (bool_decide (TrimSpace (au_JWKSURL a) = "")) || negb (bool_decide (TrimSpace (au_JWTPublicKeyPEM a) = "")).

Definition validateIssuerAudience (a : Authenticator) (asymmetric : bool) : result unit :=
  if negb asymmetric || au_AllowDev a then Ok tt
  else
    guard_err (negb (bool_decide (TrimSpace (au_Issuer a) = ""))) (NewErr "asymmetric JWT trust requires a non-empty issuer") ;?
    guard_err (negb (bool_decide (TrimSpace (au_Audience a) = ""))) (NewErr "asymmetric JWT trust requires a non-empty audience").

Definition ValidateConfiguration (a : Authenticator) : result unit :=
  let hasRemote := negb (bool_decide (TrimSpace (au_JWKSURL a) = "")) in
  let hasPublicKey := negb (bool_decide (TrimSpace (au_JWTPublicKeyPEM a) = "")) in
  let hasSecret := negb (bool_decide (au_JWTSecret a = "")) in
  guard_err (negb (hasRemote && hasPublicKey)) (NewErr "JWT verifier must use either JWKS URL or local public key, not both") ;?
  guard_err (negb (hasSecret && negb (au_AllowLocalHS256 a))) (NewErr "HS256 secret requires explicit local-only opt-in") ;?
  guard_err (negb (au_AllowLocalHS256 a && negb hasSecret)) (NewErr "local HS256 opt-in requires a secret") ;?
  guard_err (negb (hasSecret && (hasRemote || hasPublicKey))) (NewErr "local HS256 cannot share an asymmetric trust configuration") ;?
  guard_err (negb (hasSecret && au_AllowLocalHS256 a && (Zlen (au_JWTSecret a) <? minJWTSecretBytes))) (NewErr "local HS256 JWT secret is too short") ;?
  if hasRemote then validateJWKSURL (au_JWKSURL a) (au_AllowInsecureJWKSLoopback a) ;? validateIssuerAudience a hasRemote
  else if hasPublicKey then localPublicKey a ;? validateIssuerAudience a hasPublicKey
  else guard_err (negb (negb hasSecret && negb (au_AllowDev a))) (NewErr "no JWT verification trust source is configured").

(** The issuer and audience pins. *)
Definition pinsMatch (a : Authenticator) (payload : payloadMap) : result unit :=
  if requiresIssuerAudience a then
    guard_err (negb (bool_decide (TrimSpace (au_Issuer a) = "") || negb (bool_decide (stringClaim payload "iss" = au_Issuer a)))) (NewErr "token issuer mismatch") ;?
    guard_err (negb (bool_decide (TrimSpace (au_Audience a) = "") || negb (audienceClaim payload (au_Audience a)))) (NewErr "token audience mismatch")
  else
    guard_err (negb (negb (bool_decide (au_Issuer a = "")) && negb (bool_decide (stringClaim payload "iss" = au_Issuer a)))) (NewErr "token issuer mismatch") ;?
    guard_err (negb (negb (bool_decide (au_Audience a = "")) && negb (audienceClaim payload (au_Audience a)))) (NewErr "token audience mismatch").

(** [now] in seconds. *)
Definition parseJWT (a : Authenticator) (now : Z) (token : string) : result Claims :=
  let? payload := verifyJWT a token in
  let clockSkewSeconds := Z.quot (au_ClockSkew a) Second in
  match numericClaim payload "exp" with
  | None => Err (NewErr "token must contain exp")
  | Some expiry =>
      let boundary := Holds.wrap64 (int64Of expiry + clockSkewSeconds) in
      guard_err (now <? boundary) (NewErr "token is expired") ;?
      guard_err (match numericClaim payload "nbf" with Some notBefore => negb (now <? Holds.wrap64 (int64Of notBefore - clockSkewSeconds)) | None => true end)
        (NewErr "token is not active") ;?
      pinsMatch a payload ;?
      let? subject := strictIdentityClaim payload "sub" in
      match subject with
      | None => Err (NewErr "token must contain sub")
      | Some subject =>
          let? clientID := clientIdentity payload in
          let? tenant := signedTenant payload in
          let roles := stringSliceClaim payload "roles" in
          let permissions := permissionsForRoles roles ∪ list_to_set (stringSliceClaim payload "permissions") ∪ list_to_set (Fields (stringClaim payload "scope")) in
          let console := bool_decide ("admin:read" ∈ permissions) || bool_decide ("admin:*" ∈ permissions) in
          Ok (mkClaims subject clientID tenant roles permissions
                (bool_decide ("audit:platform:cross_tenant" ∈ permissions) || contains roles "platform-admin") (Some boundary)
                (contains roles "service" || contains roles "event-writer") console (console && bool_decide (tenant = "")))
      end
  end.

Definition AuthenticateTokenContext (a : Authenticator) (now : Z) (token : string) : result Claims :=
  ValidateConfiguration a ;?
  if au_AllowDev a && String.prefix "dev:" token then parseDevToken token else parseJWT a now token.

(** ** Requests *)

(** [rq_Query] is the parsed query, [None] when it is malformed. *)
Record request : Type := mkrequest { rq_Authorization : list string; rq_Query : option (gmap string (list string)) }.

Definition trimPrefix (p s : string) : string :=
  if String.prefix p s then substring (String.length p) (String.length s - String.length p) s else s.

Definition Authenticate (a : Authenticator) (now : Z) (r : request) : result Claims :=
  match rq_Authorization r with
  | [value] =>
      let header := TrimSpace value in
      guard_err (String.prefix "Bearer " header) (NewErr "authorization header is required") ;?
      AuthenticateTokenContext a now (TrimSpace (trimPrefix "Bearer " header))
  | _ => Err (NewErr "authorization header is required")
  end.

Definition requirePermissions (a : Authenticator) (now : Z) (r : request) (permissions : list string) (allowTenantlessConsole : bool) : result Claims :=
  match Authenticate a now r with
  | Err e => Err (Wrapf (Sentinel ErrUnauthorized) "authentication failed")
  | Ok claims =>
      guard_err ((allowTenantlessConsole && cl_CrossTenantAuditRead claims) || existsb (Allows claims) permissions) (Sentinel ErrForbidden) ;?
      let ingest := match permissions with [p] => bool_decide (p = "audit:event:write") | _ => false end in
      guard_err (negb (negb ingest && bool_decide (cl_TenantID claims = "") && negb (cl_Platform claims) &&
                       negb (allowTenantlessConsole && cl_CrossTenantAuditRead claims)))
        (Wrapf (Sentinel ErrUnauthorized) "tenant context is required") ;?
      Ok claims
  end.

Definition require (a : Authenticator) (now : Z) (r : request) (permission : string) : result Claims := requirePermissions a now r [permission] false.
Definition requireAdminActionRead (a : Authenticator) (now : Z) (r : request) : result Claims := requirePermissions a now r ["audit:policy:read"] true.

End verifier.

(** ** Tenant scope *)

Inductive ScopePolicy : Type := ScopeScopedQuery | ScopeScopedBody | ScopeAllTenants.

Record TenantScope : Type := mkTenantScope { ts_TenantID : string; ts_AllTenants : bool }.

(** The selector, and whether it was supplied. *)
Definition queryTenantSelector (r : request) : result (string * bool) :=
  match rq_Query r with
  | None => Err (invalid "malformed query")
  | Some values =>
      match values !! "tenant_id" with
      | None => Ok ("", false)
      | Some [] => Ok ("", true)
      | Some [selector] =>
          if bool_decide (selector = "") then Ok ("", true) else ValidTenantID selector ;? Ok (selector, true)
      | Some _ => Err (invalid "tenant_id must occur once")
      end
  end.

Definition tenantFor (r : request) (claims : Claims) : result string :=
  let? selected := queryTenantSelector r in
  if cl_Platform claims || cl_CrossTenantAuditRead claims then Ok selected.1
  else (if bool_decide (cl_TenantID claims = "") then Ok tt else ValidTenantID (cl_TenantID claims)) ;? Ok (cl_TenantID claims).

Definition resolveScope (r : request) (claims : Claims) (policy : ScopePolicy) : result TenantScope :=
  let? tenantID := tenantFor r claims in
  match policy with
  | ScopeAllTenants => Ok (mkTenantScope tenantID (bool_decide (tenantID = "")))
  | ScopeScopedQuery =>
      guard_err (negb (bool_decide (tenantID = ""))) (invalid "tenant_id is required for this operation") ;? Ok (mkTenantScope tenantID false)
  | ScopeScopedBody => Err (invalid "unsupported tenant scope policy")
  end.

Definition bodyScopeFromTenant (claims : Claims) (bodyTenant : string) : result TenantScope :=
  (if bool_decide (bodyTenant = "") then Ok tt else ValidTenantID bodyTenant) ;?
  if cl_Platform claims then
    guard_err (negb (bool_decide (bodyTenant = ""))) (invalid "tenant_id is required in the request body") ;? Ok (mkTenantScope bodyTenant false)
  else if bool_decide (cl_TenantID claims = "") then Ok (mkTenantScope "" false)
  else
    ValidTenantID (cl_TenantID claims) ;?
    guard_err (bool_decide (bodyTenant = "") || bool_decide (bodyTenant = cl_TenantID claims)) (Wrapf (Sentinel ErrTenantMismatch) "envelope tenant_id does not match the signed tenant") ;?
    Ok (mkTenantScope (cl_TenantID claims) false).

Definition resolveBodyScope (r : request) (claims : Claims) (bodyTenant : string) : result TenantScope :=
  let? selected := queryTenantSelector r in
  guard_err (negb (cl_Platform claims && selected.2 && negb (bool_decide (selected.1 = bodyTenant)))) (invalid "body tenant_id must match query tenant_id") ;?
  bodyScopeFromTenant claims bodyTenant.

(** Every event of a batch, before any is ingested. *)
Fixpoint batchScopes (claims : Claims) (selected : string * bool) (tenants : list string) : result (list TenantScope) :=
  match tenants with
  | [] => Ok []
  | bodyTenant :: tenants =>
      guard_err (negb (cl_Platform claims && selected.2 && negb (bool_decide (selected.1 = bodyTenant)))) (invalid "body tenant_id must match query tenant_id") ;?
      let? scope := bodyScopeFromTenant claims bodyTenant in
      let? scopes := batchScopes claims selected tenants in
      Ok (scope :: scopes)
  end.
Definition resolveBatchBodyScopes (r : request) (claims : Claims) (events : list Event) : result (list TenantScope) :=
  let? selected := queryTenantSelector r in batchScopes claims selected (map ev_TenantID events).

Definition resolveQueryBodyScope (r : request) (claims : Claims) (bodyTenant : string) : result TenantScope :=
  let? scope := resolveScope r claims ScopeScopedQuery in
  if bool_decide (bodyTenant = "") then Ok scope
  else
    ValidTenantID bodyTenant ;?
    guard_err (negb (cl_Platform claims && negb (bool_decide (bodyTenant = ts_TenantID scope)))) (invalid "body tenant_id must match query tenant_id") ;?
    Ok scope.

(** ** The error contract *)

Definition statusClientClosedRequest : Z := 499.
Definition cancelledMessage : string := "client cancelled the request".
Definition deadlineExceededMessage : string := "client request deadline exceeded".

Inductive withdrawalKind : Type := withdrawalNone | withdrawalCancelled | withdrawalDeadline.

Definition classifyWithdrawal (e : error) : withdrawalKind :=
  if errors_Is e ErrContextCanceled then withdrawalCancelled
  else if errors_Is e ErrContextDeadline then withdrawalDeadline
  else withdrawalNone.

Definition statusForError (e : error) : Z :=
  if errors_Is e ErrOccurredAtOutOfRange then 422
  else if errors_Is e ErrInvalid then 400
  else if errors_Is e ErrUnauthorized then 401
  else if errors_Is e ErrForbidden then 403
  else if errors_Is e ErrNotFound then 404
  else if errors_Is e ErrConflict then 409
  else if errors_Is e ErrQuotaExceeded then 429
  else if errors_Is e ErrSchemaNotFound then 422
  else if errors_Is e ErrTenantMismatch then 422
  else if errors_Is e ErrSnapshotConflict then 503
  else if errors_Is e ErrOperationDeadline then 503
  else if errors_Is e ErrContextCanceled then statusClientClosedRequest
  else if errors_Is e ErrContextDeadline then statusClientClosedRequest
  else 500.

Definition errorCode (status : Z) (e : error) : string :=
  if errors_Is e ErrOccurredAtOutOfRange then "occurred_at_out_of_range"
  else if errors_Is e ErrInvalid then "invalid_request"
  else if errors_Is e ErrUnauthorized then "unauthorized"
  else if errors_Is e ErrForbidden then "forbidden"
  else if errors_Is e ErrNotFound then "not_found"
  else if errors_Is e ErrConflict then "conflict"
  else if errors_Is e ErrQuotaExceeded then "quota_exceeded"
  else if errors_Is e ErrSchemaNotFound then "schema_not_found"
  else if errors_Is e ErrTenantMismatch then "tenant_mismatch"
  else if errors_Is e ErrSnapshotConflict then "snapshot_conflict"
  else if errors_Is e ErrOperationDeadline then "store_timeout"
  else match classifyWithdrawal e with
       | withdrawalCancelled => if status =? statusClientClosedRequest then "client_cancelled" else "internal_error"
       | withdrawalDeadline => if status =? statusClientClosedRequest then "client_deadline_exceeded" else "internal_error"
       | withdrawalNone => "internal_error"
       end.

(** A fixed text, or the text of the error. *)
Inductive message : Type := Fixed (text : string) | TextOf (e : error).

Definition errorMessage (status : Z) (e : error) : message :=
  if status =? 401 then Fixed "unauthorized"
  else if 500 <=? status then Fixed "internal server error"
  else if status =? statusClientClosedRequest then
    match classifyWithdrawal e with withdrawalDeadline => Fixed deadlineExceededMessage | _ => Fixed cancelledMessage end
  else TextOf e.

Definition errorBody (status : Z) (e : error) : string * message := (errorCode status e, errorMessage status e).

(** The response counters: errors, withdrawals by deadline, by cancellation. *)
Definition recordOutcome (status : Z) (e : error) (counts : Z * Z * Z) : Z * Z * Z :=
  let '(errors, deadlines, cancels) := counts in
  if 500 <=? status then (errors + 1, deadlines, cancels)
  else if negb (status =? statusClientClosedRequest) then counts
  else match classifyWithdrawal e with
       | withdrawalDeadline => (errors, deadlines + 1, cancels)
       | _ => (errors, deadlines, cancels + 1)
       end.

Definition maxRequestIDBytes : Z := 128.
Definition truncateRequestID (value : string) : string :=
  if Zlen value <=? maxRequestIDBytes then value else substring 0 (Z.to_nat maxRequestIDBytes) value.

End Auth.
