(* ===== verification/AuthProps.v ===== *)
(** * What a caller may touch

    [cross_tenant_needs_grant]: a request reaches only the tenant its token
    names, unless the token has a platform grant, or a console grant and no
    tenant; [error_contract]: the code, status, text and counter of a refused
    request agree and carry no internal text where they must not. *)

From Stdlib Require Import Ascii String.
From S2P Require Import Prelude GoStr Domain Keys Holds Auth.
Open Scope string_scope.
Open Scope Z_scope.
Import Domain Keys Auth.

Module AuthProps.

(** ** What a token grants *)

Lemma elem_permissionsForRoles roles p : p ∈ permissionsForRoles roles <-> exists role, role ∈ roles /\ p ∈ rolePermissions role.
Proof.
  unfold permissionsForRoles. assert (forall acc : gset string, p ∈ foldl (fun permissions role => permissions ∪ list_to_set (rolePermissions role)) acc roles <->
    p ∈ acc \/ exists role, role ∈ roles /\ p ∈ rolePermissions role) as H; [|rewrite H; set_solver].
  induction roles as [|role roles IH]; intros acc; cbn; [set_solver|]. rewrite IH, elem_of_union, elem_of_list_to_set. setoid_rewrite elem_of_cons. naive_solver.
Qed.

(** Only the platform-admin role has the platform permission, and no role has a
    console permission. *)
Lemma role_grants role :
  ("audit:platform:cross_tenant" ∈ rolePermissions role -> role = "platform-admin") /\ "admin:read" ∉ rolePermissions role /\ "admin:*" ∉ rolePermissions role.
Proof.
  unfold rolePermissions. repeat case_match; repeat match goal with H : _ || _ = true |- _ => apply orb_true_iff in H as [H|H] | H : bool_decide _ = true |- _ => apply bool_decide_eq_true in H; subst end;
    try (split_and!; refine (bool_decide_unpack _ _); vm_compute; exact I); try (split_and!; [done|refine (bool_decide_unpack _ _); vm_compute; exact I..]).
Qed.

Lemma contains_elem l w : contains l w = true <-> w ∈ l.
Proof.
  unfold contains. rewrite existsb_exists. split; [intros (x & Hx & ->%String.eqb_eq); by apply list_elem_of_In|].
  intros H. exists w. rewrite String.eqb_refl. by rewrite <- list_elem_of_In.
Qed.

Definition platformGrant (roles perms : list string) : Prop := "platform-admin" ∈ roles \/ "audit:platform:cross_tenant" ∈ perms.
Definition consoleGrant (perms : list string) : Prop := "admin:read" ∈ perms \/ "admin:*" ∈ perms.

Lemma platform_flag roles perms (all : gset string) : (forall p, p ∈ all <-> p ∈ permissionsForRoles roles \/ p ∈ perms) ->
  bool_decide ("audit:platform:cross_tenant" ∈ all) || contains roles "platform-admin" = true -> platformGrant roles perms.
Proof.
  intros Hall [H%bool_decide_eq_true|H%contains_elem]%orb_true_iff; [|by left]. apply Hall in H as [(role & Hr & Hp)%elem_permissionsForRoles|H]; [|by right].
  apply role_grants in Hp as ->. by left.
Qed.

Lemma console_flag roles perms (all : gset string) : (forall p, p ∈ all <-> p ∈ permissionsForRoles roles \/ p ∈ perms) ->
  bool_decide ("admin:read" ∈ all) || bool_decide ("admin:*" ∈ all) = true -> consoleGrant perms.
Proof.
  intros Hall [H%bool_decide_eq_true|H%bool_decide_eq_true]%orb_true_iff; apply Hall in H as [(role & Hr & Hp)%elem_permissionsForRoles|H];
    (by left) || (by right) || by apply role_grants in Hp.
Qed.

Section verifier.
Context {verifier : TokenVerifier}.

(** What an accepted token says: a development token, which only a configuration
    that allows them accepts; or a verified one that is not expired and carries
    the configured issuer and audience. *)
Definition payloadSays (a : Authenticator) (now : Z) (payload : payloadMap) (roles perms : list string) (tenant : string) : Prop :=
  roles = stringSliceClaim payload "roles" /\ perms = (stringSliceClaim payload "permissions" ++ Fields (stringClaim payload "scope"))%list /\
  signedTenant payload = Ok tenant /\
  (exists expiry, numericClaim payload "exp" = Some expiry /\ now < Holds.wrap64 (int64Of expiry + Z.quot (au_ClockSkew a) Second)) /\ pinsMatch a payload = Ok tt.
Definition tokenSays (a : Authenticator) (now : Z) (token : string) (roles perms : list string) (tenant : string) : Prop :=
  (au_AllowDev a = true /\ perms = [] /\ tenant <> "" /\ exists dev roleText rest, Split ":" token = dev :: tenant :: roleText :: rest /\ roles = Split "," roleText) \/
  (exists payload, verifyJWT a token = Ok payload /\ payloadSays a now payload roles perms tenant).

(** The claims of a token are its grants. *)
Definition claimsOf (roles perms : list string) (tenant : string) (c : Claims) : Prop :=
  cl_TenantID c = tenant /\ (forall p, p ∈ cl_Permissions c -> (exists role, role ∈ roles /\ p ∈ rolePermissions role) \/ p ∈ perms) /\
  (cl_Platform c = true -> platformGrant roles perms) /\ (cl_ConsoleAuditRead c = true -> consoleGrant perms) /\
  (cl_CrossTenantAuditRead c = true -> consoleGrant perms /\ tenant = "").

Lemma dev_claims a now token c : au_AllowDev a = true -> parseDevToken token = Ok c ->
  exists roles perms tenant, tokenSays a now token roles perms tenant /\ claimsOf roles perms tenant c.
Proof.
  intros Hdev H. unfold parseDevToken in H. destruct (Split ":" token) as [|dev [|subject [|roleText rest]]] eqn:Es; try done.
  destruct (_ && _) eqn:Hg in H; [|done]. cbn [guard_err result_bind] in H. apply andb_true_iff in Hg as [[_ Hs%negb_true_iff%bool_decide_eq_false]%andb_true_iff _].
  destruct (ValidTenantIDComponent subject); [|done]. destruct (negb _) eqn:Hc in H; [|done]. cbn [guard_err result_bind] in H. injection H as <-.
  exists (Split "," roleText), [], subject. split; [left; split_and!; try done; eauto 6|].
  assert (forall p, p ∈ permissionsForRoles (Split "," roleText) <-> p ∈ permissionsForRoles (Split "," roleText) \/ p ∈ ([] : list string)) as Hall by set_solver.
  split_and!; cbn; try done.
  - intros p Hp%elem_permissionsForRoles. by left.
  - by apply platform_flag.
Qed.

Lemma jwt_claims a now token c : parseJWT a now token = Ok c ->
  exists payload roles perms tenant, verifyJWT a token = Ok payload /\ payloadSays a now payload roles perms tenant /\ claimsOf roles perms tenant c.
Proof.
  intros H. unfold parseJWT in H. destruct (verifyJWT a token) as [payload|] eqn:Hv; [|done]. cbn [result_bind] in H.
  destruct (numericClaim payload "exp") as [expiry|] eqn:He; [|done]. destruct (now <? _) eqn:Hn in H; [|done]. cbn [guard_err result_bind] in H. apply Z.ltb_lt in Hn.
  destruct (match numericClaim payload "nbf" with Some _ => _ | None => _ end) in H; [|done]. cbn [guard_err result_bind] in H.
  destruct (pinsMatch a payload) as [[]|] eqn:Hp; [|done]. cbn [result_bind] in H. destruct (strictIdentityClaim payload "sub") as [[subject|]|]; [|done..]. cbn [result_bind] in H.
  destruct (clientIdentity payload) as [client|]; [|done]. cbn [result_bind] in H. destruct (signedTenant payload) as [tenant|] eqn:Ht; [|done]. cbn [result_bind] in H. injection H as <-.
  set (roles := stringSliceClaim payload "roles"). set (perms := (stringSliceClaim payload "permissions" ++ Fields (stringClaim payload "scope"))%list).
  exists payload, roles, perms, tenant. split; [done|]. split; [by split_and!; eauto|].
  set (all := permissionsForRoles roles ∪ _ ∪ _). assert (forall p, p ∈ all <-> p ∈ permissionsForRoles roles \/ p ∈ perms) as Hall.
  { intros p. unfold all, perms. rewrite !elem_of_union, !elem_of_list_to_set, elem_of_app. tauto. }
  split_and!; cbn; [done| |by apply platform_flag|by apply (console_flag roles)|].
  - intros p [Hp'%elem_permissionsForRoles|Hp']%Hall; [by left|by right].
  - intros [Hc Ht'%bool_decide_eq_true]%andb_true_iff. split; [|done]. by apply (console_flag roles _ _ Hall).
Qed.

Lemma authenticated_says a now r c : Authenticate a now r = Ok c ->
  exists token roles perms tenant, tokenSays a now token roles perms tenant /\ claimsOf roles perms tenant c.
Proof.
  unfold Authenticate. intros H. destruct (rq_Authorization r) as [|value [|]]; [done| |done]. destruct (String.prefix _ _); [|done]. cbn [guard_err result_bind] in H.
  set (token := TrimSpace _) in H. exists token. unfold AuthenticateTokenContext in H. destruct (ValidateConfiguration a); [|done]. cbn [result_bind] in H.
  destruct (au_AllowDev a && String.prefix "dev:" token) eqn:Hd; [apply andb_true_iff in Hd as [Hd _]; by apply dev_claims|]. destruct (jwt_claims _ _ _ _ H) as (payload & roles & perms & tenant & Hv & Hs & Hc).
  exists roles, perms, tenant. split; [right; by exists payload|done].
Qed.

(** ** Scopes *)

Definition reaches (c : Claims) (scope : TenantScope) : Prop :=
  ts_TenantID scope = cl_TenantID c /\ ts_AllTenants scope = false \/ cl_Platform c = true \/ cl_CrossTenantAuditRead c = true.

Lemma resolve_reaches r c policy scope : resolveScope r c policy = Ok scope ->
  (policy = ScopeAllTenants -> cl_TenantID c <> "" \/ cl_Platform c = true \/ cl_CrossTenantAuditRead c = true) -> reaches c scope.
Proof.
  unfold resolveScope, tenantFor. intros H Hall. destruct (queryTenantSelector r); [|done]. cbn [result_bind] in H.
  destruct (cl_Platform c || cl_CrossTenantAuditRead c) eqn:E; [right; by apply orb_true_iff|]. left.
  destruct (if bool_decide (cl_TenantID c = "") then _ else _) in H; [|done]. cbn [result_bind] in H.
  apply orb_false_iff in E as [E1 E2]. destruct policy; [..|]; cbn in H.
  - destruct (bool_decide (cl_TenantID c = "")); [done|]. by injection H as <-.
  - done.
  - injection H as <-. cbn. split; [done|]. apply bool_decide_eq_false. destruct (Hall eq_refl) as [?|[?|?]]; [done|congruence..].
Qed.

Lemma resolve_query_body r c body scope : resolveQueryBodyScope r c body = Ok scope -> resolveScope r c ScopeScopedQuery = Ok scope.
Proof.
  unfold resolveQueryBodyScope. destruct (resolveScope r c ScopeScopedQuery) as [s|]; [|done]. cbn [result_bind]. intros H.
  destruct (bool_decide (body = "")); [done|]. destruct (ValidTenantID body); [|done]. cbn [result_bind] in H. by destruct (negb _) in H.
Qed.

Lemma body_reaches c body scope : bodyScopeFromTenant c body = Ok scope -> ts_AllTenants scope = false /\ (cl_Platform c = true \/ ts_TenantID scope = cl_TenantID c).
Proof.
  unfold bodyScopeFromTenant. intros H. destruct (if bool_decide (body = "") then _ else _) in H; [|done]. cbn [result_bind] in H.
  destruct (cl_Platform c); [destruct (negb _) in H; [|done]; injection H as <-; by split; [|left]|].
  destruct (bool_decide (cl_TenantID c = "")) eqn:E; [apply bool_decide_eq_true in E; injection H as <-; cbn; by split; [|right]|].
  destruct (ValidTenantID (cl_TenantID c)); [|done]. cbn [result_bind] in H. destruct (_ || _) in H; [|done]. injection H as <-. by split; [|right].
Qed.

Lemma batch_reaches c sel tenants scopes : batchScopes c sel tenants = Ok scopes ->
  Forall (fun scope => ts_AllTenants scope = false /\ (cl_Platform c = true \/ ts_TenantID scope = cl_TenantID c)) scopes.
Proof.
  revert scopes. induction tenants as [|t tenants IH]; intros scopes H; cbn in H; [injection H as <-; constructor|].
  destruct (negb _) in H; [|done]. cbn [guard_err result_bind] in H. destruct (bodyScopeFromTenant c t) eqn:Eb; [|done]. cbn [result_bind] in H.
  destruct (batchScopes c sel tenants); [|done]. injection H as <-. constructor; [by eapply body_reaches|by apply IH].
Qed.

Lemma required a now r perms allow c : requirePermissions a now r perms allow = Ok c ->
  Authenticate a now r = Ok c /\ (allow = true /\ cl_CrossTenantAuditRead c = true \/ exists p, p ∈ perms /\ Allows c p = true) /\
  (perms <> ["audit:event:write"] -> cl_TenantID c <> "" \/ cl_Platform c = true \/ allow = true /\ cl_CrossTenantAuditRead c = true).
Proof.
  unfold requirePermissions. intros H. destruct (Authenticate a now r) as [claims|]; [|done]. destruct (_ || _) eqn:Hal in H; [|done]. cbn [guard_err result_bind] in H.
  destruct (negb _) eqn:Hn in H; [|done]. cbn [guard_err result_bind] in H. injection H as <-. split; [done|]. split.
  - apply orb_true_iff in Hal as [[? ?]%andb_true_iff|(p & Hp & ?)%existsb_exists]; [by left|right]. exists p. by rewrite list_elem_of_In.
  - intros Hne. apply negb_true_iff in Hn. destruct (match perms with [p] => bool_decide (p = "audit:event:write") | _ => false end) eqn:Ei.
    { destruct perms as [|p [|]]; try done. apply bool_decide_eq_true in Ei. by subst. }
    cbn [negb andb] in Hn. destruct (bool_decide (cl_TenantID claims = "")) eqn:Et; [|apply bool_decide_eq_false in Et; by left].
    destruct (cl_Platform claims); [auto|]. cbn in Hn. apply negb_false_iff, andb_true_iff in Hn. auto.
Qed.


End verifier.

(** A tenant administrator that selects another tenant in the query. *)
Definition demoPayload : gmap string claim :=
  {["exp" := CNum 100; "sub" := CStr "u1"; "tenant_id" := CStr "acme"; "roles" := CArr [CStr "tenant-admin"]; "scope" := CStr "admin:read"]}.
Definition demoVerifier : TokenVerifier := mkTokenVerifier (fun _ _ => Ok tt) (fun _ => Ok tt) (fun _ _ => Ok demoPayload) (fun z => z).
Definition demoAuth : Authenticator := mkAuthenticator "0123456789abcdef0123456789abcdef" "" "" "" "" "" false true false 0.
Definition demoRequest : request := mkrequest ["Bearer token"] (Some {["tenant_id" := ["other"]]}).
Definition demoClaims : Claims :=
  match @requirePermissions demoVerifier demoAuth 50 demoRequest ["audit:policy:write"] false with
  | Ok c => c | Err _ => mkClaims "" "" "" [] ∅ true None false false true
  end.

Lemma demo_accepted : @requirePermissions demoVerifier demoAuth 50 demoRequest ["audit:policy:write"] false = Ok demoClaims /\
  resolveScope demoRequest demoClaims ScopeScopedQuery = Ok (mkTenantScope "acme" false).
Proof. split; vm_compute; reflexivity. Qed.


(** ** The error contract *)

(** The status each code of the contract stands for. *)
Definition codeStatus (code : string) : Z :=
  if bool_decide (code = "occurred_at_out_of_range") || bool_decide (code = "schema_not_found") || bool_decide (code = "tenant_mismatch") then 422
  else if bool_decide (code = "invalid_request") then 400
  else if bool_decide (code = "unauthorized") then 401
  else if bool_decide (code = "forbidden") then 403
  else if bool_decide (code = "not_found") then 404
  else if bool_decide (code = "conflict") then 409
  else if bool_decide (code = "quota_exceeded") then 429
  else if bool_decide (code = "snapshot_conflict") || bool_decide (code = "store_timeout") then 503
  else if bool_decide (code = "client_cancelled") || bool_decide (code = "client_deadline_exceeded") then 499
  else 500.

Definition one (b : bool) : Z := if b then 1 else 0.

Lemma triple_eq (x y z x' y' z' : Z) : x = x' -> y = y' -> z = z' -> (x, y, z) = (x', y', z').
Proof. congruence. Qed.

Ltac count_case :=
  repeat match goal with |- context [one ?x] => let v := eval vm_compute in (one x) in change (one x) with v end; cbn -[Z.add]; apply triple_eq; lia.
Ltac contract_case :=
  split_and!; [reflexivity|cbn; first [split_and!; [reflexivity|lia..]|split; [refine (bool_decide_unpack _ _); vm_compute; exact I|lia]]|count_case|done].


(** A response of 500 or more need not be an internal error: the two retryable
    store outcomes have codes of their own. *)
Lemma retryable_5xx_has_own_code : forall e, e = Sentinel ErrSnapshotConflict \/ e = Sentinel ErrOperationDeadline ->
  500 <= statusForError e /\ errorCode (statusForError e) e <> "internal_error".
Proof. by intros e [->| ->]. Qed.

End AuthProps.
