(* ===== verification/Jwks.v ===== *)
(** * The JWKS cache (internal/auth/verifier.go)

    The verification keys of one JWKS URL: lookup of a key by its identifier, the
    checks of a remote key, and the shared cache entry with its single-flight
    fetch, stale grace, failure cooldown, negative cache and forced-refresh
    budget.  A key set is the list of its keys; what the JOSE library reports of
    a key is a record.  Every lock region is one function; the goroutines that
    run them interleave in JwksProps.v. *)

From Stdlib Require Import Ascii String.
From S2P Require Import Prelude GoStr Domain Holds Auth.
Open Scope string_scope.
Open Scope Z_scope.
Import Domain.

Module Jwks.

Definition defaultJWKSRefreshInterval : Z := 10 * Minute.
Definition jwksMaxStaleFactor : Z := 3.
Definition negativeCacheCap : nat := 256.
Definition maxNegatedKidBytes : Z := 64.
Definition defaultPublicKeyAlgorithm : string := "RS256".

(** ** Keys *)

Inductive keyType : Type := OKPPublic (crv : option string) | ECPublic (crv : option string) | RSAPublic | OtherKey.

Record jwkKey : Type := mkjwkKey {
  jk_KeyID : option string;
  jk_Algorithm : option string;
  jk_KeyUsage : option string;
  jk_KeyOps : option (list string);
  jk_HasD : bool;
  jk_Valid : bool;
  jk_Type : keyType
}.

Notation keySet := (list jwkKey).

Definition allowedTokenAlgorithm (algorithm : string) : bool :=
  existsb (String.eqb algorithm) ["EdDSA"; "ES256"; "ES384"; "ES512"; "RS256"; "PS256"; "HS256"].
Definition allowedAsymmetricAlgorithm (algorithm : string) : bool :=
  existsb (String.eqb algorithm) ["EdDSA"; "ES256"; "ES384"; "ES512"; "RS256"; "PS256"].

Definition validateOKPKey (key : jwkKey) (expectedCurve : string) : result unit :=
  match jk_Type key with
  | OKPPublic crv => guard_err (bool_decide (crv = Some expectedCurve)) (NewErr "JWK curve does not match EdDSA")
  | _ => Err (NewErr "JWK kty does not match EdDSA")
  end.
Definition validateECKey (key : jwkKey) (expectedCurve : string) : result unit :=
  match jk_Type key with
  | ECPublic crv => guard_err (bool_decide (crv = Some expectedCurve)) (NewErr "JWK curve does not match ECDSA algorithm")
  | _ => Err (NewErr "JWK kty does not match ECDSA algorithm")
  end.

Definition validateKeyMaterial (key : jwkKey) (algorithm : string) : result unit :=
  guard_err (negb (jk_HasD key)) (NewErr "private JWK material is forbidden") ;?
  guard_err (jk_Valid key) (NewErr "invalid JWK material") ;?
  if bool_decide (algorithm = "EdDSA") then validateOKPKey key "Ed25519"
  else if bool_decide (algorithm = "ES256") then validateECKey key "P-256"
  else if bool_decide (algorithm = "ES384") then validateECKey key "P-384"
  else if bool_decide (algorithm = "ES512") then validateECKey key "P-521"
  else if bool_decide (algorithm = "RS256") || bool_decide (algorithm = "PS256") then
    match jk_Type key with RSAPublic => Ok tt | _ => Err (NewErr "JWK kty does not match RSA algorithm") end
  else Err (NewErr "unsupported asymmetric token algorithm").

Definition validateRemoteKey (key : jwkKey) (algorithm : string) : result unit :=
  guard_err (bool_decide (jk_Algorithm key = Some algorithm)) (NewErr "JWK algorithm does not match token algorithm") ;?
  guard_err (bool_decide (jk_KeyUsage key = Some "sig")) (NewErr "JWK use must be sig") ;?
  guard_err (match jk_KeyOps key with Some operations => bool_decide (operations = ["verify"]) | None => true end) (NewErr "JWK key_ops must contain only verify") ;?
  validateKeyMaterial key algorithm.

(** The keys with an identifier. *)
Definition matching (set : keySet) (kid : string) : list jwkKey := List.filter (fun key => bool_decide (jk_KeyID key = Some kid)) set.

Inductive lookup : Type := found (key : jwkKey) | errKeyNotFound | errAmbiguous.

Definition uniqueKey (set : option keySet) (wantedID : string) : lookup :=
  match set with
  | None => errKeyNotFound
  | Some set => match matching set wantedID with [] => errKeyNotFound | [key] => found key | _ => errAmbiguous end
  end.

(** ** The cache entry *)

Record jwksCacheEntry : Type := mkjwksCacheEntry {
  je_set : option keySet;
  je_fetchedAt : time;
  je_ttl : Z;
  je_negCache : gmap string time;
  je_negOrder : list string;
  je_negCap : nat;
  je_forcedAt : time;
  je_lastFailureAt : time;
  je_lastFailureErr : option error;
  je_inflight : option nat
}.

Definition jwksRefreshInterval (configured : Z) : Z := if 0 <? configured then configured else defaultJWKSRefreshInterval.

(** A new entry of the cache. *)
Definition cacheEntry (configured : Z) : jwksCacheEntry :=
  mkjwksCacheEntry None 0 (jwksRefreshInterval configured) ∅ [] negativeCacheCap 0 0 None None.

Definition maxDuration : Z := 2 ^ 63 - 1.

Definition staleAgeWithinGrace (fetchedAt : time) (ttl : Z) (now : time) : bool :=
  if time_IsZero fetchedAt || (ttl <=? 0) then false
  else
    let age := now - fetchedAt in
    if age <? 0 then true
    else
      let maxAge := if ttl <=? maxDuration / jwksMaxStaleFactor then ttl * jwksMaxStaleFactor else maxDuration in
      age <=? maxAge.

Definition fresh (e : jwksCacheEntry) (now : time) : bool := match je_set e with Some _ => now - je_fetchedAt e <? je_ttl e | None => false end.

(** The first lock region of [cachedJWKS]: the answer without a fetch, if any. *)
Definition cachedCheck (e : jwksCacheEntry) (force : bool) (now : time) : option (result keySet) :=
  if negb (time_IsZero (je_lastFailureAt e)) && (now - je_lastFailureAt e <? je_ttl e) then
    match je_set e with
    | Some set => if staleAgeWithinGrace (je_fetchedAt e) (je_ttl e) now then Some (Ok set) else Some (Err (default (NewErr "") (je_lastFailureErr e)))
    | None => Some (Err (default (NewErr "") (je_lastFailureErr e)))
    end
  else if negb force && fresh e now then Ok <$> je_set e
  else None.

(** The outcome to wait for, and whether the caller leads it; [id] is a new outcome. *)
Definition beginFetch (e : jwksCacheEntry) (id : nat) : jwksCacheEntry * nat * bool :=
  match je_inflight e with
  | Some outcome => (e, outcome, false)
  | None =>
      (mkjwksCacheEntry (je_set e) (je_fetchedAt e) (je_ttl e) (je_negCache e) (je_negOrder e) (je_negCap e) (je_forcedAt e) (je_lastFailureAt e)
         (je_lastFailureErr e) (Some id), id, true)
  end.

Definition finishFetch (e : jwksCacheEntry) (res : result keySet) (now : time) : jwksCacheEntry :=
  match res with
  | Ok set => mkjwksCacheEntry (Some set) now (je_ttl e) (je_negCache e) (je_negOrder e) (je_negCap e) (je_forcedAt e) 0 None None
  | Err err => mkjwksCacheEntry (je_set e) (je_fetchedAt e) (je_ttl e) (je_negCache e) (je_negOrder e) (je_negCap e) (je_forcedAt e) now (Some err) None
  end.

Definition clearFetchFailure (e : jwksCacheEntry) : jwksCacheEntry :=
  mkjwksCacheEntry (je_set e) (je_fetchedAt e) (je_ttl e) (je_negCache e) (je_negOrder e) (je_negCap e) (je_forcedAt e) 0 None (je_inflight e).

(** The last lock region of [cachedJWKS]. *)
Definition cachedRead (e : jwksCacheEntry) (res : result keySet) (now : time) : result keySet :=
  match res, je_set e with
  | Err _, Some set => if staleAgeWithinGrace (je_fetchedAt e) (je_ttl e) now then Ok set else res
  | _, _ => res
  end.

Definition negatedLocked (e : jwksCacheEntry) (kid : string) (now : time) : bool :=
  match je_negCache e !! kid with Some expiry => now <? expiry | None => false end.
Definition forcedBudgetLocked (e : jwksCacheEntry) (now : time) : bool := time_IsZero (je_forcedAt e) || (je_ttl e <=? now - je_forcedAt e).

Definition setNegative (e : jwksCacheEntry) (cache : gmap string time) (order : list string) : jwksCacheEntry :=
  mkjwksCacheEntry (je_set e) (je_fetchedAt e) (je_ttl e) cache order (je_negCap e) (je_forcedAt e) (je_lastFailureAt e) (je_lastFailureErr e) (je_inflight e).

Definition negateLocked (e : jwksCacheEntry) (kid : string) (now : time) : jwksCacheEntry :=
  if maxNegatedKidBytes <? Zlen kid then e
  else match je_negCache e !! kid with
       | Some _ => e
       | None =>
           let '(cache, order) :=
             if (je_negCap e <=? size (je_negCache e))%nat
             then match je_negOrder e with oldest :: order => (delete oldest (je_negCache e), order) | [] => (je_negCache e, []) end
             else (je_negCache e, je_negOrder e) in
           setNegative e (<[kid := now + je_ttl e]> cache) (order ++ [kid])
       end.

Definition lookupLocked (e : jwksCacheEntry) (kid : string) : lookup := uniqueKey (je_set e) kid.

(** The lock region of [refreshForMissingKid]: a verdict, or a forced refresh. *)
Inductive gate : Type := gateServe (key : jwkKey) | gateReject | gateForce.

Definition missingGate (e : jwksCacheEntry) (kid : string) (now : time) : jwksCacheEntry * gate :=
  if negatedLocked e kid now then (e, gateReject)
  else if negb (forcedBudgetLocked e now) then
    match lookupLocked e kid with
    | found key => (e, gateServe key)
    | errAmbiguous => (e, gateReject)
    | errKeyNotFound => (negateLocked e kid now, gateReject)
    end
  else
    (mkjwksCacheEntry (je_set e) (je_fetchedAt e) (je_ttl e) (je_negCache e) (je_negOrder e) (je_negCap e) now (je_lastFailureAt e) (je_lastFailureErr e)
       (je_inflight e), gateForce).

End Jwks.
