(* ===== verification/JwksProps.v ===== *)
(** * Concurrent verification over the JWKS cache

    Requests run [remoteVerificationKey] against one cache entry, interleaved at
    its lock regions, with fetches that answer, fail, panic or hang.
    [served_key_is_recent]: every key used was the only key of its identifier in
    a set fetched after the request began or within the stale grace before it,
    and passed the key checks.  [jwks_cache_bounded]: one fetch in flight, one
    forced refresh per interval, and a bounded negative cache. *)

From Stdlib Require Import Ascii String Sorted.
From S2P Require Import Prelude GoStr Domain Holds Auth Jwks.
Open Scope string_scope.
Open Scope Z_scope.
Import Domain Jwks.

Module JwksProps.

(** ** The goroutines *)

(** The calls of [cachedJWKS]: to prime an empty cache, for the freshness of a
    known key, and forced, from the first or the second missing-key refresh. *)
Inductive call : Type := KPrime | KNormal | KForced (second : bool).
Definition forced (k : call) : bool := match k with KForced _ => true | _ => false end.

Inductive pc : Type :=
  | PStart
  | PCheck (k : call) | PBegin (k : call) | PFetch (k : call) (id : nat) | PPanic | PWait (k : call) (id : nat) | PRead (k : call) (id : nat)
  | PMissing (second : bool) | PGate (second : bool) (now : time) | PNegate
  | PServed (key : jwkKey) | PFail.

Record goroutine : Type := mkgoroutine { go_kid : string; go_alg : string; go_start : time; go_pc : pc }.

(** [jw_history] has the sets fetched with their times, [jw_forced] the times of
    the forced refreshes, newest first. *)
Record jworld : Type := mkjworld {
  jw_now : time;
  jw_entry : jwksCacheEntry;
  jw_outcomes : gmap nat (result (list jwkKey) * time);
  jw_next : nat;
  jw_gos : gmap nat goroutine;
  jw_history : list (list jwkKey * time);
  jw_forced : list time
}.

(** What follows a lookup. *)
Definition verdict (alg : string) (key : jwkKey) : pc := match validateRemoteKey key alg with Ok _ => PServed key | Err _ => PFail end.
Definition afterMissing (alg : string) (second : bool) (key : jwkKey) : pc := if second then verdict alg key else PCheck KNormal.
Definition resume (kid alg : string) (k : call) (res : result (list jwkKey)) : pc :=
  match res with
  | Err _ => PFail
  | Ok set =>
      match uniqueKey (Some set) kid, k with
      | found key, KPrime => PCheck KNormal
      | found key, KNormal => verdict alg key
      | found key, KForced second => afterMissing alg second key
      | errKeyNotFound, KPrime => PMissing false
      | errKeyNotFound, KNormal => PMissing true
      | errKeyNotFound, KForced _ => PNegate
      | errAmbiguous, _ => PFail
      end
  end.
Definition startPc (e : jwksCacheEntry) (kid alg : string) (now : time) : pc :=
  match uniqueKey (je_set e) kid with
  | found key => if fresh e now then verdict alg key else PCheck KNormal
  | errKeyNotFound => match je_set e with None => PCheck KPrime | Some _ => PMissing false end
  | errAmbiguous => PFail
  end.
Definition gatePc (alg : string) (second : bool) (g : gate) : pc :=
  match g with gateServe key => afterMissing alg second key | gateReject => PFail | gateForce => PCheck (KForced second) end.

Definition at_ (w : jworld) (i : nat) (g : goroutine) : Prop := jw_gos w !! i = Some g.
Definition move (g : goroutine) (p : pc) : goroutine := mkgoroutine (go_kid g) (go_alg g) (go_start g) p.
Definition withPc (w : jworld) (i : nat) (g : goroutine) (p : pc) : gmap nat goroutine := <[i := move g p]> (jw_gos w).
(** One goroutine moves, with the entry. *)
Definition run (w : jworld) (i : nat) (g : goroutine) (p : pc) (e : jwksCacheEntry) : jworld :=
  mkjworld (jw_now w) e (jw_outcomes w) (jw_next w) (withPc w i g p) (jw_history w) (jw_forced w).

Inductive jstep (w : jworld) : jworld -> Prop :=
  | j_tick d : 0 <= d -> jstep w (mkjworld (jw_now w + d) (jw_entry w) (jw_outcomes w) (jw_next w) (jw_gos w) (jw_history w) (jw_forced w))
  | j_arrive i kid alg : jw_gos w !! i = None -> allowedAsymmetricAlgorithm alg = true -> kid <> "" ->
      jstep w (mkjworld (jw_now w) (jw_entry w) (jw_outcomes w) (jw_next w) (<[i := mkgoroutine kid alg (jw_now w) PStart]> (jw_gos w)) (jw_history w) (jw_forced w))
  | j_start i g : at_ w i g -> go_pc g = PStart -> jstep w (run w i g (startPc (jw_entry w) (go_kid g) (go_alg g) (jw_now w)) (jw_entry w))
  | j_check i g k : at_ w i g -> go_pc g = PCheck k ->
      jstep w (run w i g (match cachedCheck (jw_entry w) (forced k) (jw_now w) with Some res => resume (go_kid g) (go_alg g) k res | None => PBegin k end) (jw_entry w))
  | j_begin i g k : at_ w i g -> go_pc g = PBegin k ->
      jstep w (match beginFetch (jw_entry w) (jw_next w) with
               | (e, id, leader) => mkjworld (jw_now w) e (jw_outcomes w) (S (jw_next w)) (withPc w i g (if leader then PFetch k id else PWait k id)) (jw_history w) (jw_forced w)
               end)
  | j_fetched i g k id res : at_ w i g -> go_pc g = PFetch k id ->
      jstep w (mkjworld (jw_now w) (finishFetch (jw_entry w) res (jw_now w)) (<[id := (res, jw_now w)]> (jw_outcomes w)) (jw_next w) (withPc w i g (PRead k id))
        (match res with Ok set => (set, jw_now w) :: jw_history w | Err _ => jw_history w end) (jw_forced w))
  (** A panic in the fetch: the outcome fails, then the cooldown is cleared. *)
  | j_panic i g k id : at_ w i g -> go_pc g = PFetch k id ->
      let err := Err (NewErr "fetch JWKS: panic") in
      jstep w (mkjworld (jw_now w) (finishFetch (jw_entry w) err (jw_now w)) (<[id := (err, jw_now w)]> (jw_outcomes w)) (jw_next w) (withPc w i g PPanic) (jw_history w) (jw_forced w))
  | j_panicked i g : at_ w i g -> go_pc g = PPanic -> jstep w (run w i g PFail (clearFetchFailure (jw_entry w)))
  | j_joined i g k id r : at_ w i g -> go_pc g = PWait k id -> jw_outcomes w !! id = Some r -> jstep w (run w i g (PRead k id) (jw_entry w))
  | j_expired i g k id : at_ w i g -> go_pc g = PWait k id -> jstep w (run w i g PFail (jw_entry w))
  | j_read i g k id res f : at_ w i g -> go_pc g = PRead k id -> jw_outcomes w !! id = Some (res, f) ->
      jstep w (run w i g (resume (go_kid g) (go_alg g) k (cachedRead (jw_entry w) res (jw_now w))) (jw_entry w))
  | j_missing i g second : at_ w i g -> go_pc g = PMissing second -> jstep w (run w i g (PGate second (jw_now w)) (jw_entry w))
  | j_gate i g second now e verdict : at_ w i g -> go_pc g = PGate second now -> missingGate (jw_entry w) (go_kid g) now = (e, verdict) ->
      jstep w (mkjworld (jw_now w) e (jw_outcomes w) (jw_next w) (withPc w i g (gatePc (go_alg g) second verdict)) (jw_history w)
        (match verdict with gateForce => now :: jw_forced w | _ => jw_forced w end))
  | j_negate i g : at_ w i g -> go_pc g = PNegate -> jstep w (run w i g PFail (negateLocked (jw_entry w) (go_kid g) (jw_now w))).

Definition jinitial (configured : Z) (now : time) : jworld := mkjworld now (cacheEntry configured) ∅ 0 ∅ [] [].
Definition jreachable (configured : Z) (now : time) (w : jworld) : Prop := rtc jstep (jinitial configured now) w.

(** How old a set may be. *)
Definition grace (ttl : Z) : Z := if ttl <=? maxDuration / jwksMaxStaleFactor then ttl * jwksMaxStaleFactor else maxDuration.

(** *** Schedules *)

(** A schedule: time, requests, and the goroutine that moves next, with what its
    fetch answers if it is the leader's. *)
Inductive action : Type := ATick (d : Z) | AArrive (i : nat) (kid alg : string) | AGo (i : nat) (fetch : result (list jwkKey)).

Definition advance (w : jworld) (i : nat) (g : goroutine) (fetch : result (list jwkKey)) : option jworld :=
  match go_pc g with
  | PStart => Some (run w i g (startPc (jw_entry w) (go_kid g) (go_alg g) (jw_now w)) (jw_entry w))
  | PCheck k =>
      Some (run w i g (match cachedCheck (jw_entry w) (forced k) (jw_now w) with Some res => resume (go_kid g) (go_alg g) k res | None => PBegin k end) (jw_entry w))
  | PBegin k =>
      Some (match beginFetch (jw_entry w) (jw_next w) with
            | (e, id, leader) => mkjworld (jw_now w) e (jw_outcomes w) (S (jw_next w)) (withPc w i g (if leader then PFetch k id else PWait k id)) (jw_history w) (jw_forced w)
            end)
  | PFetch k id =>
      Some (mkjworld (jw_now w) (finishFetch (jw_entry w) fetch (jw_now w)) (<[id := (fetch, jw_now w)]> (jw_outcomes w)) (jw_next w) (withPc w i g (PRead k id))
        (match fetch with Ok set => (set, jw_now w) :: jw_history w | Err _ => jw_history w end) (jw_forced w))
  | PPanic => Some (run w i g PFail (clearFetchFailure (jw_entry w)))
  | PWait k id => match jw_outcomes w !! id with Some _ => Some (run w i g (PRead k id) (jw_entry w)) | None => None end
  | PRead k id =>
      match jw_outcomes w !! id with
      | Some (res, _) => Some (run w i g (resume (go_kid g) (go_alg g) k (cachedRead (jw_entry w) res (jw_now w))) (jw_entry w))
      | None => None
      end
  | PMissing second => Some (run w i g (PGate second (jw_now w)) (jw_entry w))
  | PGate second now =>
      match missingGate (jw_entry w) (go_kid g) now with
      | (e, verdict) => Some (mkjworld (jw_now w) e (jw_outcomes w) (jw_next w) (withPc w i g (gatePc (go_alg g) second verdict)) (jw_history w)
                          (match verdict with gateForce => now :: jw_forced w | _ => jw_forced w end))
      end
  | PNegate => Some (run w i g PFail (negateLocked (jw_entry w) (go_kid g) (jw_now w)))
  | PServed _ | PFail => None
  end.

Definition act (w : jworld) (a : action) : option jworld :=
  match a with
  | ATick d => if 0 <=? d then Some (mkjworld (jw_now w + d) (jw_entry w) (jw_outcomes w) (jw_next w) (jw_gos w) (jw_history w) (jw_forced w)) else None
  | AArrive i kid alg =>
      if bool_decide (jw_gos w !! i = None) && allowedAsymmetricAlgorithm alg && negb (bool_decide (kid = ""))
      then Some (mkjworld (jw_now w) (jw_entry w) (jw_outcomes w) (jw_next w) (<[i := mkgoroutine kid alg (jw_now w) PStart]> (jw_gos w)) (jw_history w) (jw_forced w))
      else None
  | AGo i fetch => match jw_gos w !! i with Some g => advance w i g fetch | None => None end
  end.
Fixpoint schedule (w : jworld) (actions : list action) : option jworld :=
  match actions with [] => Some w | a :: actions => match act w a with Some w' => schedule w' actions | None => None end end.

Lemma advance_step w i g fetch w' : at_ w i g -> advance w i g fetch = Some w' -> jstep w w'.
Proof.
  intros Hg H. unfold advance in H. destruct (go_pc g) eqn:Ep; try done.
  - injection H as <-. by apply j_start.
  - injection H as <-. by apply j_check.
  - injection H as <-. by apply j_begin.
  - injection H as <-. by apply j_fetched.
  - injection H as <-. by apply j_panicked.
  - destruct (jw_outcomes w !! id) eqn:Eo; [|done]. injection H as <-. by eapply j_joined.
  - destruct (jw_outcomes w !! id) as [[res f]|] eqn:Eo; [|done]. injection H as <-. by eapply j_read.
  - injection H as <-. by apply j_missing.
  - destruct (missingGate _ _ _) as [e v] eqn:Em. injection H as <-. by eapply j_gate.
  - injection H as <-. by apply j_negate.
Qed.

Lemma act_step w a w' : act w a = Some w' -> jstep w w'.
Proof.
  destruct a as [d|i kid alg|i fetch]; cbn [act]; intros H.
  - destruct (Z.leb_spec 0 d); [|done]. injection H as <-. by apply j_tick.
  - destruct (bool_decide (jw_gos w !! i = None)) eqn:E1; [|done]. destruct (allowedAsymmetricAlgorithm alg) eqn:E2; [|done]. destruct (bool_decide (kid = "")) eqn:E3; [done|].
    injection H as <-. apply j_arrive; [by eapply bool_decide_eq_true_1|done|by eapply bool_decide_eq_false_1].
  - destruct (jw_gos w !! i) as [g|] eqn:Eg; [|done]. by eapply advance_step.
Qed.

Lemma schedule_reaches w actions w' : schedule w actions = Some w' -> rtc jstep w w'.
Proof.
  revert w. induction actions as [|a actions IH]; cbn; intros w H; [injection H as ->; apply rtc_refl|].
  destruct (act w a) as [w1|] eqn:Ea; [|done]. eapply rtc_l; [by eapply act_step|auto].
Qed.

(** ** Recency *)

(** The only key of its identifier in a set that is recent for a request. *)
Definition recent (w : jworld) (g : goroutine) (set : list jwkKey) : Prop :=
  exists f, (set, f) ∈ jw_history w /\ go_start g <= f + grace (je_ttl (jw_entry w)).
Definition served (w : jworld) (g : goroutine) (key : jwkKey) : Prop :=
  validateRemoteKey key (go_alg g) = Ok tt /\ exists set, recent w g set /\ matching set (go_kid g) = [key].

(** The key was missing from a set that is still the entry's, or the entry was
    fetched since the request began. *)
Definition missed (w : jworld) (g : goroutine) : Prop :=
  go_start g <= je_fetchedAt (jw_entry w) \/ uniqueKey (je_set (jw_entry w)) (go_kid g) = errKeyNotFound.

Definition goOk (w : jworld) (g : goroutine) : Prop :=
  go_start g <= jw_now w /\
  match go_pc g with
  | PWait _ id => (id < jw_next w)%nat /\ forall r f, jw_outcomes w !! id = Some (r, f) -> go_start g <= f
  | PRead _ id => exists r f, jw_outcomes w !! id = Some (r, f) /\ go_start g <= f
  | PMissing _ | PGate _ _ => missed w g
  | PServed key => served w g key
  | _ => True
  end.

Record jinv (w : jworld) : Prop := mkjinv {
  ji_ttl : 0 < je_ttl (jw_entry w) <= maxDuration;
  ji_now : 0 < jw_now w /\ je_fetchedAt (jw_entry w) <= jw_now w;
  ji_set : forall set, je_set (jw_entry w) = Some set -> (set, je_fetchedAt (jw_entry w)) ∈ jw_history w;
  ji_hist : forall set f, (set, f) ∈ jw_history w -> 0 < f <= je_fetchedAt (jw_entry w);
  ji_outcome : forall id set f, jw_outcomes w !! id = Some (Ok set, f) -> (set, f) ∈ jw_history w;
  ji_done : forall id r, jw_outcomes w !! id = Some r -> (id < jw_next w)%nat;
  ji_inflight : forall id, je_inflight (jw_entry w) = Some id -> (id < jw_next w)%nat /\ jw_outcomes w !! id = None;
  ji_fetch : forall i g k id, at_ w i g -> go_pc g = PFetch k id -> je_inflight (jw_entry w) = Some id;
  ji_single : forall i j g h k l id id', at_ w i g -> at_ w j h -> go_pc g = PFetch k id -> go_pc h = PFetch l id' -> i = j;
  ji_go : forall i g, at_ w i g -> goOk w g
}.

(** *** The set a call of cachedJWKS returns *)

Lemma grace_bounds ttl : 0 < ttl <= maxDuration -> ttl <= grace ttl.
Proof. unfold grace, jwksMaxStaleFactor. intros H. case_match; lia. Qed.

Lemma staleAge_bound f ttl now : staleAgeWithinGrace f ttl now = true -> now <= f + grace ttl.
Proof.
  unfold staleAgeWithinGrace, grace. destruct (_ || _) eqn:E0; [done|]. apply orb_false_iff in E0 as [_ Ht]. apply Z.leb_gt in Ht.
  destruct (now - f <? 0) eqn:E; intros H.
  - apply Z.ltb_lt in E. case_match; unfold jwksMaxStaleFactor, maxDuration in *; lia.
  - apply Z.leb_le in H. lia.
Qed.

(** The set is the entry's and recent. *)
Lemma check_recent w g force set : jinv w -> go_start g <= jw_now w -> cachedCheck (jw_entry w) force (jw_now w) = Some (Ok set) ->
  je_set (jw_entry w) = Some set /\ recent w g set.
Proof.
  intros Hi Hs H. unfold cachedCheck in H.
  assert (je_set (jw_entry w) = Some set -> jw_now w <= je_fetchedAt (jw_entry w) + grace (je_ttl (jw_entry w)) -> je_set (jw_entry w) = Some set /\ recent w g set) as Hr.
  { intros E Hn. split; [done|]. exists (je_fetchedAt (jw_entry w)). split; [by apply (ji_set w Hi)|lia]. }
  destruct (_ && _) in H.
  - destruct (je_set (jw_entry w)) as [s|] eqn:Es; [|done]. destruct (staleAgeWithinGrace _ _ _) eqn:Eg; [|done]. injection H as ->.
    apply Hr; [done|]. by apply staleAge_bound.
  - destruct (negb force && fresh (jw_entry w) (jw_now w)) eqn:Ef; [|done]. apply andb_true_iff in Ef as [_ Ef]. unfold fresh in Ef.
    destruct (je_set (jw_entry w)) as [s|] eqn:Es; [|done]. cbn in H. injection H as ->. apply Hr; [done|]. apply Z.ltb_lt in Ef.
    pose proof (grace_bounds _ (ji_ttl w Hi)). lia.
Qed.

(** The set is recent, and the entry's unless a fetch landed since the request began. *)
Lemma read_recent w g id res f set : jinv w -> go_start g <= jw_now w -> jw_outcomes w !! id = Some (res, f) -> go_start g <= f ->
  cachedRead (jw_entry w) res (jw_now w) = Ok set ->
  recent w g set /\ (go_start g <= je_fetchedAt (jw_entry w) \/ je_set (jw_entry w) = Some set).
Proof.
  intros Hi Hs Ho Hf H. pose proof (grace_bounds _ (ji_ttl w Hi)) as Hg. pose proof (ji_ttl w Hi) as Ht. unfold cachedRead in H. destruct res as [s|err].
  - injection H as ->. pose proof (ji_outcome w Hi _ _ _ Ho) as Hin. destruct (ji_hist w Hi _ _ Hin) as [_ Hle]. split; [exists f; split; [done|lia]|left; lia].
  - destruct (je_set (jw_entry w)) as [s|] eqn:Es; [|done]. destruct (staleAgeWithinGrace _ _ _) eqn:Eg; [|done]. injection H as ->. apply staleAge_bound in Eg.
    split; [|by right]. exists (je_fetchedAt (jw_entry w)). split; [by apply (ji_set w Hi)|lia].
Qed.

(** *** Where a goroutine goes *)

Lemma uniqueKey_found set kid key : uniqueKey (Some set) kid = found key -> matching set kid = [key].
Proof. cbn. destruct (matching set kid) as [|k [|]]; intros H; by simplify_eq. Qed.

(** What a goroutine that moves to a program point must know. *)
Definition pcOk (w : jworld) (g : goroutine) (p : pc) : Prop := goOk w (move g p) /\ forall k id, p <> PFetch k id.

Lemma verdict_ok w g key set : go_start g <= jw_now w -> recent w g set -> matching set (go_kid g) = [key] -> pcOk w g (verdict (go_alg g) key).
Proof.
  intros Hs Hr Hm. unfold verdict. destruct (validateRemoteKey key (go_alg g)) as [[]|] eqn:E; (split; [split; [done|]|done]); cbn; [|done]. split; [done|]. by exists set.
Qed.

Lemma plain_pc_ok w g p : go_start g <= jw_now w -> (match p with PCheck _ | PBegin _ | PPanic | PNegate | PFail => True | _ => False end) -> pcOk w g p.
Proof. intros Hs Hp. destruct p; try done; (split; [split; [done|]|done]); done. Qed.

Lemma missing_ok w g second : go_start g <= jw_now w -> missed w g -> pcOk w g (PMissing second).
Proof. intros Hs Hm. by split; [split|]. Qed.

Lemma after_ok w g second key set : go_start g <= jw_now w -> recent w g set -> matching set (go_kid g) = [key] -> pcOk w g (afterMissing (go_alg g) second key).
Proof. intros Hs Hr Hm. destruct second; [by eapply verdict_ok|by apply plain_pc_ok]. Qed.

Lemma resume_ok w g k res : go_start g <= jw_now w ->
  (forall set, res = Ok set -> recent w g set /\ (uniqueKey (Some set) (go_kid g) = errKeyNotFound -> missed w g)) ->
  pcOk w g (resume (go_kid g) (go_alg g) k res).
Proof.
  intros Hs H. unfold resume. destruct res as [set|]; [|by apply plain_pc_ok]. destruct (H set eq_refl) as [Hr Hm].
  destruct (uniqueKey (Some set) (go_kid g)) as [key| |] eqn:E; [|destruct k; by (apply missing_ok; auto) || apply plain_pc_ok|by apply plain_pc_ok].
  apply uniqueKey_found in E. destruct k; [by apply plain_pc_ok|by eapply verdict_ok|by eapply after_ok].
Qed.

(** *** Steps *)

(** The entry but for the negative cache, the budget and the cooldown. *)
Definition sameCore (e e' : jwksCacheEntry) : Prop :=
  je_set e' = je_set e /\ je_fetchedAt e' = je_fetchedAt e /\ je_ttl e' = je_ttl e /\ je_inflight e' = je_inflight e.

Lemma negate_core e kid now : sameCore e (negateLocked e kid now).
Proof. unfold negateLocked. repeat case_match; done. Qed.
Lemma gate_core e kid now e' v : missingGate e kid now = (e', v) -> sameCore e e'.
Proof. unfold missingGate. intros H. repeat case_match; simplify_eq; try done. apply negate_core. Qed.

(** A request that stands still when time passes, an outcome is new or the entry
    is fetched. *)
Lemma goOk_grows w w' g :
  goOk w g -> jw_now w <= jw_now w' -> je_ttl (jw_entry w') = je_ttl (jw_entry w) -> (jw_next w <= jw_next w')%nat ->
  (forall x, x ∈ jw_history w -> x ∈ jw_history w') -> (forall id r, jw_outcomes w !! id = Some r -> jw_outcomes w' !! id = Some r) ->
  (forall id r f, jw_outcomes w' !! id = Some (r, f) -> jw_outcomes w !! id = Some (r, f) \/ f = jw_now w') ->
  (je_set (jw_entry w') = je_set (jw_entry w) /\ je_fetchedAt (jw_entry w') = je_fetchedAt (jw_entry w) \/ je_fetchedAt (jw_entry w') = jw_now w') ->
  goOk w' g.
Proof.
  intros [Hs Hp] Hn Ht Hx Hh Ho Ho' He. split; [lia|]. destruct (go_pc g); try done.
  - destruct Hp as [Hid Hf]. split; [lia|]. intros r f Hr. destruct (Ho' _ _ _ Hr) as [Hr'| ->]; [by eapply Hf|lia].
  - destruct Hp as (r & f & Hr & Hf). exists r, f. auto.
  - unfold missed in *. destruct He as [[-> ->]|He]; [done|left; lia].
  - unfold missed in *. destruct He as [[-> ->]|He]; [done|left; lia].
  - destruct Hp as (Hv & set & (f & Hin & Hle) & Hm). split; [done|]. exists set. split; [|done]. exists f. rewrite Ht. auto.
Qed.

Lemma at_move w i g p e outcomes next history fl now j h : at_ (mkjworld now e outcomes next (withPc w i g p) history fl) j h ->
  j = i /\ h = move g p \/ j <> i /\ at_ w j h.
Proof. unfold at_, withPc. cbn. intros [[<- <-]|[? ?]]%lookup_insert_Some; auto. Qed.

(** A goroutine that moves, not to a fetch, over an entry of the same core. *)
Lemma jinv_move w i g p e fl : jinv w -> at_ w i g -> sameCore (jw_entry w) e -> pcOk w g p ->
  jinv (mkjworld (jw_now w) e (jw_outcomes w) (jw_next w) (withPc w i g p) (jw_history w) fl).
Proof.
  intros Hi Hg (Hset & Hfa & Ht & Hin) [Hok Hnf]. destruct Hi as [I1 I2 I3 I4 I5 I6 I7 I8 I9 I10].
  assert (forall h, goOk w h -> goOk (mkjworld (jw_now w) e (jw_outcomes w) (jw_next w) (withPc w i g p) (jw_history w) fl) h) as Hgo.
  { intros h Hh. eapply goOk_grows; [exact Hh|..]; cbn; auto; lia. }
  split; cbn; rewrite ?Hset, ?Hfa, ?Ht, ?Hin; try done.
  - intros j h k id [[-> ->]|[_ Hj]]%at_move Hpc; [by apply Hnf in Hpc|by eapply I8].
  - intros j l h h' k k' id id' [[-> ->]|[_ Hj]]%at_move [[-> ->]|[_ Hl]]%at_move Hpc Hpc'; try done; [by apply Hnf in Hpc|by apply Hnf in Hpc'|by eapply I9].
  - intros j h [[-> ->]|[_ Hj]]%at_move; [by apply Hgo|by eapply Hgo, I10].
Qed.

Lemma jinv_begin w i g k e id leader : jinv w -> at_ w i g -> beginFetch (jw_entry w) (jw_next w) = (e, id, leader) ->
  jinv (mkjworld (jw_now w) e (jw_outcomes w) (S (jw_next w)) (withPc w i g (if leader then PFetch k id else PWait k id)) (jw_history w) (jw_forced w)).
Proof.
  intros Hi Hg Hb. pose proof (ji_go w Hi _ _ Hg) as [Hs _]. destruct Hi as [I1 I2 I3 I4 I5 I6 I7 I8 I9 I10]. unfold beginFetch in Hb.
  destruct (je_inflight (jw_entry w)) as [out|] eqn:Ef; injection Hb as <- <- <-; cbn.
  - destruct (I7 _ eq_refl) as [Hlt Hnone]. set (w' := mkjworld _ _ _ _ _ _ _).
    assert (forall h, goOk w h -> goOk w' h) as Hgo by (intros h Hh; eapply goOk_grows; [exact Hh|..]; cbn; auto; lia).
    split; cbn; try done; [by intros id r Hr; apply I6 in Hr; lia|by intros id Hid; destruct (I7 id); [congruence|split; [lia|done]]|..].
    + intros j h kk id [[-> ->]|[_ Hj]]%at_move Hpc; [done|rewrite <- Ef in *; by eapply I8].
    + intros j l h h' kk kk' id id' [[-> ->]|[_ Hj]]%at_move [[-> ->]|[_ Hl]]%at_move Hpc Hpc'; try done. by eapply I9.
    + intros j h [[-> ->]|[_ Hj]]%at_move; [|by eapply Hgo, I10]. split; [done|]. cbn. split; [lia|]. intros r f Hr. congruence.
  - assert (forall j h kk id, at_ w j h -> go_pc h <> PFetch kk id) as Hnone by (intros j h kk id Hj Hpc; by pose proof (I8 _ _ _ _ Hj Hpc)).
    set (w' := mkjworld _ _ _ _ _ _ _).
    assert (forall h, goOk w h -> goOk w' h) as Hgo by (intros h Hh; eapply goOk_grows; [exact Hh|..]; cbn; auto; lia).
    assert (jw_outcomes w !! jw_next w = None) as Hfree by (destruct (jw_outcomes w !! jw_next w) eqn:E; [apply I6 in E; lia|done]).
    split; cbn; try done; [by intros id r Hr; apply I6 in Hr; lia|by intros id [= <-]; split; [lia|]|..].
    + intros j h kk id [[-> ->]|[_ Hj]]%at_move Hpc; [cbn in Hpc; congruence|by destruct (Hnone _ _ kk id Hj)].
    + intros j l h h' kk kk' id id' [[-> ->]|[_ Hj]]%at_move [[-> ->]|[_ Hl]]%at_move Hpc Hpc'; try done; [by destruct (Hnone _ _ kk' id' Hl)|by destruct (Hnone _ _ kk id Hj)..].
    + intros j h [[-> ->]|[_ Hj]]%at_move; [by split|by eapply Hgo, I10].
Qed.

Lemma jinv_finish w i g k id res p : jinv w -> at_ w i g -> go_pc g = PFetch k id -> (p = PRead k id \/ p = PPanic) ->
  jinv (mkjworld (jw_now w) (finishFetch (jw_entry w) res (jw_now w)) (<[id := (res, jw_now w)]> (jw_outcomes w)) (jw_next w) (withPc w i g p)
    (match res with Ok set => (set, jw_now w) :: jw_history w | Err _ => jw_history w end) (jw_forced w)).
Proof.
  intros Hi Hg Hpc Hp. pose proof (ji_go w Hi _ _ Hg) as [Hs _]. destruct Hi as [I1 I2 I3 I4 I5 I6 I7 I8 I9 I10].
  pose proof (I8 _ _ _ _ Hg Hpc) as Hin. destruct (I7 _ Hin) as [Hlt Hnone]. set (w' := mkjworld _ _ _ _ _ _ _).
  assert (forall j h kk id', j <> i -> at_ w j h -> go_pc h <> PFetch kk id') as Hothers by (intros j h kk id' Hne Hj Hpc'; by apply Hne, (I9 j i h g kk k id' id)).
  assert (forall h, goOk w h -> goOk w' h) as Hgo.
  { intros h Hh. eapply goOk_grows; [exact Hh|..]; cbn; try lia; [by destruct res|destruct res; [intros x Hx; by right|done]| | |destruct res; [by right|by left]].
    - intros id' r Hr. rewrite lookup_insert_ne; [done|]. intros <-. congruence.
    - intros id' r f [[<- [= _ <-]]|[_ ?]]%lookup_insert_Some; [by right|by left]. }
  split; cbn.
  - by destruct res.
  - destruct res; cbn; lia.
  - destruct res as [s|err]; cbn; [intros set [= ->]; left|done].
  - destruct res as [s|err]; cbn; [|done]. intros set f [[= -> ->]|Hx%I4]%elem_of_cons; lia.
  - intros id' set f [[<- [= -> <-]]|[_ Hx%I5]]%lookup_insert_Some; [left|]. destruct res; [by right|done].
  - intros id' r [[<- _]|[_ Hx]]%lookup_insert_Some; [done|by eapply I6].
  - by destruct res.
  - intros j h kk id' [[-> ->]|[Hne Hj]]%at_move Hpc'; [by destruct Hp as [-> | ->]|by apply (Hothers _ _ _ _ Hne Hj) in Hpc'].
  - intros j l h h' kk kk' id1 id2 [[-> ->]|[Hne Hj]]%at_move _ Hpc' _; [by destruct Hp as [-> | ->]|by apply (Hothers _ _ _ _ Hne Hj) in Hpc'].
  - intros j h [[-> ->]|[_ Hj]]%at_move; [|by eapply Hgo, I10]. split; [done|]. destruct Hp as [-> | ->]; cbn; [|done].
    exists res, (jw_now w). by rewrite lookup_insert_eq.
Qed.

Lemma jinv_time w d : jinv w -> 0 <= d -> jinv (mkjworld (jw_now w + d) (jw_entry w) (jw_outcomes w) (jw_next w) (jw_gos w) (jw_history w) (jw_forced w)).
Proof.
  intros Hi Hd. destruct Hi as [I1 I2 I3 I4 I5 I6 I7 I8 I9 I10]. split; cbn; try done; [lia|]. intros i g Hg. eapply goOk_grows; [by eapply I10|..]; cbn; auto; lia.
Qed.

Lemma jinv_arrive w i kid alg : jinv w ->
  jinv (mkjworld (jw_now w) (jw_entry w) (jw_outcomes w) (jw_next w) (<[i := mkgoroutine kid alg (jw_now w) PStart]> (jw_gos w)) (jw_history w) (jw_forced w)).
Proof.
  intros Hi. destruct Hi as [I1 I2 I3 I4 I5 I6 I7 I8 I9 I10]. split; cbn; try done; unfold at_; cbn.
  - intros j h k id [[<- <-]|[_ Hj]]%lookup_insert_Some Hpc; [done|by eapply I8].
  - intros j l h h' k k' id id' [[<- <-]|[_ Hj]]%lookup_insert_Some [[<- <-]|[_ Hl]]%lookup_insert_Some Hpc Hpc'; try done. by eapply I9.
  - intros j h [[<- <-]|[_ Hj]]%lookup_insert_Some; [by split|]. eapply goOk_grows; [by eapply I10|..]; cbn; auto; lia.
Qed.

Lemma start_ok w g : jinv w -> go_start g <= jw_now w -> pcOk w g (startPc (jw_entry w) (go_kid g) (go_alg g) (jw_now w)).
Proof.
  intros Hi Hs. unfold startPc. destruct (uniqueKey _ _) as [key| |] eqn:E; [| |by apply plain_pc_ok].
  - destruct (fresh _ _) eqn:Ef; [|by apply plain_pc_ok]. destruct (je_set (jw_entry w)) as [set|] eqn:Es; [|done]. apply uniqueKey_found in E. eapply verdict_ok; [done| |exact E].
    exists (je_fetchedAt (jw_entry w)). split; [by apply (ji_set w Hi)|]. unfold fresh in Ef. rewrite Es in Ef. apply Z.ltb_lt in Ef.
    pose proof (grace_bounds _ (ji_ttl w Hi)). lia.
  - destruct (je_set (jw_entry w)) as [set|] eqn:Es; [|by apply plain_pc_ok]. apply missing_ok; [done|]. right. by rewrite Es.
Qed.

Lemma gate_ok w g second now e v : jinv w -> go_start g <= jw_now w -> missed w g -> missingGate (jw_entry w) (go_kid g) now = (e, v) ->
  pcOk w g (gatePc (go_alg g) second v).
Proof.
  intros Hi Hs Hm H. unfold missingGate in H. destruct (negatedLocked _ _ _); [simplify_eq; by apply plain_pc_ok|].
  destruct (negb _); [|simplify_eq; by apply plain_pc_ok]. unfold lookupLocked in H. destruct (uniqueKey _ _) as [key| |] eqn:E; simplify_eq; cbn [gatePc]; [|by apply plain_pc_ok..].
  destruct (je_set (jw_entry w)) as [set|] eqn:Es; [|done]. pose proof (uniqueKey_found _ _ _ E) as Hk. eapply after_ok; [done| |exact Hk].
  destruct Hm as [Hf|Hm]; [|rewrite Es in Hm; congruence]. exists (je_fetchedAt (jw_entry w)). split; [by apply (ji_set w Hi)|].
  pose proof (grace_bounds _ (ji_ttl w Hi)). pose proof (ji_ttl w Hi). lia.
Qed.

Lemma core_refl e : sameCore e e.
Proof. done. Qed.

Lemma jstep_inv w w' : jinv w -> jstep w w' -> jinv w'.
Proof.
  intros Hi Hst. destruct Hst as [d Hd|i kid alg Hn Ha Hk|i g Hg Hp|i g k Hg Hp|i g k Hg Hp|i g k id res Hg Hp|i g k id Hg Hp|i g Hg Hp|i g k id r Hg Hp Ho|i g k id Hg Hp|i g k id res f Hg Hp Ho|i g second Hg Hp|i g second now e v Hg Hp Hgate|i g Hg Hp];
    [by apply jinv_time|by apply jinv_arrive|..]; pose proof (ji_go w Hi _ _ Hg) as [Hs Hgo]; rewrite Hp in Hgo.
  - apply jinv_move; [done|done|apply core_refl|by apply start_ok].
  - apply jinv_move; [done|done|apply core_refl|]. destruct (cachedCheck _ _ _) as [res|] eqn:Ec; [|by apply plain_pc_ok]. apply resume_ok; [done|].
    intros set ->. destruct (check_recent w g _ set Hi Hs Ec) as [Es Hr]. split; [done|]. intros Hm. right. by rewrite Es.
  - destruct (beginFetch _ _) as [[e id] leader] eqn:Eb. by eapply jinv_begin.
  - eapply jinv_finish; [done..|by left].
  - exact (jinv_finish w i g k id (Err (NewErr "fetch JWKS: panic")) PPanic Hi Hg Hp (or_intror eq_refl)).
  - apply jinv_move; [done|done|done|by apply plain_pc_ok].
  - apply jinv_move; [done|done|apply core_refl|]. split; [|done]. split; [done|]. cbn. destruct r as [r f]. exists r, f. split; [done|]. by eapply (proj2 Hgo).
  - apply jinv_move; [done|done|apply core_refl|by apply plain_pc_ok].
  - apply jinv_move; [done|done|apply core_refl|]. destruct Hgo as (r' & f' & Ho' & Hf). rewrite Ho in Ho'. injection Ho' as <- <-. apply resume_ok; [done|].
    intros set Hset. destruct (read_recent w g id res f set Hi Hs Ho Hf Hset) as [Hr [He|He]]; (split; [done|]); intros Hm; [by left|right; by rewrite He].
  - apply jinv_move; [done|done|apply core_refl|]. by split; [split|].
  - apply jinv_move; [done|done|by eapply gate_core|by eapply gate_ok].
  - apply jinv_move; [done|done|apply negate_core|by apply plain_pc_ok].
Qed.

Lemma interval_positive configured : configured <= maxDuration -> 0 < jwksRefreshInterval configured <= maxDuration.
Proof. intros H. unfold jwksRefreshInterval. destruct (Z.ltb_spec 0 configured); [lia|by vm_compute]. Qed.

Lemma jreachable_inv configured now w : configured <= maxDuration -> 0 < now -> jreachable configured now w -> jinv w.
Proof.
  intros Hc Hn Hr. assert (jinv (jinitial configured now)) as Hi.
  { split; cbn; unfold at_; cbn; try done; try lia; try (by apply interval_positive); intros; exfalso; set_solver. }
  revert Hi. induction Hr as [|w1 w2 w3 Hs _ IH]; [done|]. intros Hi. apply IH. by eapply jstep_inv.
Qed.

Lemma jstep_ttl w w' : jstep w w' -> je_ttl (jw_entry w') = je_ttl (jw_entry w).
Proof.
  destruct 1; cbn; try done; [|by destruct res|by destruct (gate_core _ _ _ _ _ H1) as (_ & _ & ? & _)|apply negate_core].
  unfold beginFetch. by destruct (je_inflight _).
Qed.
Lemma jreachable_ttl configured now w : jreachable configured now w -> je_ttl (jw_entry w) = jwksRefreshInterval configured.
Proof.
  intros Hr. unfold jreachable in Hr. remember (jinitial configured now) as w0 eqn:E. assert (je_ttl (jw_entry w0) = jwksRefreshInterval configured) as H0 by (by subst). clear E.
  induction Hr as [|w1 w2 w3 Hs _ IH]; [done|]. apply IH. by rewrite (jstep_ttl _ _ Hs).
Qed.

(** ** Bounds *)

(** The negative cache: its order lists its keys once, oldest first. *)
Record negOk (e : jwksCacheEntry) : Prop := mknegOk {
  ng_cap : je_negCap e = negativeCacheCap;
  ng_nodup : NoDup (je_negOrder e);
  ng_dom : forall kid, kid ∈ je_negOrder e <-> is_Some (je_negCache e !! kid);
  ng_size : (length (je_negOrder e) <= negativeCacheCap)%nat;
  ng_short : Forall (fun kid => Zlen kid <= maxNegatedKidBytes) (je_negOrder e)
}.

(** The size the code compares with the capacity is the length of the order. *)
Lemma neg_size e : negOk e -> size (je_negCache e) = length (je_negOrder e).
Proof.
  intros He. rewrite <- (size_list_to_set (C := gset string) _ (ng_nodup e He)), <- size_dom. f_equal.
  apply set_eq. intros kid. rewrite elem_of_list_to_set, elem_of_dom, (ng_dom e He). done.
Qed.

Lemma eq_comm_iff (a b : string) : a = b <-> b = a.
Proof. by split. Qed.

(** A full negative cache drops its oldest identifier. *)
Lemma negate_ok e kid now : negOk e -> negOk (negateLocked e kid now).
Proof.
  intros He. pose proof (neg_size e He) as Hsz. unfold negateLocked. destruct (Z.ltb_spec maxNegatedKidBytes (Zlen kid)) as [|Hk]; [done|].
  destruct (je_negCache e !! kid) eqn:Ek; [done|]. destruct He as [Hc Hn Hd Hl Hs].
  assert (kid ∉ je_negOrder e) as Hout by (intros [? ?]%Hd; congruence). rewrite Hsz, Hc.
  destruct (Nat.leb_spec negativeCacheCap (length (je_negOrder e))) as [Hfull|Hroom].
  - destruct (je_negOrder e) as [|oldest order]; [unfold negativeCacheCap in Hfull; cbn in Hfull; lia|]. apply NoDup_cons in Hn as [Ho Hn]. apply Forall_cons in Hs as [_ Hs].
    apply not_elem_of_cons in Hout as [Hne Hout]. split; cbn; [done| | | |].
    + apply NoDup_app. split; [done|]. split; [|apply NoDup_singleton]. intros x Hx ->%list_elem_of_singleton. done.
    + intros x. rewrite elem_of_app, list_elem_of_singleton, lookup_insert_is_Some'. specialize (Hd x). rewrite elem_of_cons in Hd.
      destruct (decide (x = oldest)) as [->|Hx].
      * rewrite lookup_delete_eq. split; [by intros [?|?]|by intros [?|[? ?]]; [right|]].
      * rewrite lookup_delete_ne by done. rewrite (eq_comm_iff kid x). tauto.
    + rewrite length_app. cbn in *. lia.
    + apply Forall_app. split; [done|]. by apply Forall_singleton.
  - split; cbn; [done| | | |].
    + apply NoDup_app. split; [done|]. split; [|apply NoDup_singleton]. intros x Hx ->%list_elem_of_singleton. done.
    + intros x. rewrite elem_of_app, list_elem_of_singleton, lookup_insert_is_Some', Hd, (eq_comm_iff kid x). tauto.
    + rewrite length_app. cbn in *. lia.
    + apply Forall_app. split; [done|]. by apply Forall_singleton.
Qed.

(** The forced refreshes are one interval apart, newest first. *)
Definition spaced (ttl : Z) : list time -> Prop := Sorted (fun later earlier => earlier + ttl <= later).

Record jbound (w : jworld) : Prop := mkjbound {
  jb_now : 0 < jw_now w;
  jb_gate : forall i g second now, at_ w i g -> go_pc g = PGate second now -> 0 < now;
  jb_head : je_forcedAt (jw_entry w) = default 0 (head (jw_forced w));
  jb_pos : Forall (fun t => 0 < t) (jw_forced w);
  jb_spaced : spaced (je_ttl (jw_entry w)) (jw_forced w);
  jb_neg : negOk (jw_entry w)
}.

(** What a step that does not force keeps of the entry. *)
Definition sameBudget (e e' : jwksCacheEntry) : Prop := je_forcedAt e' = je_forcedAt e /\ je_ttl e' = je_ttl e /\ (negOk e -> negOk e').

Lemma negate_budget e kid now : sameBudget e (negateLocked e kid now).
Proof. split; [|split; [apply negate_core|apply negate_ok]]. unfold negateLocked. by repeat case_match. Qed.

Lemma keep_neg e e' : je_negCache e' = je_negCache e -> je_negOrder e' = je_negOrder e -> je_negCap e' = je_negCap e -> negOk e -> negOk e'.
Proof. intros E1 E2 E3 [? ? ? ? ?]. by split; rewrite ?E1, ?E2, ?E3. Qed.

Lemma jbound_move w w' i g p : jbound w -> jw_now w' = jw_now w -> jw_gos w' = withPc w i g p -> jw_forced w' = jw_forced w ->
  sameBudget (jw_entry w) (jw_entry w') -> (forall second now, p = PGate second now -> now = jw_now w) -> jbound w'.
Proof.
  intros [B1 B2 B3 B4 B5 B6] En Eg Ef (E1 & E2 & E3) Hp. split; rewrite ?En, ?Ef, ?E1, ?E2; auto.
  intros j h second now Hj Hpc. unfold at_ in Hj. rewrite Eg in Hj. unfold withPc in Hj. apply lookup_insert_Some in Hj as [[<- <-]|[_ Hj]]; [|by eapply B2].
  cbn in Hpc. by rewrite (Hp _ _ Hpc).
Qed.

(** No verdict waits at the gate. *)
Lemma resume_gate kid alg k res second now : resume kid alg k res <> PGate second now.
Proof. unfold resume, afterMissing, verdict. repeat case_match; done. Qed.
Lemma start_gate e kid alg t second now : startPc e kid alg t <> PGate second now.
Proof. unfold startPc, verdict. repeat case_match; done. Qed.
Lemma gate_gate alg v s second now : gatePc alg s v <> PGate second now.
Proof. unfold gatePc, afterMissing, verdict. repeat case_match; done. Qed.

Lemma gate_budget e kid now e' v : missingGate e kid now = (e', v) ->
  (v <> gateForce /\ sameBudget e e') \/
  (v = gateForce /\ forcedBudgetLocked e now = true /\ je_forcedAt e' = now /\ je_ttl e' = je_ttl e /\ (negOk e -> negOk e')).
Proof.
  unfold missingGate. intros H. destruct (negatedLocked _ _ _); [simplify_eq; by left|]. destruct (forcedBudgetLocked e now) eqn:Eb; cbn [negb] in H.
  - right. simplify_eq. split; [done|]. split; [done|]. split; [done|]. split; [done|]. by apply keep_neg.
  - left. destruct (lookupLocked _ _); simplify_eq; [by split|split; [done|apply negate_budget]|by split].
Qed.

Lemma jstep_bound w w' : jbound w -> jstep w w' -> jbound w'.
Proof.
  intros Hb Hst. destruct Hst as [d Hd|i kid alg Hn Ha Hk|i g Hg Hp|i g k Hg Hp|i g k Hg Hp|i g k id res Hg Hp|i g k id Hg Hp|i g Hg Hp|i g k id r Hg Hp Ho|i g k id Hg Hp|i g k id res f Hg Hp Ho|i g second Hg Hp|i g second now e v Hg Hp Hgate|i g Hg Hp];
    try (eapply (jbound_move w _ i g); [done|reflexivity|reflexivity|reflexivity|by split|by intros ? ? ?%start_gate || by intros ? ? ?%resume_gate || by intros ? ? [= -> ->]]).
  - destruct Hb as [B1 B2 B3 B4 B5 B6]. split; cbn; auto; lia.
  - destruct Hb as [B1 B2 B3 B4 B5 B6]. split; cbn; auto. unfold at_; cbn. intros j h second now [[<- <-]|[_ Hj]]%lookup_insert_Some Hpc; [done|by eapply B2].
  - eapply (jbound_move w _ i g); [done|reflexivity|reflexivity|reflexivity|by split|]. intros s t Ht. case_match; [by apply resume_gate in Ht|done].
  - unfold beginFetch. destruct (je_inflight _); (eapply (jbound_move w _ i g); [done|reflexivity|reflexivity|reflexivity| |done]); (split; [done|split; [done|by apply keep_neg]]).
  - eapply (jbound_move w _ i g); [done|reflexivity|reflexivity|reflexivity| |done]. destruct res; (split; [done|split; [done|by apply keep_neg]]).
  - eapply (jbound_move w _ i g); [done|reflexivity|reflexivity|reflexivity| |done]. split; [done|split; [done|by apply keep_neg]].
  - eapply (jbound_move w _ i g); [done|reflexivity|reflexivity|reflexivity| |done]. split; [done|split; [done|by apply keep_neg]].
  - destruct (gate_budget _ _ _ _ _ Hgate) as [[Hv He]|(-> & Hbud & E1 & E2 & E3)].
    + eapply (jbound_move w _ i g); [done|reflexivity|reflexivity|by destruct v|exact He|by intros ? ? ?%gate_gate].
    + pose proof (jb_gate w Hb _ _ _ _ Hg Hp) as Hpos. destruct Hb as [B1 B2 B3 B4 B5 B6]. split; cbn; auto.
      * intros j h s t [[-> ->]|[_ Hj]]%at_move Hpc; [done|by eapply B2].
      * rewrite E2. constructor; [done|]. destruct (jw_forced w) as [|t l]; constructor. cbn in B3. apply Forall_cons in B4 as [Ht _].
        unfold forcedBudgetLocked, time_IsZero in Hbud. rewrite B3 in Hbud. apply orb_true_iff in Hbud as [Hz|Hle]; lia.
  - eapply (jbound_move w _ i g); [done|reflexivity|reflexivity|reflexivity|apply negate_budget|done].
Qed.

Lemma jreachable_bound configured now w : 0 < now -> jreachable configured now w -> jbound w.
Proof.
  intros Hn Hr. assert (jbound (jinitial configured now)) as Hi.
  { split; [done| |done|by apply Forall_nil|apply Sorted_nil|]; [unfold at_; cbn; by intros ? ? ? ? ?%lookup_empty_Some|].
    split; cbn; [done|by apply NoDup_nil| |unfold negativeCacheCap; lia|by apply Forall_nil].
    intros kid. rewrite lookup_empty, is_Some_alt. split; [by intros ?%elem_of_nil|done]. }
  revert Hi. induction Hr as [|w1 w2 w3 Hs _ IH]; [done|]. intros Hi. apply IH. by eapply jstep_bound.
Qed.

Lemma spaced_lookup ttl l j later earlier : spaced ttl l -> l !! j = Some later -> l !! S j = Some earlier -> earlier + ttl <= later.
Proof.
  intros Hs. revert j. induction Hs as [|t l Hs IH Hhd]; intros j H1 H2; [done|]. destruct j as [|j]; [|by eapply IH].
  cbn in *. injection H1 as ->. destruct Hhd as [|t' l Ht]; [done|]. cbn in H2. by injection H2 as ->.
Qed.

(** Requests verify tokens over one JWKS cache, interleaved at its lock
    regions, with fetches that answer, fail, panic or never end.  A key a request
    verifies with was the only key of the token's identifier in a key set the
    issuer served, fetched after the request began or at most the stale grace,
    three refresh intervals, before it; and it is a public signing key of the
    token's algorithm.  However long an outage lasts, an older set is never used. *)
Lemma served_key_is_recent configured now w i g key : configured <= maxDuration -> 0 < now ->
  jreachable configured now w -> jw_gos w !! i = Some g -> go_pc g = PServed key ->
  (exists set f, (set, f) ∈ jw_history w /\ matching set (go_kid g) = [key] /\ go_start g <= f + grace (jwksRefreshInterval configured)) /\
  validateRemoteKey key (go_alg g) = Ok tt.
Proof.
  intros Hc Hn Hr Hg Hp. destruct (ji_go w (jreachable_inv _ _ _ Hc Hn Hr) _ _ Hg) as [_ Hgo]. rewrite Hp in Hgo.
  destruct Hgo as (Hv & set & (f & Hin & Hle) & Hm). rewrite (jreachable_ttl _ _ _ Hr) in Hle. by split; [exists set, f|].
Qed.

(** C30: requests verify tokens over one JWKS cache, interleaved at its lock
    regions.  However many tokens with unknown key identifiers arrive, at most one
    fetch is in flight, two forced refreshes are a refresh interval apart, and the
    negative cache holds at most its capacity of identifiers of bounded length. *)
Theorem jwks_cache_bounded configured now w : configured <= maxDuration -> 0 < now -> jreachable configured now w ->
  (forall i j g h k l id id', jw_gos w !! i = Some g -> jw_gos w !! j = Some h -> go_pc g = PFetch k id -> go_pc h = PFetch l id' -> i = j) /\
  (forall n later earlier, jw_forced w !! n = Some later -> jw_forced w !! S n = Some earlier -> earlier + jwksRefreshInterval configured <= later) /\
  (size (je_negCache (jw_entry w)) <= negativeCacheCap)%nat /\
  (forall kid, is_Some (je_negCache (jw_entry w) !! kid) -> Zlen kid <= maxNegatedKidBytes).
Proof.
  intros Hc Hn Hr. destruct (jreachable_bound _ _ _ Hn Hr) as [_ _ _ _ Hs He]. split; [exact (ji_single _ (jreachable_inv _ _ _ Hc Hn Hr))|]. split; [|split].
  - intros n later earlier. rewrite <- (jreachable_ttl _ _ _ Hr). by apply spaced_lookup.
  - rewrite (neg_size _ He). apply (ng_size _ He).
  - intros kid Hk%(ng_dom _ He). by eapply (proj1 (Forall_forall _ _) (ng_short _ He)).
Qed.

(** ** A run *)

(** Two requests for the issuer's one key meet an empty cache, both before the
    first fetch ends. *)
Definition demoKey : jwkKey := mkjwkKey (Some "k1") (Some "RS256") (Some "sig") None false true RSAPublic.
Definition issuerSet : result (list jwkKey) := Ok [demoKey].
Definition demoActions : list action :=
  [AArrive 0 "k1" "RS256"; AArrive 1 "k1" "RS256"; AGo 0 issuerSet; AGo 1 issuerSet; AGo 0 issuerSet; AGo 1 issuerSet;
   AGo 0 issuerSet; AGo 0 issuerSet; AGo 0 issuerSet; AGo 0 issuerSet; AGo 1 issuerSet; AGo 1 issuerSet].
Definition demoWorld : jworld := default (jinitial 0 1) (schedule (jinitial 0 1) demoActions).

Lemma cache_demo_reachable : jreachable 0 1 demoWorld.
Proof. apply (schedule_reaches _ demoActions). by vm_compute. Qed.

(** Whoever found the set stale before a fetch ended fetches again after it: two
    unforced fetches in one refresh interval. *)
Lemma refresh_interval_fetched_twice :
  jreachable 0 1 demoWorld /\ jw_forced demoWorld = [] /\ jw_history demoWorld = [([demoKey], 1); ([demoKey], 1)].
Proof. split; [exact cache_demo_reachable|by vm_compute]. Qed.

(** A token of an unknown key spends the interval's refresh and is remembered;
    the next one is refused at once. *)
Definition missActions : list action :=
  (demoActions ++ [AArrive 2 "k2" "RS256"; AGo 2 issuerSet; AGo 2 issuerSet; AGo 2 issuerSet; AGo 2 issuerSet; AGo 2 issuerSet; AGo 2 issuerSet; AGo 2 issuerSet; AGo 2 issuerSet;
     AArrive 3 "k2" "RS256"; AGo 3 issuerSet; AGo 3 issuerSet; AGo 3 issuerSet])%list.
Definition missWorld : jworld := default (jinitial 0 1) (schedule (jinitial 0 1) missActions).

Lemma miss_reachable : jreachable 0 1 missWorld /\ jw_forced missWorld = [1] /\ je_negOrder (jw_entry missWorld) = ["k2"] /\ go_pc <$> jw_gos missWorld !! 3%nat = Some PFail.
Proof. split; [|by vm_compute]. apply (schedule_reaches _ missActions). by vm_compute. Qed.

Lemma jwks_cache_bounded_witness :
  (size (je_negCache (jw_entry missWorld)) <= negativeCacheCap)%nat /\ Zlen "k2" <= maxNegatedKidBytes.
Proof.
  destruct (jwks_cache_bounded 0 1 missWorld) as (_ & _ & Hs & Hk); [by vm_compute|by vm_compute|exact (proj1 miss_reachable)|].
  split; [exact Hs|]. apply Hk. vm_compute. by eexists.
Defined.

End JwksProps.
